(** * The SDR automation core: inbound pipeline, outbound sender, contact
    deduplication, follow-up cadence and self-learning rules.

    A shallow embedding of [sdr/models.py], [sdr/db.py], [sdr/crm/airtable.py],
    [sdr/crm/dedup.py], [sdr/pipeline.py], [sdr/outbound.py], [sdr/followup.py],
    [sdr/ai/learner.py], [sdr/main.py], [sdr/sending/rate_limiter.py],
    [sdr/connections/handler.py], [sdr/enrichment/enricher.py] and
    [sdr/sources/gmail.py].

    Conventions of the embedding:
    - a Python [dict] of Airtable fields is a [gmap string value];
    - [datetime] values are integers (seconds); rendering with
      [strftime("%Y-%m-%d")] is the truncation to the day ([date_of]);
    - a Python [str] is a [string] whose characters are the code points
      below 256; [lower] and [strip] are those of Python on them;
    - a Python float is the rational it holds ([Q]); the edit distance is
      computed in the binary64 format, by the operations of [SpecFloat],
      the times and tokens of the rate limiter with exact arithmetic;
    - Airtable record ids are natural numbers handed out by a counter;
    - the external collaborators (classifier, drafter, enricher, sender,
      the language-model calls, [difflib]) are function parameters whose
      result may be an exception ([Err]);
    - the three Airtable tables and the SQLite tables are in-memory
      lists and maps; transport errors of those stores are not modelled. *)

From Stdlib Require Import ZArith QArith Qround String Ascii List Bool Lia.
From Stdlib Require Import Qabs Lqa SpecFloat.
From stdpp Require Import base option list gmap strings pretty sorting.

Local Open Scope string_scope.
Local Open Scope list_scope.

(** ** Enumerations ([sdr/models.py]) *)

Module SourceChannel.
Inductive t := GMAIL | LINKEDIN | BOTH.

Definition value (c : t) : string :=
  match c with GMAIL => "Gmail" | LINKEDIN => "LinkedIn" | BOTH => "Both" end.

Definition of_string (s : string) : option t :=
  if String.eqb s "Gmail" then Some GMAIL
  else if String.eqb s "LinkedIn" then Some LINKEDIN
  else if String.eqb s "Both" then Some BOTH
  else None.

Definition eqb (a b : t) : bool :=
  match a, b with
  | GMAIL, GMAIL | LINKEDIN, LINKEDIN | BOTH, BOTH => true
  | _, _ => false
  end.
End SourceChannel.

Module MessageDirection.
Inductive t := INBOUND | OUTBOUND.

Definition value (d : t) : string :=
  match d with INBOUND => "Inbound" | OUTBOUND => "Outbound" end.

Definition of_string (s : string) : option t :=
  if String.eqb s "Inbound" then Some INBOUND
  else if String.eqb s "Outbound" then Some OUTBOUND
  else None.

Definition eqb (a b : t) : bool :=
  match a, b with
  | INBOUND, INBOUND | OUTBOUND, OUTBOUND => true
  | _, _ => false
  end.
End MessageDirection.

Module LeadCategory.
Inductive t := HOT | WARM | COLD | NOT_A_LEAD.

Definition value (c : t) : string :=
  match c with
  | HOT => "Hot" | WARM => "Warm" | COLD => "Cold" | NOT_A_LEAD => "Not a Lead"
  end.

Definition of_string (s : string) : option t :=
  if String.eqb s "Hot" then Some HOT
  else if String.eqb s "Warm" then Some WARM
  else if String.eqb s "Cold" then Some COLD
  else if String.eqb s "Not a Lead" then Some NOT_A_LEAD
  else None.
End LeadCategory.

Module ConversationStage.
Inductive t :=
  NEW | ENGAGING | QUALIFYING | BOOKING | FOLLOW_UP | NURTURE | CLOSED_WON | CLOSED_LOST.

Definition value (s : t) : string :=
  match s with
  | NEW => "New" | ENGAGING => "Engaging" | QUALIFYING => "Qualifying"
  | BOOKING => "Booking" | FOLLOW_UP => "Follow Up" | NURTURE => "Nurture"
  | CLOSED_WON => "Closed Won" | CLOSED_LOST => "Closed Lost"
  end.

Definition of_string (s : string) : option t :=
  if String.eqb s "New" then Some NEW
  else if String.eqb s "Engaging" then Some ENGAGING
  else if String.eqb s "Qualifying" then Some QUALIFYING
  else if String.eqb s "Booking" then Some BOOKING
  else if String.eqb s "Follow Up" then Some FOLLOW_UP
  else if String.eqb s "Nurture" then Some NURTURE
  else if String.eqb s "Closed Won" then Some CLOSED_WON
  else if String.eqb s "Closed Lost" then Some CLOSED_LOST
  else None.
End ConversationStage.

Module MessageStatus.
Inductive t := NEW | PROCESSING | DRAFT_READY | APPROVED | REJECTED | SENT | FAILED.

Definition value (s : t) : string :=
  match s with
  | NEW => "New" | PROCESSING => "Processing" | DRAFT_READY => "Draft Ready"
  | APPROVED => "Approved" | REJECTED => "Rejected" | SENT => "Sent"
  | FAILED => "Failed"
  end.

Definition of_string (s : string) : option t :=
  if String.eqb s "New" then Some NEW
  else if String.eqb s "Processing" then Some PROCESSING
  else if String.eqb s "Draft Ready" then Some DRAFT_READY
  else if String.eqb s "Approved" then Some APPROVED
  else if String.eqb s "Rejected" then Some REJECTED
  else if String.eqb s "Sent" then Some SENT
  else if String.eqb s "Failed" then Some FAILED
  else None.

Definition eqb (a b : t) : bool := String.eqb (value a) (value b).
End MessageStatus.

Module AuditAction.
Inductive t :=
  | MESSAGE_RECEIVED | CONTACT_CREATED | CONTACT_UPDATED | CLASSIFIED
  | DRAFT_CREATED | APPROVED | REJECTED | SENT | AUTO_ACCEPTED | AUTO_REJECTED
  | ENRICHED | FOLLOW_UP_CREATED | FOLLOW_UP_PAUSED | FOLLOW_UP_EXHAUSTED
  | LEARNING_CYCLE.
End AuditAction.

(** ** Python values *)

(** Truthiness of an [Optional[str]]: [None] and the empty string are falsy. *)
Definition truthy (o : option string) : bool :=
  match o with
  | Some s => negb (String.eqb s "")
  | None => false
  end.

(** Truthiness of a [str]. *)
Definition nonempty (s : string) : bool := negb (String.eqb s "").

(** [x or ""] *)
Definition or_empty (o : option string) : string := default "" o.

(** An Airtable record id. *)
Definition rec_id := nat.

(** A [datetime]; [datetime.min] is the origin. *)
Definition datetime := Z.
Definition datetime_min : datetime := 0%Z.

(** [dt.strftime("%Y-%m-%d")] read back with [datetime.fromisoformat]:
    the same day at midnight. *)
Definition date_of (dt : datetime) : datetime := (dt / 86400 * 86400)%Z.

Definition timedelta_days (d : Z) : Z := (d * 86400)%Z.

(** A field value of an Airtable record. *)
Inductive value :=
  | VStr (s : string)
  | VInt (n : Z)
  | VNum (q : Q)
  | VDate (t : datetime)
  | VLinks (l : list rec_id).

(** The result of a call that may raise. *)
Inductive Result (A : Type) :=
  | Ok (a : A)
  | Err (e : string).
Arguments Ok {A} a.
Arguments Err {A} e.

(** ** Models ([sdr/models.py]) *)

Module InboundMessage.
Record t := mk {
  source : SourceChannel.t;
  source_message_id : string;
  sender_name : string;
  sender_email : option string;
  sender_linkedin_url : option string;
  sender_title : option string;
  sender_company : option string;
  subject : option string;
  body : string;
  thread_context : string;
  received_at : datetime;
  is_connection_request : bool;
  account_id : option string
}.
End InboundMessage.

Module LeadClassification.
Record t := mk {
  category : LeadCategory.t;
  confidence : Q;
  reasoning : string;
  detected_intent : string;
  detected_signals : list string;
  should_reply : bool;
  conversation_stage : ConversationStage.t;
  icp_match_score : Q
}.
End LeadClassification.

Module DraftReply.
Record t := mk {
  reply_text : string;
  strategy_notes : string
}.
End DraftReply.

Module ContactRecord.
Record t := mk {
  id : option rec_id;
  name : string;
  email : option string;
  linkedin_url : option string;
  company : option string;
  title : option string;
  source_channel : SourceChannel.t;
  lead_category : LeadCategory.t;
  conversation_stage : ConversationStage.t;
  ai_confidence : Q;
  detected_intent : string;
  signal_stack : string;
  ai_reasoning : string;
  first_contact : option datetime;
  last_contact : option datetime;
  interaction_count : Z;
  enriched_data : string;
  follow_up_count : Z;
  follow_up_channel : option string;
  next_follow_up_date : option datetime;
  follow_up_status : string;
  last_outbound_at : option datetime
}.
End ContactRecord.

Module MessageRecord.
Record t := mk {
  id : option rec_id;
  contact_id : option rec_id;
  source : SourceChannel.t;
  direction : MessageDirection.t;
  subject : option string;
  body : string;
  thread_context : string;
  draft_reply : string;
  status : MessageStatus.t;
  classification : string;
  conversation_stage : string;
  ai_draft_version : string;
  edit_distance : option Q;
  received_at : option datetime;
  sent_at : option datetime;
  send_error : string;
  account_id : string;
  source_message_id : string;
  follow_up_number : option Z
}.
End MessageRecord.

(** An audit entry; the free-text [details] (trace ids, timings) and the
    timestamp are left out. *)
Module AuditLogEntry.
Record t := mk {
  action : AuditAction.t;
  contact_id : option rec_id;
  message_id : option rec_id
}.
End AuditLogEntry.

(** ** Sorting, as [list.sort(key=..., reverse=...)] does it: stable. *)

Section Sorting.
Context {A : Type} (key : A -> Z).

Fixpoint insert_asc (x : A) (l : list A) : list A :=
  match l with
  | [] => [x]
  | y :: l' => if (key x <=? key y)%Z then x :: l else y :: insert_asc x l'
  end.

Fixpoint insert_desc (x : A) (l : list A) : list A :=
  match l with
  | [] => [x]
  | y :: l' => if (key y <=? key x)%Z then x :: l else y :: insert_desc x l'
  end.

Definition sort_asc (l : list A) : list A := foldr insert_asc [] l.
Definition sort_desc (l : list A) : list A := foldr insert_desc [] l.

(** [newer_first a b]: [a] may stand before [b] in descending order. *)
Definition newer_first (a b : A) : Prop := (key b <= key a)%Z.
End Sorting.

(** [l[:k]] for a Python list and a possibly negative [k]. *)
Definition slice_to {A : Type} (l : list A) (k : Z) : list A :=
  if (0 <=? k)%Z then take (Z.to_nat k) l
  else take (length l - Z.to_nat (- k)) l.

(** ** The local SQLite store ([sdr/db.py]) *)

(** A row of [processed_messages]; the bookkeeping columns [created_at]
    and [updated_at] are left out. *)
Module LedgerRow.
Record t := mk {
  status : string;
  attempts : Z;
  error : option string;
  airtable_message_id : option rec_id;
  airtable_contact_id : option rec_id
}.
End LedgerRow.

(** A row of [learning_log]. *)
Module LearnedRule.
Record t := mk {
  id : Z;
  rule_text : string;
  confidence : Q;
  active : bool;
  created_at : datetime;
  deactivated_at : option datetime
}.
End LearnedRule.

(** A row of [local_audit]. *)
Module LocalAudit.
Record t := mk {
  action : string;
  source : option string;
  message_id : option rec_id;
  contact_id : option rec_id
}.
End LocalAudit.

(** [processed_messages] has [UNIQUE(source, source_message_id)]: a map
    from the key to its row. *)
Record DB := mkDB {
  processed_messages : gmap (string * string) LedgerRow.t;
  learning_log : list LearnedRule.t;
  local_audit : list LocalAudit.t
}.

Definition is_message_processed (source source_message_id : string) (d : DB) : bool :=
  match processed_messages d !! (source, source_message_id) with
  | Some _ => true
  | None => false
  end.

(** [COALESCE(excluded.x, x)] *)
Definition coalesce {A : Type} (new old : option A) : option A :=
  match new with Some _ => new | None => old end.

Definition mark_message_processed (source source_message_id status : string)
    (airtable_message_id airtable_contact_id : option rec_id) (d : DB) : DB :=
  let k := (source, source_message_id) in
  let row :=
    match processed_messages d !! k with
    | None => LedgerRow.mk status 1 None airtable_message_id airtable_contact_id
    | Some old =>
        LedgerRow.mk status (LedgerRow.attempts old) (LedgerRow.error old)
          (coalesce airtable_message_id (LedgerRow.airtable_message_id old))
          (coalesce airtable_contact_id (LedgerRow.airtable_contact_id old))
    end in
  mkDB (<[k := row]> (processed_messages d)) (learning_log d) (local_audit d).

Definition mark_message_failed (source source_message_id error : string) (d : DB) : DB :=
  let k := (source, source_message_id) in
  let row :=
    match processed_messages d !! k with
    | None => LedgerRow.mk "failed" 1 (Some error) None None
    | Some old =>
        LedgerRow.mk "failed" (LedgerRow.attempts old + 1) (Some error)
          (LedgerRow.airtable_message_id old) (LedgerRow.airtable_contact_id old)
    end in
  mkDB (<[k := row]> (processed_messages d)) (learning_log d) (local_audit d).

Definition get_failed_messages (max_attempts : Z) (d : DB)
    : list ((string * string) * LedgerRow.t) :=
  filter (fun kr => String.eqb (LedgerRow.status kr.2) "failed"
                    && (LedgerRow.attempts kr.2 <? max_attempts)%Z = true)
         (map_to_list (processed_messages d)).

Definition get_active_learned_rules (d : DB) : list LearnedRule.t :=
  sort_asc LearnedRule.created_at
    (List.filter LearnedRule.active (learning_log d)).

(** [AUTOINCREMENT]: one more than the largest id in the table (rows are
    never deleted). *)
Definition next_rule_id (rows : list LearnedRule.t) : Z :=
  (foldr Z.max 0 (map LearnedRule.id rows) + 1)%Z.

Definition insert_learned_rule (rule_text : string) (confidence : Q)
    (now : datetime) (d : DB) : Z * DB :=
  let i := next_rule_id (learning_log d) in
  (i, mkDB (processed_messages d)
        (learning_log d ++ [LearnedRule.mk i rule_text confidence true now None])
        (local_audit d)).

(** [SET active = 0, deactivated_at = datetime('now')] *)
Definition deactivated (now : datetime) (r : LearnedRule.t) : LearnedRule.t :=
  LearnedRule.mk (LearnedRule.id r) (LearnedRule.rule_text r)
    (LearnedRule.confidence r) false (LearnedRule.created_at r) (Some now).

Definition deactivate_row (rule_id : Z) (now : datetime) (r : LearnedRule.t)
    : LearnedRule.t :=
  if (LearnedRule.id r =? rule_id)%Z then deactivated now r else r.

Definition deactivate_learned_rule (rule_id : Z) (now : datetime) (d : DB) : DB :=
  mkDB (processed_messages d)
       (map (deactivate_row rule_id now) (learning_log d))
       (local_audit d).

Definition log_local_audit (entry : LocalAudit.t) (d : DB) : DB :=
  mkDB (processed_messages d) (learning_log d) (local_audit d ++ [entry]).

(** ** Edit distance ([sdr/outbound.py]) *)

(** A float of Python is a number of the binary64 format: 53 bits of
    precision, exponents below 1024. *)
Definition float : Type := spec_float.

(** An integer as the numerator or the denominator of a division. *)
Definition SF_of_Z (z : Z) : float :=
  match z with
  | Z0 => S754_zero false
  | Zpos p => S754_finite false p 0
  | Zneg p => S754_finite true p 0
  end.

(** The float nearest to a rational, the one with the even significand
    on a tie: the division of the format, of the numerator by the
    denominator. *)
Definition float_of_Q (x : Q) : float :=
  let r := Qred x in
  SFdiv 53 1024 (SF_of_Z (Qnum r)) (SF_of_Z (Zpos (Qden r))).

(** The rational that a finite float holds. *)
Definition Q_of_float (f : float) : Q :=
  match f with
  | S754_finite s m e =>
      Qred ((if s then inject_Z (Zneg m) else inject_Z (Zpos m)) * Qpower 2 e)
  | _ => 0%Q
  end.

(** The integer nearest to a rational, the even one on a tie. *)
Definition round_half_even (x : Q) : Z :=
  let n := Qfloor x in
  match (x - inject_Z n ?= 1 # 2)%Q with
  | Lt => n
  | Gt => (n + 1)%Z
  | Eq => if Z.even n then n else (n + 1)%Z
  end.

(** [round(x, 3)] of a finite float: the value that [x] holds is rounded
    to the nearest thousandth, to the even one on a tie, and the result
    is the float nearest to that decimal. *)
Definition round3 (x : float) : float :=
  float_of_Q (round_half_even (Q_of_float x * 1000) # 1000).

Section EditDistance.
(** [SequenceMatcher(None, a, b).ratio()] of Python's [difflib]: the
    quotient of twice the number of matches by the sum of the lengths;
    what it returns is the float nearest to that quotient. *)
Variable ratio : string -> string -> Q.

Definition compute_edit_distance (original edited : string) : Q :=
  if negb (nonempty original) && negb (nonempty edited) then 0%Q
  else if negb (nonempty original) || negb (nonempty edited) then 1%Q
  else
    let ratio := float_of_Q (ratio original edited) in
    Q_of_float (round3 (SFsub 53 1024 (float_of_Q 1) ratio)).
End EditDistance.

(** ** The Airtable store ([sdr/crm/airtable.py]) *)

(** A record as pyairtable returns it: [{"id": ..., "fields": {...}}]. *)
Record record := mkRecord {
  rid : rec_id;
  fields : gmap string value
}.

(** [f.get(k)] at the type the caller expects. *)
Definition get_str (f : gmap string value) (k : string) : option string :=
  match f !! k with Some (VStr s) => Some s | _ => None end.

Definition get_int (f : gmap string value) (k : string) : option Z :=
  match f !! k with Some (VInt n) => Some n | _ => None end.

Definition get_num (f : gmap string value) (k : string) : option Q :=
  match f !! k with Some (VNum q) => Some q | _ => None end.

Definition get_date (f : gmap string value) (k : string) : option datetime :=
  match f !! k with Some (VDate t) => Some t | _ => None end.

Definition get_links (f : gmap string value) (k : string) : list rec_id :=
  match f !! k with Some (VLinks l) => l | _ => [] end.

(** [E(f[k]) if f.get(k) else dflt]; a select field only holds values of
    its enumeration. *)
Definition enum_or {E : Type} (of_string : string -> option E) (dflt : E)
    (o : option string) : E :=
  match o with
  | Some s => if nonempty s then default dflt (of_string s) else dflt
  | None => dflt
  end.

(** [if cond: fields[k] = v] *)
Definition set_if (cond : bool) (k : string) (v : value)
    (f : gmap string value) : gmap string value :=
  if cond then <[k := v]> f else f.

(** [if o: fields[k] = o] for an optional string. *)
Definition set_str (k : string) (o : option string)
    (f : gmap string value) : gmap string value :=
  set_if (truthy o) k (VStr (or_empty o)) f.

(** [if o: fields[k] = self._date_str(o)] *)
Definition set_date (k : string) (o : option datetime)
    (f : gmap string value) : gmap string value :=
  match o with
  | Some t => <[k := VDate (date_of t)]> f
  | None => f
  end.

(** *** pyairtable's table operations *)

Definition table_create (next : rec_id) (f : gmap string value)
    (rows : list record) : record * list record :=
  let r := mkRecord next f in (r, rows ++ [r]).

(** A patch: the given fields replace the stored ones, the others stay. *)
Definition patch (record_id : rec_id) (f : gmap string value) (r : record) : record :=
  if Nat.eqb (rid r) record_id then mkRecord (rid r) (f ∪ fields r) else r.

Definition table_update (record_id : rec_id) (f : gmap string value)
    (rows : list record) : list record :=
  map (patch record_id f) rows.

Definition table_get (record_id : rec_id) (rows : list record) : option record :=
  List.find (fun r => Nat.eqb (rid r) record_id) rows.

Definition table_first (formula : record -> bool) (rows : list record) : option record :=
  List.find formula rows.

Definition table_all (formula : record -> bool) (rows : list record) : list record :=
  List.filter formula rows.

(** *** Formulas *)

(** [{k} = "s"]; a blank cell compares equal to the empty string. *)
Definition formula_eq (k s : string) (r : record) : bool :=
  String.eqb (or_empty (get_str (fields r) k)) s.

(** The lower case of a character.  A [str] is held as the [string] of
    its characters, taken from the code points below 256; of these,
    [str.lower] moves the letters A to Z and the accented capitals 192 to
    222, the sign 215 apart, to the letter 32 above, and leaves every
    other one. *)
Definition lower_char (c : ascii) : ascii :=
  let n := nat_of_ascii c in
  if (Nat.leb 65 n && Nat.leb n 90)
     || (Nat.leb 192 n && Nat.leb n 222 && negb (Nat.eqb n 215))
  then ascii_of_nat (n + 32) else c.

(** [LOWER(s)] and [s.lower()] *)
Fixpoint lower (s : string) : string :=
  match s with
  | EmptyString => EmptyString
  | String c s' => String (lower_char c) (lower s')
  end.

(** [FIND(needle, hay) > 0] *)
Fixpoint contains (needle hay : string) : bool :=
  if String.prefix needle hay then true
  else match hay with
       | EmptyString => false
       | String _ hay' => contains needle hay'
       end.

Definition formula_name (name : string) (r : record) : bool :=
  contains (lower name) (lower (or_empty (get_str (fields r) "Name"))).

(** [IS_BEFORE({k}, bound)]; a blank date is before nothing. *)
Definition formula_is_before (k : string) (bound : datetime) (r : record) : bool :=
  match get_date (fields r) k with
  | Some t => (t <? bound)%Z
  | None => false
  end.

(** [FIND(contact_id, ARRAYJOIN({Contact}))]: the record is linked. *)
Definition formula_linked (contact_id : rec_id) (r : record) : bool :=
  existsb (Nat.eqb contact_id) (get_links (fields r) "Contact").

Record CRM := mkCRM {
  contacts_table : list record;
  messages_table : list record;
  audit_table : list AuditLogEntry.t;
  next_id : rec_id
}.

(** *** Contacts *)

Definition _contact_to_fields (contact : ContactRecord.t) : gmap string value :=
  set_date "Last Outbound At" (ContactRecord.last_outbound_at contact)
  (set_if (nonempty (ContactRecord.follow_up_status contact)) "Follow-Up Status"
     (VStr (ContactRecord.follow_up_status contact))
  (set_date "Next Follow-Up Date" (ContactRecord.next_follow_up_date contact)
  (set_str "Follow-Up Channel" (ContactRecord.follow_up_channel contact)
  (set_if (negb (ContactRecord.follow_up_count contact =? 0)%Z) "Follow-Up Count"
     (VInt (ContactRecord.follow_up_count contact))
  (set_date "Last Contact" (ContactRecord.last_contact contact)
  (set_date "First Contact" (ContactRecord.first_contact contact)
  (set_str "Title" (ContactRecord.title contact)
  (set_str "Company" (ContactRecord.company contact)
  (set_str "LinkedIn URL" (ContactRecord.linkedin_url contact)
  (set_str "Email" (ContactRecord.email contact)
  (<["Name" := VStr (ContactRecord.name contact)]>
  (<["Source Channel" := VStr (SourceChannel.value (ContactRecord.source_channel contact))]>
  (<["Lead Category" := VStr (LeadCategory.value (ContactRecord.lead_category contact))]>
  (<["Conversation Stage" :=
       VStr (ConversationStage.value (ContactRecord.conversation_stage contact))]>
  (<["AI Confidence" := VNum (ContactRecord.ai_confidence contact)]>
  (<["Detected Intent" := VStr (ContactRecord.detected_intent contact)]>
  (<["Signal Stack" := VStr (ContactRecord.signal_stack contact)]>
  (<["AI Reasoning" := VStr (ContactRecord.ai_reasoning contact)]>
  (<["Interaction Count" := VInt (ContactRecord.interaction_count contact)]>
  (<["Enriched Data" := VStr (ContactRecord.enriched_data contact)]>
   ∅)))))))))))))))))))).

Definition _record_to_contact (r : record) : ContactRecord.t :=
  let f := fields r in
  ContactRecord.mk
    (Some (rid r))
    (or_empty (get_str f "Name"))
    (get_str f "Email")
    (get_str f "LinkedIn URL")
    (get_str f "Company")
    (get_str f "Title")
    (enum_or SourceChannel.of_string SourceChannel.GMAIL (get_str f "Source Channel"))
    (enum_or LeadCategory.of_string LeadCategory.COLD (get_str f "Lead Category"))
    (enum_or ConversationStage.of_string ConversationStage.NEW
       (get_str f "Conversation Stage"))
    (default 0%Q (get_num f "AI Confidence"))
    (or_empty (get_str f "Detected Intent"))
    (or_empty (get_str f "Signal Stack"))
    (or_empty (get_str f "AI Reasoning"))
    (get_date f "First Contact")
    (get_date f "Last Contact")
    (default 0%Z (get_int f "Interaction Count"))
    (or_empty (get_str f "Enriched Data"))
    (default 0%Z (get_int f "Follow-Up Count"))
    (get_str f "Follow-Up Channel")
    (get_date f "Next Follow-Up Date")
    (or_empty (get_str f "Follow-Up Status"))
    (get_date f "Last Outbound At").

(** [update_contact(record_id, fields)]; every caller passes the id of a
    record it has just read. *)
Definition update_contact (record_id : option rec_id) (f : gmap string value)
    (c : CRM) : CRM :=
  match record_id with
  | Some i =>
      mkCRM (table_update i f (contacts_table c)) (messages_table c)
            (audit_table c) (next_id c)
  | None => c
  end.

Definition find_contact_by_email (email : string) (c : CRM) : option ContactRecord.t :=
  _record_to_contact <$> table_first (formula_eq "Email" email) (contacts_table c).

Definition find_contact_by_linkedin_url (url : string) (c : CRM)
    : option ContactRecord.t :=
  _record_to_contact <$> table_first (formula_eq "LinkedIn URL" url) (contacts_table c).

Definition find_contacts_by_name (name : string) (c : CRM) : list ContactRecord.t :=
  map _record_to_contact (table_all (formula_name name) (contacts_table c)).

Definition get_contact (record_id : rec_id) (c : CRM) : option ContactRecord.t :=
  _record_to_contact <$> table_get record_id (contacts_table c).

Definition upsert_contact (contact : ContactRecord.t) (c : CRM)
    : ContactRecord.t * CRM :=
  let f := _contact_to_fields contact in
  let updated i :=
    let c' := update_contact (Some i) f c in
    (default contact (get_contact i c'), c') in
  match ContactRecord.id contact with
  | Some i => updated i
  | None =>
      let by_email :=
        if truthy (ContactRecord.email contact)
        then table_first (formula_eq "Email" (or_empty (ContactRecord.email contact)))
               (contacts_table c)
        else None in
      let existing :=
        match by_email with
        | Some r => Some r
        | None =>
            if truthy (ContactRecord.linkedin_url contact)
            then table_first
                   (formula_eq "LinkedIn URL"
                      (or_empty (ContactRecord.linkedin_url contact)))
                   (contacts_table c)
            else None
        end in
      match existing with
      | Some r => updated (rid r)
      | None =>
          let '(r, rows) := table_create (next_id c) f (contacts_table c) in
          (_record_to_contact r,
           mkCRM rows (messages_table c) (audit_table c) (S (next_id c)))
      end
  end.

Definition log_audit (entry : AuditLogEntry.t) (c : CRM) : CRM :=
  mkCRM (contacts_table c) (messages_table c) (audit_table c ++ [entry]) (next_id c).

(** *** Messages *)

Definition _message_to_fields (message : MessageRecord.t) : gmap string value :=
  set_if (bool_decide (is_Some (MessageRecord.contact_id message))) "Contact"
     (VLinks (option_list (MessageRecord.contact_id message)))
  (set_if (bool_decide (is_Some (MessageRecord.follow_up_number message)))
     "Follow-Up Number" (VInt (default 0%Z (MessageRecord.follow_up_number message)))
  (set_date "Sent At" (MessageRecord.sent_at message)
  (set_date "Received At" (MessageRecord.received_at message)
  (set_if (bool_decide (is_Some (MessageRecord.edit_distance message)))
     "Edit Distance" (VNum (default 0%Q (MessageRecord.edit_distance message)))
  (set_str "Subject" (MessageRecord.subject message)
  (<["Source" := VStr (SourceChannel.value (MessageRecord.source message))]>
  (<["Direction" := VStr (MessageDirection.value (MessageRecord.direction message))]>
  (<["Body" := VStr (MessageRecord.body message)]>
  (<["Thread Context" := VStr (MessageRecord.thread_context message)]>
  (<["Draft Reply" := VStr (MessageRecord.draft_reply message)]>
  (<["Status" := VStr (MessageStatus.value (MessageRecord.status message))]>
  (<["Classification" := VStr (MessageRecord.classification message)]>
  (<["Conversation Stage" := VStr (MessageRecord.conversation_stage message)]>
  (<["AI Draft Version" := VStr (MessageRecord.ai_draft_version message)]>
  (<["Send Error" := VStr (MessageRecord.send_error message)]>
  (<["Account ID" := VStr (MessageRecord.account_id message)]>
  (<["Source Message ID" := VStr (MessageRecord.source_message_id message)]>
   ∅))))))))))))))))).

Definition _record_to_message (r : record) : MessageRecord.t :=
  let f := fields r in
  MessageRecord.mk
    (Some (rid r))
    (head (get_links f "Contact"))
    (enum_or SourceChannel.of_string SourceChannel.GMAIL (get_str f "Source"))
    (enum_or MessageDirection.of_string MessageDirection.INBOUND (get_str f "Direction"))
    (get_str f "Subject")
    (or_empty (get_str f "Body"))
    (or_empty (get_str f "Thread Context"))
    (or_empty (get_str f "Draft Reply"))
    (enum_or MessageStatus.of_string MessageStatus.NEW (get_str f "Status"))
    (or_empty (get_str f "Classification"))
    (or_empty (get_str f "Conversation Stage"))
    (or_empty (get_str f "AI Draft Version"))
    (get_num f "Edit Distance")
    (get_date f "Received At")
    (get_date f "Sent At")
    (or_empty (get_str f "Send Error"))
    (or_empty (get_str f "Account ID"))
    (or_empty (get_str f "Source Message ID"))
    (get_int f "Follow-Up Number").

Definition find_message_by_source_id (source_message_id : string) (c : CRM)
    : option MessageRecord.t :=
  _record_to_message
    <$> table_first (formula_eq "Source Message ID" source_message_id) (messages_table c).

(** An inbound message whose source id is already stored is not created
    again: the stored record is returned. *)
Definition create_message (message : MessageRecord.t) (c : CRM)
    : MessageRecord.t * CRM :=
  let create :=
    let '(r, rows) :=
      table_create (next_id c) (_message_to_fields message) (messages_table c) in
    (_record_to_message r,
     mkCRM (contacts_table c) rows (audit_table c) (S (next_id c))) in
  if nonempty (MessageRecord.source_message_id message)
     && MessageDirection.eqb (MessageRecord.direction message) MessageDirection.INBOUND
  then match find_message_by_source_id (MessageRecord.source_message_id message) c with
       | Some existing => (existing, c)
       | None => create
       end
  else create.

Definition update_message (record_id : option rec_id) (f : gmap string value)
    (c : CRM) : CRM :=
  match record_id with
  | Some i =>
      mkCRM (contacts_table c) (table_update i f (messages_table c))
            (audit_table c) (next_id c)
  | None => c
  end.

(** [None] for an unknown id (the lookup error is caught). *)
Definition get_message (record_id : option rec_id) (c : CRM) : option MessageRecord.t :=
  i ← record_id; _record_to_message <$> table_get i (messages_table c).

Definition get_approved_messages (c : CRM) : list MessageRecord.t :=
  map _record_to_message (table_all (formula_eq "Status" "Approved") (messages_table c)).

Definition get_contact_for_message (message_record_id : option rec_id) (c : CRM)
    : option ContactRecord.t :=
  msg ← get_message message_record_id c;
  i ← MessageRecord.contact_id msg;
  get_contact i c.

(** *** Follow-up queries; [now] is the store's clock. *)

Definition get_contacts_for_followup (now : datetime) (c : CRM) : list ContactRecord.t :=
  map _record_to_contact
    (table_all
       (fun r => formula_eq "Follow-Up Status" "Active" r
                 && formula_is_before "Next Follow-Up Date"
                      (date_of now + timedelta_days 1)%Z r)
       (contacts_table c)).

Definition get_stale_contacts (days_stale : Z) (now : datetime) (c : CRM)
    : list ContactRecord.t :=
  map _record_to_contact
    (table_all
       (fun r => (formula_eq "Conversation Stage" "Engaging" r
                  || formula_eq "Conversation Stage" "Qualifying" r
                  || formula_eq "Conversation Stage" "Follow Up" r)
                 && formula_eq "Follow-Up Status" "" r
                 && bool_decide (is_Some (get_date (fields r) "Last Outbound At"))
                 && formula_is_before "Last Outbound At"
                      (date_of now - timedelta_days days_stale)%Z r
                 && negb (formula_eq "Lead Category" "Not a Lead" r))
       (contacts_table c)).

Definition get_messages_for_contact (contact_id : option rec_id)
    (direction : option string) (c : CRM) : list MessageRecord.t :=
  match contact_id with
  | None => []
  | Some i =>
      map _record_to_message
        (table_all
           (fun r => formula_linked i r
                     && match direction with
                        | Some d => if nonempty d then formula_eq "Direction" d r else true
                        | None => true
                        end)
           (messages_table c))
  end.

(** ** Contact deduplication ([sdr/crm/dedup.py]) *)

(** [c.company and c.company.lower() == message.sender_company.lower()] *)
Definition same_company (sender_company : string) (c : ContactRecord.t) : bool :=
  truthy (ContactRecord.company c)
  && String.eqb (lower (or_empty (ContactRecord.company c))) (lower sender_company).

(** The loop over the candidates: the first one of the sender's company. *)
Definition company_match (sender_company : string) (candidates : list ContactRecord.t)
    : option ContactRecord.t :=
  List.find (same_company sender_company) candidates.

Definition match_by_name (message : InboundMessage.t) (c : CRM)
    : option ContactRecord.t :=
  if nonempty (InboundMessage.sender_name message)
     && negb (String.eqb (InboundMessage.sender_name message) "Unknown")
  then
    let candidates := find_contacts_by_name (InboundMessage.sender_name message) c in
    match candidates with
    | [] => None
    | [only] => Some only
    | _ =>
        if truthy (InboundMessage.sender_company message)
        then company_match (or_empty (InboundMessage.sender_company message)) candidates
        else None
    end
  else None.

Definition match_by_linkedin (message : InboundMessage.t) (c : CRM)
    : option ContactRecord.t :=
  if truthy (InboundMessage.sender_linkedin_url message)
  then find_contact_by_linkedin_url
         (or_empty (InboundMessage.sender_linkedin_url message)) c
  else None.

Definition match_by_email (message : InboundMessage.t) (c : CRM)
    : option ContactRecord.t :=
  if truthy (InboundMessage.sender_email message)
  then find_contact_by_email (or_empty (InboundMessage.sender_email message)) c
  else None.

Definition find_existing_contact (message : InboundMessage.t) (c : CRM)
    : option ContactRecord.t :=
  match match_by_email message c with
  | Some m => Some m
  | None =>
      match match_by_linkedin message c with
      | Some m => Some m
      | None => match_by_name message c
      end
  end.

Definition should_update_source_channel (existing : ContactRecord.t)
    (message : InboundMessage.t) : bool :=
  match ContactRecord.source_channel existing, InboundMessage.source message with
  | SourceChannel.BOTH, _ => false
  | SourceChannel.GMAIL, SourceChannel.LINKEDIN => true
  | SourceChannel.LINKEDIN, SourceChannel.GMAIL => true
  | _, _ => false
  end.

Definition merge_contact_data (existing : ContactRecord.t) (message : InboundMessage.t)
    : gmap string value :=
  <["Interaction Count" := VInt (ContactRecord.interaction_count existing + 1)]>
  (<["Last Contact" := VDate (date_of (InboundMessage.received_at message))]>
  (set_if (should_update_source_channel existing message) "Source Channel"
     (VStr (SourceChannel.value SourceChannel.BOTH))
  (set_if (negb (truthy (ContactRecord.title existing))
           && truthy (InboundMessage.sender_title message))
     "Title" (VStr (or_empty (InboundMessage.sender_title message)))
  (set_if (negb (truthy (ContactRecord.company existing))
           && truthy (InboundMessage.sender_company message))
     "Company" (VStr (or_empty (InboundMessage.sender_company message)))
  (set_if (negb (truthy (ContactRecord.linkedin_url existing))
           && truthy (InboundMessage.sender_linkedin_url message))
     "LinkedIn URL" (VStr (or_empty (InboundMessage.sender_linkedin_url message)))
  (set_if (negb (truthy (ContactRecord.email existing))
           && truthy (InboundMessage.sender_email message))
     "Email" (VStr (or_empty (InboundMessage.sender_email message)))
   ∅)))))).

(** ** The world the jobs run in *)

(** What is asked of the channel sender ([MessageSender.send]). *)
Inductive SendRequest :=
  | SendGmail (to_email subject body thread_id : string)
  | SendLinkedIn (body account_id chat_id : string).

(** A call to an external collaborator; the world keeps them in order. *)
Inductive Call :=
  | CallEnrich (contact_id : option rec_id)
  | CallClassify (message : InboundMessage.t)
  | CallDraft (message : InboundMessage.t)
  | CallSend (request : SendRequest)
  | CallDraftFollowup (contact_id : option rec_id) (followup_num : Z)
  | CallAnalyze.

Record World := mkWorld {
  w_crm : CRM;
  w_db : DB;
  w_calls : list Call
}.

(** Code that reads and writes the world and may raise; what was written
    before an exception stays written. *)
Definition M (A : Type) : Type := World -> Result A * World.

Definition ret {A : Type} (a : A) : M A := fun w => (Ok a, w).

Definition bind {A B : Type} (m : M A) (k : A -> M B) : M B :=
  fun w =>
    match m w with
    | (Ok a, w') => k a w'
    | (Err e, w') => (Err e, w')
    end.

Notation "'let*' x ':=' m 'in' k" := (bind m (fun x => k))
  (at level 10, x name, m at level 100, k at level 200).

Definition crm_get {A : Type} (f : CRM -> A) : M A :=
  fun w => (Ok (f (w_crm w)), w).

Definition crm_do (f : CRM -> CRM) : M unit :=
  fun w => (Ok tt, mkWorld (f (w_crm w)) (w_db w) (w_calls w)).

Definition crm_call {A : Type} (f : CRM -> A * CRM) : M A :=
  fun w => let '(a, c) := f (w_crm w) in (Ok a, mkWorld c (w_db w) (w_calls w)).

Definition db_do (f : DB -> DB) : M unit :=
  fun w => (Ok tt, mkWorld (w_crm w) (f (w_db w)) (w_calls w)).

(** A collaborator is called and answers [r]. *)
Definition external {A : Type} (c : Call) (r : Result A) : M A :=
  fun w => (r, mkWorld (w_crm w) (w_db w) (w_calls w ++ [c])).

(** ** The inbound pipeline ([sdr/pipeline.py]) *)

(** What the enricher returns: the hoisted fields and the JSON text of
    the whole answer. *)
Module Enrichment.
Record t := mk {
  title : option string;
  company : option string;
  linkedin_url : option string;
  email : option string;
  json : string
}.
End Enrichment.

(** The double quote character. *)
Definition dquote : string := String (ascii_of_nat 34) EmptyString.

(** [json.dumps] of a list of strings (characters are not escaped). *)
Definition json_dumps (l : list string) : string :=
  String.append "["
    (String.append
       (String.concat ", "
          (map (fun s => String.append dquote (String.append s dquote)) l))
       "]").

Module InboundPipeline.
Record t := mk {
  classifier : InboundMessage.t -> string -> string -> Result LeadClassification.t;
  drafter : InboundMessage.t -> LeadClassification.t -> string -> Result DraftReply.t;
  enricher : option (option string -> option string -> string -> option string
                     -> Result (option Enrichment.t))
}.
End InboundPipeline.

Definition audit (action : AuditAction.t) (contact_id message_id : option rec_id)
    : M unit :=
  crm_do (log_audit (AuditLogEntry.mk action contact_id message_id)).

Definition _upsert_contact (message : InboundMessage.t) : M ContactRecord.t :=
  let* existing := crm_get (find_existing_contact message) in
  match existing with
  | Some existing =>
      let updates := merge_contact_data existing message in
      if bool_decide (updates = ∅) then ret existing
      else
        let* _ := crm_do (update_contact (ContactRecord.id existing) updates) in
        let* _ := audit AuditAction.CONTACT_UPDATED (ContactRecord.id existing) None in
        ret existing
  | None =>
      let contact :=
        ContactRecord.mk None
          (InboundMessage.sender_name message)
          (InboundMessage.sender_email message)
          (InboundMessage.sender_linkedin_url message)
          (InboundMessage.sender_company message)
          (InboundMessage.sender_title message)
          (InboundMessage.source message)
          LeadCategory.COLD
          ConversationStage.NEW
          0%Q "" "" ""
          (Some (InboundMessage.received_at message))
          (Some (InboundMessage.received_at message))
          1%Z "" 0%Z None None "" None in
      let* contact := crm_call (upsert_contact contact) in
      let* _ := audit AuditAction.CONTACT_CREATED (ContactRecord.id contact) None in
      ret contact
  end.

(** Enrichment is best effort: an exception is swallowed and the
    enrichment text is then empty. *)
Definition _enrich_contact
    (enrich : option string -> option string -> string -> option string
              -> Result (option Enrichment.t))
    (contact : ContactRecord.t) : M string :=
  fun w =>
    let w1 := mkWorld (w_crm w) (w_db w)
                (w_calls w ++ [CallEnrich (ContactRecord.id contact)]) in
    match enrich (ContactRecord.email contact) (ContactRecord.linkedin_url contact)
            (ContactRecord.name contact) (ContactRecord.company contact) with
    | Ok (Some data) =>
        let contact_updates :=
          set_if (truthy (Enrichment.email data) && negb (truthy (ContactRecord.email contact)))
            "Email" (VStr (or_empty (Enrichment.email data)))
          (set_if (truthy (Enrichment.linkedin_url data)
                   && negb (truthy (ContactRecord.linkedin_url contact)))
            "LinkedIn URL" (VStr (or_empty (Enrichment.linkedin_url data)))
          (set_if (truthy (Enrichment.company data)
                   && negb (truthy (ContactRecord.company contact)))
            "Company" (VStr (or_empty (Enrichment.company data)))
          (set_if (truthy (Enrichment.title data)
                   && negb (truthy (ContactRecord.title contact)))
            "Title" (VStr (or_empty (Enrichment.title data)))
          (<["Enriched Data" := VStr (Enrichment.json data)]> ∅)))) in
        (let* _ := crm_do (update_contact (ContactRecord.id contact) contact_updates) in
         let* _ := audit AuditAction.ENRICHED (ContactRecord.id contact) None in
         ret (Enrichment.json data)) w1
    | Ok None => (Ok "", w1)
    | Err _ => (Ok "", w1)
    end.

Definition _classify (self : InboundPipeline.t) (message : InboundMessage.t)
    (enrichment_data : string) (contact : ContactRecord.t) : M LeadClassification.t :=
  external (CallClassify message)
    (InboundPipeline.classifier self message enrichment_data
       (ConversationStage.value (ContactRecord.conversation_stage contact))).

Definition _draft_reply (self : InboundPipeline.t) (message : InboundMessage.t)
    (classification : LeadClassification.t) (enrichment_data : string) : M DraftReply.t :=
  external (CallDraft message)
    (InboundPipeline.drafter self message classification enrichment_data).

(** The body of the [try] of [process_message]. *)
Definition process_message_body (self : InboundPipeline.t) (message : InboundMessage.t)
    : M (option rec_id) :=
  let* contact := _upsert_contact message in
  let* enrichment_data :=
    match InboundPipeline.enricher self with
    | Some enrich => _enrich_contact enrich contact
    | None => ret ""
    end in
  let* classification := _classify self message enrichment_data contact in
  let* draft_reply :=
    if LeadClassification.should_reply classification
    then let* draft := _draft_reply self message classification enrichment_data in
         ret (DraftReply.reply_text draft)
    else ret "" in
  let status :=
    if LeadClassification.should_reply classification
    then MessageStatus.DRAFT_READY else MessageStatus.NEW in
  let msg_record :=
    MessageRecord.mk None
      (ContactRecord.id contact)
      (InboundMessage.source message)
      MessageDirection.INBOUND
      (InboundMessage.subject message)
      (InboundMessage.body message)
      (InboundMessage.thread_context message)
      draft_reply
      status
      (LeadCategory.value (LeadClassification.category classification))
      (ConversationStage.value (LeadClassification.conversation_stage classification))
      draft_reply
      None
      (Some (InboundMessage.received_at message))
      None
      ""
      (or_empty (InboundMessage.account_id message))
      (InboundMessage.source_message_id message)
      None in
  let* msg_record := crm_call (create_message msg_record) in
  let contact_updates : gmap string value :=
    <["Lead Category" := VStr (LeadCategory.value (LeadClassification.category classification))]>
    (<["Conversation Stage" :=
         VStr (ConversationStage.value
                 (LeadClassification.conversation_stage classification))]>
    (<["AI Confidence" := VNum (LeadClassification.confidence classification)]>
    (<["Detected Intent" := VStr (LeadClassification.detected_intent classification)]>
    (<["Signal Stack" :=
         VStr (json_dumps (LeadClassification.detected_signals classification))]>
    (<["AI Reasoning" := VStr (LeadClassification.reasoning classification)]>
    (<["Last Contact" := VDate (date_of (InboundMessage.received_at message))]> ∅)))))) in
  let* _ := crm_do (update_contact (ContactRecord.id contact) contact_updates) in
  let* _ := db_do (mark_message_processed
                     (SourceChannel.value (InboundMessage.source message))
                     (InboundMessage.source_message_id message)
                     "processed"
                     (MessageRecord.id msg_record)
                     (ContactRecord.id contact)) in
  let* _ := audit AuditAction.MESSAGE_RECEIVED (ContactRecord.id contact)
              (MessageRecord.id msg_record) in
  let* _ := audit AuditAction.CLASSIFIED (ContactRecord.id contact)
              (MessageRecord.id msg_record) in
  let* _ := if nonempty draft_reply
            then audit AuditAction.DRAFT_CREATED (ContactRecord.id contact)
                   (MessageRecord.id msg_record)
            else ret tt in
  let* _ := db_do (log_local_audit
                     (LocalAudit.mk "pipeline_complete"
                        (Some (SourceChannel.value (InboundMessage.source message)))
                        (MessageRecord.id msg_record)
                        (ContactRecord.id contact))) in
  ret (MessageRecord.id msg_record).

Definition process_message (self : InboundPipeline.t) (message : InboundMessage.t)
    (w : World) : option rec_id * World :=
  if is_message_processed (SourceChannel.value (InboundMessage.source message))
       (InboundMessage.source_message_id message) (w_db w)
  then (None, w)
  else
    match process_message_body self message w with
    | (Ok r, w') => (r, w')
    | (Err e, w') =>
        (None,
         mkWorld (w_crm w')
           (mark_message_failed (SourceChannel.value (InboundMessage.source message))
              (InboundMessage.source_message_id message) e (w_db w'))
           (w_calls w'))
    end.

Module BatchStats.
Record t := mk {
  total : Z;
  processed : Z;
  skipped : Z;
  failed : Z
}.
End BatchStats.

(** One turn of the loop of [process_batch]. *)
Definition process_batch_step (self : InboundPipeline.t)
    (acc : BatchStats.t * World) (msg : InboundMessage.t) : BatchStats.t * World :=
  let '(stats, w) := acc in
  let '(result, w') := process_message self msg w in
  match result with
  | Some _ =>
      (BatchStats.mk (BatchStats.total stats) (BatchStats.processed stats + 1)
         (BatchStats.skipped stats) (BatchStats.failed stats), w')
  | None =>
      if is_message_processed (SourceChannel.value (InboundMessage.source msg))
           (InboundMessage.source_message_id msg) (w_db w')
      then (BatchStats.mk (BatchStats.total stats) (BatchStats.processed stats)
              (BatchStats.skipped stats + 1) (BatchStats.failed stats), w')
      else (BatchStats.mk (BatchStats.total stats) (BatchStats.processed stats)
              (BatchStats.skipped stats) (BatchStats.failed stats + 1), w')
  end.

Definition process_batch (self : InboundPipeline.t) (messages : list InboundMessage.t)
    (w : World) : BatchStats.t * World :=
  foldl (process_batch_step self)
        (BatchStats.mk (Z.of_nat (length messages)) 0 0 0, w) messages.

(** ** The outbound sender loop ([sdr/outbound.py]) *)

(** [c.isspace()], for the code points below 256: the blank, the
    controls 9 to 13 and 28 to 31, the next-line control 133 and the
    no-break space 160. *)
Definition is_space (c : ascii) : bool :=
  let n := nat_of_ascii c in
  Nat.eqb n 32 || (Nat.leb 9 n && Nat.leb n 13) || (Nat.leb 28 n && Nat.leb n 31)
  || Nat.eqb n 133 || Nat.eqb n 160.

Fixpoint lstrip (s : string) : string :=
  match s with
  | String c s' => if is_space c then lstrip s' else s
  | EmptyString => EmptyString
  end.

Fixpoint rstrip (s : string) : string :=
  match s with
  | String c s' =>
      match rstrip s' with
      | EmptyString => if is_space c then EmptyString else String c EmptyString
      | t => String c t
      end
  | EmptyString => EmptyString
  end.

(** [s.strip()] *)
Definition strip (s : string) : string := rstrip (lstrip s).

Definition failed_fields (send_error : string) : gmap string value :=
  <["Status" := VStr (MessageStatus.value MessageStatus.FAILED)]>
  (<["Send Error" := VStr send_error]> ∅).

Definition sent_fields (now : datetime) (edit_dist : option Q) : gmap string value :=
  set_if (bool_decide (is_Some edit_dist)) "Edit Distance" (VNum (default 0%Q edit_dist))
  (<["Status" := VStr (MessageStatus.value MessageStatus.SENT)]>
  (<["Sent At" := VDate now]> ∅)).

Definition outbound_contact_updates (now : datetime) (contact : ContactRecord.t)
    : gmap string value :=
  set_if (String.eqb (ConversationStage.value (ContactRecord.conversation_stage contact))
            "New")
    "Conversation Stage" (VStr "Engaging")
  (<["Last Outbound At" := VDate (date_of now)]> ∅).

Section Outbound.
(** [MessageSender.send], [difflib]'s ratio and [datetime.utcnow()]. *)
Variable sender : SendRequest -> Result unit.
Variable ratio : string -> string -> Q.
Variable now : datetime.

(** Marking a message sent, after the channel accepted it. *)
Definition mark_sent (msg : MessageRecord.t) (edit_dist : option Q) : M bool :=
  let* _ := crm_do (update_message (MessageRecord.id msg) (sent_fields now edit_dist)) in
  let* contact := crm_get (get_contact_for_message (MessageRecord.id msg)) in
  let* _ :=
    match contact with
    | Some contact =>
        crm_do (update_contact (ContactRecord.id contact)
                  (outbound_contact_updates now contact))
    | None => ret tt
    end in
  let* _ := audit AuditAction.SENT (contact ≫= ContactRecord.id) (MessageRecord.id msg) in
  ret true.

(** The body of the [try] for one approved message; the result says
    whether the message was sent. *)
Definition send_approved_body (msg : MessageRecord.t) : M bool :=
  let* current := crm_get (get_message (MessageRecord.id msg)) in
  match current with
  | None => ret false
  | Some current =>
      if negb (MessageStatus.eqb (MessageRecord.status current) MessageStatus.APPROVED)
      then ret false
      else
        let reply_text := MessageRecord.draft_reply current in
        if negb (nonempty reply_text)
        then
          let* _ := crm_do (update_message (MessageRecord.id msg)
                              (failed_fields "Draft reply is empty")) in
          ret false
        else
          let edit_dist :=
            if nonempty (MessageRecord.ai_draft_version current)
            then Some (compute_edit_distance ratio
                         (MessageRecord.ai_draft_version current) reply_text)
            else None in
          let channel := SourceChannel.value (MessageRecord.source current) in
          if String.eqb channel "Gmail"
          then
            let* contact := crm_get (get_contact_for_message (MessageRecord.id msg)) in
            match contact with
            | Some contact =>
                if truthy (ContactRecord.email contact)
                then
                  let request :=
                    SendGmail (or_empty (ContactRecord.email contact))
                      (strip (String.append "Re: "
                                (or_empty (MessageRecord.subject current))))
                      reply_text
                      (MessageRecord.source_message_id current) in
                  let* _ := external (CallSend request) (sender request) in
                  mark_sent msg edit_dist
                else
                  let* _ := crm_do (update_message (MessageRecord.id msg)
                              (failed_fields "No recipient email found on linked contact")) in
                  ret false
            | None =>
                let* _ := crm_do (update_message (MessageRecord.id msg)
                            (failed_fields "No recipient email found on linked contact")) in
                ret false
            end
          else if String.eqb channel "LinkedIn"
          then
            let request :=
              SendLinkedIn reply_text (MessageRecord.account_id current)
                (MessageRecord.source_message_id current) in
            let* _ := external (CallSend request) (sender request) in
            mark_sent msg edit_dist
          else mark_sent msg edit_dist
  end.

(** One turn of the loop: the body, and the [except] that records the
    error text on the message. *)
Definition send_approved (msg : MessageRecord.t) (w : World) : bool * World :=
  match send_approved_body msg w with
  | (Ok sent, w') => (sent, w')
  | (Err e, w') =>
      (false,
       mkWorld (update_message (MessageRecord.id msg) (failed_fields e) (w_crm w'))
         (w_db w') (w_calls w'))
  end.

Definition process_approved_messages (w : World) : Z * World :=
  foldl (fun acc msg =>
           let '(sent_count, w1) := acc in
           let '(sent, w2) := send_approved msg w1 in
           ((if sent then sent_count + 1 else sent_count)%Z, w2))
        (0%Z, w) (get_approved_messages (w_crm w)).
End Outbound.

(** ** The follow-up cadence engine ([sdr/followup.py]) *)

Module FollowUpConfig.
Record t := mk {
  total_followups : Z;
  linkedin_followups : Z;
  days_between : Z;
  days_before_activation : Z;
  auto_approve_threshold : Z
}.

(** The defaults of [sdr/config.py]. *)
Definition default : t := mk 8 4 3 3 2.
End FollowUpConfig.

Module FollowupStats.
Record t := mk {
  initialized : Z;
  drafted : Z;
  auto_approved : Z;
  paused : Z;
  exhausted : Z;
  skipped : Z
}.
End FollowupStats.

(** A line of the conversation history given to the drafting model:
    day, direction, channel and text. *)
Definition HistoryLine : Type := datetime * string * string * string.

Definition _has_recent_inbound (contact_id : option rec_id)
    (since_date : option datetime) (c : CRM) : bool :=
  match since_date with
  | None => false
  | Some since =>
      existsb
        (fun msg => match MessageRecord.received_at msg with
                    | Some t => (since <=? t)%Z
                    | None => false
                    end)
        (get_messages_for_contact contact_id (Some "Inbound") c)
  end.

Definition _has_pending_outbound (contact_id : option rec_id) (c : CRM) : bool :=
  existsb
    (fun msg => MessageStatus.eqb (MessageRecord.status msg) MessageStatus.DRAFT_READY
                || MessageStatus.eqb (MessageRecord.status msg) MessageStatus.APPROVED)
    (get_messages_for_contact contact_id (Some "Outbound") c).

Definition _determine_channel (contact : ContactRecord.t) (config : FollowUpConfig.t)
    : option string :=
  let count := ContactRecord.follow_up_count contact in
  if (count <? FollowUpConfig.linkedin_followups config)%Z
  then
    if truthy (ContactRecord.linkedin_url contact) then Some "LinkedIn"
    else if truthy (ContactRecord.email contact) then Some "Email"
    else None
  else
    if truthy (ContactRecord.email contact) then Some "Email"
    else if truthy (ContactRecord.linkedin_url contact) then Some "LinkedIn"
    else None.

(** [m.sent_at or m.received_at or datetime.min] *)
Definition sent_or_received (m : MessageRecord.t) : datetime :=
  match MessageRecord.sent_at m with
  | Some t => t
  | None => default datetime_min (MessageRecord.received_at m)
  end.

(** [m.received_at or m.sent_at or datetime.min] *)
Definition received_or_sent (m : MessageRecord.t) : datetime :=
  match MessageRecord.received_at m with
  | Some t => t
  | None => default datetime_min (MessageRecord.sent_at m)
  end.

Definition _get_routing_info (contact : ContactRecord.t) (channel : string) (c : CRM)
    : gmap string string :=
  let messages := get_messages_for_contact (ContactRecord.id contact) None c in
  let source_value := if String.eqb channel "LinkedIn" then "LinkedIn" else "Gmail" in
  let channel_messages :=
    List.filter
      (fun m => String.eqb (SourceChannel.value (MessageRecord.source m)) source_value
                && nonempty (MessageRecord.source_message_id m))
      messages in
  match sort_desc sent_or_received channel_messages with
  | [] => ∅
  | latest :: _ =>
      if String.eqb channel "LinkedIn"
      then <["account_id" := MessageRecord.account_id latest]>
           (<["chat_id" := MessageRecord.source_message_id latest]> ∅)
      else <["thread_id" := MessageRecord.source_message_id latest]> ∅
  end.

(** [m.sent_at or datetime.min] *)
Definition sent_at_key (m : MessageRecord.t) : datetime :=
  default datetime_min (MessageRecord.sent_at m).

(** The sent outbound messages that carry an edit distance. *)
Definition sent_with_distance (messages : list MessageRecord.t) : list MessageRecord.t :=
  List.filter
    (fun m => MessageStatus.eqb (MessageRecord.status m) MessageStatus.SENT
              && bool_decide (is_Some (MessageRecord.edit_distance m)))
    messages.

Definition zero_distance (m : MessageRecord.t) : bool :=
  match MessageRecord.edit_distance m with
  | Some d => Qeq_bool d 0
  | None => false
  end.

Definition _should_auto_approve (contact_id : option rec_id) (threshold : Z) (c : CRM)
    : bool :=
  let messages := get_messages_for_contact contact_id (Some "Outbound") c in
  let sent := sent_with_distance messages in
  if (Z.of_nat (length sent) <? threshold)%Z then false
  else
    let recent := slice_to (sort_desc sent_at_key sent) threshold in
    forallb zero_distance recent.

Definition _format_conversation_history (messages : list MessageRecord.t)
    : list HistoryLine :=
  map (fun msg =>
         (date_of (sent_or_received msg),
          MessageDirection.value (MessageRecord.direction msg),
          SourceChannel.value (MessageRecord.source msg),
          if MessageDirection.eqb (MessageRecord.direction msg) MessageDirection.OUTBOUND
             && nonempty (MessageRecord.draft_reply msg)
          then MessageRecord.draft_reply msg
          else MessageRecord.body msg))
      (sort_asc received_or_sent messages).

(** The contact update that closes a follow-up. *)
Definition followup_update_fields (config : FollowUpConfig.t) (now : datetime)
    (followup_num : Z) (channel : string) : gmap string value :=
  set_if (FollowUpConfig.total_followups config <=? followup_num)%Z
    "Conversation Stage" (VStr "Closed Lost")
  (set_if (FollowUpConfig.total_followups config <=? followup_num)%Z
    "Follow-Up Status" (VStr "Exhausted")
  (<["Follow-Up Count" := VInt followup_num]>
  (<["Next Follow-Up Date" :=
       VDate (date_of (now + timedelta_days (FollowUpConfig.days_between config))%Z)]>
  (<["Follow-Up Channel" := VStr channel]> ∅)))).

(** What happened to one due contact. *)
Inductive FollowupOutcome := Paused | Skipped | Created (auto_approve exhausted : bool).

Section FollowUp.
(** The drafting model ([_draft_followup_message]) and the clock. *)
Variable draft_followup :
  ContactRecord.t -> string -> list HistoryLine -> Z -> Result string.
Variable config : FollowUpConfig.t.
Variable now : datetime.

Definition _activate_stale_leads (w : World) : Z * World :=
  foldl (fun acc contact =>
           let '(activated, w1) := acc in
           if _has_recent_inbound (ContactRecord.id contact)
                (ContactRecord.last_outbound_at contact) (w_crm w1)
           then (activated, w1)
           else
             let channel :=
               if truthy (ContactRecord.linkedin_url contact) then "LinkedIn" else "Email" in
             let f : gmap string value :=
               <["Follow-Up Status" := VStr "Active"]>
               (<["Follow-Up Count" := VInt 0]>
               (<["Next Follow-Up Date" := VDate (date_of now)]>
               (<["Follow-Up Channel" := VStr channel]> ∅))) in
             ((activated + 1)%Z,
              mkWorld (update_contact (ContactRecord.id contact) f (w_crm w1))
                (w_db w1) (w_calls w1)))
        (0%Z, w)
        (get_stale_contacts (FollowUpConfig.days_before_activation config) now (w_crm w)).

(** The body of the [try] for one due contact. *)
Definition process_due_body (contact : ContactRecord.t) : M FollowupOutcome :=
  let* replied :=
    crm_get (_has_recent_inbound (ContactRecord.id contact)
               (ContactRecord.last_outbound_at contact)) in
  if replied
  then
    let* _ := crm_do (update_contact (ContactRecord.id contact)
                        (<["Follow-Up Status" := VStr "Paused"]> ∅)) in
    let* _ := audit AuditAction.FOLLOW_UP_PAUSED (ContactRecord.id contact) None in
    ret Paused
  else
    let* pending := crm_get (_has_pending_outbound (ContactRecord.id contact)) in
    if pending then ret Skipped
    else
      let followup_count := ContactRecord.follow_up_count contact in
      match _determine_channel contact config with
      | None => ret Skipped
      | Some channel =>
          let* routing := crm_get (_get_routing_info contact channel) in
          let* all_messages :=
            crm_get (get_messages_for_contact (ContactRecord.id contact) None) in
          let history := _format_conversation_history all_messages in
          let followup_num := (followup_count + 1)%Z in
          let* reply_text :=
            external (CallDraftFollowup (ContactRecord.id contact) followup_num)
              (draft_followup contact channel history followup_num) in
          let* auto_approve :=
            crm_get (_should_auto_approve (ContactRecord.id contact)
                       (FollowUpConfig.auto_approve_threshold config)) in
          let status :=
            if auto_approve then MessageStatus.APPROVED else MessageStatus.DRAFT_READY in
          let source :=
            if String.eqb channel "LinkedIn"
            then SourceChannel.LINKEDIN else SourceChannel.GMAIL in
          let msg :=
            MessageRecord.mk None (ContactRecord.id contact) source
              MessageDirection.OUTBOUND None "" "" reply_text status "" "" reply_text
              None None None ""
              (default "" (routing !! "account_id"))
              (default (default "" (routing !! "thread_id")) (routing !! "chat_id"))
              (Some followup_num) in
          let* created_msg := crm_call (create_message msg) in
          let exhausted := (FollowUpConfig.total_followups config <=? followup_num)%Z in
          let* _ :=
            if exhausted
            then audit AuditAction.FOLLOW_UP_EXHAUSTED (ContactRecord.id contact) None
            else ret tt in
          let* _ := crm_do (update_contact (ContactRecord.id contact)
                              (followup_update_fields config now followup_num channel)) in
          let* _ := audit AuditAction.FOLLOW_UP_CREATED (ContactRecord.id contact)
                      (MessageRecord.id created_msg) in
          ret (Created auto_approve exhausted)
      end.

Definition count_outcome (stats : FollowupStats.t) (o : FollowupOutcome)
    : FollowupStats.t :=
  match o with
  | Paused =>
      FollowupStats.mk (FollowupStats.initialized stats) (FollowupStats.drafted stats)
        (FollowupStats.auto_approved stats) (FollowupStats.paused stats + 1)
        (FollowupStats.exhausted stats) (FollowupStats.skipped stats)
  | Skipped =>
      FollowupStats.mk (FollowupStats.initialized stats) (FollowupStats.drafted stats)
        (FollowupStats.auto_approved stats) (FollowupStats.paused stats)
        (FollowupStats.exhausted stats) (FollowupStats.skipped stats + 1)
  | Created auto_approve exhausted =>
      FollowupStats.mk (FollowupStats.initialized stats)
        (if auto_approve then FollowupStats.drafted stats
         else FollowupStats.drafted stats + 1)%Z
        (if auto_approve then FollowupStats.auto_approved stats + 1
         else FollowupStats.auto_approved stats)%Z
        (FollowupStats.paused stats)
        (if exhausted then FollowupStats.exhausted stats + 1
         else FollowupStats.exhausted stats)%Z
        (FollowupStats.skipped stats)
  end.

(** One due contact: the body, and the [except] that counts it skipped. *)
Definition process_due_contact (contact : ContactRecord.t) (w : World)
    : FollowupOutcome * World :=
  match process_due_body contact w with
  | (Ok o, w') => (o, w')
  | (Err _, w') => (Skipped, w')
  end.

Definition _process_due_followups (w : World) : FollowupStats.t * World :=
  foldl (fun acc contact =>
           let '(stats, w1) := acc in
           let '(o, w2) := process_due_contact contact w1 in
           (count_outcome stats o, w2))
        (FollowupStats.mk 0 0 0 0 0 0, w)
        (get_contacts_for_followup now (w_crm w)).

Definition run_followup_cycle (w : World) : FollowupStats.t * World :=
  let '(initialized, w1) := _activate_stale_leads w in
  let '(stats, w2) := _process_due_followups w1 in
  (FollowupStats.mk initialized (FollowupStats.drafted stats)
     (FollowupStats.auto_approved stats) (FollowupStats.paused stats)
     (FollowupStats.exhausted stats) (FollowupStats.skipped stats), w2).
End FollowUp.

(** ** The self-learning module ([sdr/ai/learner.py]) *)

Module EditPair.
Record t := mk {
  ai_draft : string;
  human_edit : string;
  channel : string;
  lead_category : string;
  edit_distance : Q
}.
End EditPair.

(** A rule proposed by the model. *)
Module Candidate.
Record t := mk {
  rule_text : string;
  confidence : Q
}.
End Candidate.

Module LearningStats.
Record t := mk {
  messages_analyzed : Z;
  new_rules : Z;
  skipped_reason : option string
}.
End LearningStats.

Definition _fetch_edited_messages (days : Z) (now : datetime) (c : CRM)
    : list EditPair.t :=
  let cutoff := date_of (now - timedelta_days days)%Z in
  let formula (r : record) :=
    formula_eq "Status" "Sent" r
    && match get_num (fields r) "Edit Distance" with
       | Some d => negb (Qle_bool d (5 # 100))
       | None => false
       end
    && nonempty (or_empty (get_str (fields r) "AI Draft Version"))
    && match get_date (fields r) "Sent At" with
       | Some t => (cutoff <? t)%Z
       | None => false
       end in
  map (fun r =>
         let f := fields r in
         let lead_category :=
           match head (get_links f "Contact") with
           | Some i =>
               match get_contact i c with
               | Some contact => LeadCategory.value (ContactRecord.lead_category contact)
               | None => ""
               end
           | None => ""
           end in
         EditPair.mk (or_empty (get_str f "AI Draft Version"))
           (or_empty (get_str f "Draft Reply"))
           (or_empty (get_str f "Source"))
           lead_category
           (default 0%Q (get_num f "Edit Distance")))
      (table_all formula (messages_table c)).

(** [rule["confidence"] > 0.7] *)
Definition confident (rule : Candidate.t) : bool :=
  negb (Qle_bool (Candidate.confidence rule) (7 # 10)).

(** Step 4: every confident candidate becomes a row. *)
Definition store_rules (now : datetime) (new_rules : list Candidate.t) (d : DB) : Z * DB :=
  foldl (fun acc rule =>
           let '(stored, d1) := acc in
           if confident rule
           then ((stored + 1)%Z,
                 (insert_learned_rule (Candidate.rule_text rule)
                    (Candidate.confidence rule) now d1).2)
           else (stored, d1))
        (0%Z, d) new_rules.

(** Step 5: the oldest active rules over the cap are deactivated. *)
Definition cap_active_rules (max_active_rules : Z) (now : datetime) (d : DB) : DB :=
  let all_active := get_active_learned_rules d in
  if (max_active_rules <? Z.of_nat (length all_active))%Z
  then
    let to_deactivate :=
      slice_to all_active (Z.of_nat (length all_active) - max_active_rules) in
    foldl (fun d1 rule => deactivate_learned_rule (LearnedRule.id rule) now d1)
          d to_deactivate
  else d.

Section Learner.
(** [_analyze_patterns]: the model's candidates for the edit pairs and
    the rules in force; and the clock. *)
Variable analyze : list EditPair.t -> list LearnedRule.t -> Result (list Candidate.t).
Variable now : datetime.

Definition run_learning_cycle (lookback_days max_active_rules min_messages : Z)
    : M LearningStats.t :=
  let* edit_pairs := crm_get (_fetch_edited_messages lookback_days now) in
  if (Z.of_nat (length edit_pairs) <? min_messages)%Z
  then
    ret (LearningStats.mk 0 0
           (Some (String.append "Only "
                    (String.append (pretty (Z.of_nat (length edit_pairs)))
                       (String.append " edited messages (need "
                          (String.append (pretty min_messages) ")"))))))
  else
    fun w =>
      let existing_rules := get_active_learned_rules (w_db w) in
      (let* new_rules := external CallAnalyze (analyze edit_pairs existing_rules) in
       fun w1 =>
         let '(stored, d1) := store_rules now new_rules (w_db w1) in
         let d2 := cap_active_rules max_active_rules now d1 in
         let d3 := log_local_audit (LocalAudit.mk "learning_cycle" None None None) d2 in
         (Ok (LearningStats.mk (Z.of_nat (length edit_pairs)) stored None),
          mkWorld (w_crm w1) d3 (w_calls w1))) w.
End Learner.

(** ** Sample data, after the fixtures of [tests/conftest.py] *)

Definition empty_crm : CRM := mkCRM [] [] [] 1.
Definition empty_db : DB := mkDB ∅ [] [].
Definition empty_world : World := mkWorld empty_crm empty_db [].

Definition sample_gmail_message : InboundMessage.t :=
  InboundMessage.mk SourceChannel.GMAIL "msg_001" "John Smith"
    (Some "john@acmeagency.com") None (Some "CEO") (Some "Acme Marketing Agency")
    (Some "LinkedIn outreach services") "Hi Colin" "" 1708084800%Z false None.

Definition sample_classification : LeadClassification.t :=
  LeadClassification.mk LeadCategory.WARM (75 # 100)
    "Shows interest in LinkedIn outreach" "information seeking" ["icp_match"]
    true ConversationStage.NEW (7 # 10).

Definition mock_pipeline : InboundPipeline.t :=
  InboundPipeline.mk (fun _ _ _ => Ok sample_classification)
    (fun _ _ _ => Ok (DraftReply.mk "Thanks for the message" "")) None.

(** The classifier of [test_marks_failed_on_error]. *)
Definition failing_pipeline : InboundPipeline.t :=
  InboundPipeline.mk (fun _ _ _ => Err "API error")
    (fun _ _ _ => Ok (DraftReply.mk "Thanks for the message" "")) None.

(** The key of a message in the ledger. *)
Definition message_key (message : InboundMessage.t) : string * string :=
  (SourceChannel.value (InboundMessage.source message),
   InboundMessage.source_message_id message).


(** A stand-in for the sequence matcher in examples: ratio 1 on equal
    texts, 0 otherwise. *)
Definition ratio_equal (a b : string) : Q := if String.eqb a b then 1%Q else 0%Q.

(** A contact on LinkedIn, as [sample_contact] of the fixtures. *)
Definition sample_contact : ContactRecord.t :=
  ContactRecord.mk (Some 1) "John Smith" (Some "john@acmeagency.com") None
    (Some "Acme Marketing Agency") (Some "CEO") SourceChannel.LINKEDIN LeadCategory.HOT
    ConversationStage.NEW (92 # 100) "" "" "" (Some 1708084800%Z) (Some 1708084800%Z)
    1%Z "" 0%Z None None "" None.

(** Two contacts of the same name and the same company, and a message of
    that sender without email or profile url. *)
Definition john_of_acme (i : rec_id) (company : string) : record :=
  mkRecord i
    (_contact_to_fields
       (ContactRecord.mk None "John Smith" None None (Some company) None
          SourceChannel.GMAIL LeadCategory.COLD ConversationStage.NEW 0%Q "" "" ""
          None None 1%Z "" 0%Z None None "" None)).

Definition two_johns : CRM :=
  mkCRM [john_of_acme 1 "Acme"; john_of_acme 2 "ACME"] [] [] 3.

Definition john_message : InboundMessage.t :=
  InboundMessage.mk SourceChannel.GMAIL "m5" "John Smith" None None None (Some "Acme")
    None "Test" "" 1708084800%Z false None.

(** A LinkedIn message as the poller builds it for a sender whose profile
    url is not known: no email address, an empty profile url. *)
Definition john_linkedin_message : InboundMessage.t :=
  InboundMessage.mk SourceChannel.LINKEDIN "li_m5" "John Smith" None (Some "")
    (Some "CEO") (Some "Acme") None "Hello" "" 1708084800%Z false None.

(** The request the loop hands to the sender for a message, given the
    linked contact: none for an email without recipient address, and none
    for a message whose source is neither channel. *)
Definition request_for (current : MessageRecord.t) (contact : option ContactRecord.t)
    : option SendRequest :=
  match MessageRecord.source current with
  | SourceChannel.GMAIL =>
      match contact with
      | Some contact =>
          if truthy (ContactRecord.email contact)
          then Some (SendGmail (or_empty (ContactRecord.email contact))
                       (strip (String.append "Re: "
                                 (or_empty (MessageRecord.subject current))))
                       (MessageRecord.draft_reply current)
                       (MessageRecord.source_message_id current))
          else None
      | None => None
      end
  | SourceChannel.LINKEDIN =>
      Some (SendLinkedIn (MessageRecord.draft_reply current)
              (MessageRecord.account_id current)
              (MessageRecord.source_message_id current))
  | SourceChannel.BOTH => None
  end.

(** A sender that always succeeds. *)
Definition sender_ok (request : SendRequest) : Result unit := Ok tt.

(** An approved LinkedIn reply that a person wrote on a message for which
    no reply had been drafted: there is no AI draft version. *)
Definition human_reply : MessageRecord.t :=
  MessageRecord.mk None (Some 1) SourceChannel.LINKEDIN MessageDirection.INBOUND None
    "Are you hiring?" "" "Not at the moment, thanks" MessageStatus.APPROVED
    "Not a Lead" "New" "" None (Some 1708084800%Z) None "" "acct_001" "li_msg_002" None.

Definition human_reply_world : World :=
  mkWorld
    (mkCRM [mkRecord 1 (_contact_to_fields sample_contact)]
       [mkRecord 2 (_message_to_fields human_reply)] [] 3)
    empty_db [].

(** The edit distance the loop records for a message: none when there
    is no AI draft version. *)
Definition edit_dist_of (ratio : string -> string -> Q) (current : MessageRecord.t)
    : option Q :=
  if nonempty (MessageRecord.ai_draft_version current)
  then Some (compute_edit_distance ratio (MessageRecord.ai_draft_version current)
               (MessageRecord.draft_reply current))
  else None.

(** The approved message as the store returns it. *)
Definition human_reply_stored : MessageRecord.t :=
  _record_to_message (mkRecord 2 (_message_to_fields human_reply)).

(** A contact in an active cadence with a follow-up due, and two
    follow-ups already sent to it with edit distances [d1] (the older) and
    [d2] (the newer). *)
Definition cadence_contact : ContactRecord.t :=
  ContactRecord.mk None "Sarah Johnson" None (Some "https://linkedin.com/in/sarahjohnson")
    (Some "Growth Consulting Group") None SourceChannel.LINKEDIN LeadCategory.WARM
    ConversationStage.ENGAGING (75 # 100) "" "" "" (Some 1708041600%Z)
    (Some 1708041600%Z) 1%Z "" 0%Z (Some "LinkedIn") (Some 1708560000%Z) "Active"
    (Some 1708128000%Z).

Definition sent_followup (d : Q) (sent_at : datetime) : MessageRecord.t :=
  MessageRecord.mk None (Some 1) SourceChannel.LINKEDIN MessageDirection.OUTBOUND None
    "" "" "Following up" MessageStatus.SENT "" "" "Following up" (Some d) None
    (Some sent_at) "" "acct_001" "chat_001" None.

Definition cadence_world (d1 d2 : Q) : World :=
  mkWorld
    (mkCRM [mkRecord 1 (_contact_to_fields cadence_contact)]
       [mkRecord 2 (_message_to_fields (sent_followup d1 1708128000%Z));
        mkRecord 3 (_message_to_fields (sent_followup d2 1708300800%Z))]
       [] 4)
    empty_db [].

(** The contact with follow-ups already sent to it, given by their edit
    distance and their day of sending in the order in which the store
    holds them. *)
Definition cadence_history (sends : list (Q * datetime)) : World :=
  mkWorld
    (mkCRM [mkRecord 1 (_contact_to_fields cadence_contact)]
       (imap (fun i send =>
                mkRecord (2 + i) (_message_to_fields (sent_followup send.1 send.2)))
          sends)
       [] (2 + length sends))
    empty_db [].

(** The contact as the due-follow-up query returns it. *)
Definition cadence_contact_stored : ContactRecord.t :=
  _record_to_contact (mkRecord 1 (_contact_to_fields cadence_contact)).

(** A drafting model that always answers. *)
Definition draft_ok (contact : ContactRecord.t) (channel : string)
    (history : list HistoryLine) (followup_num : Z) : Result string :=
  Ok "Just checking in".

(** The status of the last Message row. *)
Definition last_message_status (w : World) : option MessageStatus.t :=
  (fun r => MessageRecord.status (_record_to_message r)) <$> last (messages_table (w_crm w)).

(** The cadence of the contact [cid] is closed: every stored record of
    that id is Exhausted and Closed Lost. *)
Definition cadence_closed (cid : rec_id) (c : CRM) : Prop :=
  forall r, In r (contacts_table c) -> rid r = cid ->
    get_str (fields r) "Follow-Up Status" = Some "Exhausted"
    /\ get_str (fields r) "Conversation Stage" = Some "Closed Lost".

(** Along a step, the records of the contact [cid] and the messages
    linked to it stay as they are. *)
Definition untouched (cid : rec_id) (w w' : World) : Prop :=
  List.filter (fun r => Nat.eqb (rid r) cid) (contacts_table (w_crm w'))
  = List.filter (fun r => Nat.eqb (rid r) cid) (contacts_table (w_crm w))
  /\ List.filter (formula_linked cid) (messages_table (w_crm w'))
     = List.filter (formula_linked cid) (messages_table (w_crm w)).

(** The parameters of one run of the follow-up cycle. *)
Module Cycle.
Record t := mk {
  draft_followup : ContactRecord.t -> string -> list HistoryLine -> Z -> Result string;
  config : FollowUpConfig.t;
  now : datetime
}.
End Cycle.

(** Later runs of the follow-up cycle, one after the other. *)
Definition run_cycles (cycles : list Cycle.t) (w : World) : World :=
  foldl (fun w1 cy =>
           (run_followup_cycle (Cycle.draft_followup cy) (Cycle.config cy)
              (Cycle.now cy) w1).2)
        w cycles.

(** A cadence of a single follow-up. *)
Definition one_followup_config : FollowUpConfig.t := FollowUpConfig.mk 1 4 3 3 2.

(** The rule id is among the given rules' ids. *)
Definition id_among (rules : list LearnedRule.t) (r : LearnedRule.t) : bool :=
  existsb (Z.eqb (LearnedRule.id r)) (map LearnedRule.id rules).

(** The text and the confidence of a stored rule, and of a candidate. *)
Definition rule_content (r : LearnedRule.t) : string * Q :=
  (LearnedRule.rule_text r, LearnedRule.confidence r).

Definition candidate_content (c : Candidate.t) : string * Q :=
  (Candidate.rule_text c, Candidate.confidence c).

(** A row as [insert_learned_rule] writes it at time [now]. *)
Definition freshly_inserted (now : datetime) (r : LearnedRule.t) : Prop :=
  LearnedRule.active r = true /\ LearnedRule.created_at r = now
  /\ LearnedRule.deactivated_at r = None.

(** Two active rules in the store, and a model that proposes one
    confident rule and one that is not. *)
Definition rules_world : World :=
  mkWorld empty_crm
    (mkDB ∅
       [LearnedRule.mk 1 "Keep replies short" (9 # 10) true 100%Z None;
        LearnedRule.mk 2 "Ask one question" (8 # 10) true 200%Z None]
       [])
    [].

Definition analyze_two (edit_pairs : list EditPair.t) (existing : list LearnedRule.t)
    : Result (list Candidate.t) :=
  Ok [Candidate.mk "Drop the greeting" (9 # 10); Candidate.mk "Use emojis" (1 # 2)].

(** ** Relations between worlds *)

(** [steps R m]: whatever [m] returns, the world moves along [R]. *)
Definition steps {A : Type} (R : World -> World -> Prop) (m : M A) : Prop :=
  forall w r w', m w = (r, w') -> R w w'.

(** Ledger rows are never removed: the keys only grow. *)
Definition ledger_grows (d d' : DB) : Prop :=
  forall k, is_Some (processed_messages d !! k) -> is_Some (processed_messages d' !! k).

(** The ledger only grows along a step. *)
Definition db_grows (w w' : World) : Prop := ledger_grows (w_db w) (w_db w').

(** The Messages table is the same after a step. *)
Definition messages_same (w w' : World) : Prop :=
  messages_table (w_crm w') = messages_table (w_crm w).

(** ** Further sample data and small programs over the stores *)

(** The failures of one message, recorded one after the other. *)
Definition record_failures (source source_message_id : string) (errors : list string)
    (d : DB) : DB :=
  foldl (fun d1 e => mark_message_failed source source_message_id e d1) d errors.

(** What [if x: fields[k] = x] keeps of an optional string: a falsy one
    is not written, and reads back as [None]. *)
Definition stored (o : option string) : option string := if truthy o then o else None.

(** A contact as it reads back from the record [i] that holds its fields:
    falsy optional strings are gone and dates are cut to the day. *)
Definition stored_contact (i : rec_id) (c : ContactRecord.t) : ContactRecord.t :=
  ContactRecord.mk (Some i)
    (ContactRecord.name c)
    (stored (ContactRecord.email c))
    (stored (ContactRecord.linkedin_url c))
    (stored (ContactRecord.company c))
    (stored (ContactRecord.title c))
    (ContactRecord.source_channel c)
    (ContactRecord.lead_category c)
    (ContactRecord.conversation_stage c)
    (ContactRecord.ai_confidence c)
    (ContactRecord.detected_intent c)
    (ContactRecord.signal_stack c)
    (ContactRecord.ai_reasoning c)
    (date_of <$> ContactRecord.first_contact c)
    (date_of <$> ContactRecord.last_contact c)
    (ContactRecord.interaction_count c)
    (ContactRecord.enriched_data c)
    (ContactRecord.follow_up_count c)
    (stored (ContactRecord.follow_up_channel c))
    (date_of <$> ContactRecord.next_follow_up_date c)
    (ContactRecord.follow_up_status c)
    (date_of <$> ContactRecord.last_outbound_at c).

(** The same for a message. *)
Definition stored_message (i : rec_id) (m : MessageRecord.t) : MessageRecord.t :=
  MessageRecord.mk (Some i)
    (MessageRecord.contact_id m)
    (MessageRecord.source m)
    (MessageRecord.direction m)
    (stored (MessageRecord.subject m))
    (MessageRecord.body m)
    (MessageRecord.thread_context m)
    (MessageRecord.draft_reply m)
    (MessageRecord.status m)
    (MessageRecord.classification m)
    (MessageRecord.conversation_stage m)
    (MessageRecord.ai_draft_version m)
    (MessageRecord.edit_distance m)
    (date_of <$> MessageRecord.received_at m)
    (date_of <$> MessageRecord.sent_at m)
    (MessageRecord.send_error m)
    (MessageRecord.account_id m)
    (MessageRecord.source_message_id m)
    (MessageRecord.follow_up_number m).

(** The record ids of a table are below the store's counter. *)
Definition ids_below (next : rec_id) (rows : list record) : Prop :=
  Forall (fun r => rid r < next) rows.

(** Some record of the table holds the text [s] in its field [k]. *)
Definition holds (k s : string) (rows : list record) : Prop :=
  exists r, In r rows /\ get_str (fields r) k = Some s.

(** The collaborator calls of the enrichment step of the pipeline: one
    when an enricher is configured. *)
Definition enrich_calls (self : InboundPipeline.t) (cid : option rec_id) : list Call :=
  match InboundPipeline.enricher self with
  | Some _ => [CallEnrich cid]
  | None => []
  end.

(** The cadence contact has answered after the last outbound message. *)
Definition reply_from_contact : MessageRecord.t :=
  MessageRecord.mk None (Some 1) SourceChannel.LINKEDIN MessageDirection.INBOUND None
    "Sounds good" "" "" MessageStatus.NEW "" "" "" None (Some 1708300800%Z) None ""
    "acct_001" "li_msg_009" None.

Definition replied_world : World :=
  mkWorld
    (mkCRM [mkRecord 1 (_contact_to_fields cadence_contact)]
       [mkRecord 2 (_message_to_fields reply_from_contact)] [] 3)
    empty_db [].

(** ** The circuit breaker of the poll loop ([sdr/main.py]) *)

(** [time.monotonic()] is a parameter [now] of the methods that read it. *)
Module CircuitBreaker.
Record t := mk {
  threshold : Z;
  cooldown_seconds : Z;
  _failures : gmap string Z;
  _open_until : gmap string Q
}.

Definition init (threshold cooldown_seconds : Z) : t :=
  mk threshold cooldown_seconds ∅ ∅.

Definition record_failure (now : Q) (source : string) (self : t) : t :=
  let n := (default 0 (_failures self !! source) + 1)%Z in
  let failures := <[source := n]> (_failures self) in
  if (threshold self <=? n)%Z
  then mk (threshold self) (cooldown_seconds self) failures
         (<[source := (now + inject_Z (cooldown_seconds self))%Q]> (_open_until self))
  else mk (threshold self) (cooldown_seconds self) failures (_open_until self).

Definition record_success (source : string) (self : t) : t :=
  mk (threshold self) (cooldown_seconds self)
    (<[source := 0%Z]> (_failures self)) (delete source (_open_until self)).

(** Returns the answer and the breaker: an expired cooldown is cleared. *)
Definition is_open (now : Q) (source : string) (self : t) : bool * t :=
  match _open_until self !! source with
  | None => (false, self)
  | Some until =>
      if Qle_bool until now
      then (false, mk (threshold self) (cooldown_seconds self)
                     (<[source := 0%Z]> (_failures self))
                     (delete source (_open_until self)))
      else (true, self)
  end.
End CircuitBreaker.

(** [poll()] of a source: it reads the store (the LinkedIn source leaves
    out the ids of the ledger) and may raise; of the store it writes only
    the table [source_state], which only the sources read. *)
Definition Poll : Type := World -> Result (list InboundMessage.t).

(** The entries of [components] that the inbound cycle reads. *)
Module Components.
Record t := mk {
  pipeline : InboundPipeline.t;
  gmail_source : option Poll;
  linkedin_source : option Poll
}.
End Components.

(** The readings of [time.monotonic()] in one cycle: in [is_open] and in
    [record_failure], for each source. *)
Module CycleClock.
Record t := mk {
  gmail_checked : Q;
  gmail_failed : Q;
  linkedin_checked : Q;
  linkedin_failed : Q
}.
End CycleClock.

(** One of the two blocks of [run_inbound_cycle]: the source is polled
    unless it is absent or its circuit is open; a batch is processed when
    it is not empty; an exception of the poll is recorded as a failure. *)
Definition poll_source (pipeline : InboundPipeline.t) (name : string)
    (source : option Poll) (checked failed : Q)
    (st : CircuitBreaker.t * World) : CircuitBreaker.t * World :=
  let '(circuit_breaker, w) := st in
  match source with
  | None => (circuit_breaker, w)
  | Some poll =>
      let '(open, cb1) := CircuitBreaker.is_open checked name circuit_breaker in
      if open then (cb1, w)
      else
        match poll w with
        | Ok messages =>
            let w1 :=
              match messages with
              | [] => w
              | _ :: _ => (process_batch pipeline messages w).2
              end in
            (CircuitBreaker.record_success name cb1, w1)
        | Err _ => (CircuitBreaker.record_failure failed name cb1, w)
        end
  end.

Definition run_inbound_cycle (components : Components.t) (clock : CycleClock.t)
    (st : CircuitBreaker.t * World) : CircuitBreaker.t * World :=
  let pipeline := Components.pipeline components in
  let st1 :=
    poll_source pipeline "gmail" (Components.gmail_source components)
      (CycleClock.gmail_checked clock) (CycleClock.gmail_failed clock) st in
  poll_source pipeline "linkedin" (Components.linkedin_source components)
    (CycleClock.linkedin_checked clock) (CycleClock.linkedin_failed clock) st1.

(** Consecutive failures of one source, at the given times. *)
Definition record_failures_at (times : list Q) (source : string)
    (self : CircuitBreaker.t) : CircuitBreaker.t :=
  foldl (fun cb now => CircuitBreaker.record_failure now source cb) self times.

(** Cycles of the scheduler, one after the other. *)
Definition run_inbound_cycles (cycles : list (Components.t * CycleClock.t))
    (st : CircuitBreaker.t * World) : CircuitBreaker.t * World :=
  foldl (fun st1 cycle => run_inbound_cycle cycle.1 cycle.2 st1) st cycles.

(** The components without a Gmail source. *)
Definition without_gmail (components : Components.t) : Components.t :=
  Components.mk (Components.pipeline components) None
    (Components.linkedin_source components).

(** The Gmail source is configured and every poll raises. *)
Definition gmail_down (components : Components.t) : Prop :=
  exists poll,
    Components.gmail_source components = Some poll /\ forall w, exists e, poll w = Err e.

(** Two breakers with the same settings and the same state of [source]. *)
Definition same_circuit (source : string) (a b : CircuitBreaker.t) : Prop :=
  CircuitBreaker.threshold a = CircuitBreaker.threshold b
  /\ CircuitBreaker.cooldown_seconds a = CircuitBreaker.cooldown_seconds b
  /\ CircuitBreaker._failures a !! source = CircuitBreaker._failures b !! source
  /\ CircuitBreaker._open_until a !! source = CircuitBreaker._open_until b !! source.

(** A source that raises on every poll, and one that delivers a message. *)
Definition poll_raises : Poll := fun _ => Err "connection refused".
Definition poll_one : Poll := fun _ => Ok [sample_gmail_message].

Definition clock_at (t : Q) : CycleClock.t := CycleClock.mk t t t t.

(** The cycles without their Gmail source. *)
Definition cycles_without_gmail (cycles : list (Components.t * CycleClock.t))
    : list (Components.t * CycleClock.t) :=
  map (fun cycle => (without_gmail cycle.1, cycle.2)) cycles.

(** Two cycles in which Gmail is down and LinkedIn delivers nothing. *)
Definition gmail_down_cycles : list (Components.t * CycleClock.t) :=
  [(Components.mk mock_pipeline (Some poll_raises) None, clock_at 10);
   (Components.mk mock_pipeline (Some poll_raises) None, clock_at 20)].

(** ** The rate limiter of the sender ([sdr/sending/rate_limiter.py]) *)

(** [min(a, b)] of two numbers. *)
Definition min_float (a b : Q) : Q := if Qle_bool a b then a else b.

(** A bucket; every reading of [time.monotonic()] is a parameter. *)
Module TokenBucket.
Record t := mk {
  capacity : Q;
  refill_rate : Q;
  _tokens : Q;
  _last_refill : Q
}.

(** [__post_init__] *)
Definition init (capacity refill_rate now : Q) : t :=
  mk capacity refill_rate capacity now.

Definition _refill (now : Q) (self : t) : t :=
  let elapsed := (now - _last_refill self)%Q in
  mk (capacity self) (refill_rate self)
    (min_float (capacity self) (_tokens self + elapsed * refill_rate self)%Q) now.

(** [self._tokens -= 1.0] *)
Definition take (self : t) : t :=
  mk (capacity self) (refill_rate self) (_tokens self - 1)%Q (_last_refill self).

Definition try_acquire (now : Q) (self : t) : bool * t :=
  let b := _refill now self in
  if Qle_bool 1 (_tokens b) then (true, take b) else (false, b).

(** The loop of [acquire].  A turn reads the clock in [_refill] and, when
    no token is there, once more for the time that remains; [readings]
    holds these two readings for each turn.  The loop runs as long as
    there are readings.  [1.0 / self.refill_rate] raises on a rate of
    zero.  On a negative rate [wait] is negative: [time.sleep] raises
    [ValueError] after the lock has been released, and leaving the [with]
    block then raises [RuntimeError] for the release of an unlocked lock,
    which is what the caller gets. *)
Fixpoint acquire_loop (readings : list (Q * Q)) (deadline : Q) (self : t)
    : option (Result bool * t) :=
  match readings with
  | [] => None
  | (now, checked) :: rest =>
      let b := _refill now self in
      if Qle_bool 1 (_tokens b) then Some (Ok true, take b)
      else
        let remaining := (deadline - checked)%Q in
        if Qle_bool remaining 0 then Some (Ok false, b)
        else if Qeq_bool (refill_rate b) 0
             then Some (Err "ZeroDivisionError", b)
             else if Qle_bool 0 (refill_rate b)
                  then acquire_loop rest deadline b
                  else Some (Err "RuntimeError", b)
  end.

(** [started] is the reading that sets the deadline. *)
Definition acquire (timeout started : Q) (readings : list (Q * Q)) (self : t)
    : option (Result bool * t) :=
  acquire_loop readings (started + timeout)%Q self.
End TokenBucket.

(** One call of [acquire] with the readings of the clock it meets. *)
Module AcquireCall.
Record t := mk {
  timeout : Q;
  started : Q;
  readings : list (Q * Q)
}.
End AcquireCall.

(** Calls of [acquire] one after the other: the number of tokens granted
    and the bucket, when every call has returned or raised. *)
Fixpoint acquires (calls : list AcquireCall.t) (self : TokenBucket.t)
    : option (nat * TokenBucket.t) :=
  match calls with
  | [] => Some (0, self)
  | call :: rest =>
      match TokenBucket.acquire (AcquireCall.timeout call) (AcquireCall.started call)
              (AcquireCall.readings call) self with
      | None => None
      | Some (result, b) =>
          match acquires rest b with
          | None => None
          | Some (n, b') =>
              Some (match result with Ok true => S n | _ => n end, b')
          end
      end
  end.

(** The readings of the clock in [_refill], over all the calls. *)
Definition refill_times (calls : list AcquireCall.t) : list Q :=
  concat (map (fun call => map fst (AcquireCall.readings call)) calls).

(** A clock that does not go back. *)
Fixpoint nondecreasing (from : Q) (times : list Q) : Prop :=
  match times with
  | [] => True
  | t :: rest => (from <= t)%Q /\ nondecreasing t rest
  end.

Module RateLimiter.
Record t := mk {
  _buckets : gmap string TokenBucket.t
}.

(** The buckets are made one after the other. *)
Definition init (gmail_per_hour linkedin_per_hour : Z) (now_gmail now_linkedin : Q) : t :=
  mk (<["gmail" := TokenBucket.init (inject_Z gmail_per_hour)
                     (inject_Z gmail_per_hour / 3600)%Q now_gmail]>
        (<["linkedin" := TokenBucket.init (inject_Z linkedin_per_hour)
                           (inject_Z linkedin_per_hour / 3600)%Q now_linkedin]> ∅)).

Definition acquire (channel : string) (timeout started : Q) (readings : list (Q * Q))
    (self : t) : option (Result bool * t) :=
  match _buckets self !! lower channel with
  | None => Some (Ok true, self)
  | Some bucket =>
      match TokenBucket.acquire timeout started readings bucket with
      | None => None
      | Some (result, bucket') =>
          Some (result, mk (<[lower channel := bucket']> (_buckets self)))
      end
  end.

Definition try_acquire (channel : string) (now : Q) (self : t) : bool * t :=
  match _buckets self !! lower channel with
  | None => (true, self)
  | Some bucket =>
      let '(ok, bucket') := TokenBucket.try_acquire now bucket in
      (ok, mk (<[lower channel := bucket']> (_buckets self)))
  end.
End RateLimiter.

(** A bucket in its range: settings that are not negative, and between
    no token and a full bucket. *)
Definition bucket_ok (b : TokenBucket.t) : Prop :=
  (0 <= TokenBucket.capacity b)%Q /\ (0 <= TokenBucket.refill_rate b)%Q
  /\ (0 <= TokenBucket._tokens b)%Q
  /\ (TokenBucket._tokens b <= TokenBucket.capacity b)%Q.

(** What a call grants. *)
Definition granted (result : Result bool) : Q :=
  match result with Ok true => 1 | _ => 0 end.

(** Three sends in a row on a bucket of two tokens, one token a minute. *)
Definition burst_calls : list AcquireCall.t :=
  [AcquireCall.mk 30 0 [(0, 0)]; AcquireCall.mk 30 1 [(1, 1)];
   AcquireCall.mk 30 2 [(2, 2); (32, 32)]]%Q.

(** ** Connection requests ([sdr/connections/handler.py]) *)

(** What the evaluator returns. *)
Module ConnectionEvaluation.
Record t := mk {
  accept : bool;
  confidence : Q;
  lead_category : LeadCategory.t;
  reasoning : string
}.
End ConnectionEvaluation.

(** A pending request as Unipile lists it: a dict of texts. *)
Definition ConnectionRequest : Type := gmap string string.

(** The calls to Unipile that change something. *)
Inductive UnipileCall :=
  | AcceptRequest (request_id : string)
  | RejectRequest (request_id : string).

(** The CRM and the calls made to Unipile so far. *)
Record ConnState := mkConn {
  cs_crm : CRM;
  cs_unipile : list UnipileCall
}.

Module ConnectionStats.
Record t := mk {
  total : Z;
  accepted : Z;
  rejected : Z;
  errors : Z
}.
End ConnectionStats.

(** The handler with its collaborators: the evaluator (it is given fields
    of the request) and the three calls to Unipile, each of which may
    raise. *)
Module ConnectionRequestHandler.
Record t := mk {
  evaluator : ConnectionRequest -> Result ConnectionEvaluation.t;
  fetch_pending_requests : Result (list ConnectionRequest);
  accept_request : string -> Result unit;
  reject_request : string -> Result unit;
  auto_accept : bool;
  min_icp_confidence : Q
}.
End ConnectionRequestHandler.

Definition unipile (call : UnipileCall) (st : ConnState) : ConnState :=
  mkConn (cs_crm st) (cs_unipile st ++ [call]).

(** The contact of an accepted request. *)
Definition connection_contact (req : ConnectionRequest)
    (evaluation : ConnectionEvaluation.t) : ContactRecord.t :=
  let name := default (default "" (req !! "sender_name")) (req !! "name") in
  let headline := default "" (req !! "headline") in
  let company := default "" (req !! "company") in
  let linkedin_url := default (default "" (req !! "profile_url")) (req !! "linkedin_url") in
  ContactRecord.mk None name None (Some linkedin_url) (Some company) (Some headline)
    SourceChannel.LINKEDIN (ConnectionEvaluation.lead_category evaluation)
    ConversationStage.NEW (ConnectionEvaluation.confidence evaluation) "" ""
    (ConnectionEvaluation.reasoning evaluation) None None 0 "" 0 None None "" None.

(** [_process_single_request]: the counters are raised at the end of a
    branch, so that an exception leaves them as they were. *)
Definition _process_single_request (self : ConnectionRequestHandler.t)
    (req : ConnectionRequest) (stats : ConnectionStats.t) (st : ConnState)
    : Result ConnectionStats.t * ConnState :=
  let request_id := default "" (req !! "id") in
  match ConnectionRequestHandler.evaluator self req with
  | Err e => (Err e, st)
  | Ok evaluation =>
      if ConnectionEvaluation.accept evaluation
         && ConnectionRequestHandler.auto_accept self
         && Qle_bool (ConnectionRequestHandler.min_icp_confidence self)
              (ConnectionEvaluation.confidence evaluation)
      then
        let st1 := unipile (AcceptRequest request_id) st in
        match ConnectionRequestHandler.accept_request self request_id with
        | Err e => (Err e, st1)
        | Ok _ =>
            let '(contact, c1) :=
              upsert_contact (connection_contact req evaluation) (cs_crm st1) in
            let c2 :=
              log_audit (AuditLogEntry.mk AuditAction.AUTO_ACCEPTED
                           (ContactRecord.id contact) None) c1 in
            (Ok (ConnectionStats.mk (ConnectionStats.total stats)
                   (ConnectionStats.accepted stats + 1) (ConnectionStats.rejected stats)
                   (ConnectionStats.errors stats)),
             mkConn c2 (cs_unipile st1))
        end
      else
        let rejected :=
          ConnectionStats.mk (ConnectionStats.total stats)
            (ConnectionStats.accepted stats) (ConnectionStats.rejected stats + 1)
            (ConnectionStats.errors stats) in
        if negb (ConnectionEvaluation.accept evaluation)
        then
          let st1 := unipile (RejectRequest request_id) st in
          match ConnectionRequestHandler.reject_request self request_id with
          | Err e => (Err e, st1)
          | Ok _ =>
              (Ok rejected,
               mkConn (log_audit (AuditLogEntry.mk AuditAction.AUTO_REJECTED None None)
                         (cs_crm st1))
                 (cs_unipile st1))
          end
        else
          let st1 := unipile (AcceptRequest request_id) st in
          match ConnectionRequestHandler.accept_request self request_id with
          | Err e => (Err e, st1)
          | Ok _ => (Ok rejected, st1)
          end
  end.

(** One turn of the loop of [process_requests]. *)
Definition process_requests_step (self : ConnectionRequestHandler.t)
    (acc : ConnectionStats.t * ConnState) (req : ConnectionRequest)
    : ConnectionStats.t * ConnState :=
  let '(stats, st) := acc in
  match _process_single_request self req stats st with
  | (Ok stats', st') => (stats', st')
  | (Err _, st') =>
      (ConnectionStats.mk (ConnectionStats.total stats) (ConnectionStats.accepted stats)
         (ConnectionStats.rejected stats) (ConnectionStats.errors stats + 1), st')
  end.

Definition process_requests (self : ConnectionRequestHandler.t) (st : ConnState)
    : ConnectionStats.t * ConnState :=
  let stats := ConnectionStats.mk 0 0 0 0 in
  match ConnectionRequestHandler.fetch_pending_requests self with
  | Err _ => (stats, st)
  | Ok requests_list =>
      let stats1 :=
        ConnectionStats.mk (Z.of_nat (length requests_list)) 0 0 0 in
      match requests_list with
      | [] => (stats1, st)
      | _ :: _ => foldl (process_requests_step self) (stats1, st) requests_list
      end
  end.

(** The call to Unipile that the evaluation of a request leads to. *)
Definition decided (self : ConnectionRequestHandler.t) (req : ConnectionRequest)
    : list UnipileCall :=
  match ConnectionRequestHandler.evaluator self req with
  | Ok evaluation =>
      [if ConnectionEvaluation.accept evaluation
       then AcceptRequest (default "" (req !! "id"))
       else RejectRequest (default "" (req !! "id"))]
  | Err _ => []
  end.

(** The same handler with other settings. *)
Definition with_settings (auto_accept : bool) (min_icp_confidence : Q)
    (self : ConnectionRequestHandler.t) : ConnectionRequestHandler.t :=
  ConnectionRequestHandler.mk (ConnectionRequestHandler.evaluator self)
    (ConnectionRequestHandler.fetch_pending_requests self)
    (ConnectionRequestHandler.accept_request self)
    (ConnectionRequestHandler.reject_request self) auto_accept min_icp_confidence.

(** ** Merging enrichment data ([sdr/enrichment/enricher.py]) *)

(** The values of an enrichment dict. *)
Inductive JValue :=
  | JNull
  | JBool (b : bool)
  | JNum (q : Q)
  | JStr (s : string)
  | JList (l : list string)
  | JDict (d : gmap string string).

(** Truthiness of a value. *)
Definition jtruthy (v : JValue) : bool :=
  match v with
  | JNull => false
  | JBool b => b
  | JNum q => negb (Qeq_bool q 0)
  | JStr s => nonempty s
  | JList l => match l with [] => false | _ :: _ => true end
  | JDict d => negb (bool_decide (d = ∅))
  end.

(** Truthiness of [d.get(key)]. *)
Definition jtruthy_get (d : gmap string JValue) (key : string) : bool :=
  match d !! key with
  | Some v => jtruthy v
  | None => false
  end.

(** One turn of the loop of [_merge]. *)
Definition _merge_step (key : string) (value : JValue) (merged : gmap string JValue)
    : gmap string JValue :=
  if String.eqb key "_sources" then merged
  else if negb (jtruthy_get merged key) && jtruthy value then <[key := value]> merged
  else merged.

(** [sources.append(source)] raises on a value that is not a list. *)
Definition _merge (existing new_data : gmap string JValue) (source : string)
    : Result (gmap string JValue) :=
  let sources := default (JList []) (existing !! "_sources") in
  let appended :=
    if nonempty source
    then match sources with
         | JList l => Ok (JList (l ++ [source]))
         | _ => Err "AttributeError"
         end
    else Ok sources in
  match appended with
  | Err e => Err e
  | Ok sources' =>
      Ok (map_fold _merge_step (<["_sources" := sources']> existing) new_data)
  end.

(** [d.get("_sources", [])] of a dict that [_merge] has built. *)
Definition sources_of (d : gmap string JValue) : option (list string) :=
  match d !! "_sources" with
  | None => Some []
  | Some (JList l) => Some l
  | Some _ => None
  end.

(** What [_merge] leaves under a key other than [_sources]. *)
Definition first_truthy (old new : option JValue) : option JValue :=
  match old, new with
  | Some v, _ => if jtruthy v then Some v
                 else match new with
                      | Some n => if jtruthy n then Some n else Some v
                      | None => Some v
                      end
  | None, Some n => if jtruthy n then Some n else None
  | None, None => None
  end.

(** ** The body of a Gmail message ([sdr/sources/gmail.py]) *)

(** A MIME part of a payload: its type, [body.data] and its parts. *)
#[warnings="-register-all"]
Inductive Part :=
  | mkPart (mimeType : string) (body_data : option string) (parts : list Part).

Definition mimeType (p : Part) : string := let '(mkPart m _ _) := p in m.
Definition body_data (p : Part) : option string := let '(mkPart _ d _) := p in d.
Definition parts (p : Part) : list Part := let '(mkPart _ _ ps) := p in ps.

(** The number of parts of a tree, and of a stack of trees. *)
Fixpoint part_size (p : Part) : nat :=
  match p with
  | mkPart _ _ ps =>
      S ((fix sizes (l : list Part) : nat :=
            match l with
            | [] => 0
            | x :: r => part_size x + sizes r
            end) ps)
  end.

Definition stack_size (l : list Part) : nat :=
  (fix sizes (l : list Part) : nat :=
     match l with
     | [] => 0
     | x :: r => part_size x + sizes r
     end) l.

(** The order in which the loop meets the parts of a tree: the part,
    then its parts from the last to the first, each in that order. *)
Fixpoint visit_part (p : Part) : list Part :=
  match p with
  | mkPart _ _ ps =>
      p :: (fix go (l : list Part) : list Part :=
              match l with
              | [] => []
              | x :: r => go r ++ visit_part x
              end) ps
  end.

Definition visit (l : list Part) : list Part :=
  (fix go (l : list Part) : list Part :=
     match l with
     | [] => []
     | x :: r => go r ++ visit_part x
     end) l.

(** [stack.pop()]: the last element and the rest. *)
Definition pop {A : Type} (stack : list A) : option (A * list A) :=
  match last stack with
  | Some x => Some (x, removelast stack)
  | None => None
  end.

Section ExtractBody.
(** [_decode]: [base64.urlsafe_b64decode] raises on text that is not
    base64. *)
Variable _decode : string -> Result string.

(** The body of the loop, on the part popped. *)
Definition scan_part (part : Part) (found : option string * option string)
    : Result (option string * option string) :=
  let '(plain, html) := found in
  let part_mime := mimeType part in
  let part_data := body_data part in
  if truthy part_data && String.eqb part_mime "text/plain"
     && negb (bool_decide (is_Some plain))
  then match _decode (or_empty part_data) with
       | Ok s => Ok (Some s, html)
       | Err e => Err e
       end
  else if truthy part_data && String.eqb part_mime "text/html"
          && negb (bool_decide (is_Some html))
  then match _decode (or_empty part_data) with
       | Ok s => Ok (plain, Some s)
       | Err e => Err e
       end
  else Ok found.

(** [while stack: ...]; a turn of the loop uses one unit of [fuel]. *)
Fixpoint walk (fuel : nat) (stack : list Part) (found : option string * option string)
    : option (Result (option string * option string)) :=
  match pop stack with
  | None => Some (Ok found)
  | Some (part, rest) =>
      match fuel with
      | O => None
      | S fuel' =>
          match scan_part part found with
          | Err e => Some (Err e)
          | Ok found' => walk fuel' (rest ++ parts part) found'
          end
      end
  end.

Definition _extract_body (fuel : nat) (payload : Part) : option (Result string) :=
  let mime_type := mimeType payload in
  let data := body_data payload in
  if truthy data && String.eqb mime_type "text/plain"
  then Some (_decode (or_empty data))
  else
    match walk fuel (parts payload) (None, None) with
    | None => None
    | Some (Err e) => Some (Err e)
    | Some (Ok (Some plain, _)) => Some (Ok plain)
    | Some (Ok (None, Some html)) => Some (Ok html)
    | Some (Ok (None, None)) =>
        if truthy data then Some (_decode (or_empty data)) else Some (Ok "")
    end.

(** The loop over the parts in the order in which it meets them. *)
Fixpoint scan (order : list Part) (found : option string * option string)
    : Result (option string * option string) :=
  match order with
  | [] => Ok found
  | part :: rest =>
      match scan_part part found with
      | Err e => Err e
      | Ok found' => scan rest found'
      end
  end.
End ExtractBody.

(** A part of the given type that carries data. *)
Definition has_data (mime : string) (p : Part) : bool :=
  truthy (body_data p) && String.eqb (mimeType p) mime.

(** A message in two versions with a text file attached. *)
Definition alternative_with_attachment : Part :=
  mkPart "multipart/mixed" None
    [mkPart "multipart/alternative" None
       [mkPart "text/plain" (Some "body") []; mkPart "text/html" (Some "<p>body</p>") []];
     mkPart "text/plain" (Some "attachment") []].

(** * Properties *)

(** ** The monad *)

Lemma bind_Ok {A B : Type} (m : M A) (k : A -> M B) w b w' :
  bind m k w = (Ok b, w') ->
  exists a w1, m w = (Ok a, w1) /\ k a w1 = (Ok b, w').
Proof.
  unfold bind. destruct (m w) as [[a|e] w1]; intros H.
  - eauto.
  - discriminate.
Qed.


Section Steps.
Context (R : World -> World -> Prop).
Hypothesis R_refl : forall w, R w w.
Hypothesis R_trans : forall w1 w2 w3, R w1 w2 -> R w2 w3 -> R w1 w3.

Lemma steps_ret {A : Type} (a : A) : steps R (ret a).
Proof using R_refl. intros w r w' [= _ <-]. apply R_refl. Qed.

Lemma steps_bind {A B : Type} (m : M A) (k : A -> M B) :
  steps R m -> (forall a, steps R (k a)) -> steps R (bind m k).
Proof using R_trans.
  intros Hm Hk w r w'. unfold bind.
  destruct (m w) as [[a|e] w1] eqn:E; intros H.
  - eapply R_trans; [eapply Hm, E | eapply Hk, H].
  - injection H as _ <-. eapply Hm, E.
Qed.

Lemma steps_crm_get {A : Type} (f : CRM -> A) : steps R (crm_get f).
Proof using R_refl. intros w r w' [= _ <-]. apply R_refl. Qed.
End Steps.

(** ** The ledger *)

Lemma is_message_processed_iff source source_message_id d :
  is_message_processed source source_message_id d = true
  <-> is_Some (processed_messages d !! (source, source_message_id)).
Proof.
  unfold is_message_processed.
  destruct (processed_messages d !! _); split; intros H; eauto.
  - discriminate.
  - destruct H; discriminate.
Qed.

Lemma processed_after_mark_failed source source_message_id e d :
  is_message_processed source source_message_id
    (mark_message_failed source source_message_id e d) = true.
Proof.
  apply is_message_processed_iff. unfold mark_message_failed. simpl.
  rewrite lookup_insert_eq. eauto.
Qed.

Lemma processed_after_mark_processed source source_message_id st mi ci d :
  is_message_processed source source_message_id
    (mark_message_processed source source_message_id st mi ci d) = true.
Proof.
  apply is_message_processed_iff. unfold mark_message_processed. simpl.
  rewrite lookup_insert_eq. eauto.
Qed.

Lemma ledger_grows_refl d : ledger_grows d d.
Proof. intros k H. exact H. Qed.

Lemma ledger_grows_trans d1 d2 d3 :
  ledger_grows d1 d2 -> ledger_grows d2 d3 -> ledger_grows d1 d3.
Proof. intros H1 H2 k H. apply H2, H1, H. Qed.

Lemma ledger_grows_insert k row d :
  ledger_grows d (mkDB (<[k := row]> (processed_messages d)) (learning_log d)
                    (local_audit d)).
Proof.
  intros k' H. simpl. destruct (decide (k = k')) as [->|Hne].
  - rewrite lookup_insert_eq. eauto.
  - rewrite lookup_insert_ne; auto.
Qed.

Lemma ledger_grows_mark_failed s i e d : ledger_grows d (mark_message_failed s i e d).
Proof. apply ledger_grows_insert. Qed.

Lemma ledger_grows_mark_processed s i st mi ci d :
  ledger_grows d (mark_message_processed s i st mi ci d).
Proof. apply ledger_grows_insert. Qed.

(** ** What the pipeline leaves alone *)

Lemma db_grows_refl w : db_grows w w.
Proof. apply ledger_grows_refl. Qed.

Lemma db_grows_trans w1 w2 w3 : db_grows w1 w2 -> db_grows w2 w3 -> db_grows w1 w3.
Proof. apply ledger_grows_trans. Qed.

Lemma messages_same_refl w : messages_same w w.
Proof. reflexivity. Qed.

Lemma messages_same_trans w1 w2 w3 :
  messages_same w1 w2 -> messages_same w2 w3 -> messages_same w1 w3.
Proof. unfold messages_same. congruence. Qed.

Lemma steps_crm_do_db (f : CRM -> CRM) : steps db_grows (crm_do f).
Proof. intros w r w' [= _ <-]. apply ledger_grows_refl. Qed.

Lemma steps_crm_call_db {A : Type} (f : CRM -> A * CRM) : steps db_grows (crm_call f).
Proof.
  intros w r w'. unfold crm_call. destruct (f (w_crm w)). intros [= _ <-].
  apply ledger_grows_refl.
Qed.

Lemma steps_external_db {A : Type} c (r : Result A) : steps db_grows (external c r).
Proof. intros w r' w' [= _ <-]. apply ledger_grows_refl. Qed.

Lemma steps_db_do_db (f : DB -> DB) :
  (forall d, ledger_grows d (f d)) -> steps db_grows (db_do f).
Proof. intros Hf w r w' [= _ <-]. apply Hf. Qed.

Lemma messages_table_update_contact i f c :
  messages_table (update_contact i f c) = messages_table c.
Proof. destruct i; reflexivity. Qed.

Lemma messages_table_log_audit e c : messages_table (log_audit e c) = messages_table c.
Proof. reflexivity. Qed.

Lemma messages_table_upsert_contact contact c :
  messages_table (upsert_contact contact c).2 = messages_table c.
Proof.
  unfold upsert_contact.
  repeat match goal with
         | |- context [match ?x with _ => _ end] => destruct x; simpl
         end; reflexivity.
Qed.

Lemma steps_crm_do_messages (f : CRM -> CRM) :
  (forall c, messages_table (f c) = messages_table c) ->
  steps messages_same (crm_do f).
Proof. intros Hf w r w' [= _ <-]. apply Hf. Qed.

Lemma steps_crm_call_messages {A : Type} (f : CRM -> A * CRM) :
  (forall c, messages_table (f c).2 = messages_table c) ->
  steps messages_same (crm_call f).
Proof.
  intros Hf w r w'. unfold crm_call. specialize (Hf (w_crm w)).
  destruct (f (w_crm w)). intros [= _ <-]. exact Hf.
Qed.

Lemma steps_external_messages {A : Type} c (r : Result A) :
  steps messages_same (external c r).
Proof. intros w r' w' [= _ <-]. reflexivity. Qed.

Lemma steps_db_do_messages (f : DB -> DB) : steps messages_same (db_do f).
Proof. intros w r w' [= _ <-]. reflexivity. Qed.

(** Splitting a computation along its binds and branches. *)
Ltac steps_split refl trans leaf :=
  repeat first
    [ solve [leaf]
    | apply (steps_ret _ refl)
    | apply (steps_crm_get _ refl)
    | match goal with
      | |- steps _ (bind _ _) => apply (steps_bind _ trans); [| intros ?]
      | |- steps _ (match ?x with _ => _ end) => destruct x
      end ].

Lemma steps_audit_db a ci mi : steps db_grows (audit a ci mi).
Proof. apply steps_crm_do_db. Qed.

Lemma steps_audit_messages a ci mi : steps messages_same (audit a ci mi).
Proof. apply steps_crm_do_messages. intros c. reflexivity. Qed.

Lemma steps_upsert_contact_db message : steps db_grows (_upsert_contact message).
Proof.
  unfold _upsert_contact. cbv zeta.
  steps_split db_grows_refl db_grows_trans
    ltac:(auto using steps_crm_do_db, steps_crm_call_db, steps_audit_db).
Qed.

Lemma steps_upsert_contact_messages message :
  steps messages_same (_upsert_contact message).
Proof.
  unfold _upsert_contact. cbv zeta.
  steps_split messages_same_refl messages_same_trans
    ltac:(auto using steps_audit_messages).
  - apply steps_crm_do_messages. intros c. apply messages_table_update_contact.
  - apply steps_crm_call_messages. intros c. apply messages_table_upsert_contact.
Qed.

Lemma steps_enrich_contact_db enrich contact :
  steps db_grows (_enrich_contact enrich contact).
Proof.
  intros w r w'. unfold _enrich_contact.
  destruct (enrich _ _ _ _) as [[data|]|e]; intros [= _ <-]; apply ledger_grows_refl.
Qed.

Lemma steps_enrich_contact_messages enrich contact :
  steps messages_same (_enrich_contact enrich contact).
Proof.
  intros w r w'. unfold _enrich_contact.
  destruct (enrich _ _ _ _) as [[data|]|e]; try (intros [= _ <-]; reflexivity).
  intros [= _ <-]. unfold messages_same. simpl. apply messages_table_update_contact.
Qed.

Lemma steps_classify_db self message e contact :
  steps db_grows (_classify self message e contact).
Proof. apply steps_external_db. Qed.

Lemma steps_classify_messages self message e contact :
  steps messages_same (_classify self message e contact).
Proof. apply steps_external_messages. Qed.

Lemma steps_draft_reply_db self message cl e : steps db_grows (_draft_reply self message cl e).
Proof. apply steps_external_db. Qed.

Lemma steps_draft_reply_messages self message cl e :
  steps messages_same (_draft_reply self message cl e).
Proof. apply steps_external_messages. Qed.

Lemma ledger_grows_log_local_audit e d : ledger_grows d (log_local_audit e d).
Proof. intros k H. exact H. Qed.

Lemma steps_process_message_body_db self message :
  steps db_grows (process_message_body self message).
Proof.
  unfold process_message_body. cbv zeta.
  steps_split db_grows_refl db_grows_trans
    ltac:(auto using steps_upsert_contact_db, steps_enrich_contact_db, steps_classify_db,
            steps_draft_reply_db, steps_crm_do_db, steps_crm_call_db, steps_audit_db,
            steps_db_do_db, ledger_grows_mark_processed, ledger_grows_log_local_audit).
Qed.

(** ** Field maps *)

Lemma lookup_set_if_ne b k v (f : gmap string value) k' :
  k <> k' -> set_if b k v f !! k' = f !! k'.
Proof. intros H. unfold set_if. destruct b; [apply lookup_insert_ne, H | reflexivity]. Qed.

Lemma lookup_set_str_ne k o (f : gmap string value) k' :
  k <> k' -> set_str k o f !! k' = f !! k'.
Proof. apply lookup_set_if_ne. Qed.

Lemma lookup_set_date_ne k o (f : gmap string value) k' :
  k <> k' -> set_date k o f !! k' = f !! k'.
Proof.
  intros H. unfold set_date. destruct o; [apply lookup_insert_ne, H | reflexivity].
Qed.

(** Looking a key up through the layers of a literal field map. *)
Ltac lookup_fields :=
  repeat first
    [ rewrite lookup_insert_eq
    | rewrite lookup_insert_ne by discriminate
    | rewrite lookup_set_if_ne by discriminate
    | rewrite lookup_set_str_ne by discriminate
    | rewrite lookup_set_date_ne by discriminate
    | rewrite lookup_empty ].


(** ** Creating a message *)




(** ** The body of [process_message] *)

(** Inverting a successful bind. *)
Ltac bind_ok H a w1 H1 :=
  apply bind_Ok in H as (a & w1 & H1 & H); cbv beta in H.

(** A successful run of the body creates the message once, on the Messages
    table it found, and leaves the key in the ledger. *)
Lemma process_message_body_Ok self message w r w' :
  process_message_body self message w = (Ok r, w') ->
  exists m c1,
    MessageRecord.direction m = MessageDirection.INBOUND
    /\ MessageRecord.source_message_id m = InboundMessage.source_message_id message
    /\ messages_table c1 = messages_table (w_crm w)
    /\ messages_table (w_crm w') = messages_table (create_message m c1).2
    /\ r = MessageRecord.id (create_message m c1).1
    /\ is_message_processed (message_key message).1 (message_key message).2 (w_db w') = true.
Proof.
  unfold process_message_body. cbv zeta. intros H.
  bind_ok H contact w1 Hupsert. bind_ok H enrichment w2 Henrich.
  bind_ok H classification w3 Hclassify. bind_ok H draft w4 Hdraft.
  bind_ok H rec w5 Hcreate. bind_ok H u1 w6 Hupdate. bind_ok H u2 w7 Hmark.
  assert (Hpre : messages_table (w_crm w4) = messages_table (w_crm w)).
  { apply steps_upsert_contact_messages in Hupsert.
    assert (messages_same w1 w2) as He.
    { destruct (InboundPipeline.enricher self).
      - eapply steps_enrich_contact_messages, Henrich.
      - injection Henrich as _ <-. reflexivity. }
    apply steps_classify_messages in Hclassify.
    assert (messages_same w3 w4) as Hd.
    { destruct (LeadClassification.should_reply classification).
      - bind_ok Hdraft d w34 Hd. apply steps_draft_reply_messages in Hd.
        injection Hdraft as _ <-. exact Hd.
      - injection Hdraft as _ <-. reflexivity. }
    unfold messages_same in *. congruence. }
  assert (Hpost : messages_same w7 w' /\ db_grows w7 w').
  { match type of H with
    | ?m _ = _ =>
        assert (steps messages_same m) as Hm
          by (steps_split messages_same_refl messages_same_trans
                ltac:(auto using steps_audit_messages, steps_db_do_messages));
        assert (steps db_grows m) as Hd
          by (steps_split db_grows_refl db_grows_trans
                ltac:(auto using steps_audit_db, steps_db_do_db,
                        ledger_grows_log_local_audit))
    end.
    split; [eapply Hm, H | eapply Hd, H]. }
  destruct Hpost as [Hpm Hpd].
  unfold crm_call in Hcreate.
  match type of Hcreate with
  | context [create_message ?m ?c] =>
      exists m, c; destruct (create_message m c) as [rec' c'] eqn:Ecm
  end.
  injection Hcreate as -> <-. injection Hupdate as _ <-. injection Hmark as _ <-.
  simpl. repeat split.
  - exact Hpre.
  - rewrite Hpm. simpl. apply messages_table_update_contact.
  - bind_ok H u3 w8 Ha1. bind_ok H u4 w9 Ha2. bind_ok H u5 w10 Ha3.
    bind_ok H u6 w11 Hla. injection H as <- _. reflexivity.
  - apply is_message_processed_iff, Hpd, is_message_processed_iff.
    apply processed_after_mark_processed.
Qed.



(** ** [process_message] *)

Lemma process_message_seen self message w :
  is_message_processed (message_key message).1 (message_key message).2 (w_db w) = true ->
  process_message self message w = (None, w).
Proof. unfold process_message, message_key. simpl. intros ->. reflexivity. Qed.

Lemma process_message_db_grows self message w :
  db_grows w (process_message self message w).2.
Proof.
  unfold process_message. destruct (is_message_processed _ _ _).
  - apply db_grows_refl.
  - destruct (process_message_body self message w) as [[r|e] w'] eqn:E; simpl.
    + eapply steps_process_message_body_db, E.
    + eapply db_grows_trans.
      * eapply steps_process_message_body_db, E.
      * apply ledger_grows_mark_failed.
Qed.

(** Whatever happened, the key is in the ledger afterwards. *)
Lemma process_message_marks self message w :
  is_message_processed (message_key message).1 (message_key message).2
    (w_db (process_message self message w).2) = true.
Proof.
  unfold process_message, message_key. simpl.
  destruct (is_message_processed _ _ (w_db w)) eqn:Eseen; [exact Eseen |].
  destruct (process_message_body self message w) as [[r|e] w'] eqn:E; simpl.
  - apply process_message_body_Ok in E as (m & c1 & _ & _ & _ & _ & _ & Hp). exact Hp.
  - apply processed_after_mark_failed.
Qed.







(** ** [process_batch] *)

Lemma process_batch_step_total self acc msg :
  BatchStats.total (process_batch_step self acc msg).1 = BatchStats.total acc.1.
Proof.
  unfold process_batch_step. destruct acc as [stats w].
  destruct (process_message self msg w) as [[i|] w']; [reflexivity |].
  destruct (is_message_processed _ _ _); reflexivity.
Qed.

Lemma process_batch_step_db_grows self acc msg :
  db_grows acc.2 (process_batch_step self acc msg).2.
Proof.
  unfold process_batch_step. destruct acc as [stats w].
  pose proof (process_message_db_grows self msg w) as H.
  destruct (process_message self msg w) as [[i|] w']; [exact H |].
  destruct (is_message_processed _ _ _); exact H.
Qed.

(** A turn never counts a failure: after [process_message] the key is in
    the ledger, so a null result is always taken for a skip. *)
Lemma process_batch_step_counts self acc msg :
  let stats := acc.1 in
  let stats' := (process_batch_step self acc msg).1 in
  BatchStats.failed stats' = BatchStats.failed stats
  /\ (BatchStats.processed stats' + BatchStats.skipped stats'
      = BatchStats.processed stats + BatchStats.skipped stats + 1)%Z.
Proof.
  unfold process_batch_step. destruct acc as [stats w]. simpl.
  pose proof (process_message_marks self msg w) as Hm. unfold message_key in Hm.
  simpl in Hm.
  destruct (process_message self msg w) as [[i|] w']; simpl in *.
  - split; [reflexivity | lia].
  - rewrite Hm. simpl. split; [reflexivity | lia].
Qed.

Lemma process_batch_fold self messages acc :
  let out := foldl (process_batch_step self) acc messages in
  BatchStats.total out.1 = BatchStats.total acc.1
  /\ BatchStats.failed out.1 = BatchStats.failed acc.1
  /\ (BatchStats.processed out.1 + BatchStats.skipped out.1
      = BatchStats.processed acc.1 + BatchStats.skipped acc.1
        + Z.of_nat (length messages))%Z
  /\ db_grows acc.2 out.2.
Proof.
  revert acc. induction messages as [|msg messages IH]; intros acc; simpl.
  - repeat split; try lia. apply db_grows_refl.
  - destruct (IH (process_batch_step self acc msg)) as (Ht & Hf & Hc & Hg).
    destruct (process_batch_step_counts self acc msg) as [Hf1 Hc1].
    pose proof (process_batch_step_total self acc msg) as Ht1.
    pose proof (process_batch_step_db_grows self acc msg) as Hg1.
    simpl in *. repeat split; try lia.
    eapply db_grows_trans; eassumption.
Qed.

(** What [process_batch] really returns: the total is the length of the
    list and every message is counted once, but only ever as processed
    or skipped. *)
Lemma process_batch_stats self messages w :
  let stats := (process_batch self messages w).1 in
  BatchStats.total stats = Z.of_nat (length messages)
  /\ BatchStats.failed stats = 0%Z
  /\ (BatchStats.processed stats + BatchStats.skipped stats
      = Z.of_nat (length messages))%Z.
Proof.
  unfold process_batch.
  destruct (process_batch_fold self messages
              (BatchStats.mk (Z.of_nat (length messages)) 0 0 0, w))
    as (Ht & Hf & Hc & _).
  simpl in *. repeat split; lia.
Qed.

(** C2, at the failing input. The classifier raises on the only message
    of the batch: the body of [process_message] fails, the ledger row is
    marked failed, and the batch counts the message as skipped, not as
    failed. *)
Theorem process_batch_counts_failure_as_skipped :
  is_message_processed "Gmail" "msg_001" (w_db empty_world) = false
  /\ (process_message_body failing_pipeline sample_gmail_message empty_world).1
     = Err "API error"
  /\ (LedgerRow.status
        <$> processed_messages
              (w_db (process_batch failing_pipeline [sample_gmail_message] empty_world).2)
            !! ("Gmail", "msg_001")) = Some "failed"
  /\ (process_batch failing_pipeline [sample_gmail_message] empty_world).1
     = BatchStats.mk 1 0 1 0.
Proof. vm_compute. repeat split; reflexivity. Qed.

(** ** Failed messages *)

(** C10. The idempotency check looks only at the presence of a ledger
    row, whatever its status; so once a failure has been recorded for a
    key, whatever the pipeline processes afterwards, every later call of
    [process_message] with that key returns null and leaves the world as
    it was: no CRM write, no ledger write, no collaborator called. *)
Theorem failed_messages_never_retried :
  (forall source source_message_id d,
     is_message_processed source source_message_id d = true
     <-> is_Some (processed_messages d !! (source, source_message_id)))
  /\ (forall self between self' message message' e w,
        message_key message' = message_key message ->
        let recorded :=
          mkWorld (w_crm w)
            (mark_message_failed (message_key message).1 (message_key message).2 e
               (w_db w))
            (w_calls w) in
        let later := (process_batch self between recorded).2 in
        process_message self' message' later = (None, later)).
Proof.
  split; [apply is_message_processed_iff |].
  intros self between self' message message' e w Hkey recorded later.
  apply process_message_seen. rewrite Hkey.
  apply is_message_processed_iff.
  destruct (process_batch_fold self between
              (BatchStats.mk (Z.of_nat (length between)) 0 0 0, recorded))
    as (_ & _ & _ & Hg).
  apply Hg. apply (proj1 (is_message_processed_iff _ _ _)).
  apply processed_after_mark_failed.
Qed.

Lemma failed_messages_never_retried_witness :
  message_key sample_gmail_message = message_key sample_gmail_message
  /\ let recorded :=
       mkWorld empty_crm (mark_message_failed "Gmail" "msg_001" "API error" empty_db) [] in
     process_message mock_pipeline sample_gmail_message recorded = (None, recorded).
Proof.
  split; [reflexivity |].
  exact (proj2 failed_messages_never_retried mock_pipeline [] mock_pipeline
           sample_gmail_message sample_gmail_message "API error" empty_world eq_refl).
Defined.

(** ** Edit distance *)

Lemma nonempty_true s : s <> "" -> nonempty s = true.
Proof.
  intros H. unfold nonempty. destruct (String.eqb_spec s ""); [contradiction | reflexivity].
Qed.






(** The distance for some ratios, as Python computes it.  For the ratio
    0.1375 the difference of the floats lies above 0.8625 and the result
    is the float 0.863, not 0.862; for 0.9985 it is the float 0.001; for
    0.5 it is one half, and for a third it is the float 0.667. *)
Example compute_edit_distance_floats :
  compute_edit_distance (fun _ _ => 1375 # 10000) "ab" "cd"
  = (1943303239210369 # 2251799813685248)%Q
  /\ float_of_Q (863 # 1000) = S754_finite false 7773212956841476 (-53)
  /\ Q_of_float (float_of_Q (863 # 1000)) = (1943303239210369 # 2251799813685248)%Q
  /\ compute_edit_distance (fun _ _ => 9985 # 10000) "ab" "cd"
     = Q_of_float (float_of_Q (1 # 1000))
  /\ compute_edit_distance (fun _ _ => 1 # 2) "ab" "cd" = (1 # 2)%Q
  /\ compute_edit_distance (fun _ _ => 1 # 3) "ab" "cd"
     = Q_of_float (float_of_Q (667 # 1000)).
Proof. vm_compute. repeat split; reflexivity. Qed.

(** ** Merging an inbound message into a contact *)

(** C5. The update set of [merge_contact_data] has no entry for an
    identity field that is already filled on the contact; it always
    carries the interaction count plus one and the day of the message as
    last contact; and, for a message that comes from one of the two
    channels, it carries Source Channel = Both exactly when the contact
    is on the other single channel (nothing is written for a contact
    already at Both). *)
Theorem merge_never_overwrites existing message :
  InboundMessage.source message <> SourceChannel.BOTH ->
  let updates := merge_contact_data existing message in
  (truthy (ContactRecord.email existing) = true -> updates !! "Email" = None)
  /\ (truthy (ContactRecord.linkedin_url existing) = true ->
      updates !! "LinkedIn URL" = None)
  /\ (truthy (ContactRecord.company existing) = true -> updates !! "Company" = None)
  /\ (truthy (ContactRecord.title existing) = true -> updates !! "Title" = None)
  /\ updates !! "Interaction Count"
     = Some (VInt (ContactRecord.interaction_count existing + 1))
  /\ updates !! "Last Contact"
     = Some (VDate (date_of (InboundMessage.received_at message)))
  /\ (updates !! "Source Channel" = Some (VStr "Both")
      <-> ContactRecord.source_channel existing <> SourceChannel.BOTH
          /\ ContactRecord.source_channel existing <> InboundMessage.source message)
  /\ (updates !! "Source Channel" = Some (VStr "Both")
      \/ updates !! "Source Channel" = None)
  /\ (ContactRecord.source_channel existing = SourceChannel.BOTH ->
      updates !! "Source Channel" = None).
Proof.
  intros Hsingle updates. subst updates. unfold merge_contact_data.
  assert (Hchannel :
    forall f : gmap string value,
      f !! "Source Channel" = None ->
      set_if (should_update_source_channel existing message) "Source Channel"
        (VStr (SourceChannel.value SourceChannel.BOTH)) f !! "Source Channel"
      = if should_update_source_channel existing message
        then Some (VStr "Both") else None).
  { intros f Hf. unfold set_if.
    destruct (should_update_source_channel existing message);
      [apply lookup_insert_eq | exact Hf]. }
  assert (Hshould :
    should_update_source_channel existing message = true
    <-> ContactRecord.source_channel existing <> SourceChannel.BOTH
        /\ ContactRecord.source_channel existing <> InboundMessage.source message).
  { unfold should_update_source_channel.
    destruct (ContactRecord.source_channel existing),
      (InboundMessage.source message);
      split; try discriminate; try (intros [? ?]; contradiction);
      try reflexivity; try (split; discriminate);
      try (intros _; contradiction). }
  split; [| split; [| split; [| split; [| split; [| split]]]]].
  - intros H. lookup_fields. rewrite H. simpl. lookup_fields. reflexivity.
  - intros H. lookup_fields. rewrite H. simpl. lookup_fields. reflexivity.
  - intros H. lookup_fields. rewrite H. simpl. lookup_fields. reflexivity.
  - intros H. lookup_fields. rewrite H. simpl. lookup_fields. reflexivity.
  - lookup_fields. reflexivity.
  - lookup_fields. reflexivity.
  - rewrite lookup_insert_ne by discriminate. rewrite lookup_insert_ne by discriminate.
    rewrite Hchannel by (lookup_fields; reflexivity).
    split; [| split].
    + rewrite <- Hshould.
      destruct (should_update_source_channel existing message);
        split; try discriminate; reflexivity.
    + destruct (should_update_source_channel existing message); auto.
    + intros Hb.
      destruct (should_update_source_channel existing message); [| reflexivity].
      destruct (proj1 Hshould eq_refl) as [E _]. contradiction.
Qed.

Lemma merge_never_overwrites_witness :
  InboundMessage.source sample_gmail_message <> SourceChannel.BOTH
  /\ truthy (ContactRecord.email sample_contact) = true
  /\ merge_contact_data sample_contact sample_gmail_message !! "Email" = None
  /\ merge_contact_data sample_contact sample_gmail_message !! "Interaction Count"
     = Some (VInt 2)
  /\ merge_contact_data sample_contact sample_gmail_message !! "Source Channel"
     = Some (VStr "Both").
Proof.
  assert (Hs : InboundMessage.source sample_gmail_message <> SourceChannel.BOTH)
    by discriminate.
  destruct (merge_never_overwrites sample_contact sample_gmail_message Hs)
    as (He & _ & _ & _ & Hc & _ & Hb & _).
  split; [exact Hs |]. split; [reflexivity |]. split; [exact (He eq_refl) |].
  split; [exact Hc |].
  apply Hb. split; discriminate.
Defined.

(** ** Finding the existing contact *)

Lemma find_first {A : Type} (f : A -> bool) (l : list A) x :
  List.find f l = Some x <->
  exists l1 l2, l = l1 ++ x :: l2 /\ f x = true /\ (forall y, In y l1 -> f y = false).
Proof.
  induction l as [|a l IH]; simpl.
  - split; [discriminate |]. intros (l1 & l2 & H & _). destruct l1; discriminate.
  - destruct (f a) eqn:Ea.
    + split.
      * intros [= <-]. exists [], l. repeat split; auto. intros y [].
      * intros (l1 & l2 & H & Hx & Hl1). destruct l1 as [|b l1]; simpl in H.
        -- congruence.
        -- injection H as <- _. rewrite (Hl1 a) in Ea by (left; reflexivity).
           discriminate.
    + rewrite IH. split.
      * intros (l1 & l2 & -> & Hx & Hl1). exists (a :: l1), l2. repeat split; auto.
        intros y [<- | Hy]; auto.
      * intros (l1 & l2 & H & Hx & Hl1). destruct l1 as [|b l1]; simpl in H.
        -- injection H as <- _. congruence.
        -- injection H as _ ->. exists l1, l2. repeat split; auto.
           intros y Hy. apply Hl1. right. exact Hy.
Qed.

Lemma find_nowhere {A : Type} (f : A -> bool) (l : list A) :
  (forall x, In x l -> f x = false) -> List.find f l = None.
Proof.
  induction l as [|a l IH]; simpl; intros H; [reflexivity |].
  rewrite (H a) by (left; reflexivity). apply IH. intros x Hx. apply H. right. exact Hx.
Qed.

(** The order of matching, as the code has it. Matching goes by email, then by profile
    url, then by name, and stops at the first hit, so an email match wins
    over a profile-url match; a sender called "Unknown" is never matched
    by name; a single name candidate is the match; among several name
    candidates the match is the first one, in the order of the store,
    whose company equals the sender's ignoring case, and there is no
    match when the sender has no company or no candidate has it. *)
Theorem find_existing_contact_order message c :
  let name := InboundMessage.sender_name message in
  let candidates := find_contacts_by_name name c in
  let email := InboundMessage.sender_email message in
  let url := InboundMessage.sender_linkedin_url message in
  let no_email_match :=
    truthy email = false \/ find_contact_by_email (or_empty email) c = None in
  let no_url_match :=
    truthy url = false \/ find_contact_by_linkedin_url (or_empty url) c = None in
  (forall m, truthy email = true ->
     find_contact_by_email (or_empty email) c = Some m ->
     find_existing_contact message c = Some m)
  /\ (forall m1 m2,
        truthy email = true -> truthy url = true ->
        find_contact_by_email (or_empty email) c = Some m1 ->
        find_contact_by_linkedin_url (or_empty url) c = Some m2 ->
        find_existing_contact message c = Some m1)
  /\ (forall m, no_email_match -> truthy url = true ->
        find_contact_by_linkedin_url (or_empty url) c = Some m ->
        find_existing_contact message c = Some m)
  /\ (no_email_match -> no_url_match ->
      (name = "Unknown" -> find_existing_contact message c = None)
      /\ (name <> "" -> name <> "Unknown" ->
          (candidates = [] -> find_existing_contact message c = None)
          /\ (forall only, candidates = [only] ->
              find_existing_contact message c = Some only)
          /\ (2 <= length candidates ->
              (truthy (InboundMessage.sender_company message) = false ->
               find_existing_contact message c = None)
              /\ (truthy (InboundMessage.sender_company message) = true ->
                  let same :=
                    same_company (or_empty (InboundMessage.sender_company message)) in
                  ((forall x, In x candidates -> same x = false) ->
                   find_existing_contact message c = None)
                  /\ (forall l1 x l2,
                        candidates = l1 ++ x :: l2 -> same x = true ->
                        (forall y, In y l1 -> same y = false) ->
                        find_existing_contact message c = Some x))))).
Proof.
  intros name candidates email url no_email_match no_url_match.
  assert (Hemail : no_email_match -> match_by_email message c = None).
  { unfold match_by_email. fold email. intros [-> | ->]; [reflexivity |].
    destruct (truthy email); reflexivity. }
  assert (Hurl : no_url_match -> match_by_linkedin message c = None).
  { unfold match_by_linkedin. fold url. intros [-> | ->]; [reflexivity |].
    destruct (truthy url); reflexivity. }
  unfold find_existing_contact.
  split; [| split; [| split]].
  - intros m He H1. unfold match_by_email. fold email. rewrite He, H1. reflexivity.
  - intros m1 m2 He Hu H1 H2. unfold match_by_email. fold email.
    rewrite He, H1. reflexivity.
  - intros m Hno Hu H2. rewrite (Hemail Hno). unfold match_by_linkedin. fold url.
    rewrite Hu, H2. reflexivity.
  - intros Hnoe Hnou. rewrite (Hemail Hnoe), (Hurl Hnou).
    unfold match_by_name. fold name. split.
    + intros ->. simpl. reflexivity.
    + intros Hne Hunk. rewrite (nonempty_true name Hne).
      destruct (String.eqb_spec name "Unknown") as [|_]; [contradiction |]. simpl.
      fold candidates. split; [| split].
      * intros ->. reflexivity.
      * intros only ->. reflexivity.
      * intros Hlen.
        assert (Hmany :
          match candidates with
          | [] => None
          | [only] => Some only
          | _ :: _ :: _ =>
              if truthy (InboundMessage.sender_company message)
              then company_match (or_empty (InboundMessage.sender_company message))
                     candidates
              else None
          end
          = if truthy (InboundMessage.sender_company message)
            then company_match (or_empty (InboundMessage.sender_company message))
                   candidates
            else None).
        { destruct candidates as [|a [|b l]]; simpl in Hlen; try lia. reflexivity. }
        rewrite Hmany. split.
        -- intros ->. reflexivity.
        -- intros ->. cbv zeta. unfold company_match. split.
           ++ apply find_nowhere.
           ++ intros l1 x l2 Hc Hx Hl1. apply find_first. eauto.
Qed.

Lemma find_existing_contact_order_witness :
  match_by_email john_message two_johns = None
  /\ match_by_linkedin john_message two_johns = None
  /\ find_existing_contact john_message two_johns
     = Some (_record_to_contact (john_of_acme 1 "Acme")).
Proof.
  split; [reflexivity |]. split; [reflexivity |].
  destruct (find_existing_contact_order john_message two_johns) as (_ & _ & _ & H).
  destruct (H (or_introl eq_refl) (or_introl eq_refl)) as [_ H2].
  assert (Hn : InboundMessage.sender_name john_message <> "") by discriminate.
  assert (Hu : InboundMessage.sender_name john_message <> "Unknown") by discriminate.
  destruct (H2 Hn Hu) as (_ & _ & H3).
  destruct (H3 (le_n 2)) as [_ H4].
  destruct (H4 eq_refl) as [_ H5].
  exact (H5 [] (_record_to_contact (john_of_acme 1 "Acme"))
           [_record_to_contact (john_of_acme 2 "ACME")] eq_refl eq_refl
           (fun y (F : In y []) => match F with end)).
Defined.

(** C4. The code at an ambiguous name match. Two stored contacts are
    called John Smith and both work at Acme; a message comes from John
    Smith of Acme, without email address or profile url.  The company
    does not tell the two candidates apart, and the docstring (a name
    match counts "if unique"), the comment ("only if exactly one person
    with that name") and the warning for an ambiguous name match say
    that nothing is to be returned then; yet the loop over the
    candidates returns at the first one of the company, the contact of
    record 1. *)
Lemma find_existing_contact_guesses_same_company :
  match_by_email john_linkedin_message two_johns = None
  /\ match_by_linkedin john_linkedin_message two_johns = None
  /\ length (find_contacts_by_name "John Smith" two_johns) = 2
  /\ length (List.filter (same_company "Acme")
               (find_contacts_by_name "John Smith" two_johns)) = 2
  /\ (find_existing_contact john_linkedin_message two_johns ≫= ContactRecord.id) = Some 1
  /\ find_existing_contact john_linkedin_message two_johns <> None.
Proof. vm_compute. repeat split; try reflexivity. discriminate. Qed.

(** ** Reading a record back after a patch *)

Lemma table_get_rid i rows r : table_get i rows = Some r -> rid r = i.
Proof.
  unfold table_get. intros H. apply List.find_some in H as [_ H].
  apply Nat.eqb_eq, H.
Qed.

Lemma rid_patch i f r : rid (patch i f r) = rid r.
Proof. unfold patch. destruct (Nat.eqb _ _); reflexivity. Qed.

Lemma table_get_update i j f rows :
  table_get j (table_update i f rows) = patch i f <$> table_get j rows.
Proof.
  unfold table_get, table_update. induction rows as [|r rows IH]; simpl; [reflexivity |].
  rewrite rid_patch. destruct (Nat.eqb (rid r) j); [reflexivity | exact IH].
Qed.

Lemma patch_same i f r : rid r = i -> patch i f r = mkRecord i (f ∪ fields r).
Proof. intros <-. unfold patch. rewrite Nat.eqb_refl. reflexivity. Qed.

Lemma get_message_Some i c m :
  get_message i c = Some m ->
  exists j r, i = Some j /\ table_get j (messages_table c) = Some r
              /\ rid r = j /\ m = _record_to_message r.
Proof.
  unfold get_message. destruct i as [j|]; simpl; [| discriminate].
  destruct (table_get j (messages_table c)) as [r|] eqn:E; simpl; [| discriminate].
  intros [= <-]. exists j, r. repeat split; auto. eapply table_get_rid, E.
Qed.

Lemma get_message_update_message j f c r :
  table_get j (messages_table c) = Some r ->
  get_message (Some j) (update_message (Some j) f c)
  = Some (_record_to_message (mkRecord j (f ∪ fields r))).
Proof.
  intros H. unfold get_message, update_message. simpl.
  rewrite table_get_update, H. simpl. rewrite patch_same; [reflexivity |].
  eapply table_get_rid, H.
Qed.

Lemma get_contact_update_contact j f c r :
  table_get j (contacts_table c) = Some r ->
  get_contact j (update_contact (Some j) f c)
  = Some (_record_to_contact (mkRecord j (f ∪ fields r))).
Proof.
  intros H. unfold get_contact, update_contact. simpl.
  rewrite table_get_update, H. simpl. rewrite patch_same; [reflexivity |].
  eapply table_get_rid, H.
Qed.

Lemma get_str_union_l (f g : gmap string value) k v :
  f !! k = Some v -> (f ∪ g) !! k = Some v.
Proof. apply lookup_union_Some_l. Qed.

Lemma get_union_r (f g : gmap string value) k :
  f !! k = None -> (f ∪ g) !! k = g !! k.
Proof. apply lookup_union_r. Qed.

(** ** The outbound loop *)

Section OutboundFacts.
Variable sender : SendRequest -> Result unit.
Variable ratio : string -> string -> Q.
Variable now : datetime.


Lemma status_eqb_eq a b : MessageStatus.eqb a b = true -> a = b.
Proof. destruct a, b; (reflexivity || discriminate). Qed.

(** A message that is gone or no longer approved is left alone. *)
Lemma send_approved_skip msg w :
  (forall current, get_message (MessageRecord.id msg) (w_crm w) = Some current ->
     MessageRecord.status current <> MessageStatus.APPROVED) ->
  send_approved sender ratio now msg w = (false, w).
Proof.
  intros H. unfold send_approved, send_approved_body, bind, crm_get.
  destruct (get_message (MessageRecord.id msg) (w_crm w)) as [current|]; [| reflexivity].
  specialize (H current eq_refl).
  destruct (MessageStatus.eqb (MessageRecord.status current) MessageStatus.APPROVED) eqn:E.
  - apply status_eqb_eq in E. contradiction.
  - reflexivity.
Qed.

Lemma send_approved_empty msg w current :
  get_message (MessageRecord.id msg) (w_crm w) = Some current ->
  MessageRecord.status current = MessageStatus.APPROVED ->
  MessageRecord.draft_reply current = "" ->
  send_approved sender ratio now msg w
  = (false,
     mkWorld (update_message (MessageRecord.id msg) (failed_fields "Draft reply is empty")
                (w_crm w))
       (w_db w) (w_calls w)).
Proof.
  intros Hget Hst Hdraft. unfold send_approved, send_approved_body, bind, crm_get.
  rewrite Hget, Hst, Hdraft. reflexivity.
Qed.

Lemma send_approved_body_request msg w current request :
  get_message (MessageRecord.id msg) (w_crm w) = Some current ->
  MessageRecord.status current = MessageStatus.APPROVED ->
  MessageRecord.draft_reply current <> "" ->
  request_for current (get_contact_for_message (MessageRecord.id msg) (w_crm w))
  = Some request ->
  send_approved_body sender ratio now msg w
  = (let* _ := external (CallSend request) (sender request) in
     mark_sent now msg (edit_dist_of ratio current)) w.
Proof.
  intros Hget Hst Hdraft Hreq.
  unfold send_approved_body, bind at 1, crm_get. rewrite Hget, Hst. simpl.
  rewrite (nonempty_true _ Hdraft). simpl. unfold request_for in Hreq.
  fold (edit_dist_of ratio current).
  destruct (MessageRecord.source current); simpl.
  - unfold bind at 1. 
    destruct (get_contact_for_message (MessageRecord.id msg) (w_crm w)) as [contact|];
      [| discriminate].
    destruct (truthy (ContactRecord.email contact)); [| discriminate].
    injection Hreq as <-. reflexivity.
  - injection Hreq as <-. reflexivity.
  - discriminate.
Qed.
End OutboundFacts.

Lemma sent_fields_contact now d : sent_fields now d !! "Contact" = None.
Proof. unfold sent_fields. lookup_fields. reflexivity. Qed.

Lemma get_links_union_r (f g : gmap string value) k :
  f !! k = None -> get_links (f ∪ g) k = get_links g k.
Proof. intros H. unfold get_links. rewrite lookup_union_r by exact H. reflexivity. Qed.

Lemma get_contact_for_message_sent now d j c r :
  table_get j (messages_table c) = Some r ->
  get_contact_for_message (Some j) (update_message (Some j) (sent_fields now d) c)
  = get_contact_for_message (Some j) c.
Proof.
  intros H. unfold get_contact_for_message.
  rewrite (get_message_update_message _ _ _ _ H).
  unfold get_message. simpl. rewrite H. simpl.
  rewrite get_links_union_r by apply sent_fields_contact. reflexivity.
Qed.

Lemma get_contact_Some i c contact :
  get_contact i c = Some contact ->
  exists r, table_get i (contacts_table c) = Some r /\ contact = _record_to_contact r
            /\ ContactRecord.id contact = Some i.
Proof.
  unfold get_contact. destruct (table_get i (contacts_table c)) as [r|] eqn:E;
    simpl; [| discriminate].
  intros [= <-]. exists r. repeat split. simpl. f_equal. eapply table_get_rid, E.
Qed.

Lemma get_contact_for_message_Some i c contact :
  get_contact_for_message i c = Some contact ->
  exists cid, ContactRecord.id contact = Some cid /\ get_contact cid c = Some contact.
Proof.
  unfold get_contact_for_message.
  destruct (get_message i c) as [m|]; simpl; [| discriminate].
  destruct (MessageRecord.contact_id m) as [cid|]; simpl; [| discriminate].
  intros H. exists cid. split; [| exact H].
  apply get_contact_Some in H as (r & _ & _ & H). exact H.
Qed.

(** What [mark_sent] leaves in the store. *)
Lemma mark_sent_spec now msg d w j r :
  MessageRecord.id msg = Some j ->
  table_get j (messages_table (w_crm w)) = Some r ->
  exists c',
    mark_sent now msg d w = (Ok true, mkWorld c' (w_db w) (w_calls w))
    /\ get_message (Some j) c'
       = Some (_record_to_message (mkRecord j (sent_fields now d ∪ fields r)))
    /\ match get_contact_for_message (Some j) (w_crm w) with
       | Some contact =>
           exists cid rc,
             ContactRecord.id contact = Some cid
             /\ table_get cid (contacts_table (w_crm w)) = Some rc
             /\ contact = _record_to_contact rc
             /\ get_contact cid c'
                = Some (_record_to_contact
                          (mkRecord cid (outbound_contact_updates now contact ∪ fields rc)))
       | None => contacts_table c' = contacts_table (w_crm w)
       end.
Proof.
  intros Hid Hr. unfold mark_sent, bind, crm_do, crm_get, audit, ret. simpl.
  rewrite Hid. rewrite (get_contact_for_message_sent now d j (w_crm w) r Hr).
  destruct (get_contact_for_message (Some j) (w_crm w)) as [contact|] eqn:Ec; simpl.
  - eexists. split; [reflexivity |]. split.
    + unfold get_message. simpl. rewrite messages_table_update_contact.
      apply (get_message_update_message j _ (w_crm w) r Hr).
    + destruct (get_contact_for_message_Some _ _ _ Ec) as (cid & Hcid & Hget).
      destruct (get_contact_Some _ _ _ Hget) as (rc & Hrc & Hcontact & _).
      exists cid, rc. repeat split; auto. rewrite Hcid.
      unfold get_contact. simpl. rewrite table_get_update, Hrc. simpl.
      rewrite patch_same by (eapply table_get_rid, Hrc). reflexivity.
  - eexists. split; [reflexivity |]. split.
    + apply (get_message_update_message j _ (w_crm w) r Hr).
    + reflexivity.
Qed.

(** Reading a key that a patch has set. *)
Ltac union_l v :=
  rewrite (lookup_union_Some_l _ _ _ v)
    by (lookup_fields; try reflexivity; unfold set_if; simpl; lookup_fields; reflexivity).

Lemma sent_record now d j f :
  let m := _record_to_message (mkRecord j (sent_fields now d ∪ f)) in
  MessageRecord.status m = MessageStatus.SENT
  /\ MessageRecord.sent_at m = Some now
  /\ MessageRecord.edit_distance m
     = match d with Some q => Some q | None => get_num f "Edit Distance" end.
Proof.
  simpl. unfold get_str, get_date, get_num, sent_fields.
  repeat split.
  - union_l (VStr "Sent"). reflexivity.
  - union_l (VDate now). reflexivity.
  - destruct d as [q|]; simpl.
    + union_l (VNum q). reflexivity.
    + rewrite lookup_union_r; [reflexivity |]. unfold set_if. simpl.
      lookup_fields. reflexivity.
Qed.

Lemma failed_record e j f :
  let m := _record_to_message (mkRecord j (failed_fields e ∪ f)) in
  MessageRecord.status m = MessageStatus.FAILED /\ MessageRecord.send_error m = e.
Proof.
  simpl. unfold get_str, failed_fields. split.
  - union_l (VStr "Failed"). reflexivity.
  - union_l (VStr e). reflexivity.
Qed.

Lemma outbound_contact_record now j rc :
  let contact := _record_to_contact rc in
  let contact' :=
    _record_to_contact (mkRecord j (outbound_contact_updates now contact ∪ fields rc)) in
  ContactRecord.last_outbound_at contact' = Some (date_of now)
  /\ ContactRecord.conversation_stage contact'
     = match ContactRecord.conversation_stage contact with
       | ConversationStage.NEW => ConversationStage.ENGAGING
       | stage => stage
       end.
Proof.
  intros contact contact'. subst contact'. unfold outbound_contact_updates. split.
  - simpl. unfold get_date. union_l (VDate (date_of now)). reflexivity.
  - destruct (ContactRecord.conversation_stage contact) eqn:E; simpl.
    1: { unfold get_str. union_l (VStr "Engaging"). reflexivity. }
    all: unfold set_if; simpl; unfold get_str;
      rewrite lookup_union_r by (lookup_fields; reflexivity);
      subst contact; simpl in E; unfold get_str in E; exact E.
Qed.

Lemma bind_external_Ok {A B : Type} c (a : A) (k : A -> M B) w :
  (let* x := external c (Ok a) in k x) w
  = k a (mkWorld (w_crm w) (w_db w) (w_calls w ++ [c])).
Proof. reflexivity. Qed.

Lemma bind_external_Err {A B : Type} c e (k : A -> M B) w :
  (let* x := external c (Err e) in k x) w
  = (Err e, mkWorld (w_crm w) (w_db w) (w_calls w ++ [c])).
Proof. reflexivity. Qed.

(** C3, as the code has it. One turn of the loop, for a message of the
    approved list: the message is fetched again and left alone (nothing
    sent, nothing written) unless it is still approved; with an empty
    draft it is marked Failed with the error "Draft reply is empty" and no
    send is attempted; when the sender accepts the request the message
    becomes Sent with the sent time, the edit distance between the AI
    draft version and the draft text is written when the AI draft
    version is not empty (the stored distance is left as it was
    otherwise), and the linked contact gets the day as last outbound
    date and moves from New to Engaging (any other stage stays); when the
    sender raises, the message becomes Failed with the error text, and
    later turns leave it alone. *)
Theorem outbound_sender_contract sender ratio now msg w :
  let out := send_approved sender ratio now msg w in
  ((forall current, get_message (MessageRecord.id msg) (w_crm w) = Some current ->
      MessageRecord.status current <> MessageStatus.APPROVED) ->
   out = (false, w))
  /\ (forall current,
        get_message (MessageRecord.id msg) (w_crm w) = Some current ->
        MessageRecord.status current = MessageStatus.APPROVED ->
        (MessageRecord.draft_reply current = "" ->
         out.1 = false /\ w_calls out.2 = w_calls w
         /\ exists m', get_message (MessageRecord.id msg) (w_crm out.2) = Some m'
                       /\ MessageRecord.status m' = MessageStatus.FAILED
                       /\ MessageRecord.send_error m' = "Draft reply is empty")
        /\ (MessageRecord.draft_reply current <> "" ->
            forall request,
              request_for current
                (get_contact_for_message (MessageRecord.id msg) (w_crm w))
              = Some request ->
              (sender request = Ok tt ->
               out.1 = true /\ w_calls out.2 = w_calls w ++ [CallSend request]
               /\ (exists m',
                     get_message (MessageRecord.id msg) (w_crm out.2) = Some m'
                     /\ MessageRecord.status m' = MessageStatus.SENT
                     /\ MessageRecord.sent_at m' = Some now
                     /\ (MessageRecord.ai_draft_version current <> "" ->
                         MessageRecord.edit_distance m'
                         = Some (compute_edit_distance ratio
                                   (MessageRecord.ai_draft_version current)
                                   (MessageRecord.draft_reply current)))
                     /\ (MessageRecord.ai_draft_version current = "" ->
                         MessageRecord.edit_distance m'
                         = MessageRecord.edit_distance current))
               /\ (forall contact cid,
                     get_contact_for_message (MessageRecord.id msg) (w_crm w)
                     = Some contact ->
                     ContactRecord.id contact = Some cid ->
                     exists contact',
                       get_contact cid (w_crm out.2) = Some contact'
                       /\ ContactRecord.last_outbound_at contact' = Some (date_of now)
                       /\ ContactRecord.conversation_stage contact'
                          = match ContactRecord.conversation_stage contact with
                            | ConversationStage.NEW => ConversationStage.ENGAGING
                            | stage => stage
                            end))
              /\ (forall e, sender request = Err e ->
                  out.1 = false /\ w_calls out.2 = w_calls w ++ [CallSend request]
                  /\ (exists m',
                        get_message (MessageRecord.id msg) (w_crm out.2) = Some m'
                        /\ MessageRecord.status m' = MessageStatus.FAILED
                        /\ MessageRecord.send_error m' = e)
                  /\ forall sender' ratio' now',
                       send_approved sender' ratio' now' msg out.2 = (false, out.2)))).
Proof.
  intros out. split; [apply send_approved_skip |].
  intros current Hget Hst.
  destruct (get_message_Some _ _ _ Hget) as (j & r & Hid & Hr & Hrid & Hcur).
  split.
  - intros Hdraft. subst out.
    rewrite (send_approved_empty sender ratio now msg w current Hget Hst Hdraft).
    simpl. repeat split. rewrite Hid.
    rewrite (get_message_update_message j _ (w_crm w) r Hr).
    eexists. split; [reflexivity |]. apply failed_record.
  - intros Hdraft request Hreq. subst out. unfold send_approved.
    rewrite (send_approved_body_request sender ratio now msg w current request
               Hget Hst Hdraft Hreq).
    split.
    + intros ->. rewrite bind_external_Ok.
      destruct (mark_sent_spec now msg (edit_dist_of ratio current)
                  (mkWorld (w_crm w) (w_db w) (w_calls w ++ [CallSend request])) j r Hid Hr)
        as (c' & Hms & Hm' & Hc).
      rewrite Hms. simpl. split; [reflexivity |]. split; [reflexivity |]. split.
      * rewrite Hid, Hm'. eexists. split; [reflexivity |].
        destruct (sent_record now (edit_dist_of ratio current) j (fields r))
          as (H1 & H2 & H3).
        split; [exact H1 |]. split; [exact H2 |]. rewrite H3. unfold edit_dist_of. split.
        -- intros Hai. rewrite (nonempty_true _ Hai). reflexivity.
        -- intros Hai. rewrite Hai. simpl. rewrite Hcur. reflexivity.
      * intros contact cid Hcontact Hcid. simpl in Hc. rewrite <- Hid, Hcontact in Hc.
        destruct Hc as (cid' & rc & Hcid' & Hrc & Hcrec & Hget').
        assert (cid' = cid) as -> by congruence.
        eexists. split; [exact Hget' |]. subst contact.
        apply outbound_contact_record.
    + intros e ->. rewrite bind_external_Err. simpl.
      split; [reflexivity |]. split; [reflexivity |].
      assert (Hm' : get_message (MessageRecord.id msg)
                      (update_message (MessageRecord.id msg) (failed_fields e) (w_crm w))
                    = Some (_record_to_message (mkRecord j (failed_fields e ∪ fields r)))).
      { rewrite Hid. apply (get_message_update_message j _ (w_crm w) r Hr). }
      split.
      * eexists. split; [exact Hm' |]. apply failed_record.
      * intros sender' ratio' now'. apply send_approved_skip. simpl.
        intros current'. rewrite Hm'. intros [= <-].
        destruct (failed_record e j (fields r)) as [-> _]. discriminate.
Qed.

Lemma outbound_sender_contract_witness :
  get_message (MessageRecord.id human_reply_stored) (w_crm human_reply_world)
  = Some human_reply_stored
  /\ MessageRecord.status human_reply_stored = MessageStatus.APPROVED
  /\ MessageRecord.draft_reply human_reply_stored <> ""
  /\ (send_approved sender_ok ratio_equal 1708171200%Z human_reply_stored
        human_reply_world).1 = true.
Proof.
  assert (Hd : MessageRecord.draft_reply human_reply_stored <> "") by discriminate.
  split; [reflexivity |]. split; [reflexivity |]. split; [exact Hd |].
  destruct (outbound_sender_contract sender_ok ratio_equal 1708171200%Z
              human_reply_stored human_reply_world) as [_ H].
  destruct (H human_reply_stored eq_refl eq_refl) as [_ H2].
  destruct (H2 Hd (SendLinkedIn "Not at the moment, thanks" "acct_001" "li_msg_002")
              eq_refl) as [H3 _].
  exact (proj1 (H3 eq_refl)).
Defined.

(** C3, against the claim as stated. An approved reply that a person
    wrote on a message without AI draft is sent and marked Sent, and no
    edit distance is written, although the distance between the empty AI
    draft version and the text is defined (it is 1). *)
Lemma outbound_sent_without_edit_distance :
  let out :=
    process_approved_messages sender_ok ratio_equal 1708171200%Z human_reply_world in
  get_approved_messages (w_crm human_reply_world) = [human_reply_stored]
  /\ MessageRecord.ai_draft_version human_reply_stored = ""
  /\ out.1 = 1%Z
  /\ w_calls out.2
     = [CallSend (SendLinkedIn "Not at the moment, thanks" "acct_001" "li_msg_002")]
  /\ (MessageRecord.status <$> get_message (Some 2) (w_crm out.2))
     = Some MessageStatus.SENT
  /\ (MessageRecord.edit_distance <$> get_message (Some 2) (w_crm out.2)) = Some None
  /\ compute_edit_distance ratio_equal "" "Not at the moment, thanks" = 1%Q.
Proof. vm_compute. repeat split; reflexivity. Qed.

(** ** Sorting *)

Section SortingFacts.
Context {A : Type} (key : A -> Z).

Lemma insert_desc_perm x l : insert_desc key x l ≡ₚ x :: l.
Proof.
  induction l as [|y l IH]; simpl; [reflexivity |].
  destruct (key y <=? key x)%Z; [reflexivity |].
  rewrite IH. apply Permutation_swap.
Qed.

Lemma sort_desc_perm l : sort_desc key l ≡ₚ l.
Proof.
  induction l as [|x l IH]; simpl; [reflexivity |].
  unfold sort_desc in *. simpl. rewrite insert_desc_perm, IH. reflexivity.
Qed.

Lemma insert_desc_sorted x l :
  StronglySorted (newer_first key) l ->
  StronglySorted (newer_first key) (insert_desc key x l).
Proof.
  induction 1 as [|y l Hl IH Hy]; simpl.
  - repeat constructor.
  - destruct (key y <=? key x)%Z eqn:E.
    + apply Z.leb_le in E. constructor.
      * constructor; assumption.
      * constructor; [exact E |].
        eapply Forall_impl; [exact Hy |]. intros z Hz. unfold newer_first in *. lia.
    + apply Z.leb_gt in E. constructor; [exact IH |].
      rewrite insert_desc_perm. constructor; [| exact Hy].
      unfold newer_first. lia.
Qed.

Lemma sort_desc_sorted l : StronglySorted (newer_first key) (sort_desc key l).
Proof.
  induction l as [|x l IH]; [constructor |].
  unfold sort_desc in *. simpl. apply insert_desc_sorted, IH.
Qed.

End SortingFacts.

(** ** Auto-approval of follow-ups *)

Lemma slice_to_nonneg {A : Type} (l : list A) k :
  (0 <= k)%Z -> slice_to l k = take (Z.to_nat k) l.
Proof. intros H. unfold slice_to. destruct (Z.leb_spec 0 k); [reflexivity | lia]. Qed.



Lemma crm_get_eq {A : Type} (f : CRM -> A) w a w' :
  crm_get f w = (Ok a, w') -> a = f (w_crm w) /\ w' = w.
Proof. intros [= <- <-]. split; reflexivity. Qed.

Lemma create_message_outbound m c :
  MessageRecord.direction m = MessageDirection.OUTBOUND ->
  create_message m c
  = (_record_to_message (mkRecord (next_id c) (_message_to_fields m)),
     mkCRM (contacts_table c)
       (messages_table c ++ [mkRecord (next_id c) (_message_to_fields m)])
       (audit_table c) (S (next_id c))).
Proof.
  intros H. unfold create_message. rewrite H. simpl. rewrite andb_false_r. reflexivity.
Qed.

Lemma lookup_set_if_eq b k v (f : gmap string value) :
  set_if b k v f !! k = if b then Some v else f !! k.
Proof. unfold set_if. destruct b; [apply lookup_insert_eq | reflexivity]. Qed.

(** What was written is what is read back. *)
Lemma message_fields_read i m :
  let m' := _record_to_message (mkRecord i (_message_to_fields m)) in
  MessageRecord.status m' = MessageRecord.status m
  /\ MessageRecord.direction m' = MessageRecord.direction m
  /\ MessageRecord.follow_up_number m' = MessageRecord.follow_up_number m
  /\ MessageRecord.contact_id m' = MessageRecord.contact_id m.
Proof.
  simpl. unfold get_str, get_int, get_links, _message_to_fields. repeat split.
  - lookup_fields. destruct (MessageRecord.status m); reflexivity.
  - lookup_fields. destruct (MessageRecord.direction m); reflexivity.
  - lookup_fields. rewrite lookup_set_if_eq.
    destruct (MessageRecord.follow_up_number m); simpl; [reflexivity |].
    lookup_fields. reflexivity.
  - rewrite lookup_set_if_eq.
    destruct (MessageRecord.contact_id m); simpl; [reflexivity |].
    lookup_fields. reflexivity.
Qed.

Lemma contacts_table_update_contact i f c1 c2 :
  contacts_table c1 = contacts_table c2 ->
  contacts_table (update_contact i f c1) = contacts_table (update_contact i f c2).
Proof. intros H. destruct i; simpl; [rewrite H |]; auto. Qed.

Section FollowUpFacts.
Variable draft_followup :
  ContactRecord.t -> string -> list HistoryLine -> Z -> Result string.
Variable config : FollowUpConfig.t.
Variable now : datetime.

(** A follow-up is created on the store as it was found: the decision is
    taken there, one outbound row is appended with the decided status,
    and the contact is patched once with the closing fields. *)
Lemma process_due_body_Created contact w auto exhausted w' :
  process_due_body draft_followup config now contact w
  = (Ok (Created auto exhausted), w') ->
  let followup_num := (ContactRecord.follow_up_count contact + 1)%Z in
  auto = _should_auto_approve (ContactRecord.id contact)
           (FollowUpConfig.auto_approve_threshold config) (w_crm w)
  /\ exhausted = (FollowUpConfig.total_followups config <=? followup_num)%Z
  /\ exists channel r,
       _determine_channel contact config = Some channel
       /\ messages_table (w_crm w') = messages_table (w_crm w) ++ [r]
       /\ MessageRecord.status (_record_to_message r)
          = (if auto then MessageStatus.APPROVED else MessageStatus.DRAFT_READY)
       /\ MessageRecord.direction (_record_to_message r) = MessageDirection.OUTBOUND
       /\ MessageRecord.follow_up_number (_record_to_message r) = Some followup_num
       /\ contacts_table (w_crm w')
          = contacts_table
              (update_contact (ContactRecord.id contact)
                 (followup_update_fields config now followup_num channel) (w_crm w)).
Proof.
  unfold process_due_body. cbv zeta. intros H.
  bind_ok H replied w1 Hreplied. apply crm_get_eq in Hreplied as [-> ->].
  destruct (_has_recent_inbound _ _ _).
  { bind_ok H u1 w2 H1. bind_ok H u2 w3 H2. discriminate. }
  bind_ok H pending w2 Hpending. apply crm_get_eq in Hpending as [-> ->].
  destruct (_has_pending_outbound _ _); [discriminate |].
  destruct (_determine_channel contact config) as [channel|]; [| discriminate].
  bind_ok H routing w3 Hrouting. apply crm_get_eq in Hrouting as [-> ->].
  bind_ok H all_messages w4 Hall. apply crm_get_eq in Hall as [-> ->].
  bind_ok H reply_text w5 Hdraft.
  unfold external in Hdraft. injection Hdraft as Hdraft <-.
  bind_ok H auto' w6 Hauto. apply crm_get_eq in Hauto as [-> ->]. simpl in H.
  bind_ok H created w7 Hcreate. unfold crm_call in Hcreate.
  rewrite create_message_outbound in Hcreate by reflexivity.
  injection Hcreate as <- <-.
  bind_ok H u1 w8 Haudit.
  assert (Hw8 : messages_table (w_crm w8)
                = messages_table (w_crm w) ++
                    [mkRecord (next_id (w_crm w)) (_message_to_fields
                       (MessageRecord.mk None (ContactRecord.id contact)
                          (if String.eqb channel "LinkedIn"
                           then SourceChannel.LINKEDIN else SourceChannel.GMAIL)
                          MessageDirection.OUTBOUND None "" "" reply_text
                          (if _should_auto_approve (ContactRecord.id contact)
                                (FollowUpConfig.auto_approve_threshold config) (w_crm w)
                           then MessageStatus.APPROVED else MessageStatus.DRAFT_READY)
                          "" "" reply_text None None None ""
                          (default ""
                             (_get_routing_info contact channel (w_crm w) !! "account_id"))
                          (default
                             (default ""
                                (_get_routing_info contact channel (w_crm w)
                                   !! "thread_id"))
                             (_get_routing_info contact channel (w_crm w) !! "chat_id"))
                          (Some (ContactRecord.follow_up_count contact + 1)%Z)))]
                /\ contacts_table (w_crm w8) = contacts_table (w_crm w)).
  { destruct (_ <=? _)%Z; injection Haudit as _ <-; split; reflexivity. }
  destruct Hw8 as [Hm8 Hc8].
  bind_ok H u2 w9 Hupdate. injection Hupdate as _ <-.
  bind_ok H u3 w10 Haudit2. injection Haudit2 as _ <-.
  injection H as <- <- <-.
  split; [reflexivity |]. split; [reflexivity |].
  eexists channel, _. split; [reflexivity |]. split.
  { simpl. rewrite messages_table_update_contact. exact Hm8. }
  match goal with
  | |- context [_record_to_message (mkRecord ?i (_message_to_fields ?m))] =>
      destruct (message_fields_read i m) as (Hs & Hd & Hf & _)
  end.
  split; [exact Hs |]. split; [exact Hd |]. split; [exact Hf |].
  simpl. apply contacts_table_update_contact, Hc8.
Qed.

Lemma process_due_contact_Created contact w auto exhausted w' :
  process_due_contact draft_followup config now contact w
  = (Created auto exhausted, w') ->
  process_due_body draft_followup config now contact w
  = (Ok (Created auto exhausted), w').
Proof.
  unfold process_due_contact.
  destruct (process_due_body draft_followup config now contact w) as [[o|e] w1].
  - intros [= -> ->]. reflexivity.
  - discriminate.
Qed.

End FollowUpFacts.


(** The two cases of the specification, with the default threshold 2:
    two sent follow-ups with distance 0 make the next one Approved; one
    edited send among the last two makes it Draft Ready. *)
Example two_unedited_sends_approve :
  last_message_status
    (process_due_contact draft_ok FollowUpConfig.default 1708560000%Z
       cadence_contact_stored (cadence_world 0 0)).2
  = Some MessageStatus.APPROVED.
Proof. vm_compute. reflexivity. Qed.

Example one_edited_send_drafts :
  last_message_status
    (process_due_contact draft_ok FollowUpConfig.default 1708560000%Z
       cadence_contact_stored (cadence_world 0 (1 # 10))).2
  = Some MessageStatus.DRAFT_READY
  /\ last_message_status
       (process_due_contact draft_ok FollowUpConfig.default 1708560000%Z
          cadence_contact_stored (cadence_world (1 # 10) 0)).2
     = Some MessageStatus.DRAFT_READY.
Proof. vm_compute. split; reflexivity. Qed.

(** With more sent follow-ups than the threshold the time of sending
    decides, not the place in the store.  An edited follow-up older than
    the two most recent does not count, wherever the store holds it; an
    edited follow-up among the two most recent does, although the two
    the store holds first, or the two oldest, were sent as drafted. *)
Example older_edit_does_not_count :
  last_message_status
    (process_due_contact draft_ok FollowUpConfig.default 1708560000%Z
       cadence_contact_stored
       (cadence_history [(0%Q, 1708300800%Z); (3 # 10, 1708128000%Z);
                         (0%Q, 1708214400%Z)])).2
  = Some MessageStatus.APPROVED
  /\ last_message_status
       (process_due_contact draft_ok FollowUpConfig.default 1708560000%Z
          cadence_contact_stored
          (cadence_history [(3 # 10, 1708128000%Z); (0%Q, 1708214400%Z);
                            (0%Q, 1708300800%Z)])).2
     = Some MessageStatus.APPROVED.
Proof. vm_compute. split; reflexivity. Qed.

Example recent_edit_counts :
  last_message_status
    (process_due_contact draft_ok FollowUpConfig.default 1708560000%Z
       cadence_contact_stored
       (cadence_history [(0%Q, 1708128000%Z); (0%Q, 1708214400%Z);
                         (3 # 10, 1708300800%Z)])).2
  = Some MessageStatus.DRAFT_READY
  /\ last_message_status
       (process_due_contact draft_ok FollowUpConfig.default 1708560000%Z
          cadence_contact_stored
          (cadence_history [(3 # 10, 1708300800%Z); (0%Q, 1708128000%Z);
                            (0%Q, 1708214400%Z)])).2
     = Some MessageStatus.DRAFT_READY.
Proof. vm_compute. split; reflexivity. Qed.

(** ** The end of a cadence *)

Lemma untouched_refl cid w : untouched cid w w.
Proof. split; reflexivity. Qed.

Lemma untouched_trans cid w1 w2 w3 :
  untouched cid w1 w2 -> untouched cid w2 w3 -> untouched cid w1 w3.
Proof. unfold untouched. intros [H1 H2] [H3 H4]. split; congruence. Qed.

Lemma filter_table_update_other cid j f rows :
  j <> cid ->
  List.filter (fun r => Nat.eqb (rid r) cid) (table_update j f rows)
  = List.filter (fun r => Nat.eqb (rid r) cid) rows.
Proof.
  intros Hne. unfold table_update. induction rows as [|r rows IH]; simpl; [reflexivity |].
  rewrite rid_patch, IH. destruct (Nat.eqb (rid r) cid) eqn:E; [| reflexivity].
  apply Nat.eqb_eq in E. unfold patch.
  destruct (Nat.eqb_spec (rid r) j); [congruence | reflexivity].
Qed.

Lemma untouched_update_contact cid i f w :
  i <> Some cid ->
  untouched cid w (mkWorld (update_contact i f (w_crm w)) (w_db w) (w_calls w)).
Proof.
  intros Hne. split; simpl.
  - destruct i as [j|]; simpl; [| reflexivity].
    apply filter_table_update_other. congruence.
  - rewrite messages_table_update_contact. reflexivity.
Qed.

Lemma steps_update_contact_untouched cid i f :
  i <> Some cid -> steps (untouched cid) (crm_do (update_contact i f)).
Proof. intros Hne w r w' [= _ <-]. apply untouched_update_contact, Hne. Qed.

Lemma steps_audit_untouched cid a ci mi : steps (untouched cid) (audit a ci mi).
Proof. intros w r w' [= _ <-]. split; reflexivity. Qed.

Lemma steps_external_untouched {A : Type} cid c (r : Result A) :
  steps (untouched cid) (external c r).
Proof. intros w r' w' [= _ <-]. split; reflexivity. Qed.

Lemma steps_create_message_untouched cid m :
  MessageRecord.direction m = MessageDirection.OUTBOUND ->
  MessageRecord.contact_id m <> Some cid ->
  steps (untouched cid) (crm_call (create_message m)).
Proof.
  intros Hdir Hne w r w'. unfold crm_call.
  rewrite (create_message_outbound m (w_crm w) Hdir). intros [= _ <-].
  split; simpl; [reflexivity |].
  rewrite List.filter_app. simpl.
  assert (Hnew : formula_linked cid (mkRecord (next_id (w_crm w)) (_message_to_fields m))
                 = false).
  { unfold formula_linked, get_links, _message_to_fields. simpl.
    rewrite lookup_set_if_eq.
    destruct (MessageRecord.contact_id m) as [c|]; simpl.
    - destruct (Nat.eqb_spec cid c); [congruence | reflexivity].
    - lookup_fields. reflexivity. }
  rewrite Hnew. apply app_nil_r.
Qed.

Section CadenceFacts.
Variable draft_followup :
  ContactRecord.t -> string -> list HistoryLine -> Z -> Result string.
Variable config : FollowUpConfig.t.
Variable now : datetime.

Lemma steps_process_due_body_untouched cid contact :
  ContactRecord.id contact <> Some cid ->
  steps (untouched cid) (process_due_body draft_followup config now contact).
Proof.
  intros Hne. unfold process_due_body. cbv zeta.
  steps_split (untouched_refl cid) (untouched_trans cid)
    ltac:(auto using steps_update_contact_untouched, steps_audit_untouched,
            steps_external_untouched).
  all: apply steps_create_message_untouched; [reflexivity | exact Hne].
Qed.

Lemma process_due_contact_untouched cid contact w :
  ContactRecord.id contact <> Some cid ->
  untouched cid w (process_due_contact draft_followup config now contact w).2.
Proof.
  intros Hne. unfold process_due_contact.
  destruct (process_due_body draft_followup config now contact w) as [[o|e] w'] eqn:E;
    simpl; eapply (steps_process_due_body_untouched cid contact Hne), E.
Qed.
End CadenceFacts.

(** A closed cadence is selected by neither query of the engine. *)
Lemma closed_not_due cid c now contact :
  cadence_closed cid c ->
  In contact (get_contacts_for_followup now c) -> ContactRecord.id contact <> Some cid.
Proof.
  intros Hclosed Hin. unfold get_contacts_for_followup, table_all in Hin.
  apply List.in_map_iff in Hin as (r & <- & Hr).
  apply List.filter_In in Hr as [Hr Hf]. apply andb_true_iff in Hf as [Hf _].
  simpl. intros [= Hrid]. destruct (Hclosed r Hr Hrid) as [Hs _].
  unfold formula_eq in Hf. rewrite Hs in Hf. discriminate.
Qed.

Lemma closed_not_stale cid c days now contact :
  cadence_closed cid c ->
  In contact (get_stale_contacts days now c) -> ContactRecord.id contact <> Some cid.
Proof.
  intros Hclosed Hin. unfold get_stale_contacts, table_all in Hin.
  apply List.in_map_iff in Hin as (r & <- & Hr).
  apply List.filter_In in Hr as [Hr Hf].
  repeat (apply andb_true_iff in Hf as [Hf ?]).
  simpl. intros [= Hrid]. destruct (Hclosed r Hr Hrid) as [Hs _].
  match goal with H : formula_eq "Follow-Up Status" "" r = true |- _ =>
    unfold formula_eq in H; rewrite Hs in H; discriminate end.
Qed.

Lemma closed_untouched cid w w' :
  untouched cid w w' -> cadence_closed cid (w_crm w) -> cadence_closed cid (w_crm w').
Proof.
  intros [Hc _] Hclosed r Hr Hrid.
  assert (Hin : In r (List.filter (fun r => Nat.eqb (rid r) cid)
                        (contacts_table (w_crm w')))).
  { apply List.filter_In. split; [exact Hr |]. apply Nat.eqb_eq, Hrid. }
  rewrite Hc in Hin. apply List.filter_In in Hin as [Hin _].
  exact (Hclosed r Hin Hrid).
Qed.

Lemma activate_stale_leads_untouched cid config now w :
  cadence_closed cid (w_crm w) ->
  untouched cid w (_activate_stale_leads config now w).2.
Proof.
  intros Hclosed. unfold _activate_stale_leads.
  assert (Hall : forall ct,
            In ct (get_stale_contacts (FollowUpConfig.days_before_activation config)
                     now (w_crm w)) ->
            ContactRecord.id ct <> Some cid).
  { intros ct. apply closed_not_stale, Hclosed. }
  revert Hall. generalize (get_stale_contacts
    (FollowUpConfig.days_before_activation config) now (w_crm w)). intros l.
  assert (Hstart : untouched cid w (0%Z, w).2) by apply untouched_refl.
  revert Hstart. generalize (0%Z, w). induction l as [|ct l IH]; intros acc Hacc Hall.
  - exact Hacc.
  - simpl. apply IH.
    + destruct acc as [n w1]. simpl in *.
      destruct (_has_recent_inbound _ _ _); [exact Hacc |]. simpl.
      eapply untouched_trans; [exact Hacc |].
      apply untouched_update_contact, Hall. left. reflexivity.
    + intros ct' Hct'. apply Hall. right. exact Hct'.
Qed.

Lemma process_due_followups_untouched cid draft_followup config now w :
  cadence_closed cid (w_crm w) ->
  untouched cid w (_process_due_followups draft_followup config now w).2.
Proof.
  intros Hclosed. unfold _process_due_followups.
  assert (Hall : forall ct,
            In ct (get_contacts_for_followup now (w_crm w)) ->
            ContactRecord.id ct <> Some cid).
  { intros ct. apply closed_not_due, Hclosed. }
  revert Hall. generalize (get_contacts_for_followup now (w_crm w)). intros l.
  assert (Hstart : untouched cid w (FollowupStats.mk 0 0 0 0 0 0, w).2)
    by apply untouched_refl.
  revert Hstart. generalize (FollowupStats.mk 0 0 0 0 0 0, w).
  induction l as [|ct l IH]; intros acc Hacc Hall.
  - exact Hacc.
  - simpl. apply IH.
    + destruct acc as [stats w1]. simpl in *.
      pose proof (process_due_contact_untouched draft_followup config now cid ct w1
                    (Hall ct (or_introl eq_refl))) as Hstep.
      destruct (process_due_contact draft_followup config now ct w1) as [o w2].
      simpl in *. eapply untouched_trans; eassumption.
    + intros ct' Hct'. apply Hall. right. exact Hct'.
Qed.

Lemma run_followup_cycle_untouched cid draft_followup config now w :
  cadence_closed cid (w_crm w) ->
  untouched cid w (run_followup_cycle draft_followup config now w).2.
Proof.
  intros Hclosed. unfold run_followup_cycle.
  pose proof (activate_stale_leads_untouched cid config now w Hclosed) as H1.
  destruct (_activate_stale_leads config now w) as [n w1]. simpl in H1.
  pose proof (process_due_followups_untouched cid draft_followup config now w1
                (closed_untouched cid w w1 H1 Hclosed)) as H2.
  destruct (_process_due_followups draft_followup config now w1) as [stats w2].
  simpl in *. eapply untouched_trans; eassumption.
Qed.

Lemma run_cycles_untouched cid cycles w :
  cadence_closed cid (w_crm w) -> untouched cid w (run_cycles cycles w).
Proof.
  unfold run_cycles. revert w. induction cycles as [|cy cycles IH]; intros w Hclosed.
  - apply untouched_refl.
  - simpl.
    pose proof (run_followup_cycle_untouched cid (Cycle.draft_followup cy)
                  (Cycle.config cy) (Cycle.now cy) w Hclosed) as H1.
    eapply untouched_trans; [exact H1 |].
    apply IH. eapply closed_untouched; eassumption.
Qed.

Lemma exhausted_fields config now n channel :
  (FollowUpConfig.total_followups config <=? n)%Z = true ->
  let f := followup_update_fields config now n channel in
  f !! "Follow-Up Count" = Some (VInt n)
  /\ f !! "Follow-Up Status" = Some (VStr "Exhausted")
  /\ f !! "Conversation Stage" = Some (VStr "Closed Lost").
Proof.
  intros H. unfold followup_update_fields. rewrite H. unfold set_if.
  repeat split; lookup_fields; reflexivity.
Qed.

Lemma closed_after_update cid (f : gmap string value) rows c' :
  f !! "Follow-Up Status" = Some (VStr "Exhausted") ->
  f !! "Conversation Stage" = Some (VStr "Closed Lost") ->
  contacts_table c' = table_update cid f rows ->
  cadence_closed cid c'.
Proof.
  intros Hs Hc Hrows r Hr Hrid. rewrite Hrows in Hr. unfold table_update in Hr.
  apply List.in_map_iff in Hr as (r0 & <- & _).
  rewrite rid_patch in Hrid. rewrite (patch_same cid f r0 Hrid). simpl.
  unfold get_str.
  rewrite (lookup_union_Some_l _ _ _ _ Hs), (lookup_union_Some_l _ _ _ _ Hc).
  split; reflexivity.
Qed.

(** C7. When the engine creates the follow-up that brings a contact's
    count to the total quota, the one contact update of that turn writes
    the count together with Follow-Up Status = Exhausted and Conversation
    Stage = Closed Lost; afterwards, whatever later cycles run, neither
    the due-follow-up query (which selects Active cadences) nor the
    activation query selects the contact, its record is not changed and
    no message is added for it. *)
Theorem cadence_exhaustion draft_followup config now contact w auto exhausted w' cid :
  process_due_contact draft_followup config now contact w
  = (Created auto exhausted, w') ->
  (ContactRecord.follow_up_count contact + 1 = FollowUpConfig.total_followups config)%Z ->
  ContactRecord.id contact = Some cid ->
  exhausted = true
  /\ (exists channel,
        let f := followup_update_fields config now
                   (FollowUpConfig.total_followups config) channel in
        contacts_table (w_crm w') = table_update cid f (contacts_table (w_crm w))
        /\ f !! "Follow-Up Count" = Some (VInt (FollowUpConfig.total_followups config))
        /\ f !! "Follow-Up Status" = Some (VStr "Exhausted")
        /\ f !! "Conversation Stage" = Some (VStr "Closed Lost"))
  /\ (forall stored, get_contact cid (w_crm w) = Some stored ->
        exists contact',
          get_contact cid (w_crm w') = Some contact'
          /\ ContactRecord.follow_up_status contact' = "Exhausted"
          /\ ContactRecord.conversation_stage contact' = ConversationStage.CLOSED_LOST
          /\ ContactRecord.follow_up_count contact'
             = FollowUpConfig.total_followups config)
  /\ (forall cycles,
        let later := run_cycles cycles w' in
        (forall now' ct, In ct (get_contacts_for_followup now' (w_crm later)) ->
           ContactRecord.id ct <> Some cid)
        /\ (forall days now' ct, In ct (get_stale_contacts days now' (w_crm later)) ->
              ContactRecord.id ct <> Some cid)
        /\ untouched cid w' later).
Proof.
  intros H Hquota Hid.
  apply process_due_contact_Created, process_due_body_Created in H.
  destruct H as (_ & Hex & channel & r & _ & _ & _ & _ & _ & Hcontacts).
  rewrite Hquota, Hid in *. simpl in Hcontacts.
  assert (Hle : (FollowUpConfig.total_followups config
                 <=? FollowUpConfig.total_followups config)%Z = true)
    by apply Z.leb_refl.
  destruct (exhausted_fields config now _ channel Hle) as (Hfc & Hfs & Hfg).
  assert (Hclosed : cadence_closed cid (w_crm w'))
    by (eapply closed_after_update; eassumption).
  split; [rewrite Hex; exact Hle |]. split; [| split].
  - exists channel. repeat split; assumption.
  - intros stored Hstored.
    apply get_contact_Some in Hstored as (rc & Hrc & _ & _).
    exists (_record_to_contact
              (mkRecord cid
                 (followup_update_fields config now
                    (FollowUpConfig.total_followups config) channel ∪ fields rc))).
    split.
    + unfold get_contact. rewrite Hcontacts, table_get_update, Hrc. simpl.
      rewrite patch_same by (eapply table_get_rid, Hrc). reflexivity.
    + simpl. unfold get_str, get_int.
      rewrite (lookup_union_Some_l _ _ _ _ Hfs), (lookup_union_Some_l _ _ _ _ Hfg),
        (lookup_union_Some_l _ _ _ _ Hfc).
      repeat split.
  - intros cycles later.
    pose proof (run_cycles_untouched cid cycles w' Hclosed) as Hun. fold later in Hun.
    pose proof (closed_untouched cid w' later Hun Hclosed) as Hlater.
    split; [| split].
    + intros now' ct. apply closed_not_due, Hlater.
    + intros days now' ct. apply closed_not_stale, Hlater.
    + exact Hun.
Qed.

Lemma cadence_exhaustion_witness :
  let out :=
    process_due_contact draft_ok one_followup_config 1708560000%Z
      cadence_contact_stored (cadence_world 0 0) in
  out.1 = Created true true
  /\ (ContactRecord.follow_up_count cadence_contact_stored + 1
      = FollowUpConfig.total_followups one_followup_config)%Z
  /\ ContactRecord.id cadence_contact_stored = Some 1
  /\ exists contact',
       get_contact 1 (w_crm out.2) = Some contact'
       /\ ContactRecord.follow_up_status contact' = "Exhausted"
       /\ ContactRecord.conversation_stage contact' = ConversationStage.CLOSED_LOST
       /\ ContactRecord.follow_up_count contact' = 1%Z.
Proof.
  intros out.
  assert (H1 : out.1 = Created true true) by (vm_compute; reflexivity).
  assert (Hrun : process_due_contact draft_ok one_followup_config 1708560000%Z
                   cadence_contact_stored (cadence_world 0 0)
                 = (Created true true, out.2)).
  { rewrite <- H1. subst out. apply surjective_pairing. }
  split; [exact H1 |]. split; [reflexivity |]. split; [reflexivity |].
  destruct (cadence_exhaustion draft_ok one_followup_config 1708560000%Z
              cadence_contact_stored (cadence_world 0 0) true true out.2 1
              Hrun eq_refl eq_refl) as (_ & _ & Hread & _).
  exact (Hread cadence_contact_stored eq_refl).
Defined.

(** ** Ascending order *)

Section SortAscFacts.
Context {A : Type} (key : A -> Z).

Lemma sort_asc_desc l : sort_asc key l = sort_desc (fun a => (- key a)%Z) l.
Proof.
  unfold sort_asc, sort_desc. induction l as [|x l IH]; simpl; [reflexivity |].
  rewrite IH. generalize (foldr (insert_desc (fun a => (- key a)%Z)) [] l). intros s.
  induction s as [|y s IHs]; simpl; [reflexivity |].
  destruct (Z.leb_spec (key x) (key y)), (Z.leb_spec (- key y) (- key x));
    try lia; [reflexivity | rewrite IHs; reflexivity].
Qed.

(** [older_first a b]: [a] may stand before [b] in ascending order. *)
Lemma sort_asc_perm l : sort_asc key l ≡ₚ l.
Proof. rewrite sort_asc_desc. apply sort_desc_perm. Qed.

Lemma sort_asc_sorted l :
  StronglySorted (fun a b => (key a <= key b)%Z) (sort_asc key l).
Proof.
  rewrite sort_asc_desc.
  pose proof (sort_desc_sorted (fun a => (- key a)%Z) l) as H.
  induction H as [|x s Hs IH Hx]; constructor; [exact IH |].
  eapply Forall_impl; [exact Hx |]. intros y Hy. unfold newer_first in Hy. lia.
Qed.

Lemma insert_asc_head x l :
  Forall (fun z => (key x <= key z)%Z) l -> insert_asc key x l = x :: l.
Proof.
  destruct 1 as [|y l Hy Hl]; simpl; [reflexivity |].
  destruct (Z.leb_spec (key x) (key y)); [reflexivity | lia].
Qed.

Lemma Forall_filter_bool (P : A -> Prop) (Q : A -> bool) l :
  Forall P l -> Forall P (List.filter Q l).
Proof.
  induction 1 as [|z l Hz Hl IHl]; simpl; [constructor |].
  destruct (Q z); [constructor; assumption | exact IHl].
Qed.

Lemma filter_insert_asc (Q : A -> bool) x s :
  StronglySorted (fun a b => (key a <= key b)%Z) s ->
  List.filter Q (insert_asc key x s)
  = if Q x then insert_asc key x (List.filter Q s) else List.filter Q s.
Proof.
  induction 1 as [|y s Hs IH Hy]; simpl.
  - destruct (Q x); reflexivity.
  - destruct (Z.leb_spec (key x) (key y)) as [Hle|Hgt]; simpl.
    + destruct (Q x); [| reflexivity].
      symmetry. apply insert_asc_head.
      apply (Forall_filter_bool _ Q (y :: s)).
      constructor; [exact Hle |]. eapply Forall_impl; [exact Hy |].
      intros z Hz. simpl in Hz. lia.
    + rewrite IH. destruct (Q y), (Q x); simpl; try reflexivity.
      destruct (Z.leb_spec (key x) (key y)); [lia | reflexivity].
Qed.

Lemma filter_sort_asc (Q : A -> bool) l :
  sort_asc key (List.filter Q l) = List.filter Q (sort_asc key l).
Proof.
  induction l as [|x l IH]; simpl; [reflexivity |].
  change (sort_asc key (x :: l)) with (insert_asc key x (sort_asc key l)).
  rewrite (filter_insert_asc Q x _ (sort_asc_sorted l)).
  destruct (Q x); simpl; [| exact IH].
  change (sort_asc key (x :: List.filter Q l))
    with (insert_asc key x (sort_asc key (List.filter Q l))).
  rewrite IH. reflexivity.
Qed.
End SortAscFacts.

(** ** Learned rules *)

Lemma filter_filter_bool {A : Type} (f g : A -> bool) (l : list A) :
  List.filter f (List.filter g l) = List.filter (fun x => g x && f x) l.
Proof.
  induction l as [|x l IH]; simpl; [reflexivity |].
  destruct (g x); simpl; [destruct (f x); simpl; congruence | exact IH].
Qed.

Lemma deactivate_all now rules d :
  learning_log
    (foldl (fun d1 rule => deactivate_learned_rule (LearnedRule.id rule) now d1) d rules)
  = map (fun r => if id_among rules r then deactivated now r else r) (learning_log d)
  /\ processed_messages
       (foldl (fun d1 rule => deactivate_learned_rule (LearnedRule.id rule) now d1) d rules)
     = processed_messages d.
Proof.
  revert d. induction rules as [|x rules IH]; intros d; simpl.
  - split; [| reflexivity]. induction (learning_log d) as [|r l IHl]; simpl; congruence.
  - destruct (IH (deactivate_learned_rule (LearnedRule.id x) now d)) as [-> ->].
    split; [| reflexivity]. simpl. rewrite map_map. apply map_ext. intros r.
    unfold deactivate_row, id_among. simpl.
    destruct (Z.eqb_spec (LearnedRule.id r) (LearnedRule.id x)); simpl.
    + destruct (existsb _ _); reflexivity.
    + reflexivity.
Qed.

Lemma active_after_deactivation now rules l :
  List.filter LearnedRule.active
    (map (fun r => if id_among rules r then deactivated now r else r) l)
  = List.filter (fun r => negb (id_among rules r)) (List.filter LearnedRule.active l).
Proof.
  rewrite filter_filter_bool. induction l as [|r l IH]; simpl; [reflexivity |].
  destruct (id_among rules r); simpl.
  - rewrite andb_false_r. exact IH.
  - rewrite andb_true_r, IH. reflexivity.
Qed.

Lemma id_among_In rules r : In r rules -> id_among rules r = true.
Proof.
  intros H. unfold id_among. apply existsb_exists. exists (LearnedRule.id r).
  split; [apply List.in_map, H | apply Z.eqb_refl].
Qed.

Lemma id_among_false rules r :
  ~ In (LearnedRule.id r) (map LearnedRule.id rules) -> id_among rules r = false.
Proof.
  intros H. unfold id_among. destruct (existsb _ _) eqn:E; [| reflexivity].
  apply existsb_exists in E as (i & Hi & He). apply Z.eqb_eq in He. congruence.
Qed.

Lemma filter_among_nil (t l : list LearnedRule.t) :
  (forall r, In r l -> In r t) ->
  List.filter (fun r => negb (id_among t r)) l = [].
Proof.
  induction l as [|r l IH]; intros Hl; simpl; [reflexivity |].
  rewrite (id_among_In t r) by (apply Hl; left; reflexivity). simpl.
  apply IH. intros r' Hr'. apply Hl. right. exact Hr'.
Qed.

Lemma filter_among_all (t l : list LearnedRule.t) :
  (forall r, In r l -> id_among t r = false) ->
  List.filter (fun r => negb (id_among t r)) l = l.
Proof.
  induction l as [|r l IH]; intros Hl; simpl; [reflexivity |].
  rewrite (Hl r) by (left; reflexivity). simpl. f_equal.
  apply IH. intros r' Hr'. apply Hl. right. exact Hr'.
Qed.

Lemma filter_not_among_app (t d : list LearnedRule.t) :
  NoDup (map LearnedRule.id (t ++ d)) ->
  List.filter (fun r => negb (id_among t r)) (t ++ d) = d.
Proof.
  intros Hnd. rewrite List.filter_app.
  rewrite (filter_among_nil t t) by auto. simpl.
  apply filter_among_all. intros r Hr. apply id_among_false. intros Hin.
  rewrite map_app in Hnd. apply NoDup_app in Hnd as (_ & Hdis & _).
  apply list_elem_of_In in Hin. apply (Hdis _ Hin).
  apply list_elem_of_In, List.in_map, Hr.
Qed.

(** Filtering out the ids of the first [k] rows leaves the others. *)
Lemma filter_not_among_take k (rules : list LearnedRule.t) :
  NoDup (map LearnedRule.id rules) ->
  List.filter (fun r => negb (id_among (take k rules) r)) rules = drop k rules.
Proof.
  intros Hnd.
  pose proof (filter_not_among_app (take k rules) (drop k rules)) as H.
  rewrite take_drop in H. apply H, Hnd.
Qed.

Lemma NoDup_ids_filter (f : LearnedRule.t -> bool) l :
  NoDup (map LearnedRule.id l) -> NoDup (map LearnedRule.id (List.filter f l)).
Proof.
  induction l as [|r l IH]; simpl; intros H; [constructor |].
  apply NoDup_cons in H as [Hr Hl]. destruct (f r); simpl; [| auto].
  apply NoDup_cons. split; [| auto]. intros Hin. apply Hr.
  apply list_elem_of_In in Hin. apply list_elem_of_In.
  apply List.in_map_iff in Hin as (x & Hx & Hin). apply List.filter_In in Hin as [Hin _].
  apply List.in_map_iff. eauto.
Qed.

Lemma NoDup_ids_active d :
  NoDup (map LearnedRule.id (learning_log d)) ->
  NoDup (map LearnedRule.id (get_active_learned_rules d)).
Proof.
  intros H. unfold get_active_learned_rules.
  assert (Hp : map LearnedRule.id
                 (sort_asc LearnedRule.created_at
                    (List.filter LearnedRule.active (learning_log d)))
               ≡ₚ map LearnedRule.id (List.filter LearnedRule.active (learning_log d)))
    by apply Permutation_map, sort_asc_perm.
  rewrite Hp. apply NoDup_ids_filter, H.
Qed.

(** The cap: rows are only flagged, the oldest active rules go first, and
    as many as the cap allows stay active. *)
Lemma cap_active_rules_spec max_active_rules now d :
  (0 <= max_active_rules)%Z ->
  NoDup (map LearnedRule.id (learning_log d)) ->
  let before := get_active_learned_rules d in
  let d' := cap_active_rules max_active_rules now d in
  let after := get_active_learned_rules d' in
  let k := (length before - Z.to_nat max_active_rules)%nat in
  map LearnedRule.id (learning_log d') = map LearnedRule.id (learning_log d)
  /\ map rule_content (learning_log d') = map rule_content (learning_log d)
  /\ map LearnedRule.created_at (learning_log d')
     = map LearnedRule.created_at (learning_log d)
  /\ after = drop k before
  /\ ((max_active_rules < Z.of_nat (length before))%Z ->
      Z.of_nat (length after) = max_active_rules)
  /\ ((Z.of_nat (length before) <= max_active_rules)%Z -> d' = d)
  /\ (forall a b, a ∈ take k before -> b ∈ after ->
        (LearnedRule.created_at a <= LearnedRule.created_at b)%Z).
Proof.
  intros Hmax Hnd before d' after k.
  assert (Hafter : after = drop k before
                   /\ map LearnedRule.id (learning_log d') = map LearnedRule.id (learning_log d)
                   /\ map rule_content (learning_log d') = map rule_content (learning_log d)
                   /\ map LearnedRule.created_at (learning_log d')
                      = map LearnedRule.created_at (learning_log d)
                   /\ ((Z.of_nat (length before) <= max_active_rules)%Z -> d' = d)).
  { subst after d'. unfold cap_active_rules. fold before.
    destruct (Z.ltb_spec max_active_rules (Z.of_nat (length before))) as [Hlt|Hge].
    - rewrite slice_to_nonneg by lia.
      replace (Z.to_nat (Z.of_nat (length before) - max_active_rules)) with k by lia.
      destruct (deactivate_all now (take k before) d) as [Hlog _].
      unfold get_active_learned_rules at 1. rewrite Hlog.
      rewrite !map_map. simpl.
      split; [| split; [| split; [| split]]].
      + rewrite active_after_deactivation, filter_sort_asc.
        apply filter_not_among_take, NoDup_ids_active, Hnd.
      + apply map_ext. intros r. destruct (id_among _ r); reflexivity.
      + apply map_ext. intros r. destruct (id_among _ r); reflexivity.
      + apply map_ext. intros r. destruct (id_among _ r); reflexivity.
      + lia.
    - replace k with 0%nat by lia. repeat split; reflexivity. }
  destruct Hafter as (Hdrop & Hid & Hcontent & Hcreated & Hsame).
  split; [exact Hid |]. split; [exact Hcontent |]. split; [exact Hcreated |].
  split; [exact Hdrop |]. split; [| split; [exact Hsame |]].
  - intros Hlt. rewrite Hdrop, length_drop. lia.
  - intros a b Ha Hb. rewrite Hdrop in Hb.
    pose proof (sort_asc_sorted LearnedRule.created_at
                  (List.filter LearnedRule.active (learning_log d))) as Hs.
    fold (get_active_learned_rules d) in Hs. fold before in Hs.
    rewrite <- (take_drop k before) in Hs.
    exact (StronglySorted_app_1_elem_of _ _ _ _ _ Hs Ha Hb).
Qed.

Lemma next_rule_id_fresh rows r :
  In r rows -> (LearnedRule.id r < next_rule_id rows)%Z.
Proof.
  unfold next_rule_id. induction rows as [|x rows IH]; simpl; [tauto |].
  intros [<- | H]; [lia |]. specialize (IH H). lia.
Qed.

Lemma NoDup_ids_insert rows text conf now :
  NoDup (map LearnedRule.id rows) ->
  NoDup (map LearnedRule.id
           (rows ++ [LearnedRule.mk (next_rule_id rows) text conf true now None])).
Proof.
  intros H. rewrite map_app. simpl. apply NoDup_app. split; [exact H |]. split.
  - intros i Hi Hin. apply list_elem_of_In in Hi.
    apply List.in_map_iff in Hi as (r & <- & Hr).
    apply next_rule_id_fresh in Hr.
    apply list_elem_of_In in Hin. destruct Hin as [Hin | []]. lia.
  - apply NoDup_singleton.
Qed.

Lemma confident_iff c : confident c = true <-> (7 # 10 < Candidate.confidence c)%Q.
Proof.
  unfold confident. rewrite negb_true_iff. split.
  - intros H. apply Qnot_le_lt. intros Hle. apply Qle_bool_iff in Hle. congruence.
  - intros H. destruct (Qle_bool _ _) eqn:E; [| reflexivity].
    apply Qle_bool_iff in E. apply Qlt_not_le in H. contradiction.
Qed.

(** The loop of step 4, from any count and any store. *)
Lemma store_rules_fold now candidates n d :
  exists new_rows,
    let out :=
      foldl (fun acc rule =>
               let '(stored, d1) := acc in
               if confident rule
               then ((stored + 1)%Z,
                     (insert_learned_rule (Candidate.rule_text rule)
                        (Candidate.confidence rule) now d1).2)
               else (stored, d1))
            (n, d) candidates in
    learning_log out.2 = learning_log d ++ new_rows
    /\ processed_messages out.2 = processed_messages d
    /\ local_audit out.2 = local_audit d
    /\ map rule_content new_rows
       = map candidate_content (List.filter confident candidates)
    /\ Forall (freshly_inserted now) new_rows
    /\ out.1 = (n + Z.of_nat (length new_rows))%Z
    /\ (NoDup (map LearnedRule.id (learning_log d)) ->
        NoDup (map LearnedRule.id (learning_log d ++ new_rows))).
Proof.
  revert n d. induction candidates as [|c candidates IH]; intros n d.
  - exists []. simpl. rewrite app_nil_r. repeat split; auto. lia.
  - simpl. destruct (confident c) eqn:Ec.
    + destruct (IH (n + 1)%Z
                  (insert_learned_rule (Candidate.rule_text c) (Candidate.confidence c)
                     now d).2)
        as (rows & Hlog & Hpm & Hla & Hcontent & Hfresh & Hn & Hnd).
      exists (LearnedRule.mk (next_rule_id (learning_log d)) (Candidate.rule_text c)
                (Candidate.confidence c) true now None :: rows).
      simpl in *. rewrite <- app_assoc in Hlog, Hnd. simpl in Hlog, Hnd.
      split; [exact Hlog |]. split; [exact Hpm |]. split; [exact Hla |].
      split; [rewrite Hcontent; reflexivity |].
      split; [constructor; [repeat split | exact Hfresh] |].
      split; [rewrite Hn; lia |].
      intros H. apply Hnd, NoDup_ids_insert, H.
    + apply IH.
Qed.

Lemma store_rules_spec now candidates d :
  exists new_rows,
    learning_log (store_rules now candidates d).2 = learning_log d ++ new_rows
    /\ map rule_content new_rows
       = map candidate_content (List.filter confident candidates)
    /\ Forall (freshly_inserted now) new_rows
    /\ (store_rules now candidates d).1 = Z.of_nat (length new_rows)
    /\ (NoDup (map LearnedRule.id (learning_log d)) ->
        NoDup (map LearnedRule.id (learning_log d ++ new_rows))).
Proof.
  destruct (store_rules_fold now candidates 0 d)
    as (rows & Hlog & _ & _ & Hcontent & Hfresh & Hn & Hnd).
  exists rows. unfold store_rules. simpl in *. repeat split; auto.
Qed.

(** C8. A learning cycle that is not skipped stores one new active rule
    for each candidate whose confidence is above 0.7, and no other; then,
    if more rules are active than [max_active_rules] allows, it
    deactivates the oldest active rules by creation time, keeping every
    row in the table, until exactly [max_active_rules] are active. *)
Theorem learned_rule_storage_and_eviction
    analyze now lookback_days max_active_rules min_messages w stats w' :
  (0 <= max_active_rules)%Z ->
  NoDup (map LearnedRule.id (learning_log (w_db w))) ->
  run_learning_cycle analyze now lookback_days max_active_rules min_messages w
  = (Ok stats, w') ->
  LearningStats.skipped_reason stats = None ->
  exists candidates new_rows,
    analyze (_fetch_edited_messages lookback_days now (w_crm w))
      (get_active_learned_rules (w_db w)) = Ok candidates
    /\ (forall c, confident c = true <-> (7 # 10 < Candidate.confidence c)%Q)
    /\ map rule_content new_rows
       = map candidate_content (List.filter confident candidates)
    /\ Forall (freshly_inserted now) new_rows
    /\ LearningStats.new_rules stats = Z.of_nat (length new_rows)
    /\ let inserted := learning_log (w_db w) ++ new_rows in
       let before :=
         sort_asc LearnedRule.created_at (List.filter LearnedRule.active inserted) in
       let after := get_active_learned_rules (w_db w') in
       let k := (length before - Z.to_nat max_active_rules)%nat in
       map LearnedRule.id (learning_log (w_db w')) = map LearnedRule.id inserted
       /\ map rule_content (learning_log (w_db w')) = map rule_content inserted
       /\ map LearnedRule.created_at (learning_log (w_db w'))
          = map LearnedRule.created_at inserted
       /\ after = drop k before
       /\ ((max_active_rules < Z.of_nat (length before))%Z ->
           Z.of_nat (length after) = max_active_rules)
       /\ ((Z.of_nat (length before) <= max_active_rules)%Z ->
           learning_log (w_db w') = inserted)
       /\ (forall a b, a ∈ take k before -> b ∈ after ->
             (LearnedRule.created_at a <= LearnedRule.created_at b)%Z).
Proof.
  intros Hmax Hnd Hrun Hskip. unfold run_learning_cycle in Hrun.
  bind_ok Hrun edit_pairs w1 Hfetch. apply crm_get_eq in Hfetch as [-> ->].
  destruct (Z.of_nat (length _) <? min_messages)%Z.
  { injection Hrun as <- _. discriminate. }
  bind_ok Hrun candidates w2 Hanalyze. unfold external in Hanalyze.
  injection Hanalyze as Hanalyze <-. simpl in Hrun.
  destruct (store_rules now candidates (w_db w)) as [stored d1] eqn:Estore.
  destruct (store_rules_spec now candidates (w_db w))
    as (new_rows & Hlog & Hcontent & Hfresh & Hn & Hnd1).
  rewrite Estore in Hlog, Hn. simpl in Hlog, Hn.
  injection Hrun as <- <-. simpl.
  exists candidates, new_rows.
  split; [exact Hanalyze |]. split; [apply confident_iff |].
  split; [exact Hcontent |]. split; [exact Hfresh |]. split; [exact Hn |].
  assert (Hnd' : NoDup (map LearnedRule.id (learning_log d1)))
    by (rewrite Hlog; apply Hnd1, Hnd).
  destruct (cap_active_rules_spec max_active_rules now d1 Hmax Hnd')
    as (Hid & Hct & Hcr & Hdrop & Hlen & Hsame & Hold).
  unfold get_active_learned_rules in *. simpl. rewrite Hlog in *.
  split; [exact Hid |]. split; [exact Hct |]. split; [exact Hcr |].
  split; [exact Hdrop |]. split; [exact Hlen |]. split; [| exact Hold].
  intros Hle. rewrite (Hsame Hle). exact Hlog.
Qed.

Lemma learned_rule_storage_and_eviction_witness :
  let out := run_learning_cycle analyze_two 300%Z 7 2 0 rules_world in
  (0 <= 2)%Z
  /\ NoDup (map LearnedRule.id (learning_log (w_db rules_world)))
  /\ out = (Ok (LearningStats.mk 0 1 None), out.2)
  /\ exists new_rows,
       map rule_content new_rows = [("Drop the greeting", 9 # 10)]
       /\ Forall (freshly_inserted 300%Z) new_rows
       /\ map LearnedRule.id (learning_log (w_db out.2))
          = map LearnedRule.id (learning_log (w_db rules_world) ++ new_rows).
Proof.
  intros out.
  assert (Hmax : (0 <= 2)%Z) by (vm_compute; discriminate).
  assert (Hnd : NoDup (map LearnedRule.id (learning_log (w_db rules_world)))).
  { apply (bool_decide_unpack _). vm_compute. exact I. }
  assert (Hrun : out = (Ok (LearningStats.mk 0 1 None), out.2))
    by (vm_compute; reflexivity).
  split; [exact Hmax |]. split; [exact Hnd |]. split; [exact Hrun |].
  destruct (learned_rule_storage_and_eviction analyze_two 300%Z 7 2 0 rules_world
              (LearningStats.mk 0 1 None) out.2 Hmax Hnd Hrun eq_refl)
    as (candidates & new_rows & Hcand & _ & Hcontent & Hfresh & _ & Hid & _).
  exists new_rows. injection Hcand as <-.
  split; [exact Hcontent |]. split; [exact Hfresh | exact Hid].
Defined.

(** In the example, rule 1, the oldest, is the one deactivated. *)
Example oldest_rule_is_evicted :
  let out := run_learning_cycle analyze_two 300%Z 7 2 0 rules_world in
  map (fun r => (LearnedRule.id r, LearnedRule.active r)) (learning_log (w_db out.2))
  = [(1%Z, false); (2%Z, true); (3%Z, true)]
  /\ map LearnedRule.rule_text (get_active_learned_rules (w_db out.2))
     = ["Ask one question"; "Drop the greeting"].
Proof. vm_compute. split; reflexivity. Qed.

(** * Further properties of the code *)

(** ** More on the ledger *)

Lemma mark_message_failed_other source sid e d k :
  k <> (source, sid) ->
  processed_messages (mark_message_failed source sid e d) !! k = processed_messages d !! k.
Proof. intros H. unfold mark_message_failed. simpl. apply lookup_insert_ne. congruence. Qed.

Lemma record_failures_other source sid errors d k :
  k <> (source, sid) ->
  processed_messages (record_failures source sid errors d) !! k
  = processed_messages d !! k.
Proof.
  intros H. unfold record_failures. revert d.
  induction errors as [|e errors IH]; intros d; simpl; [reflexivity |].
  rewrite IH. apply mark_message_failed_other, H.
Qed.

Lemma record_failures_row source sid errors last d :
  processed_messages (record_failures source sid (errors ++ [last]) d) !! (source, sid)
  = Some match processed_messages d !! (source, sid) with
         | None =>
             LedgerRow.mk "failed" (Z.of_nat (S (length errors))) (Some last) None None
         | Some old =>
             LedgerRow.mk "failed"
               (LedgerRow.attempts old + Z.of_nat (S (length errors))) (Some last)
               (LedgerRow.airtable_message_id old) (LedgerRow.airtable_contact_id old)
         end.
Proof.
  unfold record_failures. revert d.
  induction errors as [|e errors IH]; intros d.
  - simpl. rewrite lookup_insert_eq.
    destruct (processed_messages d !! (source, sid)); reflexivity.
  - change (foldl _ d ((e :: errors) ++ [last]))
      with (foldl (fun d1 e0 => mark_message_failed source sid e0 d1)
              (mark_message_failed source sid e d) (errors ++ [last])).
    rewrite IH. f_equal. unfold mark_message_failed. simpl.
    rewrite lookup_insert_eq.
    destruct (processed_messages d !! (source, sid)) as [old|]; simpl; f_equal; lia.
Qed.

Lemma elem_of_get_failed_messages k row max_attempts d :
  (k, row) ∈ get_failed_messages max_attempts d
  <-> processed_messages d !! k = Some row
      /\ LedgerRow.status row = "failed"
      /\ (LedgerRow.attempts row < max_attempts)%Z.
Proof.
  unfold get_failed_messages. rewrite list_elem_of_filter, elem_of_map_to_list. simpl.
  rewrite andb_true_iff, String.eqb_eq, Z.ltb_lt. tauto.
Qed.

(** X1. Failures of one message are counted: after [n] failures of a
    message that had no ledger row, its row says failed, [n] attempts and
    the text of the last error; the rows of other messages are as before;
    and [get_failed_messages max_attempts] lists the message exactly while
    [n < max_attempts]. *)
Theorem mark_message_failed_counts_attempts
    source source_message_id errors last max_attempts d :
  processed_messages d !! (source, source_message_id) = None ->
  let d' := record_failures source source_message_id (errors ++ [last]) d in
  let n := Z.of_nat (length (errors ++ [last])) in
  processed_messages d' !! (source, source_message_id)
  = Some (LedgerRow.mk "failed" n (Some last) None None)
  /\ (forall k, k <> (source, source_message_id) ->
        processed_messages d' !! k = processed_messages d !! k)
  /\ ((exists row, ((source, source_message_id), row) ∈ get_failed_messages max_attempts d')
      <-> (n < max_attempts)%Z).
Proof.
  intros Hnew d' n.
  assert (Hrow : processed_messages d' !! (source, source_message_id)
                 = Some (LedgerRow.mk "failed" n (Some last) None None)).
  { subst d' n. rewrite record_failures_row, Hnew, length_app. simpl.
    do 2 f_equal. lia. }
  split; [exact Hrow |]. split.
  - intros k Hk. apply record_failures_other, Hk.
  - split.
    + intros (row & H). apply elem_of_get_failed_messages in H as (H & _ & Hlt).
      rewrite Hrow in H. injection H as <-. exact Hlt.
    + intros Hlt. eexists. apply elem_of_get_failed_messages. eauto.
Qed.

Lemma mark_message_failed_counts_attempts_witness :
  processed_messages empty_db !! ("Gmail", "msg_001") = None
  /\ processed_messages
       (record_failures "Gmail" "msg_001" ["timeout"; "API error"] empty_db)
       !! ("Gmail", "msg_001")
     = Some (LedgerRow.mk "failed" 2 (Some "API error") None None).
Proof.
  split; [reflexivity |].
  apply (mark_message_failed_counts_attempts "Gmail" "msg_001" ["timeout"] "API error"
           3%Z empty_db).
  reflexivity.
Defined.

(** X2. [mark_message_processed] is an upsert: on a message that has a
    row it replaces the status, keeps the attempts and the error text, and
    keeps a stored Airtable id where it is given none; calling it again
    with the same arguments changes nothing; other rows are untouched;
    and with a status other than failed the message is not listed by
    [get_failed_messages]. *)
Theorem mark_message_processed_upsert source source_message_id status mid cid d :
  let k := (source, source_message_id) in
  let d' := mark_message_processed source source_message_id status mid cid d in
  (forall old, processed_messages d !! k = Some old ->
     processed_messages d' !! k
     = Some (LedgerRow.mk status (LedgerRow.attempts old) (LedgerRow.error old)
               (match mid with Some _ => mid | None => LedgerRow.airtable_message_id old end)
               (match cid with Some _ => cid | None => LedgerRow.airtable_contact_id old end)))
  /\ (processed_messages d !! k = None ->
      processed_messages d' !! k = Some (LedgerRow.mk status 1 None mid cid))
  /\ (forall k', k' <> k -> processed_messages d' !! k' = processed_messages d !! k')
  /\ mark_message_processed source source_message_id status mid cid d' = d'
  /\ learning_log d' = learning_log d
  /\ (status <> "failed" ->
      forall max_attempts row, (k, row) ∉ get_failed_messages max_attempts d').
Proof.
  intros k d'. subst k d'. unfold mark_message_processed. simpl.
  split; [| split; [| split; [| split; [| split]]]].
  - intros old ->. rewrite lookup_insert_eq. reflexivity.
  - intros ->. rewrite lookup_insert_eq. reflexivity.
  - intros k' Hk'. apply lookup_insert_ne. congruence.
  - rewrite lookup_insert_eq. rewrite insert_insert_eq. f_equal. f_equal.
    destruct (processed_messages d !! (source, source_message_id)) as [old|]; simpl.
    + destruct mid, cid; reflexivity.
    + destruct mid, cid; reflexivity.
  - reflexivity.
  - intros Hs max_attempts row H. apply elem_of_get_failed_messages in H as (H & Hf & _).
    simpl in H. rewrite lookup_insert_eq in H. injection H as <-.
    destruct (processed_messages d !! (source, source_message_id)); simpl in Hf; congruence.
Qed.

Lemma mark_message_processed_upsert_witness :
  processed_messages
    (mark_message_processed "Gmail" "msg_001" "processed" (Some 7) None
       (mark_message_failed "Gmail" "msg_001" "API error" empty_db))
    !! ("Gmail", "msg_001")
  = Some (LedgerRow.mk "processed" 1 (Some "API error") (Some 7) None).
Proof.
  destruct (mark_message_processed_upsert "Gmail" "msg_001" "processed" (Some 7) None
              (mark_message_failed "Gmail" "msg_001" "API error" empty_db)) as [H _].
  apply (H (LedgerRow.mk "failed" 1 (Some "API error") None None)).
  vm_compute. reflexivity.
Defined.

(** ** More on the learned rules *)

Lemma deactivate_row_other i now r :
  LearnedRule.id r <> i -> deactivate_row i now r = r.
Proof.
  intros H. unfold deactivate_row.
  destruct (Z.eqb_spec (LearnedRule.id r) i); [contradiction | reflexivity].
Qed.

Lemma deactivate_rows_other i now rows :
  (forall r, r ∈ rows -> LearnedRule.id r <> i) ->
  map (deactivate_row i now) rows = rows.
Proof.
  induction rows as [|r rows IH]; intros H; simpl; [reflexivity |].
  rewrite deactivate_row_other by (apply H; left).
  rewrite IH; [reflexivity |]. intros r' Hr'. apply H. right. exact Hr'.
Qed.

(** X3. [insert_learned_rule] hands out an id larger than every id in
    the table and the new rule is active; deactivating the returned id
    gives back the active rules there were before the insertion; and
    deactivating an id that no row has changes nothing. *)
Theorem insert_then_deactivate_rule rule_text confidence now later d :
  let i := (insert_learned_rule rule_text confidence now d).1 in
  let d1 := (insert_learned_rule rule_text confidence now d).2 in
  let row := LearnedRule.mk i rule_text confidence true now None in
  (forall r, r ∈ learning_log d -> (LearnedRule.id r < i)%Z)
  /\ learning_log d1 = learning_log d ++ [row]
  /\ get_active_learned_rules d1 ≡ₚ row :: get_active_learned_rules d
  /\ get_active_learned_rules (deactivate_learned_rule i later d1)
     = get_active_learned_rules d
  /\ (forall j, (forall r, r ∈ learning_log d -> LearnedRule.id r <> j) ->
        deactivate_learned_rule j later d = d).
Proof.
  intros i d1 row. subst i d1 row. simpl.
  assert (Hfresh : forall r, r ∈ learning_log d ->
                     (LearnedRule.id r < next_rule_id (learning_log d))%Z).
  { intros r Hr. apply next_rule_id_fresh, list_elem_of_In, Hr. }
  split; [exact Hfresh |]. split; [reflexivity |]. split; [| split].
  - unfold get_active_learned_rules. simpl. rewrite !sort_asc_perm.
    rewrite List.filter_app. simpl. rewrite Permutation_app_comm. reflexivity.
  - unfold get_active_learned_rules, deactivate_learned_rule. simpl.
    rewrite map_app. simpl.
    rewrite deactivate_rows_other
      by (intros r Hr; specialize (Hfresh r Hr); lia).
    unfold deactivate_row. simpl. rewrite Z.eqb_refl. simpl.
    rewrite List.filter_app. simpl. rewrite app_nil_r. reflexivity.
  - intros j Hj. unfold deactivate_learned_rule.
    rewrite deactivate_rows_other by exact Hj. destruct d; reflexivity.
Qed.

(** ** Records and what reads back from them *)

Lemma get_str_set_str k o (f : gmap string value) :
  get_str (set_str k o f) k = if truthy o then o else get_str f k.
Proof.
  unfold get_str, set_str. rewrite lookup_set_if_eq.
  destruct o as [s|]; simpl; [| reflexivity]. destruct (negb _); reflexivity.
Qed.

Lemma get_date_set_date k o (f : gmap string value) :
  get_date (set_date k o f) k
  = match o with Some t => Some (date_of t) | None => get_date f k end.
Proof.
  unfold get_date, set_date. destruct o; [rewrite lookup_insert_eq |]; reflexivity.
Qed.

Lemma get_str_set_str_ne k k' o (f : gmap string value) :
  k <> k' -> get_str (set_str k o f) k' = get_str f k'.
Proof. intros H. unfold get_str. rewrite lookup_set_str_ne by exact H. reflexivity. Qed.

Lemma get_str_set_if_ne b k k' v (f : gmap string value) :
  k <> k' -> get_str (set_if b k v f) k' = get_str f k'.
Proof. intros H. unfold get_str. rewrite lookup_set_if_ne by exact H. reflexivity. Qed.

Lemma get_str_set_date_ne k k' o (f : gmap string value) :
  k <> k' -> get_str (set_date k o f) k' = get_str f k'.
Proof. intros H. unfold get_str. rewrite lookup_set_date_ne by exact H. reflexivity. Qed.

Lemma get_str_insert_ne k k' v (f : gmap string value) :
  k <> k' -> get_str (<[k := v]> f) k' = get_str f k'.
Proof. intros H. unfold get_str. rewrite lookup_insert_ne by exact H. reflexivity. Qed.

Lemma get_date_set_str_ne k k' o (f : gmap string value) :
  k <> k' -> get_date (set_str k o f) k' = get_date f k'.
Proof. intros H. unfold get_date. rewrite lookup_set_str_ne by exact H. reflexivity. Qed.

Lemma get_date_set_if_ne b k k' v (f : gmap string value) :
  k <> k' -> get_date (set_if b k v f) k' = get_date f k'.
Proof. intros H. unfold get_date. rewrite lookup_set_if_ne by exact H. reflexivity. Qed.

Lemma get_date_set_date_ne k k' o (f : gmap string value) :
  k <> k' -> get_date (set_date k o f) k' = get_date f k'.
Proof. intros H. unfold get_date. rewrite lookup_set_date_ne by exact H. reflexivity. Qed.

Lemma get_date_insert_ne k k' v (f : gmap string value) :
  k <> k' -> get_date (<[k := v]> f) k' = get_date f k'.
Proof. intros H. unfold get_date. rewrite lookup_insert_ne by exact H. reflexivity. Qed.

(** Reading a text or date field through the layers of a field map. *)
Ltac read_field :=
  repeat first
    [ rewrite get_str_set_str
    | rewrite get_date_set_date
    | rewrite get_str_set_str_ne by discriminate
    | rewrite get_str_set_if_ne by discriminate
    | rewrite get_str_set_date_ne by discriminate
    | rewrite get_str_insert_ne by discriminate
    | rewrite get_date_set_str_ne by discriminate
    | rewrite get_date_set_if_ne by discriminate
    | rewrite get_date_set_date_ne by discriminate
    | rewrite get_date_insert_ne by discriminate ].

Lemma stored_stored o : stored (stored o) = stored o.
Proof. unfold stored. destruct (truthy o) eqn:E; [rewrite E |]; reflexivity. Qed.

Lemma date_of_date_of t : date_of (date_of t) = date_of t.
Proof. unfold date_of. rewrite Z.div_mul by discriminate. reflexivity. Qed.

Lemma source_channel_round_trip c :
  enum_or SourceChannel.of_string SourceChannel.GMAIL (Some (SourceChannel.value c)) = c.
Proof. destruct c; reflexivity. Qed.

Lemma lead_category_round_trip c :
  enum_or LeadCategory.of_string LeadCategory.COLD (Some (LeadCategory.value c)) = c.
Proof. destruct c; reflexivity. Qed.

Lemma conversation_stage_round_trip c :
  enum_or ConversationStage.of_string ConversationStage.NEW
    (Some (ConversationStage.value c)) = c.
Proof. destruct c; reflexivity. Qed.

Lemma message_direction_round_trip c :
  enum_or MessageDirection.of_string MessageDirection.INBOUND
    (Some (MessageDirection.value c)) = c.
Proof. destruct c; reflexivity. Qed.

Lemma message_status_round_trip c :
  enum_or MessageStatus.of_string MessageStatus.NEW (Some (MessageStatus.value c)) = c.
Proof. destruct c; reflexivity. Qed.

Lemma record_to_stored_contact i contact :
  _record_to_contact (mkRecord i (_contact_to_fields contact)) = stored_contact i contact.
Proof.
  unfold _record_to_contact, stored_contact, _contact_to_fields. cbn [fields rid].
  f_equal.
  - unfold get_str. lookup_fields. reflexivity.
  - read_field. unfold stored. destruct (truthy _); [reflexivity |].
    unfold get_str. lookup_fields. reflexivity.
  - read_field. unfold stored. destruct (truthy _); [reflexivity |].
    unfold get_str. lookup_fields. reflexivity.
  - read_field. unfold stored. destruct (truthy _); [reflexivity |].
    unfold get_str. lookup_fields. reflexivity.
  - read_field. unfold stored. destruct (truthy _); [reflexivity |].
    unfold get_str. lookup_fields. reflexivity.
  - unfold get_str. lookup_fields. apply source_channel_round_trip.
  - unfold get_str. lookup_fields. apply lead_category_round_trip.
  - unfold get_str. lookup_fields. apply conversation_stage_round_trip.
  - unfold get_num. lookup_fields. reflexivity.
  - unfold get_str. lookup_fields. reflexivity.
  - unfold get_str. lookup_fields. reflexivity.
  - unfold get_str. lookup_fields. reflexivity.
  - read_field. destruct (ContactRecord.first_contact contact); [reflexivity |].
    unfold get_date. lookup_fields. reflexivity.
  - read_field. destruct (ContactRecord.last_contact contact); [reflexivity |].
    unfold get_date. lookup_fields. reflexivity.
  - unfold get_int. lookup_fields. reflexivity.
  - unfold get_str. lookup_fields. reflexivity.
  - unfold get_int. lookup_fields. rewrite lookup_set_if_eq.
    destruct (Z.eqb_spec (ContactRecord.follow_up_count contact) 0) as [->|]; simpl;
      [lookup_fields |]; reflexivity.
  - read_field. unfold stored. destruct (truthy _); [reflexivity |].
    unfold get_str. lookup_fields. reflexivity.
  - read_field. destruct (ContactRecord.next_follow_up_date contact); [reflexivity |].
    unfold get_date. lookup_fields. reflexivity.
  - unfold get_str. lookup_fields. rewrite lookup_set_if_eq. unfold nonempty.
    destruct (String.eqb_spec (ContactRecord.follow_up_status contact) "") as [->|];
      simpl; [lookup_fields |]; reflexivity.
  - read_field. destruct (ContactRecord.last_outbound_at contact); reflexivity.
Qed.

(** X4. A contact written to a record and read back is the same contact
    with the record's id, except that a falsy optional text (None or the
    empty string) reads back as [None] and every date is cut to its day;
    and what was read back survives a further write and read unchanged. *)
Theorem contact_round_trip i contact :
  let back := _record_to_contact (mkRecord i (_contact_to_fields contact)) in
  back = stored_contact i contact
  /\ (forall j, _record_to_contact (mkRecord j (_contact_to_fields back))
                = stored_contact j contact)
  /\ (truthy (ContactRecord.email contact) = true ->
      ContactRecord.email back = ContactRecord.email contact)
  /\ (ContactRecord.email contact = Some "" -> ContactRecord.email back = None)
  /\ ContactRecord.last_contact back = date_of <$> ContactRecord.last_contact contact.
Proof.
  cbv zeta. rewrite !record_to_stored_contact. split; [reflexivity |]. split.
  - intros j. rewrite record_to_stored_contact. unfold stored_contact.
    cbn [ContactRecord.name ContactRecord.email ContactRecord.linkedin_url
         ContactRecord.company ContactRecord.title ContactRecord.source_channel
         ContactRecord.lead_category ContactRecord.conversation_stage
         ContactRecord.ai_confidence ContactRecord.detected_intent
         ContactRecord.signal_stack ContactRecord.ai_reasoning
         ContactRecord.first_contact ContactRecord.last_contact
         ContactRecord.interaction_count ContactRecord.enriched_data
         ContactRecord.follow_up_count ContactRecord.follow_up_channel
         ContactRecord.next_follow_up_date ContactRecord.follow_up_status
         ContactRecord.last_outbound_at].
    rewrite !stored_stored.
    destruct (ContactRecord.first_contact contact),
      (ContactRecord.last_contact contact),
      (ContactRecord.next_follow_up_date contact),
      (ContactRecord.last_outbound_at contact); simpl;
      rewrite ?date_of_date_of; reflexivity.
  - simpl. unfold stored. split; [intros ->; reflexivity |].
    split; [intros ->; reflexivity | reflexivity].
Qed.

Lemma record_to_stored_message i m :
  _record_to_message (mkRecord i (_message_to_fields m)) = stored_message i m.
Proof.
  unfold _record_to_message, stored_message, _message_to_fields. cbn [fields rid].
  f_equal.
  - unfold get_links. rewrite lookup_set_if_eq.
    destruct (MessageRecord.contact_id m); simpl; [reflexivity |].
    lookup_fields. reflexivity.
  - unfold get_str. lookup_fields. apply source_channel_round_trip.
  - unfold get_str. lookup_fields. apply message_direction_round_trip.
  - read_field. unfold stored. destruct (truthy _); [reflexivity |].
    unfold get_str. lookup_fields. reflexivity.
  - unfold get_str. lookup_fields. reflexivity.
  - unfold get_str. lookup_fields. reflexivity.
  - unfold get_str. lookup_fields. reflexivity.
  - unfold get_str. lookup_fields. apply message_status_round_trip.
  - unfold get_str. lookup_fields. reflexivity.
  - unfold get_str. lookup_fields. reflexivity.
  - unfold get_str. lookup_fields. reflexivity.
  - unfold get_num. lookup_fields. rewrite lookup_set_if_eq.
    destruct (MessageRecord.edit_distance m); simpl; [reflexivity |].
    lookup_fields. reflexivity.
  - read_field. destruct (MessageRecord.received_at m); [reflexivity |].
    unfold get_date. lookup_fields. reflexivity.
  - read_field. destruct (MessageRecord.sent_at m); [reflexivity |].
    unfold get_date. lookup_fields. reflexivity.
  - unfold get_str. lookup_fields. reflexivity.
  - unfold get_str. lookup_fields. reflexivity.
  - unfold get_str. lookup_fields. reflexivity.
  - unfold get_int. lookup_fields. rewrite lookup_set_if_eq.
    destruct (MessageRecord.follow_up_number m); simpl; [reflexivity |].
    lookup_fields. reflexivity.
Qed.

(** X5. A message written to a record and read back is the same message
    with the record's id, except that a falsy subject reads back as
    [None] and the received and sent times are cut to their day; the
    link to the contact, the status, the draft, the AI draft version,
    the edit distance and the follow-up number are kept as they are. *)
Theorem message_round_trip i m :
  let back := _record_to_message (mkRecord i (_message_to_fields m)) in
  back = stored_message i m
  /\ (forall j, _record_to_message (mkRecord j (_message_to_fields back))
                = stored_message j m)
  /\ MessageRecord.received_at back = date_of <$> MessageRecord.received_at m
  /\ MessageRecord.edit_distance back = MessageRecord.edit_distance m
  /\ MessageRecord.contact_id back = MessageRecord.contact_id m.
Proof.
  cbv zeta. rewrite record_to_stored_message. split; [reflexivity |]. split.
  - intros j. rewrite record_to_stored_message. unfold stored_message.
    cbn [MessageRecord.contact_id MessageRecord.source MessageRecord.direction
         MessageRecord.subject MessageRecord.body MessageRecord.thread_context
         MessageRecord.draft_reply MessageRecord.status MessageRecord.classification
         MessageRecord.conversation_stage MessageRecord.ai_draft_version
         MessageRecord.edit_distance MessageRecord.received_at MessageRecord.sent_at
         MessageRecord.send_error MessageRecord.account_id
         MessageRecord.source_message_id MessageRecord.follow_up_number].
    rewrite !stored_stored.
    destruct (MessageRecord.received_at m), (MessageRecord.sent_at m); simpl;
      rewrite ?date_of_date_of; reflexivity.
  - repeat split; reflexivity.
Qed.

(** ** Upserting a contact *)

Lemma length_table_update i f rows : length (table_update i f rows) = length rows.
Proof. unfold table_update. apply length_map. Qed.

Lemma table_first_holds k s rows :
  s <> "" -> holds k s rows -> is_Some (table_first (formula_eq k s) rows).
Proof.
  intros Hs (r & Hin & Hr). unfold table_first.
  destruct (List.find _ _) eqn:E; [eauto |].
  eapply List.find_none in E; [| exact Hin].
  unfold formula_eq in E. rewrite Hr in E. simpl in E.
  rewrite String.eqb_refl in E. discriminate.
Qed.

Lemma table_first_not_holds k s rows :
  ~ holds k s rows -> s <> "" -> table_first (formula_eq k s) rows = None.
Proof.
  intros Hno Hs. unfold table_first. destruct (List.find _ _) as [r|] eqn:E; [| reflexivity].
  apply List.find_some in E as [Hin Hr]. exfalso. apply Hno. exists r. split; [exact Hin |].
  unfold formula_eq in Hr. apply String.eqb_eq in Hr.
  destruct (get_str (fields r) k) as [t|]; simpl in Hr; congruence.
Qed.

Lemma truthy_Some o : truthy o = true -> exists s, o = Some s /\ s <> "".
Proof.
  destruct o as [s|]; simpl; [| discriminate]. intros H. exists s. split; [reflexivity |].
  intros ->. discriminate.
Qed.

Lemma table_get_fresh i r rows :
  ids_below i rows -> rid r = i -> table_get i (rows ++ [r]) = Some r.
Proof.
  intros Hb Hr. unfold table_get. induction Hb as [|x rows Hx Hb IH]; simpl.
  - rewrite Hr, Nat.eqb_refl. reflexivity.
  - destruct (Nat.eqb_spec (rid x) i); [lia | exact IH].
Qed.

Lemma upsert_lookup (email url : option string) rows :
  let known :=
    (truthy email = true /\ holds "Email" (or_empty email) rows)
    \/ (truthy url = true /\ holds "LinkedIn URL" (or_empty url) rows) in
  let by_email :=
    if truthy email then table_first (formula_eq "Email" (or_empty email)) rows
    else None in
  let existing :=
    match by_email with
    | Some r => Some r
    | None =>
        if truthy url then table_first (formula_eq "LinkedIn URL" (or_empty url)) rows
        else None
    end in
  (known -> exists r, existing = Some r /\ In r rows)
  /\ (~ known -> existing = None).
Proof.
  intros known by_email existing. split.
  - intros [[Ht Hh] | [Ht Hh]].
    + destruct (truthy_Some _ Ht) as (s & -> & Hne). subst existing by_email.
      rewrite Ht. simpl in *.
      destruct (table_first_holds "Email" s _ Hne Hh) as [r Hr]. rewrite Hr.
      exists r. split; [reflexivity |]. apply List.find_some in Hr. tauto.
    + destruct (truthy_Some _ Ht) as (s & -> & Hne). subst existing.
      destruct by_email as [r|] eqn:E.
      * exists r. split; [reflexivity |]. subst by_email.
        destruct (truthy email); [| discriminate].
        apply List.find_some in E. tauto.
      * rewrite Ht. simpl in *.
        destruct (table_first_holds "LinkedIn URL" s _ Hne Hh) as [r Hr]. rewrite Hr.
        exists r. split; [reflexivity |]. apply List.find_some in Hr. tauto.
  - intros Hno. subst existing by_email.
    assert (Hu : (if truthy url
                  then table_first (formula_eq "LinkedIn URL" (or_empty url)) rows
                  else None) = None).
    { destruct (truthy url) eqn:Hu; [| reflexivity].
      destruct (truthy_Some _ Hu) as (t & -> & Hne'). simpl.
      apply table_first_not_holds; [| exact Hne'].
      intros Hh. apply Hno. right. split; [first [exact Hu | reflexivity] | exact Hh]. }
    rewrite Hu.
    destruct (truthy email) eqn:Ht; [| reflexivity].
    destruct (truthy_Some _ Ht) as (s & -> & Hne). simpl.
    rewrite table_first_not_holds; [reflexivity | | exact Hne].
    intros Hh. apply Hno. left. split; [first [exact Ht | reflexivity] | exact Hh].
Qed.

(** X6. [upsert_contact] of a contact without an id never adds a second
    record for an e-mail address or a LinkedIn URL that the table already
    holds: the table keeps its length and no id is used up.  When the
    table holds neither, exactly one record is appended under the next
    id, the contact comes back as it reads from that record, and looking
    the id up returns it.  Messages and audit entries are not touched. *)
Theorem upsert_contact_no_duplicate contact c :
  ContactRecord.id contact = None ->
  let email := ContactRecord.email contact in
  let url := ContactRecord.linkedin_url contact in
  let back := (upsert_contact contact c).1 in
  let c' := (upsert_contact contact c).2 in
  let known :=
    (truthy email = true /\ holds "Email" (or_empty email) (contacts_table c))
    \/ (truthy url = true /\ holds "LinkedIn URL" (or_empty url) (contacts_table c)) in
  (known ->
   length (contacts_table c') = length (contacts_table c)
   /\ next_id c' = next_id c
   /\ exists r, In r (contacts_table c) /\ ContactRecord.id back = Some (rid r)
                /\ contacts_table c'
                   = table_update (rid r) (_contact_to_fields contact) (contacts_table c))
  /\ (~ known ->
      contacts_table c'
      = contacts_table c ++ [mkRecord (next_id c) (_contact_to_fields contact)]
      /\ next_id c' = S (next_id c)
      /\ back = stored_contact (next_id c) contact
      /\ (ids_below (next_id c) (contacts_table c) ->
          get_contact (next_id c) c' = Some back))
  /\ messages_table c' = messages_table c
  /\ audit_table c' = audit_table c.
Proof.
  intros Hid email url back c' known. subst back c'.
  destruct (upsert_lookup email url (contacts_table c)) as [Hknown Hunknown].
  fold known in Hknown, Hunknown. cbv zeta in Hknown, Hunknown.
  unfold upsert_contact. rewrite Hid. fold email url.
  match type of Hunknown with _ -> ?e = None => set (existing := e) in * end.
  split; [| split].
  - intros Hk. destruct (Hknown Hk) as (r & -> & Hin). simpl.
    split; [apply length_table_update |]. split; [reflexivity |].
    exists r. split; [exact Hin |]. split; [| reflexivity].
    unfold get_contact. simpl. rewrite table_get_update.
    destruct (table_get (rid r) (contacts_table c)) as [r'|] eqn:E; simpl.
    + rewrite rid_patch. f_equal. eapply table_get_rid, E.
    + unfold table_get in E. eapply List.find_none in E; [| exact Hin].
      rewrite Nat.eqb_refl in E. discriminate.
  - intros Hk. rewrite (Hunknown Hk). simpl.
    split; [reflexivity |]. split; [reflexivity |].
    split; [apply record_to_stored_contact |].
    intros Hb. unfold get_contact. simpl.
    rewrite (table_get_fresh (next_id c)); [| exact Hb | reflexivity]. simpl.
    f_equal.
  - destruct existing as [r|]; simpl; split; reflexivity.
Qed.

Lemma upsert_contact_no_duplicate_witness :
  ContactRecord.id cadence_contact = None
  /\ length (contacts_table (upsert_contact cadence_contact (w_crm (cadence_world 0 0))).2)
     = 1.
Proof.
  split; [reflexivity |].
  destruct (upsert_contact_no_duplicate cadence_contact (w_crm (cadence_world 0 0))
              eq_refl) as [H _].
  destruct H as [Hlen _]; [| exact Hlen].
  right. split; [reflexivity |].
  exists (mkRecord 1 (_contact_to_fields cadence_contact)).
  split; [left; reflexivity | vm_compute; reflexivity].
Defined.

(** ** Creating a message *)

(** X7. [create_message] stores an inbound message at most once per
    source message id: when the table already holds the (non-empty) id,
    the store is left as it is and the stored message is returned.  In
    every other case - an outbound message, whatever its source id, an
    empty source id, or an id not stored yet - exactly one record is
    appended under the next id and the message comes back as it reads
    from that record. *)
Theorem create_message_dedup m c :
  let sid := MessageRecord.source_message_id m in
  let back := (create_message m c).1 in
  let c' := (create_message m c).2 in
  let duplicate :=
    MessageRecord.direction m = MessageDirection.INBOUND /\ sid <> ""
    /\ holds "Source Message ID" sid (messages_table c) in
  (duplicate ->
   c' = c
   /\ exists r, In r (messages_table c) /\ back = _record_to_message r
                /\ MessageRecord.source_message_id back = sid)
  /\ (~ duplicate ->
      messages_table c'
      = messages_table c ++ [mkRecord (next_id c) (_message_to_fields m)]
      /\ next_id c' = S (next_id c)
      /\ back = stored_message (next_id c) m
      /\ (ids_below (next_id c) (messages_table c) ->
          get_message (Some (next_id c)) c' = Some back))
  /\ contacts_table c' = contacts_table c
  /\ audit_table c' = audit_table c.
Proof.
  intros sid back c' duplicate. subst back c'.
  unfold create_message, find_message_by_source_id. fold sid.
  split; [| split].
  - intros (Hdir & Hne & Hh). rewrite Hdir. simpl.
    replace (nonempty sid) with true
      by (unfold nonempty; destruct (String.eqb_spec sid ""); [contradiction | reflexivity]).
    simpl. destruct (table_first_holds _ _ _ Hne Hh) as [r Hr]. rewrite Hr. simpl.
    split; [reflexivity |]. apply List.find_some in Hr as [Hin Hr].
    exists r. split; [exact Hin |]. split; [reflexivity |].
    unfold formula_eq in Hr. apply String.eqb_eq in Hr. simpl. exact Hr.
  - intros Hno.
    assert (Hcreate :
      (if nonempty sid
          && MessageDirection.eqb (MessageRecord.direction m) MessageDirection.INBOUND
       then match _record_to_message
                    <$> table_first (formula_eq "Source Message ID" sid) (messages_table c)
            with
            | Some existing => (existing, c)
            | None =>
                (_record_to_message (mkRecord (next_id c) (_message_to_fields m)),
                 mkCRM (contacts_table c)
                   (messages_table c ++ [mkRecord (next_id c) (_message_to_fields m)])
                   (audit_table c) (S (next_id c)))
            end
       else (_record_to_message (mkRecord (next_id c) (_message_to_fields m)),
             mkCRM (contacts_table c)
               (messages_table c ++ [mkRecord (next_id c) (_message_to_fields m)])
               (audit_table c) (S (next_id c))))
      = (_record_to_message (mkRecord (next_id c) (_message_to_fields m)),
         mkCRM (contacts_table c)
           (messages_table c ++ [mkRecord (next_id c) (_message_to_fields m)])
           (audit_table c) (S (next_id c)))).
    { unfold nonempty. destruct (String.eqb_spec sid "") as [He|Hne]; simpl; [reflexivity |].
      destruct (MessageRecord.direction m) eqn:Hdir; simpl; [| reflexivity].
      rewrite table_first_not_holds; [reflexivity | | exact Hne].
      intros Hh. apply Hno. repeat split; assumption. }
    simpl in Hcreate |- *. rewrite Hcreate. simpl.
    split; [reflexivity |]. split; [reflexivity |].
    split; [apply record_to_stored_message |].
    intros Hb. unfold get_message. simpl.
    rewrite (table_get_fresh (next_id c)); [| exact Hb | reflexivity]. reflexivity.
  - destruct (nonempty sid && _); simpl; [| split; reflexivity].
    destruct (table_first _ _); simpl; split; reflexivity.
Qed.

(** ** Merging fills what is missing *)

Lemma set_if_fill (b : bool) k s (f : gmap string value) t :
  f !! k = None ->
  (set_if b k (VStr s) f !! k = Some (VStr t) <-> b = true /\ s = t).
Proof.
  intros Hf. rewrite lookup_set_if_eq. destruct b.
  - split; [intros [= ->]; auto | intros [_ ->]; reflexivity].
  - rewrite Hf. split; [discriminate | intros [? _]; discriminate].
Qed.

Lemma fill_condition (have : option string) (given : option string) t :
  (negb (truthy have) && truthy given = true /\ or_empty given = t)
  <-> (truthy have = false /\ given = Some t /\ t <> "").
Proof.
  rewrite andb_true_iff, negb_true_iff. split.
  - intros [[Hh Hg] Ht]. destruct (truthy_Some _ Hg) as (s & -> & Hs).
    simpl in Ht. subst t. auto.
  - intros (Hh & -> & Ht). simpl. repeat split; [exact Hh |].
    destruct (String.eqb_spec t ""); [contradiction | reflexivity].
Qed.

(** X8. [merge_contact_data] fills what the contact lacks: the update set
    carries an e-mail address, a LinkedIn URL, a company or a title exactly
    when the contact has none and the message brings a non-empty one, and
    then it is the message's value.  The update set is never empty (the
    interaction count and the last contact are always in it) and names no
    field beyond these seven. *)
Theorem merge_fills_missing existing message :
  let updates := merge_contact_data existing message in
  (forall s, updates !! "Email" = Some (VStr s)
     <-> truthy (ContactRecord.email existing) = false
         /\ InboundMessage.sender_email message = Some s /\ s <> "")
  /\ (forall s, updates !! "LinkedIn URL" = Some (VStr s)
        <-> truthy (ContactRecord.linkedin_url existing) = false
            /\ InboundMessage.sender_linkedin_url message = Some s /\ s <> "")
  /\ (forall s, updates !! "Company" = Some (VStr s)
        <-> truthy (ContactRecord.company existing) = false
            /\ InboundMessage.sender_company message = Some s /\ s <> "")
  /\ (forall s, updates !! "Title" = Some (VStr s)
        <-> truthy (ContactRecord.title existing) = false
            /\ InboundMessage.sender_title message = Some s /\ s <> "")
  /\ updates <> ∅
  /\ (forall k, is_Some (updates !! k) ->
        In k ["Interaction Count"; "Last Contact"; "Source Channel"; "Title"; "Company";
              "LinkedIn URL"; "Email"]).
Proof.
  intros updates. subst updates. unfold merge_contact_data.
  split; [| split; [| split; [| split; [| split]]]].
  - intros s. lookup_fields. rewrite set_if_fill by (lookup_fields; reflexivity).
    apply fill_condition.
  - intros s. lookup_fields. rewrite set_if_fill by (lookup_fields; reflexivity).
    apply fill_condition.
  - intros s. lookup_fields. rewrite set_if_fill by (lookup_fields; reflexivity).
    apply fill_condition.
  - intros s. lookup_fields. rewrite set_if_fill by (lookup_fields; reflexivity).
    apply fill_condition.
  - intros H. apply (f_equal (fun f => f !! "Interaction Count")) in H.
    rewrite lookup_insert_eq, lookup_empty in H. discriminate.
  - intros k Hk. simpl.
    destruct (decide (k = "Interaction Count")) as [->|H1]; [tauto |].
    destruct (decide (k = "Last Contact")) as [->|H2]; [tauto |].
    destruct (decide (k = "Source Channel")) as [->|H3]; [tauto |].
    destruct (decide (k = "Title")) as [->|H4]; [tauto |].
    destruct (decide (k = "Company")) as [->|H5]; [tauto |].
    destruct (decide (k = "LinkedIn URL")) as [->|H6]; [tauto |].
    destruct (decide (k = "Email")) as [->|H7]; [tauto |].
    exfalso. revert Hk.
    rewrite !lookup_insert_ne, !lookup_set_if_ne, lookup_empty by congruence.
    intros [? ?]. discriminate.
Qed.

(** ** What deduplication returns *)

Lemma table_first_Some k s rows r :
  table_first (formula_eq k s) rows = Some r ->
  In r rows /\ or_empty (get_str (fields r) k) = s.
Proof.
  unfold table_first. intros H. apply List.find_some in H as [Hin H].
  split; [exact Hin |]. apply String.eqb_eq, H.
Qed.

Lemma or_empty_Some o s : or_empty o = s -> s <> "" -> o = Some s.
Proof. destruct o as [t|]; simpl; intros <- H; [reflexivity | contradiction]. Qed.

(** X9. Whatever [find_existing_contact] returns is a contact of the
    store, and it shares something with the sender: the sender's non-empty
    e-mail address, or the sender's non-empty LinkedIn URL, or a name
    that contains the sender's name (which is then neither empty nor
    Unknown), case-insensitively. *)
Theorem find_existing_contact_sound message c m :
  find_existing_contact message c = Some m ->
  exists r,
    In r (contacts_table c) /\ m = _record_to_contact r
    /\ ((truthy (InboundMessage.sender_email message) = true
         /\ ContactRecord.email m = InboundMessage.sender_email message)
        \/ (truthy (InboundMessage.sender_linkedin_url message) = true
            /\ ContactRecord.linkedin_url m = InboundMessage.sender_linkedin_url message)
        \/ (InboundMessage.sender_name message <> ""
            /\ InboundMessage.sender_name message <> "Unknown"
            /\ contains (lower (InboundMessage.sender_name message))
                 (lower (ContactRecord.name m)) = true)).
Proof.
  unfold find_existing_contact.
  destruct (match_by_email message c) as [m1|] eqn:E1.
  { intros [= <-]. unfold match_by_email, find_contact_by_email in E1.
    destruct (truthy _) eqn:Ht; [| discriminate].
    destruct (truthy_Some _ Ht) as (s & Hs & Hne). rewrite Hs in E1. simpl in E1.
    destruct (table_first _ _) as [r|] eqn:Er; [| discriminate].
    injection E1 as <-. apply table_first_Some in Er as [Hin Hr].
    exists r. split; [exact Hin |]. split; [reflexivity |]. left.
    split; [reflexivity |]. simpl. rewrite Hs. apply or_empty_Some; assumption. }
  destruct (match_by_linkedin message c) as [m2|] eqn:E2.
  { intros [= <-]. unfold match_by_linkedin, find_contact_by_linkedin_url in E2.
    destruct (truthy _) eqn:Ht; [| discriminate].
    destruct (truthy_Some _ Ht) as (s & Hs & Hne). rewrite Hs in E2. simpl in E2.
    destruct (table_first _ _) as [r|] eqn:Er; [| discriminate].
    injection E2 as <-. apply table_first_Some in Er as [Hin Hr].
    exists r. split; [exact Hin |]. split; [reflexivity |]. right. left.
    split; [reflexivity |]. simpl. rewrite Hs. apply or_empty_Some; assumption. }
  unfold match_by_name. intros H.
  destruct (nonempty _ && negb _) eqn:Hn; [| discriminate].
  apply andb_true_iff in Hn as [Hn1 Hn2].
  assert (Hname : InboundMessage.sender_name message <> ""
                  /\ InboundMessage.sender_name message <> "Unknown").
  { split; intros He; rewrite He in *; discriminate. }
  assert (Hcand : In m (find_contacts_by_name (InboundMessage.sender_name message) c)).
  { destruct (find_contacts_by_name _ c) as [|x [|y l]] eqn:Ec; [discriminate | |].
    - injection H as <-. left. reflexivity.
    - destruct (truthy _); [| discriminate].
      unfold company_match in H. apply List.find_some in H. tauto. }
  unfold find_contacts_by_name, table_all in Hcand.
  apply List.in_map_iff in Hcand as (r & <- & Hr).
  apply List.filter_In in Hr as [Hin Hr].
  exists r. split; [exact Hin |]. split; [reflexivity |]. right. right.
  destruct Hname as [H1 H2]. repeat split; try assumption.
Qed.

Lemma find_existing_contact_sound_witness :
  exists m, find_existing_contact john_message two_johns = Some m
            /\ ContactRecord.name m = "John Smith".
Proof.
  destruct (find_existing_contact john_message two_johns) as [m|] eqn:E.
  - exists m. split; [reflexivity |].
    destruct (find_existing_contact_sound john_message two_johns m E)
      as (r & Hin & -> & _).
    destruct Hin as [<- | [<- | []]]; vm_compute; reflexivity.
  - vm_compute in E. discriminate.
Defined.

(** ** The contact step of the pipeline *)

Lemma upsert_contact_create contact c :
  ContactRecord.id contact = None ->
  ~ ((truthy (ContactRecord.email contact) = true
      /\ holds "Email" (or_empty (ContactRecord.email contact)) (contacts_table c))
     \/ (truthy (ContactRecord.linkedin_url contact) = true
         /\ holds "LinkedIn URL" (or_empty (ContactRecord.linkedin_url contact))
              (contacts_table c))) ->
  upsert_contact contact c
  = (stored_contact (next_id c) contact,
     mkCRM (contacts_table c ++ [mkRecord (next_id c) (_contact_to_fields contact)])
       (messages_table c) (audit_table c) (S (next_id c))).
Proof.
  intros Hid Hno.
  destruct (upsert_lookup (ContactRecord.email contact) (ContactRecord.linkedin_url contact)
              (contacts_table c)) as [_ Hunknown].
  cbv zeta in Hunknown. unfold upsert_contact. rewrite Hid.
  rewrite (Hunknown Hno). simpl. rewrite record_to_stored_contact. reflexivity.
Qed.

Lemma table_first_None_not_holds k s rows :
  table_first (formula_eq k s) rows = None -> s <> "" -> ~ holds k s rows.
Proof.
  intros H Hs Hh. destruct (table_first_holds k s rows Hs Hh) as [r Hr]. congruence.
Qed.

Lemma unmatched_unknown message c :
  find_existing_contact message c = None ->
  ~ ((truthy (InboundMessage.sender_email message) = true
      /\ holds "Email" (or_empty (InboundMessage.sender_email message)) (contacts_table c))
     \/ (truthy (InboundMessage.sender_linkedin_url message) = true
         /\ holds "LinkedIn URL" (or_empty (InboundMessage.sender_linkedin_url message))
              (contacts_table c))).
Proof.
  unfold find_existing_contact. intros H.
  destruct (match_by_email message c) eqn:E1; [discriminate |].
  destruct (match_by_linkedin message c) eqn:E2; [discriminate |].
  clear H. intros [[Ht Hh] | [Ht Hh]].
  - clear E2. unfold match_by_email, find_contact_by_email in E1. rewrite Ht in E1.
    destruct (truthy_Some _ Ht) as (s & Hs & Hne). rewrite Hs in E1, Hh. simpl in E1, Hh.
    destruct (table_first (formula_eq "Email" s) (contacts_table c)) eqn:Ef;
      [discriminate |].
    exact (table_first_None_not_holds _ _ _ Ef Hne Hh).
  - clear E1. unfold match_by_linkedin, find_contact_by_linkedin_url in E2.
    rewrite Ht in E2.
    destruct (truthy_Some _ Ht) as (s & Hs & Hne). rewrite Hs in E2, Hh. simpl in E2, Hh.
    destruct (table_first (formula_eq "LinkedIn URL" s) (contacts_table c)) eqn:Ef;
      [discriminate |].
    exact (table_first_None_not_holds _ _ _ Ef Hne Hh).
Qed.

(** The contact the pipeline creates for an unknown sender. *)
Lemma upsert_contact_unmatched message w :
  find_existing_contact message (w_crm w) = None ->
  exists fields_written,
    _upsert_contact message w
    = (Ok (_record_to_contact (mkRecord (next_id (w_crm w)) fields_written)),
       mkWorld
         (log_audit
            (AuditLogEntry.mk AuditAction.CONTACT_CREATED (Some (next_id (w_crm w))) None)
            (mkCRM (contacts_table (w_crm w)
                      ++ [mkRecord (next_id (w_crm w)) fields_written])
               (messages_table (w_crm w)) (audit_table (w_crm w))
               (S (next_id (w_crm w)))))
         (w_db w) (w_calls w))
    /\ get_int fields_written "Interaction Count" = Some 1%Z
    /\ get_str fields_written "Name" = Some (InboundMessage.sender_name message)
    /\ get_str fields_written "Email" = stored (InboundMessage.sender_email message)
    /\ get_str fields_written "LinkedIn URL"
       = stored (InboundMessage.sender_linkedin_url message)
    /\ get_str fields_written "Source Channel"
       = Some (SourceChannel.value (InboundMessage.source message)).
Proof.
  intros Hfind. pose proof (unmatched_unknown _ _ Hfind) as Hno.
  unfold _upsert_contact. cbv zeta.
  match goal with
  | |- context [upsert_contact ?ct] => set (contact := ct) in *
  end.
  exists (_contact_to_fields contact). split.
  - unfold bind at 1. unfold crm_get at 1. rewrite Hfind.
    unfold bind, crm_call, audit, crm_do, ret. cbn [w_crm w_db w_calls].
    rewrite (upsert_contact_create contact (w_crm w) eq_refl Hno).
    cbn [w_crm w_db w_calls ContactRecord.id stored_contact].
    rewrite <- record_to_stored_contact. reflexivity.
  - unfold _contact_to_fields, contact.
    cbn [ContactRecord.name ContactRecord.email ContactRecord.linkedin_url
         ContactRecord.company ContactRecord.title ContactRecord.source_channel
         ContactRecord.lead_category ContactRecord.conversation_stage
         ContactRecord.ai_confidence ContactRecord.detected_intent
         ContactRecord.signal_stack ContactRecord.ai_reasoning
         ContactRecord.first_contact ContactRecord.last_contact
         ContactRecord.interaction_count ContactRecord.enriched_data
         ContactRecord.follow_up_count ContactRecord.follow_up_channel
         ContactRecord.next_follow_up_date ContactRecord.follow_up_status
         ContactRecord.last_outbound_at].
    split; [unfold get_int; lookup_fields; reflexivity |].
    split; [unfold get_str; lookup_fields; reflexivity |].
    split.
    { read_field. unfold stored. destruct (truthy _); [reflexivity |].
      unfold get_str. lookup_fields. reflexivity. }
    split.
    { read_field. unfold stored. destruct (truthy _); [reflexivity |].
      unfold get_str. lookup_fields. reflexivity. }
    unfold get_str. lookup_fields. reflexivity.
Qed.

Lemma merge_contact_data_nonempty existing message :
  bool_decide (merge_contact_data existing message = ∅) = false.
Proof.
  apply bool_decide_eq_false. intros H.
  apply (f_equal (fun f => f !! "Interaction Count")) in H.
  unfold merge_contact_data in H. rewrite lookup_insert_eq, lookup_empty in H.
  discriminate.
Qed.

Lemma upsert_contact_matched message w existing :
  find_existing_contact message (w_crm w) = Some existing ->
  _upsert_contact message w
  = (Ok existing,
     mkWorld
       (log_audit
          (AuditLogEntry.mk AuditAction.CONTACT_UPDATED (ContactRecord.id existing) None)
          (update_contact (ContactRecord.id existing)
             (merge_contact_data existing message) (w_crm w)))
       (w_db w) (w_calls w)).
Proof.
  intros Hfind. unfold _upsert_contact. cbv zeta.
  unfold bind at 1. unfold crm_get at 1. rewrite Hfind.
  rewrite merge_contact_data_nonempty.
  unfold bind, crm_do, audit, ret. reflexivity.
Qed.

(** X10. The contact step of the pipeline creates a contact exactly when
    deduplication finds none: then one record is appended under the next
    id, with the sender's name, the sender's non-empty e-mail address and
    LinkedIn URL, the message's channel and an interaction count of 1,
    and the creation is audited.  When deduplication finds a contact, no
    record is added: the merge updates are patched onto the found
    record, the update is audited, and the contact is returned as it was
    found.  The step never fails and touches neither the messages, the
    local store nor any collaborator. *)
Theorem upsert_creates_iff_unmatched message w :
  let c := w_crm w in
  let out := _upsert_contact message w in
  let c' := w_crm out.2 in
  (find_existing_contact message c = None ->
   exists r,
     out.1 = Ok (_record_to_contact r)
     /\ rid r = next_id c
     /\ contacts_table c' = contacts_table c ++ [r]
     /\ next_id c' = S (next_id c)
     /\ get_int (fields r) "Interaction Count" = Some 1%Z
     /\ get_str (fields r) "Name" = Some (InboundMessage.sender_name message)
     /\ get_str (fields r) "Email" = stored (InboundMessage.sender_email message)
     /\ get_str (fields r) "LinkedIn URL"
        = stored (InboundMessage.sender_linkedin_url message)
     /\ get_str (fields r) "Source Channel"
        = Some (SourceChannel.value (InboundMessage.source message))
     /\ audit_table c'
        = audit_table c
          ++ [AuditLogEntry.mk AuditAction.CONTACT_CREATED (Some (next_id c)) None])
  /\ (forall existing,
        find_existing_contact message c = Some existing ->
        out.1 = Ok existing
        /\ contacts_table c'
           = contacts_table
               (update_contact (ContactRecord.id existing)
                  (merge_contact_data existing message) c)
        /\ length (contacts_table c') = length (contacts_table c)
        /\ next_id c' = next_id c
        /\ audit_table c'
           = audit_table c
             ++ [AuditLogEntry.mk AuditAction.CONTACT_UPDATED
                   (ContactRecord.id existing) None])
  /\ (exists contact, out.1 = Ok contact)
  /\ messages_table c' = messages_table c
  /\ w_db out.2 = w_db w
  /\ w_calls out.2 = w_calls w.
Proof.
  intros c out c'. subst c out c'.
  destruct (find_existing_contact message (w_crm w)) as [existing|] eqn:Hfind.
  - rewrite (upsert_contact_matched _ _ _ Hfind). cbn [fst snd w_crm w_db w_calls].
    split; [discriminate |]. split.
    + intros ex [= <-]. split; [reflexivity |]. split; [reflexivity |].
      split; [| split].
      * destruct (ContactRecord.id existing); simpl;
          [apply length_table_update | reflexivity].
      * destruct (ContactRecord.id existing); reflexivity.
      * destruct (ContactRecord.id existing); reflexivity.
    + split; [eauto |]. split; [| split; reflexivity].
      simpl. apply messages_table_update_contact.
  - destruct (upsert_contact_unmatched _ _ Hfind)
      as (f & -> & Hcount & Hname & Hemail & Hurl & Hchan).
    cbn [fst snd w_crm w_db w_calls].
    split.
    + intros _. exists (mkRecord (next_id (w_crm w)) f). simpl.
      repeat split; assumption.
    + split; [discriminate |]. split; [eauto |]. repeat split.
Qed.

(** ** Enrichment *)

Lemma enrich_condition (have : option string) (given : option string) t :
  (truthy given && negb (truthy have) = true /\ or_empty given = t)
  <-> (truthy have = false /\ given = Some t /\ t <> "").
Proof. rewrite andb_comm. apply fill_condition. Qed.

(** X11. Enrichment is best effort and only fills gaps.  [_enrich_contact]
    never raises: when the enricher raises or finds nothing the answer
    is the empty text and the CRM is as before.  When it finds data the
    contact is patched with the raw text, and with an e-mail address, a
    LinkedIn URL, a company or a title exactly when the contact value
    that was passed in has none and the data bring a non-empty one; the
    enrichment is audited.  In every case exactly one enricher call is
    made, and neither the messages, the number of contacts nor the local
    store change. *)
Theorem enrich_contact_best_effort enrich contact w :
  let answer :=
    enrich (ContactRecord.email contact) (ContactRecord.linkedin_url contact)
      (ContactRecord.name contact) (ContactRecord.company contact) in
  let out := _enrich_contact enrich contact w in
  w_calls out.2 = w_calls w ++ [CallEnrich (ContactRecord.id contact)]
  /\ w_db out.2 = w_db w
  /\ messages_table (w_crm out.2) = messages_table (w_crm w)
  /\ length (contacts_table (w_crm out.2)) = length (contacts_table (w_crm w))
  /\ next_id (w_crm out.2) = next_id (w_crm w)
  /\ match answer with
     | Ok (Some data) =>
         out.1 = Ok (Enrichment.json data)
         /\ exists f,
              w_crm out.2
              = log_audit
                  (AuditLogEntry.mk AuditAction.ENRICHED (ContactRecord.id contact) None)
                  (update_contact (ContactRecord.id contact) f (w_crm w))
              /\ f !! "Enriched Data" = Some (VStr (Enrichment.json data))
              /\ (forall s, f !! "Email" = Some (VStr s)
                    <-> truthy (ContactRecord.email contact) = false
                        /\ Enrichment.email data = Some s /\ s <> "")
              /\ (forall s, f !! "LinkedIn URL" = Some (VStr s)
                    <-> truthy (ContactRecord.linkedin_url contact) = false
                        /\ Enrichment.linkedin_url data = Some s /\ s <> "")
              /\ (forall s, f !! "Company" = Some (VStr s)
                    <-> truthy (ContactRecord.company contact) = false
                        /\ Enrichment.company data = Some s /\ s <> "")
              /\ (forall s, f !! "Title" = Some (VStr s)
                    <-> truthy (ContactRecord.title contact) = false
                        /\ Enrichment.title data = Some s /\ s <> "")
     | Ok None | Err _ => out.1 = Ok "" /\ w_crm out.2 = w_crm w
     end.
Proof.
  intros answer out. subst answer out. unfold _enrich_contact.
  destruct (enrich _ _ _ _) as [[data|]|e]; cbn [fst snd w_crm w_db w_calls].
  2,3: repeat split; reflexivity.
  unfold bind, crm_do, audit, ret. cbn [fst snd w_crm w_db w_calls].
  split; [reflexivity |]. split; [reflexivity |].
  split; [simpl; apply messages_table_update_contact |].
  split; [destruct (ContactRecord.id contact); simpl;
            [apply length_table_update | reflexivity] |].
  split; [destruct (ContactRecord.id contact); reflexivity |].
  split; [reflexivity |]. eexists. split; [reflexivity |].
  split; [lookup_fields; reflexivity |].
  split; [| split; [| split]].
  - intros s. rewrite set_if_fill by (lookup_fields; reflexivity).
    apply enrich_condition.
  - intros s. lookup_fields. rewrite set_if_fill by (lookup_fields; reflexivity).
    apply enrich_condition.
  - intros s. lookup_fields. rewrite set_if_fill by (lookup_fields; reflexivity).
    apply enrich_condition.
  - intros s. lookup_fields. rewrite set_if_fill by (lookup_fields; reflexivity).
    apply enrich_condition.
Qed.

(** ** What a run of the pipeline leaves *)

Lemma find_existing_contact_record message c m :
  find_existing_contact message c = Some m ->
  exists r, In r (contacts_table c) /\ m = _record_to_contact r.
Proof.
  unfold find_existing_contact.
  destruct (match_by_email message c) as [m1|] eqn:E1.
  { intros [= <-]. unfold match_by_email, find_contact_by_email, table_first in E1.
    destruct (truthy _); [| discriminate].
    destruct (List.find _ _) as [r|] eqn:Er; [| discriminate].
    injection E1 as <-. apply List.find_some in Er as [Hin _]. eauto. }
  destruct (match_by_linkedin message c) as [m2|] eqn:E2.
  { intros [= <-]. unfold match_by_linkedin, find_contact_by_linkedin_url, table_first in E2.
    destruct (truthy _); [| discriminate].
    destruct (List.find _ _) as [r|] eqn:Er; [| discriminate].
    injection E2 as <-. apply List.find_some in Er as [Hin _]. eauto. }
  unfold match_by_name. intros H.
  destruct (nonempty _ && negb _); [| discriminate].
  assert (Hcand : In m (find_contacts_by_name (InboundMessage.sender_name message) c)).
  { destruct (find_contacts_by_name _ c) as [|x [|y l]] eqn:Ec; [discriminate | |].
    - injection H as <-. left. reflexivity.
    - destruct (truthy _); [| discriminate].
      unfold company_match in H. apply List.find_some in H. tauto. }
  unfold find_contacts_by_name, table_all in Hcand.
  apply List.in_map_iff in Hcand as (r & <- & Hr).
  apply List.filter_In in Hr as [Hin _]. eauto.
Qed.

(** The contact step: what it leaves alone, and that the contact has an id
    under which a record is stored afterwards. *)
Lemma upsert_contact_frame message w r w1 :
  _upsert_contact message w = (r, w1) ->
  exists contact cid,
    r = Ok contact /\ ContactRecord.id contact = Some cid
    /\ messages_table (w_crm w1) = messages_table (w_crm w)
    /\ w_db w1 = w_db w /\ w_calls w1 = w_calls w
    /\ next_id (w_crm w) <= next_id (w_crm w1)
    /\ length (contacts_table (w_crm w1))
       = match find_existing_contact message (w_crm w) with
         | Some _ => length (contacts_table (w_crm w))
         | None => S (length (contacts_table (w_crm w)))
         end.
Proof.
  destruct (find_existing_contact message (w_crm w)) as [existing|] eqn:Hfind.
  - rewrite (upsert_contact_matched _ _ _ Hfind). intros [= <- <-].
    destruct (find_existing_contact_record _ _ _ Hfind) as (rec & _ & ->).
    exists (_record_to_contact rec), (rid rec). cbn [w_crm w_db w_calls].
    repeat split; try reflexivity.
    simpl. apply length_table_update.
  - destruct (upsert_contact_unmatched _ _ Hfind) as (f & -> & _).
    intros [= <- <-]. eexists _, (next_id (w_crm w)). cbn [w_crm w_db w_calls].
    repeat split; try reflexivity.
    + simpl. lia.
    + simpl. rewrite length_app. simpl. lia.
Qed.

Lemma enrich_step_frame self contact w1 r w2 :
  match InboundPipeline.enricher self with
  | Some enrich => _enrich_contact enrich contact
  | None => ret ""
  end w1 = (r, w2) ->
  (exists s, r = Ok s)
  /\ messages_table (w_crm w2) = messages_table (w_crm w1)
  /\ w_db w2 = w_db w1
  /\ w_calls w2 = w_calls w1 ++ enrich_calls self (ContactRecord.id contact)
  /\ next_id (w_crm w2) = next_id (w_crm w1)
  /\ length (contacts_table (w_crm w2)) = length (contacts_table (w_crm w1)).
Proof.
  unfold enrich_calls. destruct (InboundPipeline.enricher self) as [enrich|].
  - intros H.
    pose proof (enrich_step := H).
    unfold _enrich_contact in H.
    destruct (enrich _ _ _ _) as [[data|]|e].
    + unfold bind, crm_do, audit, ret in H. cbn [w_crm w_db w_calls] in H.
      injection H as <- <-. cbn [w_crm w_db w_calls].
      split; [eauto |]. split; [simpl; apply messages_table_update_contact |].
      split; [reflexivity |]. split; [reflexivity |].
      split; [destruct (ContactRecord.id contact); reflexivity |].
      destruct (ContactRecord.id contact); simpl;
        [apply length_table_update | reflexivity].
    + injection H as <- <-. cbn [w_crm w_db w_calls]. repeat split; eauto.
    + injection H as <- <-. cbn [w_crm w_db w_calls]. repeat split; eauto.
  - intros [= <- <-]. rewrite app_nil_r. repeat split; eauto.
Qed.

Lemma create_message_create m c :
  ~ holds "Source Message ID" (MessageRecord.source_message_id m) (messages_table c) ->
  create_message m c
  = (stored_message (next_id c) m,
     mkCRM (contacts_table c)
       (messages_table c ++ [mkRecord (next_id c) (_message_to_fields m)])
       (audit_table c) (S (next_id c))).
Proof.
  intros Hno. rewrite <- record_to_stored_message.
  unfold create_message, find_message_by_source_id.
  destruct (nonempty _ && _) eqn:E; [| reflexivity].
  apply andb_true_iff in E as [Hne _].
  rewrite table_first_not_holds; [reflexivity | exact Hno |].
  intros He. rewrite He in Hne. discriminate.
Qed.

Lemma ids_below_le i j rows : i <= j -> ids_below i rows -> ids_below j rows.
Proof.
  intros Hle H. eapply Forall_impl; [exact H |]. intros r Hr. simpl in Hr. lia.
Qed.

Lemma external_eq {A : Type} c (res : Result A) w r w' :
  external c res w = (r, w') ->
  r = res /\ w' = mkWorld (w_crm w) (w_db w) (w_calls w ++ [c]).
Proof. intros [= <- <-]. split; reflexivity. Qed.

Lemma ret_eq {A : Type} (a : A) w r w' : ret a w = (r, w') -> r = Ok a /\ w' = w.
Proof. intros [= <- <-]. split; reflexivity. Qed.

(** The drafting step. *)
Lemma draft_step self message classification enrichment w3 draft w4 :
  (if LeadClassification.should_reply classification
   then let* d := _draft_reply self message classification enrichment in
        ret (DraftReply.reply_text d)
   else ret "") w3 = (Ok draft, w4) ->
  w_crm w4 = w_crm w3 /\ w_db w4 = w_db w3
  /\ w_calls w4
     = w_calls w3
       ++ (if LeadClassification.should_reply classification
           then [CallDraft message] else [])
  /\ (LeadClassification.should_reply classification = false -> draft = "")
  /\ (LeadClassification.should_reply classification = true ->
      exists d, InboundPipeline.drafter self message classification enrichment = Ok d
                /\ draft = DraftReply.reply_text d).
Proof.
  destruct (LeadClassification.should_reply classification).
  - intros H. bind_ok H d w34 Hd. apply ret_eq in H as [[= ->] ->].
    unfold _draft_reply in Hd. apply external_eq in Hd as [Hd ->]. simpl.
    repeat split; try reflexivity; [discriminate |]. intros _. eauto.
  - intros H. apply ret_eq in H as [[= ->] ->]. rewrite app_nil_r.
    repeat split; try reflexivity. discriminate.
Qed.

(** X12. What a successful run of the pipeline body stores, for a
    message whose source id the Messages table does not hold yet: exactly
    one message record is added, under the id that is returned; it is
    inbound, linked to the contact of the contact step, carries the
    message's channel, source id and body and the category the classifier
    answered; the ledger row of the message says processed and names the
    message and contact records.  When the classification says not to
    reply the drafter is not called and the message is stored with status
    New and an empty draft; when it says to reply the drafter is called
    once, after the classifier, and the message is stored as Draft Ready
    with the drafter's text as draft and as AI draft version. *)
Theorem stored_message_follows_classification self message w r w' :
  process_message_body self message w = (Ok r, w') ->
  ~ holds "Source Message ID" (InboundMessage.source_message_id message)
      (messages_table (w_crm w)) ->
  ids_below (next_id (w_crm w)) (messages_table (w_crm w)) ->
  exists i cid enrichment stage classification m row,
    r = Some i
    /\ InboundPipeline.classifier self message enrichment stage = Ok classification
    /\ get_message (Some i) (w_crm w') = Some m
    /\ length (messages_table (w_crm w')) = S (length (messages_table (w_crm w)))
    /\ MessageRecord.contact_id m = Some cid
    /\ MessageRecord.direction m = MessageDirection.INBOUND
    /\ MessageRecord.source m = InboundMessage.source message
    /\ MessageRecord.source_message_id m = InboundMessage.source_message_id message
    /\ MessageRecord.body m = InboundMessage.body message
    /\ MessageRecord.classification m
       = LeadCategory.value (LeadClassification.category classification)
    /\ processed_messages (w_db w') !! message_key message = Some row
    /\ LedgerRow.status row = "processed"
    /\ LedgerRow.airtable_message_id row = Some i
    /\ LedgerRow.airtable_contact_id row = Some cid
    /\ let replying := LeadClassification.should_reply classification in
       w_calls w'
       = w_calls w ++ enrich_calls self (Some cid) ++ [CallClassify message]
         ++ (if replying then [CallDraft message] else [])
       /\ MessageRecord.status m
          = (if replying then MessageStatus.DRAFT_READY else MessageStatus.NEW)
       /\ MessageRecord.ai_draft_version m = MessageRecord.draft_reply m
       /\ (replying = false -> MessageRecord.draft_reply m = "")
       /\ (replying = true ->
           exists draft,
             InboundPipeline.drafter self message classification enrichment = Ok draft
             /\ MessageRecord.draft_reply m = DraftReply.reply_text draft).
Proof.
  unfold process_message_body. cbv zeta. intros H Hnew Hids.
  bind_ok H contact w1 Hupsert. bind_ok H enrichment w2 Henrich.
  bind_ok H classification w3 Hclassify. bind_ok H draft w4 Hdraft.
  bind_ok H rec w5 Hcreate.
  apply upsert_contact_frame in Hupsert
    as (contact' & cid & [= <-] & Hcid & Hm1 & Hd1 & Hc1 & Hn1 & _).
  apply enrich_step_frame in Henrich as (_ & Hm2 & Hd2 & Hc2 & Hn2 & _).
  unfold _classify in Hclassify. apply external_eq in Hclassify as [Hcl ->].
  apply draft_step in Hdraft as (Hcrm4 & Hd4 & Hc4 & Hno & Hyes).
  cbn [w_crm w_db w_calls] in Hcrm4, Hd4, Hc4.
  unfold crm_call in Hcreate.
  match type of Hcreate with
  | context [create_message ?m0 _] => set (msg := m0) in *
  end.
  rewrite create_message_create in Hcreate.
  2:{ unfold msg. cbn [MessageRecord.source_message_id]. rewrite Hcrm4, Hm2, Hm1.
      exact Hnew. }
  injection Hcreate as <- <-.
  cbn [MessageRecord.id stored_message] in H.
  set (i := next_id (w_crm w4)) in *.
  unfold bind, crm_do, db_do, audit, ret in H. cbn [w_crm w_db w_calls] in H.
  assert (Hw' : r = Some i
    /\ messages_table (w_crm w')
       = messages_table (w_crm w4) ++ [mkRecord i (_message_to_fields msg)]
    /\ w_calls w' = w_calls w4
    /\ processed_messages (w_db w')
       = processed_messages
           (mark_message_processed (SourceChannel.value (InboundMessage.source message))
              (InboundMessage.source_message_id message) "processed" (Some i)
              (ContactRecord.id contact) (w_db w4))).
  { destruct (nonempty draft); injection H as <- <-; cbn [w_crm w_db w_calls];
      (split; [reflexivity |]); (split; [| split; reflexivity]);
      simpl; rewrite messages_table_update_contact; reflexivity. }
  clear H. destruct Hw' as (-> & Hmsgs & Hcalls & Hledger).
  assert (Hget : get_message (Some i) (w_crm w') = Some (stored_message i msg)).
  { unfold get_message. simpl. rewrite Hmsgs.
    rewrite (table_get_fresh i); [| | reflexivity].
    - simpl. rewrite record_to_stored_message. reflexivity.
    - unfold i. rewrite Hcrm4, Hm2, Hm1, Hn2.
      eapply ids_below_le; [exact Hn1 | exact Hids]. }
  assert (Hrow : exists row,
    processed_messages (w_db w') !! message_key message = Some row
    /\ LedgerRow.status row = "processed"
    /\ LedgerRow.airtable_message_id row = Some i
    /\ LedgerRow.airtable_contact_id row = Some cid).
  { rewrite Hledger. unfold mark_message_processed, message_key. simpl.
    rewrite lookup_insert_eq. eexists. split; [reflexivity |].
    rewrite Hcid. destruct (processed_messages (w_db w4) !! _); repeat split. }
  destruct Hrow as (row & Hrow1 & Hrow2 & Hrow3 & Hrow4).
  exists i, cid, enrichment,
    (ConversationStage.value (ContactRecord.conversation_stage contact)),
    classification, (stored_message i msg), row.
  split; [reflexivity |]. split; [symmetry; exact Hcl |]. split; [exact Hget |].
  split.
  { rewrite Hmsgs, length_app, Hcrm4, Hm2, Hm1. simpl. lia. }
  split; [exact Hcid |].
  do 5 (split; [reflexivity |]).
  do 4 (split; [assumption |]).
  cbv zeta. split.
  { rewrite Hcalls, Hc4, Hc2, Hc1, Hcid, <- !app_assoc. reflexivity. }
  split; [reflexivity |]. split; [reflexivity |]. split; [exact Hno | exact Hyes].
Qed.

Lemma stored_message_follows_classification_witness :
  exists m,
    get_message (Some 2)
      (w_crm (process_message_body mock_pipeline sample_gmail_message empty_world).2)
    = Some m
    /\ MessageRecord.status m = MessageStatus.DRAFT_READY
    /\ MessageRecord.draft_reply m = "Thanks for the message".
Proof.
  assert (Hrun : process_message_body mock_pipeline sample_gmail_message empty_world
                 = (Ok (Some 2),
                    (process_message_body mock_pipeline sample_gmail_message
                       empty_world).2))
    by (vm_compute; reflexivity).
  assert (Hnew : ~ holds "Source Message ID"
                     (InboundMessage.source_message_id sample_gmail_message)
                     (messages_table (w_crm empty_world)))
    by (intros (r & [] & _)).
  assert (Hids : ids_below (next_id (w_crm empty_world))
                   (messages_table (w_crm empty_world)))
    by constructor.
  destruct (stored_message_follows_classification _ _ _ _ _ Hrun Hnew Hids)
    as (i & cid & en & st & cl & m & row & [= <-] & Hcl & Hget & _ & _ & _ & _ & _ & _
        & _ & _ & _ & _ & _ & _ & Hstatus & _ & _ & Hdraft).
  exists m. split; [exact Hget |].
  injection Hcl as <-. split; [exact Hstatus |].
  destruct (Hdraft eq_refl) as (d & [= <-] & ->). reflexivity.
Defined.

(** X13. A classifier failure is recorded without a message.  When the
    classifier raises on a message that is not in the ledger,
    [process_message] returns nothing, writes the ledger row of the
    message as failed with one attempt and the error text, leaves every
    other ledger row, the local audit log and the Messages table as they
    were, and does not call the drafter.  What the contact step wrote
    before the failure stays: for an unknown sender the new contact is in
    the CRM although no message was stored. *)
Theorem classifier_failure_recorded self message w e :
  is_message_processed (message_key message).1 (message_key message).2 (w_db w) = false ->
  (forall enrichment stage,
     InboundPipeline.classifier self message enrichment stage = Err e) ->
  let out := process_message self message w in
  out.1 = None
  /\ processed_messages (w_db out.2) !! message_key message
     = Some (LedgerRow.mk "failed" 1 (Some e) None None)
  /\ (forall k, k <> message_key message ->
        processed_messages (w_db out.2) !! k = processed_messages (w_db w) !! k)
  /\ local_audit (w_db out.2) = local_audit (w_db w)
  /\ messages_table (w_crm out.2) = messages_table (w_crm w)
  /\ length (contacts_table (w_crm out.2))
     = match find_existing_contact message (w_crm w) with
       | Some _ => length (contacts_table (w_crm w))
       | None => S (length (contacts_table (w_crm w)))
       end
  /\ exists cid,
       w_calls out.2 = w_calls w ++ enrich_calls self (Some cid) ++ [CallClassify message].
Proof.
  intros Hfresh Hfail out. subst out. unfold process_message.
  unfold message_key in Hfresh. simpl in Hfresh. rewrite Hfresh.
  assert (Hbody : exists w2 cid,
    process_message_body self message w
    = (Err e, mkWorld (w_crm w2) (w_db w2) (w_calls w2 ++ [CallClassify message]))
    /\ messages_table (w_crm w2) = messages_table (w_crm w)
    /\ w_db w2 = w_db w
    /\ w_calls w2 = w_calls w ++ enrich_calls self (Some cid)
    /\ length (contacts_table (w_crm w2))
       = match find_existing_contact message (w_crm w) with
         | Some _ => length (contacts_table (w_crm w))
         | None => S (length (contacts_table (w_crm w)))
         end).
  { unfold process_message_body. cbv zeta.
    destruct (_upsert_contact message w) as [r1 w1] eqn:Hupsert.
    pose proof (upsert_contact_frame _ _ _ _ Hupsert)
      as (contact & cid & -> & Hcid & Hm1 & Hd1 & Hc1 & _ & Hl1).
    unfold bind at 1. rewrite Hupsert.
    match goal with
    | |- context [bind ?en _] =>
        destruct (en w1) as [r2 w2] eqn:Henrich; unfold bind at 1; rewrite Henrich
    end.
    pose proof (enrich_step_frame _ _ _ _ _ Henrich)
      as ((enrichment & ->) & Hm2 & Hd2 & Hc2 & _ & Hl2).
    unfold bind at 1. unfold _classify, external. rewrite Hfail.
    exists w2, cid. split; [reflexivity |].
    rewrite Hm2, Hm1, Hd2, Hd1, Hc2, Hc1, Hcid, Hl2, Hl1. repeat split. }
  destruct Hbody as (w2 & cid & -> & Hm & Hd & Hc & Hl).
  cbn [fst snd w_crm w_db w_calls].
  split; [reflexivity |].
  assert (Hold : processed_messages (w_db w2)
                   !! (SourceChannel.value (InboundMessage.source message),
                       InboundMessage.source_message_id message) = None).
  { rewrite Hd. unfold is_message_processed in Hfresh.
    destruct (processed_messages (w_db w) !! _); [discriminate | reflexivity]. }
  split.
  { unfold mark_message_failed, message_key. simpl. rewrite lookup_insert_eq, Hold.
    reflexivity. }
  split.
  { intros k Hk. unfold mark_message_failed. simpl.
    rewrite lookup_insert_ne by (unfold message_key in Hk; congruence).
    rewrite Hd. reflexivity. }
  split; [simpl; rewrite Hd; reflexivity |].
  split; [exact Hm |]. split; [exact Hl |].
  exists cid. rewrite Hc, <- app_assoc. reflexivity.
Qed.

Lemma classifier_failure_recorded_witness :
  let out := process_message failing_pipeline sample_gmail_message empty_world in
  out.1 = None
  /\ messages_table (w_crm out.2) = []
  /\ length (contacts_table (w_crm out.2)) = 1.
Proof.
  destruct (classifier_failure_recorded failing_pipeline sample_gmail_message empty_world
              "API error" eq_refl (fun _ _ => eq_refl))
    as (H1 & _ & _ & _ & H2 & H3 & _).
  split; [exact H1 |]. split; [exact H2 | exact H3].
Defined.

(** ** One cycle of the outbound loop *)

Lemma approved_status r :
  MessageStatus.eqb (MessageRecord.status (_record_to_message r)) MessageStatus.APPROVED
  = formula_eq "Status" "Approved" r.
Proof.
  unfold formula_eq. simpl.
  destruct (get_str (fields r) "Status") as [s|]; simpl; [| reflexivity].
  destruct (String.eqb_spec s "Approved") as [->|Hne]; [reflexivity |].
  unfold enum_or. destruct (nonempty s); [| reflexivity].
  unfold MessageStatus.of_string.
  repeat match goal with
         | |- context [String.eqb s ?t] => destruct (String.eqb_spec s t); try reflexivity
         end.
  contradiction.
Qed.

Lemma mark_sent_messages now msg d w j :
  MessageRecord.id msg = Some j ->
  exists w',
    mark_sent now msg d w = (Ok true, w')
    /\ messages_table (w_crm w')
       = table_update j (sent_fields now d) (messages_table (w_crm w))
    /\ w_calls w' = w_calls w /\ w_db w' = w_db w.
Proof.
  intros Hid. unfold mark_sent, bind, crm_do, crm_get, audit, ret. simpl.
  rewrite Hid. destruct (get_contact_for_message _ _) as [contact|]; simpl.
  - eexists. split; [reflexivity |]. simpl. rewrite messages_table_update_contact.
    repeat split.
  - eexists. split; [reflexivity |]. repeat split.
Qed.

Lemma sent_fields_status now d : sent_fields now d !! "Status" = Some (VStr "Sent").
Proof. unfold sent_fields. lookup_fields. reflexivity. Qed.

Lemma failed_fields_status e : failed_fields e !! "Status" = Some (VStr "Failed").
Proof. unfold failed_fields. lookup_fields. reflexivity. Qed.

(** One turn of the loop either leaves the Messages table alone, and then
    the message is not stored as approved, or patches the record of the
    message with a status that is not Approved. *)
Lemma send_approved_effect sender ratio now msg w :
  let out := send_approved sender ratio now msg w in
  (messages_table (w_crm out.2) = messages_table (w_crm w)
   /\ out.1 = false /\ w_calls out.2 = w_calls w
   /\ forall j r, MessageRecord.id msg = Some j ->
        table_get j (messages_table (w_crm w)) = Some r ->
        formula_eq "Status" "Approved" r = false)
  \/ (exists j f s,
        MessageRecord.id msg = Some j
        /\ messages_table (w_crm out.2) = table_update j f (messages_table (w_crm w))
        /\ f !! "Status" = Some (VStr s) /\ s <> "Approved"
        /\ (out.1 = true -> s = "Sent")).
Proof.
  cbv zeta. pattern (send_approved sender ratio now msg w).
  match goal with |- ?P0 _ => set (P := P0) end.
  unfold send_approved, send_approved_body.
  unfold bind at 1. unfold crm_get at 1. cbv beta iota.
  destruct (get_message (MessageRecord.id msg) (w_crm w)) as [current|] eqn:Hget.
  2:{ subst P. left. simpl. do 3 (split; [reflexivity |]). intros j r Hid Hr.
      rewrite Hid in Hget.
      unfold get_message in Hget. simpl in Hget. rewrite Hr in Hget. discriminate. }
  destruct (get_message_Some _ _ _ Hget) as (j & r0 & Hid & Hr0 & _ & Hcur).
  destruct (MessageStatus.eqb (MessageRecord.status current) MessageStatus.APPROVED)
    eqn:Hst; simpl.
  2:{ subst P. left. do 3 (split; [reflexivity |]).
      intros j' r Hid' Hr. rewrite Hid in Hid'. injection Hid' as <-.
      rewrite Hr0 in Hr. injection Hr as <-. rewrite <- approved_status, <- Hcur. exact Hst. }
  assert (Hfail : forall e w1,
    messages_table (w_crm w1) = messages_table (w_crm w) ->
    P (false,
       mkWorld (update_message (MessageRecord.id msg) (failed_fields e) (w_crm w1))
         (w_db w1) (w_calls w1))).
  { intros e w1 Hw1. subst P. right. exists j, (failed_fields e), "Failed".
    rewrite Hid. simpl. rewrite Hw1.
    split; [reflexivity |]. split; [reflexivity |]. split; [apply failed_fields_status |].
    split; discriminate. }
  assert (Hsent : forall d w1,
    messages_table (w_crm w1) = messages_table (w_crm w) ->
    P (match mark_sent now msg d w1 with
       | (Ok sent, w') => (sent, w')
       | (Err e, w') =>
           (false,
            mkWorld (update_message (MessageRecord.id msg) (failed_fields e) (w_crm w'))
              (w_db w') (w_calls w'))
       end)).
  { intros d w1 Hw1. destruct (mark_sent_messages now msg d w1 j Hid) as (w' & -> & Hm & _).
    subst P. right. exists j, (sent_fields now d), "Sent". simpl. rewrite Hm, Hw1.
    split; [exact Hid |]. split; [reflexivity |]. split; [apply sent_fields_status |].
    split; [discriminate | reflexivity]. }
  clearbody P.
  destruct (nonempty (MessageRecord.draft_reply current)); simpl.
  2:{ unfold bind, crm_do, ret. simpl. apply (Hfail _ w). reflexivity. }
  destruct (String.eqb _ "Gmail").
  - unfold bind at 1. unfold crm_get at 1. cbv beta iota.
    destruct (get_contact_for_message (MessageRecord.id msg) (w_crm w)) as [contact|].
    2:{ unfold bind, crm_do, ret. simpl. apply (Hfail _ w). reflexivity. }
    destruct (truthy (ContactRecord.email contact)).
    2:{ unfold bind, crm_do, ret. simpl. apply (Hfail _ w). reflexivity. }
    unfold bind at 1. unfold external at 1. cbv beta iota.
    destruct (sender _) as [[]|e].
    + apply Hsent. reflexivity.
    + apply (Hfail e (mkWorld (w_crm w) (w_db w) _)). reflexivity.
  - destruct (String.eqb _ "LinkedIn").
    + unfold bind at 1. unfold external at 1. cbv beta iota.
      destruct (sender _) as [[]|e].
      * apply Hsent. reflexivity.
      * apply (Hfail e (mkWorld (w_crm w) (w_db w) _)). reflexivity.
    + apply Hsent. reflexivity.
Qed.

Lemma map_rid_table_update j f rows : map rid (table_update j f rows) = map rid rows.
Proof.
  unfold table_update. rewrite map_map. apply map_ext. intros r. apply rid_patch.
Qed.

Lemma table_get_NoDup rows r :
  NoDup (map rid rows) -> In r rows -> table_get (rid r) rows = Some r.
Proof.
  unfold table_get. induction rows as [|x rows IH]; simpl; intros Hnd Hin; [tauto |].
  apply NoDup_cons in Hnd as [Hx Hnd].
  destruct Hin as [-> | Hin]; [rewrite Nat.eqb_refl; reflexivity |].
  destruct (Nat.eqb_spec (rid x) (rid r)) as [He|Hne]; [| apply IH; assumption].
  exfalso. apply Hx. rewrite He. apply list_elem_of_In, List.in_map, Hin.
Qed.

Lemma patched_not_approved j f s r :
  f !! "Status" = Some (VStr s) -> s <> "Approved" -> rid r = j ->
  formula_eq "Status" "Approved" (patch j f r) = false.
Proof.
  intros Hf Hs Hr. rewrite (patch_same _ _ _ Hr). unfold formula_eq, get_str. simpl.
  rewrite (lookup_union_Some_l _ _ _ _ Hf). simpl.
  destruct (String.eqb_spec s "Approved"); [contradiction | reflexivity].
Qed.

Lemma filter_nowhere {A : Type} (f : A -> bool) (l : list A) :
  (forall x, In x l -> f x = false) -> List.filter f l = [].
Proof.
  induction l as [|x l IH]; intros H; simpl; [reflexivity |].
  rewrite (H x) by (left; reflexivity). apply IH. intros y Hy. apply H. right. exact Hy.
Qed.

(** The loop, from any count: afterwards no record is approved, when
    every approved record is among the messages still to go. *)
Lemma outbound_loop sender ratio now l :
  forall n w,
    NoDup (map rid (messages_table (w_crm w))) ->
    (forall r, In r (messages_table (w_crm w)) ->
       formula_eq "Status" "Approved" r = true ->
       exists m, In m l /\ MessageRecord.id m = Some (rid r)) ->
    let out :=
      foldl (fun acc msg =>
               let '(sent_count, w1) := acc in
               let '(sent, w2) := send_approved sender ratio now msg w1 in
               ((if sent then sent_count + 1 else sent_count)%Z, w2))
            (n, w) l in
    (forall r, In r (messages_table (w_crm out.2)) ->
       formula_eq "Status" "Approved" r = false)
    /\ (n <= out.1 <= n + Z.of_nat (length l))%Z
    /\ map rid (messages_table (w_crm out.2)) = map rid (messages_table (w_crm w)).
Proof.
  induction l as [|msg l IH]; intros n w Hnd Hinv; cbv zeta.
  - simpl. split; [| split; [lia | reflexivity]].
    intros r Hin. destruct (formula_eq "Status" "Approved" r) eqn:E; [| reflexivity].
    destruct (Hinv r Hin E) as (m & [] & _).
  - cbn [foldl].
    pose proof (send_approved_effect sender ratio now msg w) as Heff. cbv zeta in Heff.
    destruct (send_approved sender ratio now msg w) as [sent w2]. cbn [fst snd] in Heff.
    assert (Hrid : map rid (messages_table (w_crm w2)) = map rid (messages_table (w_crm w))).
    { destruct Heff as [(-> & _) | (j & f & s & _ & -> & _)];
        [reflexivity | apply map_rid_table_update]. }
    assert (Hinv2 : forall r, In r (messages_table (w_crm w2)) ->
              formula_eq "Status" "Approved" r = true ->
              exists m, In m l /\ MessageRecord.id m = Some (rid r)).
    { destruct Heff as [(Hsame & _ & _ & Hnot) | (j & f & s & Hid & Htab & Hf & Hs & _)].
      - rewrite Hsame. intros r Hin Hap.
        destruct (Hinv r Hin Hap) as (m & [<- | Hm] & Hidm); [| eauto].
        rewrite (Hnot _ r Hidm (table_get_NoDup _ _ Hnd Hin)) in Hap. discriminate.
      - rewrite Htab. intros r' Hin Hap. unfold table_update in Hin.
        apply List.in_map_iff in Hin as (r & <- & Hin).
        destruct (Nat.eq_dec (rid r) j) as [He|Hne].
        + rewrite (patched_not_approved j f s r Hf Hs He) in Hap. discriminate.
        + assert (Hp : patch j f r = r).
          { unfold patch. destruct (Nat.eqb_spec (rid r) j); [contradiction | reflexivity]. }
          rewrite Hp in *.
          destruct (Hinv r Hin Hap) as (m & [<- | Hm] & Hidm); [| eauto].
          congruence. }
    assert (Hnd2 : NoDup (map rid (messages_table (w_crm w2)))) by (rewrite Hrid; exact Hnd).
    destruct (IH (if sent then n + 1 else n)%Z w2 Hnd2 Hinv2) as (H1 & H2 & H3).
    split; [exact H1 |]. split; [| rewrite H3; exact Hrid].
    destruct sent; cbn [length]; lia.
Qed.

(** X14. One cycle of the outbound loop handles every approved message:
    afterwards no message of the table is approved (each is Sent or
    Failed), so a further cycle, with whatever sender, finds nothing to
    send and changes nothing.  The count that is returned is at most the
    number of approved messages found, and no message record is added or
    removed.  Record ids are assumed to be distinct, as the store hands
    them out. *)
Theorem approved_messages_handled_once sender ratio now w :
  NoDup (map rid (messages_table (w_crm w))) ->
  let out := process_approved_messages sender ratio now w in
  get_approved_messages (w_crm out.2) = []
  /\ (0 <= out.1 <= Z.of_nat (length (get_approved_messages (w_crm w))))%Z
  /\ map rid (messages_table (w_crm out.2)) = map rid (messages_table (w_crm w))
  /\ forall sender' ratio' now',
       process_approved_messages sender' ratio' now' out.2 = (0%Z, out.2).
Proof.
  intros Hnd out.
  assert (Hinv : forall r, In r (messages_table (w_crm w)) ->
            formula_eq "Status" "Approved" r = true ->
            exists m, In m (get_approved_messages (w_crm w))
                      /\ MessageRecord.id m = Some (rid r)).
  { intros r Hin Hap. exists (_record_to_message r). split; [| reflexivity].
    unfold get_approved_messages, table_all. apply List.in_map, List.filter_In. auto. }
  destruct (outbound_loop sender ratio now (get_approved_messages (w_crm w)) 0%Z w Hnd Hinv)
    as (Hnone & Hcount & Hrid).
  fold (process_approved_messages sender ratio now w) in Hnone, Hcount, Hrid.
  fold out in Hnone, Hcount, Hrid.
  assert (Hempty : get_approved_messages (w_crm out.2) = []).
  { unfold get_approved_messages, table_all.
    rewrite (filter_nowhere _ _ Hnone). reflexivity. }
  split; [exact Hempty |]. split; [lia |]. split; [exact Hrid |].
  intros sender' ratio' now'. unfold process_approved_messages at 1.
  rewrite Hempty. simpl. destruct out; reflexivity.
Qed.

Lemma approved_messages_handled_once_witness :
  NoDup (map rid (messages_table (w_crm human_reply_world)))
  /\ get_approved_messages
       (w_crm (process_approved_messages sender_ok ratio_equal 1708171200%Z
                 human_reply_world).2) = [].
Proof.
  assert (H : NoDup (map rid (messages_table (w_crm human_reply_world))))
    by (simpl; apply NoDup_singleton).
  split; [exact H |].
  apply (approved_messages_handled_once sender_ok ratio_equal 1708171200%Z
           human_reply_world H).
Defined.

(** X15. A message whose channel is neither Gmail nor LinkedIn is marked
    sent without being sent: for an approved message with a non-empty
    draft whose Source reads Both, the loop calls no sender, reports the
    message as sent, and stores it with status Sent and the time of the
    run. *)
Theorem unrouted_channel_marked_sent sender ratio now msg w current :
  get_message (MessageRecord.id msg) (w_crm w) = Some current ->
  MessageRecord.status current = MessageStatus.APPROVED ->
  MessageRecord.draft_reply current <> "" ->
  MessageRecord.source current = SourceChannel.BOTH ->
  let out := send_approved sender ratio now msg w in
  out.1 = true
  /\ w_calls out.2 = w_calls w
  /\ exists m', get_message (MessageRecord.id msg) (w_crm out.2) = Some m'
                /\ MessageRecord.status m' = MessageStatus.SENT
                /\ MessageRecord.sent_at m' = Some now.
Proof.
  intros Hget Hst Hdraft Hsrc out. subst out.
  destruct (get_message_Some _ _ _ Hget) as (j & r & Hid & Hr & _ & _).
  set (d := if nonempty (MessageRecord.ai_draft_version current)
            then Some (compute_edit_distance ratio
                         (MessageRecord.ai_draft_version current)
                         (MessageRecord.draft_reply current))
            else None).
  destruct (mark_sent_spec now msg d w j r Hid Hr) as (c' & Hmark & Hget' & _).
  assert (Hrun : send_approved sender ratio now msg w
                 = (true, mkWorld c' (w_db w) (w_calls w))).
  { unfold send_approved, send_approved_body, bind at 1, crm_get.
    rewrite Hget, Hst. simpl. rewrite (nonempty_true _ Hdraft), Hsrc. simpl.
    fold d. rewrite Hmark. reflexivity. }
  rewrite Hrun. simpl. split; [reflexivity |]. split; [reflexivity |].
  rewrite Hid, Hget'. eexists. split; [reflexivity |].
  destruct (sent_record now d j (fields r)) as (H1 & H2 & _).
  split; [exact H1 | exact H2].
Qed.

Lemma unrouted_channel_marked_sent_witness :
  let stray :=
    MessageRecord.mk None None SourceChannel.BOTH MessageDirection.INBOUND None
      "Hello" "" "Thanks" MessageStatus.APPROVED "" "" "" None None None "" "" "m9" None in
  let w := mkWorld (mkCRM [] [mkRecord 1 (_message_to_fields stray)] [] 2) empty_db [] in
  let out :=
    send_approved (fun _ => Err "unreachable") ratio_equal 1708171200%Z
      (_record_to_message (mkRecord 1 (_message_to_fields stray))) w in
  out.1 = true /\ w_calls out.2 = [].
Proof.
  cbv zeta.
  match goal with
  | |- (send_approved ?s ?ra ?n ?m ?w).1 = _ /\ _ =>
      destruct (unrouted_channel_marked_sent s ra n m w m) as (H1 & H2 & _)
  end.
  - vm_compute. reflexivity.
  - vm_compute. reflexivity.
  - vm_compute. discriminate.
  - vm_compute. reflexivity.
  - split; [exact H1 | exact H2].
Defined.

(** ** A reply pauses the cadence *)

Lemma has_recent_inbound_iff cid since c :
  _has_recent_inbound cid since c = true
  <-> exists t m t',
        since = Some t
        /\ In m (get_messages_for_contact cid (Some "Inbound") c)
        /\ MessageRecord.received_at m = Some t' /\ (t <= t')%Z.
Proof.
  unfold _has_recent_inbound. destruct since as [t|].
  - rewrite existsb_exists. split.
    + intros (m & Hin & Hm). destruct (MessageRecord.received_at m) as [t'|] eqn:E;
        [| discriminate].
      exists t, m, t'. repeat split; auto. apply Z.leb_le, Hm.
    + intros (t0 & m & t' & [= <-] & Hin & Hr & Hle). exists m. split; [exact Hin |].
      rewrite Hr. apply Z.leb_le, Hle.
  - split; [discriminate |]. intros (t & m & t' & H & _). discriminate.
Qed.

Lemma paused_record cid r :
  rid r = cid ->
  get_str (fields (patch cid (<["Follow-Up Status" := VStr "Paused"]> ∅) r))
    "Follow-Up Status" = Some "Paused".
Proof.
  intros Hr. rewrite (patch_same _ _ _ Hr). unfold get_str. simpl.
  rewrite (lookup_union_Some_l _ _ _ (VStr "Paused")); [reflexivity |].
  apply lookup_insert_eq.
Qed.

Lemma In_table_update i f rows r' :
  In r' (table_update i f rows) ->
  exists r, In r rows /\ r' = patch i f r /\ rid r' = rid r.
Proof.
  unfold table_update. intros H. apply List.in_map_iff in H as (r & <- & Hin).
  exists r. repeat split; auto. apply rid_patch.
Qed.

(** X16. A reply pauses the cadence.  When a due contact has an inbound
    message received on or after the day of the last outbound message,
    the engine drafts nothing: it calls no model and creates no message,
    sets the Follow-Up Status of the contact to Paused and leaves its
    other fields, and audits the pause.  In the resulting CRM the
    contact is neither due for a follow-up nor a stale lead, whatever
    the date: the engine does not resume a paused cadence by itself. *)
Theorem reply_pauses_cadence draft_followup config now contact w cid :
  ContactRecord.id contact = Some cid ->
  _has_recent_inbound (Some cid) (ContactRecord.last_outbound_at contact) (w_crm w) = true ->
  let out := process_due_contact draft_followup config now contact w in
  out.1 = Paused
  /\ w_calls out.2 = w_calls w
  /\ w_db out.2 = w_db w
  /\ messages_table (w_crm out.2) = messages_table (w_crm w)
  /\ contacts_table (w_crm out.2)
     = table_update cid (<["Follow-Up Status" := VStr "Paused"]> ∅)
         (contacts_table (w_crm w))
  /\ audit_table (w_crm out.2)
     = audit_table (w_crm w)
       ++ [AuditLogEntry.mk AuditAction.FOLLOW_UP_PAUSED (Some cid) None]
  /\ (forall stored,
        get_contact cid (w_crm w) = Some stored ->
        exists contact',
          get_contact cid (w_crm out.2) = Some contact'
          /\ ContactRecord.follow_up_status contact' = "Paused"
          /\ ContactRecord.follow_up_count contact' = ContactRecord.follow_up_count stored
          /\ ContactRecord.conversation_stage contact'
             = ContactRecord.conversation_stage stored)
  /\ (forall now' ct, In ct (get_contacts_for_followup now' (w_crm out.2)) ->
        ContactRecord.id ct <> Some cid)
  /\ (forall days now' ct, In ct (get_stale_contacts days now' (w_crm out.2)) ->
        ContactRecord.id ct <> Some cid).
Proof.
  intros Hid Hreply out.
  assert (Hrun : process_due_contact draft_followup config now contact w
                 = (Paused,
                    mkWorld
                      (log_audit
                         (AuditLogEntry.mk AuditAction.FOLLOW_UP_PAUSED (Some cid) None)
                         (update_contact (Some cid)
                            (<["Follow-Up Status" := VStr "Paused"]> ∅) (w_crm w)))
                      (w_db w) (w_calls w))).
  { unfold process_due_contact, process_due_body, bind at 1, crm_get.
    rewrite Hid, Hreply. reflexivity. }
  subst out. rewrite Hrun. cbn [fst snd w_crm w_db w_calls].
  do 6 (split; [reflexivity |]).
  split; [| split].
  - intros stored Hget. apply get_contact_Some in Hget as (r & Hr & -> & _).
    eexists. split.
    + unfold get_contact. simpl. rewrite table_get_update, Hr. simpl. reflexivity.
    + rewrite (patch_same _ _ r) by (eapply table_get_rid, Hr). simpl.
      unfold get_str, get_int.
      rewrite (lookup_union_Some_l _ _ _ (VStr "Paused")) by apply lookup_insert_eq.
      rewrite !lookup_union_r by (rewrite lookup_insert_ne by discriminate;
                                  apply lookup_empty).
      repeat split.
  - intros now' ct Hin. unfold get_contacts_for_followup, table_all in Hin.
    apply List.in_map_iff in Hin as (r' & <- & Hr').
    apply List.filter_In in Hr' as [Hr' Hf]. apply andb_true_iff in Hf as [Hf _].
    simpl in Hr'. apply In_table_update in Hr' as (r & _ & -> & Hrid).
    simpl. intros [= He]. rewrite Hrid in He.
    unfold formula_eq in Hf. rewrite (paused_record cid r He) in Hf. discriminate.
  - intros days now' ct Hin. unfold get_stale_contacts, table_all in Hin.
    apply List.in_map_iff in Hin as (r' & <- & Hr').
    apply List.filter_In in Hr' as [Hr' Hf].
    repeat (apply andb_true_iff in Hf as [Hf ?]).
    simpl in Hr'. apply In_table_update in Hr' as (r & _ & -> & Hrid).
    simpl. intros [= He]. rewrite Hrid in He.
    match goal with
    | Hs : formula_eq "Follow-Up Status" "" _ = true |- _ =>
        unfold formula_eq in Hs; rewrite (paused_record cid r He) in Hs; discriminate
    end.
Qed.

Lemma reply_pauses_cadence_witness :
  ContactRecord.id cadence_contact_stored = Some 1
  /\ (process_due_contact draft_ok FollowUpConfig.default 1708560000%Z
        cadence_contact_stored replied_world).1 = Paused
  /\ get_contacts_for_followup 1708560000%Z
       (w_crm (process_due_contact draft_ok FollowUpConfig.default 1708560000%Z
                 cadence_contact_stored replied_world).2) = [].
Proof.
  split; [reflexivity |].
  destruct (reply_pauses_cadence draft_ok FollowUpConfig.default 1708560000%Z
              cadence_contact_stored replied_world 1 eq_refl)
    as (H1 & _ & _ & _ & _ & _ & _ & Hdue & _).
  - vm_compute. reflexivity.
  - split; [exact H1 |]. vm_compute. reflexivity.
Defined.

(** ** A pending follow-up blocks the next one *)

(** The record of the follow-up that a run creates. *)
Lemma process_due_body_Created_record draft_followup config now contact w auto exhausted w' :
  process_due_body draft_followup config now contact w
  = (Ok (Created auto exhausted), w') ->
  exists msg,
    messages_table (w_crm w')
    = messages_table (w_crm w) ++ [mkRecord (next_id (w_crm w)) (_message_to_fields msg)]
    /\ MessageRecord.contact_id msg = ContactRecord.id contact
    /\ MessageRecord.direction msg = MessageDirection.OUTBOUND
    /\ (MessageRecord.status msg = MessageStatus.APPROVED
        \/ MessageRecord.status msg = MessageStatus.DRAFT_READY)
    /\ MessageRecord.draft_reply msg = MessageRecord.ai_draft_version msg
    /\ exists channel history,
         _determine_channel contact config = Some channel
         /\ MessageRecord.source msg
            = (if channel =? "LinkedIn" then SourceChannel.LINKEDIN
               else SourceChannel.GMAIL)
         /\ draft_followup contact channel history
              (ContactRecord.follow_up_count contact + 1)%Z
            = Ok (MessageRecord.draft_reply msg).
Proof.
  unfold process_due_body. cbv zeta. intros H.
  bind_ok H replied w1 Hreplied. apply crm_get_eq in Hreplied as [-> ->].
  destruct (_has_recent_inbound _ _ _).
  { bind_ok H u1 w2 H1. bind_ok H u2 w3 H2. discriminate. }
  bind_ok H pending w2 Hpending. apply crm_get_eq in Hpending as [-> ->].
  destruct (_has_pending_outbound _ _); [discriminate |].
  destruct (_determine_channel contact config) as [channel|] eqn:Hchannel;
    [| discriminate].
  bind_ok H routing w3 Hrouting. apply crm_get_eq in Hrouting as [-> ->].
  bind_ok H all_messages w4 Hall. apply crm_get_eq in Hall as [-> ->].
  bind_ok H reply_text w5 Hdraft.
  unfold external in Hdraft. injection Hdraft as Hdraft <-.
  bind_ok H auto' w6 Hauto. apply crm_get_eq in Hauto as [-> ->]. simpl in H.
  bind_ok H created w7 Hcreate. unfold crm_call in Hcreate.
  rewrite create_message_outbound in Hcreate by reflexivity.
  injection Hcreate as <- <-.
  bind_ok H u1 w8 Haudit.
  match type of Haudit with
  | context [_message_to_fields ?m0] => set (msg := m0) in *
  end.
  assert (Hw8 : messages_table (w_crm w8)
                = messages_table (w_crm w)
                  ++ [mkRecord (next_id (w_crm w)) (_message_to_fields msg)]).
  { destruct (_ <=? _)%Z; injection Haudit as _ <-; reflexivity. }
  bind_ok H u2 w9 Hupdate. injection Hupdate as _ <-.
  bind_ok H u3 w10 Haudit2. injection Haudit2 as _ <-.
  injection H as _ _ <-.
  exists msg. split.
  { simpl. rewrite messages_table_update_contact. exact Hw8. }
  split; [reflexivity |]. split; [reflexivity |]. split.
  { unfold msg. simpl. destruct (_should_auto_approve _ _ _); auto. }
  split; [reflexivity |].
  eexists channel, _. split; [reflexivity |]. split; [reflexivity |].
  unfold msg. simpl. exact Hdraft.
Qed.

Lemma pending_after_append cid c rows msg i :
  messages_table c = rows ++ [mkRecord i (_message_to_fields msg)] ->
  MessageRecord.contact_id msg = Some cid ->
  MessageRecord.direction msg = MessageDirection.OUTBOUND ->
  (MessageRecord.status msg = MessageStatus.APPROVED
   \/ MessageRecord.status msg = MessageStatus.DRAFT_READY) ->
  _has_pending_outbound (Some cid) c = true.
Proof.
  intros Hrows Hcid Hdir Hst. unfold _has_pending_outbound, get_messages_for_contact.
  apply existsb_exists.
  exists (_record_to_message (mkRecord i (_message_to_fields msg))). split.
  - apply List.in_map. unfold table_all. apply List.filter_In. split.
    + rewrite Hrows. apply List.in_or_app. right. left. reflexivity.
    + apply andb_true_iff. split.
      * unfold formula_linked, get_links, _message_to_fields. simpl.
        rewrite lookup_set_if_eq, Hcid. simpl. rewrite Nat.eqb_refl. reflexivity.
      * simpl. unfold formula_eq, get_str, _message_to_fields. simpl. lookup_fields.
        rewrite Hdir. reflexivity.
  - rewrite record_to_stored_message. simpl.
    destruct Hst as [-> | ->]; reflexivity.
Qed.

(** X17. A follow-up that awaits approval or sending blocks the next one.
    After the engine has created a follow-up for a contact, the contact
    has a pending outbound message, and as long as the contact has not
    replied a further run for that contact - at any date, with any
    configuration and any drafting model - is skipped and changes
    nothing: no second draft is made. *)
Theorem pending_followup_blocks_next
    draft_followup config now contact w auto exhausted w' cid :
  process_due_contact draft_followup config now contact w
  = (Created auto exhausted, w') ->
  ContactRecord.id contact = Some cid ->
  _has_pending_outbound (Some cid) (w_crm w') = true
  /\ length (messages_table (w_crm w')) = S (length (messages_table (w_crm w)))
  /\ forall draft_followup' config' now' contact',
       ContactRecord.id contact' = Some cid ->
       _has_recent_inbound (Some cid) (ContactRecord.last_outbound_at contact') (w_crm w')
       = false ->
       process_due_contact draft_followup' config' now' contact' w' = (Skipped, w').
Proof.
  intros Hrun Hid. apply process_due_contact_Created in Hrun.
  apply process_due_body_Created_record in Hrun
    as (msg & Hrows & Hcid & Hdir & Hst & _).
  rewrite Hid in Hcid.
  pose proof (pending_after_append cid _ _ _ _ Hrows Hcid Hdir Hst) as Hpending.
  split; [exact Hpending |]. split.
  { rewrite Hrows, length_app. simpl. lia. }
  intros draft' config' now' contact' Hid' Hquiet.
  unfold process_due_contact, process_due_body, bind, crm_get.
  rewrite Hid', Hquiet, Hpending. reflexivity.
Qed.

Lemma pending_followup_blocks_next_witness :
  let out :=
    process_due_contact draft_ok FollowUpConfig.default 1708560000%Z
      cadence_contact_stored (cadence_world 0 0) in
  out.1 = Created true false
  /\ ContactRecord.id cadence_contact_stored = Some 1
  /\ _has_pending_outbound (Some 1) (w_crm out.2) = true.
Proof.
  intros out.
  assert (H1 : out.1 = Created true false) by (vm_compute; reflexivity).
  assert (Hrun : process_due_contact draft_ok FollowUpConfig.default 1708560000%Z
                   cadence_contact_stored (cadence_world 0 0)
                 = (Created true false, out.2)).
  { rewrite <- H1. subst out. apply surjective_pairing. }
  split; [exact H1 |]. split; [reflexivity |].
  apply (pending_followup_blocks_next _ _ _ _ _ _ _ _ 1 Hrun eq_refl).
Defined.

(** ** The channel of a follow-up *)

Lemma determine_channel_cases contact config channel :
  _determine_channel contact config = Some channel ->
  (channel = "LinkedIn"
   /\ truthy (ContactRecord.linkedin_url contact) = true
   /\ ((ContactRecord.follow_up_count contact < FollowUpConfig.linkedin_followups config)%Z
       \/ truthy (ContactRecord.email contact) = false))
  \/ (channel = "Email"
      /\ truthy (ContactRecord.email contact) = true
      /\ ((FollowUpConfig.linkedin_followups config <= ContactRecord.follow_up_count contact)%Z
          \/ truthy (ContactRecord.linkedin_url contact) = false)).
Proof.
  unfold _determine_channel.
  destruct (Z.ltb_spec (ContactRecord.follow_up_count contact)
              (FollowUpConfig.linkedin_followups config));
    destruct (truthy (ContactRecord.linkedin_url contact)),
      (truthy (ContactRecord.email contact));
    intros [= <-]; auto 6.
Qed.

(** X18. A follow-up goes where the contact can be reached.  The message
    that a run creates is a LinkedIn message only for a contact with a
    LinkedIn URL, and an e-mail only for a contact with an e-mail address;
    LinkedIn is used while the contact has had fewer than
    [linkedin_followups] follow-ups (or has no e-mail address), e-mail from
    then on (or without a LinkedIn URL).  The drafting model was asked for
    that channel.  A contact with neither address who has not replied and
    has nothing pending is skipped and nothing is written. *)
Theorem followup_channel_reachable draft_followup config now contact w :
  let count := ContactRecord.follow_up_count contact in
  let limit := FollowUpConfig.linkedin_followups config in
  let has_url := truthy (ContactRecord.linkedin_url contact) in
  let has_email := truthy (ContactRecord.email contact) in
  (forall auto exhausted w',
     process_due_contact draft_followup config now contact w
     = (Created auto exhausted, w') ->
     exists msg channel history,
       messages_table (w_crm w')
       = messages_table (w_crm w)
         ++ [mkRecord (next_id (w_crm w)) (_message_to_fields msg)]
       /\ draft_followup contact channel history (count + 1)%Z
          = Ok (MessageRecord.draft_reply msg)
       /\ ((channel = "LinkedIn"
            /\ MessageRecord.source msg = SourceChannel.LINKEDIN
            /\ has_url = true
            /\ ((count < limit)%Z \/ has_email = false))
           \/ (channel = "Email"
               /\ MessageRecord.source msg = SourceChannel.GMAIL
               /\ has_email = true
               /\ ((limit <= count)%Z \/ has_url = false))))
  /\ (has_url = false -> has_email = false ->
      _has_recent_inbound (ContactRecord.id contact)
        (ContactRecord.last_outbound_at contact) (w_crm w) = false ->
      process_due_contact draft_followup config now contact w = (Skipped, w)).
Proof.
  cbv zeta. split.
  - intros auto exhausted w' Hrun.
    apply process_due_contact_Created in Hrun.
    apply process_due_body_Created_record in Hrun
      as (msg & Hrows & _ & _ & _ & _ & channel & history & Hchannel & Hsource & Hdraft).
    exists msg, channel, history. split; [exact Hrows |]. split; [exact Hdraft |].
    apply determine_channel_cases in Hchannel
      as [(-> & Hurl & Hwhen) | (-> & Hemail & Hwhen)]; [left | right];
      repeat split; assumption.
  - intros Hurl Hemail Hquiet.
    unfold process_due_contact, process_due_body, bind, crm_get.
    rewrite Hquiet. unfold _determine_channel. rewrite Hurl, Hemail.
    destruct (_has_pending_outbound _ _); [reflexivity |].
    match goal with |- context [Z.ltb ?a ?b] => destruct (Z.ltb a b) end; reflexivity.
Qed.

Lemma followup_channel_reachable_witness :
  exists msg,
    messages_table
      (w_crm (process_due_contact draft_ok FollowUpConfig.default 1708560000%Z
                cadence_contact_stored (cadence_world 0 0)).2)
    = messages_table (w_crm (cadence_world 0 0))
      ++ [mkRecord (next_id (w_crm (cadence_world 0 0))) (_message_to_fields msg)]
    /\ MessageRecord.source msg = SourceChannel.LINKEDIN.
Proof.
  set (out := process_due_contact draft_ok FollowUpConfig.default 1708560000%Z
                cadence_contact_stored (cadence_world 0 0)).
  assert (H1 : out.1 = Created true false) by (vm_compute; reflexivity).
  assert (Hrun : out = (Created true false, out.2)).
  { rewrite <- H1. apply surjective_pairing. }
  destruct (followup_channel_reachable draft_ok FollowUpConfig.default 1708560000%Z
              cadence_contact_stored (cadence_world 0 0)) as [Hcreated _].
  destruct (Hcreated _ _ _ Hrun)
    as (msg & channel & history & Hrows & _ & [(_ & Hsrc & _) | (_ & _ & _ & Hwhen)]).
  - exists msg. split; assumption.
  - exfalso. destruct Hwhen as [Hwhen | Hwhen]; vm_compute in Hwhen; congruence.
Defined.

(** ** What a learning cycle leaves alone *)

Lemma store_rules_none now candidates n d :
  Forall (fun c => confident c = false) candidates ->
  foldl (fun acc rule =>
           let '(stored, d1) := acc in
           if confident rule
           then ((stored + 1)%Z,
                 (insert_learned_rule (Candidate.rule_text rule)
                    (Candidate.confidence rule) now d1).2)
           else (stored, d1))
        (n, d) candidates
  = (n, d).
Proof.
  induction 1 as [|c l Hc _ IH]; simpl; [reflexivity |]. rewrite Hc. exact IH.
Qed.

Lemma deactivate_all_audit now rules d :
  local_audit
    (foldl (fun d1 rule => deactivate_learned_rule (LearnedRule.id rule) now d1) d rules)
  = local_audit d.
Proof.
  revert d. induction rules as [|x rules IH]; intros d; simpl; [reflexivity |].
  rewrite IH. reflexivity.
Qed.

Lemma cap_active_rules_frame max_active_rules now d :
  processed_messages (cap_active_rules max_active_rules now d) = processed_messages d
  /\ local_audit (cap_active_rules max_active_rules now d) = local_audit d
  /\ ((Z.of_nat (length (get_active_learned_rules d)) <= max_active_rules)%Z ->
      cap_active_rules max_active_rules now d = d).
Proof.
  unfold cap_active_rules.
  destruct (Z.ltb_spec max_active_rules (Z.of_nat (length (get_active_learned_rules d)))).
  - split; [apply deactivate_all |]. split; [apply deactivate_all_audit | lia].
  - auto.
Qed.

Lemma not_confident_iff c :
  confident c = false <-> (Candidate.confidence c <= 7 # 10)%Q.
Proof.
  unfold confident. rewrite negb_false_iff. apply Qle_bool_iff.
Qed.

(** X19. A learning cycle reads the CRM and writes only the rule table
    and the local audit log.  With fewer edited messages than
    [min_messages] it is skipped: the model is not called and nothing is
    written.  Otherwise the model is called exactly once; if that call
    raises, the cycle raises and the store is as before; if it answers,
    one [learning_cycle] audit row is written, and when no candidate has
    a confidence above 0.7 and the active rules are within the cap the
    rule table is unchanged. *)
Theorem learning_cycle_conservative
    analyze now lookback_days max_active_rules min_messages w :
  let pairs := _fetch_edited_messages lookback_days now (w_crm w) in
  let rules := get_active_learned_rules (w_db w) in
  let out := run_learning_cycle analyze now lookback_days max_active_rules min_messages w in
  w_crm out.2 = w_crm w
  /\ processed_messages (w_db out.2) = processed_messages (w_db w)
  /\ ((Z.of_nat (length pairs) < min_messages)%Z ->
      out.2 = w
      /\ exists stats,
           out.1 = Ok stats
           /\ LearningStats.messages_analyzed stats = 0%Z
           /\ LearningStats.new_rules stats = 0%Z
           /\ is_Some (LearningStats.skipped_reason stats))
  /\ ((min_messages <= Z.of_nat (length pairs))%Z ->
      w_calls out.2 = w_calls w ++ [CallAnalyze]
      /\ (forall e, analyze pairs rules = Err e ->
            out.1 = Err e /\ w_db out.2 = w_db w)
      /\ (forall candidates, analyze pairs rules = Ok candidates ->
            exists stats,
              out.1 = Ok stats
              /\ LearningStats.messages_analyzed stats = Z.of_nat (length pairs)
              /\ LearningStats.skipped_reason stats = None
              /\ local_audit (w_db out.2)
                 = local_audit (w_db w)
                   ++ [LocalAudit.mk "learning_cycle" None None None]
              /\ (Forall (fun c => (Candidate.confidence c <= 7 # 10)%Q) candidates ->
                  (Z.of_nat (length rules) <= max_active_rules)%Z ->
                  LearningStats.new_rules stats = 0%Z
                  /\ learning_log (w_db out.2) = learning_log (w_db w)))).
Proof.
  cbv zeta. unfold run_learning_cycle, bind, crm_get, external, ret.
  destruct (Z.ltb_spec
              (Z.of_nat (length (_fetch_edited_messages lookback_days now (w_crm w))))
              min_messages) as [Hlt | Hge].
  { split; [reflexivity |]. split; [reflexivity |]. split; [| lia].
    intros _. split; [reflexivity |]. eexists. split; [reflexivity |].
    simpl. repeat split. eexists; reflexivity. }
  destruct (analyze _ _) as [candidates | e] eqn:Ea.
  - simpl. destruct (store_rules now candidates (w_db w)) as [stored d1] eqn:Es. simpl.
    destruct (cap_active_rules_frame max_active_rules now d1) as (Hpm & Hla & Hcap).
    destruct (store_rules_fold now candidates 0 (w_db w))
      as (rows & _ & Hpm1 & Hla1 & _).
    unfold store_rules in Es. rewrite Es in Hpm1, Hla1. simpl in Hpm1, Hla1.
    split; [reflexivity |]. split; [congruence |]. split; [lia |].
    intros _. split; [reflexivity |]. split; [discriminate |].
    intros candidates' [= <-]. eexists. split; [reflexivity |]. simpl.
    split; [reflexivity |]. split; [reflexivity |]. split; [congruence |].
    intros Hlow Hwithin.
    rewrite store_rules_none in Es.
    2:{ eapply Forall_impl; [exact Hlow |]. intros c Hc. apply not_confident_iff, Hc. }
    injection Es as <- <-. split; [reflexivity |]. rewrite (Hcap Hwithin). reflexivity.
  - simpl. split; [reflexivity |]. split; [reflexivity |]. split; [lia |].
    intros _. split; [reflexivity |]. split; [| discriminate].
    intros e' [= <-]. split; reflexivity.
Qed.

(** ** What feeds the learner *)




(** ** The circuit breaker *)

Lemma Qle_bool_false (a b : Q) : Qle_bool a b = false <-> (b < a)%Q.
Proof.
  split.
  - intros H. apply Qnot_le_lt. intros Hle. apply Qle_bool_iff in Hle. congruence.
  - intros H. destruct (Qle_bool a b) eqn:E; [| reflexivity].
    apply Qle_bool_iff in E. apply Qlt_not_le in H. contradiction.
Qed.

(** The state of one source in the breaker: its count of failures and
    the end of its cooldown. *)
Lemma record_failure_source now source cb :
  let n := (default 0 (CircuitBreaker._failures cb !! source) + 1)%Z in
  let cb' := CircuitBreaker.record_failure now source cb in
  CircuitBreaker._failures cb' !! source = Some n
  /\ CircuitBreaker._open_until cb' !! source
     = (if (CircuitBreaker.threshold cb <=? n)%Z
        then Some (now + inject_Z (CircuitBreaker.cooldown_seconds cb))%Q
        else CircuitBreaker._open_until cb !! source)
  /\ CircuitBreaker.threshold cb' = CircuitBreaker.threshold cb
  /\ CircuitBreaker.cooldown_seconds cb' = CircuitBreaker.cooldown_seconds cb.
Proof.
  cbv zeta. unfold CircuitBreaker.record_failure.
  destruct (_ <=? _)%Z; simpl; rewrite ?lookup_insert_eq; auto.
Qed.

Lemma record_failure_other now source other cb :
  other <> source ->
  CircuitBreaker._failures (CircuitBreaker.record_failure now source cb) !! other
  = CircuitBreaker._failures cb !! other
  /\ CircuitBreaker._open_until (CircuitBreaker.record_failure now source cb) !! other
     = CircuitBreaker._open_until cb !! other.
Proof.
  intros Hne. unfold CircuitBreaker.record_failure.
  destruct (_ <=? _)%Z; simpl; rewrite ?lookup_insert_ne by congruence; auto.
Qed.

Lemma record_failures_at_snoc times now source cb :
  record_failures_at (times ++ [now]) source cb
  = CircuitBreaker.record_failure now source (record_failures_at times source cb).
Proof. unfold record_failures_at. rewrite foldl_app. reflexivity. Qed.

(** Consecutive failures of a source that starts with a count of zero
    and a closed circuit. *)
Lemma record_failures_at_spec times source cb :
  default 0%Z (CircuitBreaker._failures cb !! source) = 0%Z ->
  CircuitBreaker._open_until cb !! source = None ->
  let cb' := record_failures_at times source cb in
  default 0%Z (CircuitBreaker._failures cb' !! source) = Z.of_nat (length times)
  /\ CircuitBreaker.threshold cb' = CircuitBreaker.threshold cb
  /\ CircuitBreaker.cooldown_seconds cb' = CircuitBreaker.cooldown_seconds cb
  /\ ((Z.of_nat (length times) < CircuitBreaker.threshold cb)%Z ->
      CircuitBreaker._open_until cb' !! source = None)
  /\ (forall last_failure,
        (CircuitBreaker.threshold cb <= Z.of_nat (length times))%Z ->
        last times = Some last_failure ->
        CircuitBreaker._open_until cb' !! source
        = Some (last_failure + inject_Z (CircuitBreaker.cooldown_seconds cb))%Q)
  /\ (forall other, other <> source ->
        CircuitBreaker._failures cb' !! other = CircuitBreaker._failures cb !! other
        /\ CircuitBreaker._open_until cb' !! other
           = CircuitBreaker._open_until cb !! other).
Proof.
  intros Hcount Hclosed. cbv zeta.
  induction times as [|now times IH] using rev_ind.
  - simpl. repeat split; auto. intros t _ [=].
  - destruct IH as (Hn & Hth & Hcd & Hnone & _ & Hother).
    rewrite record_failures_at_snoc.
    destruct (record_failure_source now source (record_failures_at times source cb))
      as (Hf & Ho & Hth' & Hcd').
    rewrite Hn, Hth, Hcd in *. rewrite length_app. simpl.
    replace (Z.of_nat (length times + 1)) with (Z.of_nat (length times) + 1)%Z by lia.
    split; [rewrite Hf; reflexivity |]. split; [exact Hth' |]. split; [exact Hcd' |].
    split; [| split].
    + intros Hlt. rewrite Ho.
      destruct (Z.leb_spec (CircuitBreaker.threshold cb) (Z.of_nat (length times) + 1));
        [lia |].
      apply Hnone. lia.
    + intros t Hge Hlast. rewrite last_snoc in Hlast. injection Hlast as <-.
      rewrite Ho.
      destruct (Z.leb_spec (CircuitBreaker.threshold cb) (Z.of_nat (length times) + 1));
        [reflexivity | lia].
    + intros other Hne.
      destruct (record_failure_other now source other
                  (record_failures_at times source cb) Hne) as [-> ->].
      apply Hother, Hne.
Qed.

(** X21. The circuit of a source opens at the threshold.  Starting from
    a source with no failure counted and a closed circuit, fewer
    consecutive failures than [threshold] leave the circuit closed
    ([is_open] answers no and changes nothing); with [threshold] failures
    or more the circuit is open, at any time before the last failure plus
    [cooldown_seconds], and only then.  The failures of one source do not
    touch the count or the circuit of another. *)
Theorem circuit_opens_at_threshold times source cb :
  default 0%Z (CircuitBreaker._failures cb !! source) = 0%Z ->
  CircuitBreaker._open_until cb !! source = None ->
  let cb' := record_failures_at times source cb in
  let threshold := CircuitBreaker.threshold cb in
  let cooldown := inject_Z (CircuitBreaker.cooldown_seconds cb) in
  default 0%Z (CircuitBreaker._failures cb' !! source) = Z.of_nat (length times)
  /\ ((Z.of_nat (length times) < threshold)%Z ->
      forall now, CircuitBreaker.is_open now source cb' = (false, cb'))
  /\ (forall last_failure now,
        (threshold <= Z.of_nat (length times))%Z ->
        last times = Some last_failure ->
        ((CircuitBreaker.is_open now source cb').1 = true
         <-> (now < last_failure + cooldown)%Q)
        /\ ((now < last_failure + cooldown)%Q ->
            CircuitBreaker.is_open now source cb' = (true, cb')))
  /\ (forall other now, other <> source ->
        (CircuitBreaker.is_open now other cb').1 = (CircuitBreaker.is_open now other cb).1).
Proof.
  intros Hcount Hclosed. cbv zeta.
  destruct (record_failures_at_spec times source cb Hcount Hclosed)
    as (Hn & _ & _ & Hnone & Hopen & Hother).
  split; [exact Hn |]. split; [| split].
  - intros Hlt now. unfold CircuitBreaker.is_open. rewrite (Hnone Hlt). reflexivity.
  - intros t now Hge Hlast. unfold CircuitBreaker.is_open.
    rewrite (Hopen t Hge Hlast).
    destruct (Qle_bool _ now) eqn:E; simpl.
    + apply Qle_bool_iff in E. split.
      * split; [discriminate |]. intros Hlt. apply Qlt_not_le in Hlt. contradiction.
      * intros Hlt. apply Qlt_not_le in Hlt. contradiction.
    + apply Qle_bool_false in E. split; [| reflexivity]. split; auto.
  - intros other now Hne. unfold CircuitBreaker.is_open.
    destruct (Hother other Hne) as [_ ->].
    destruct (CircuitBreaker._open_until cb !! other) as [until|]; [| reflexivity].
    destruct (Qle_bool until now); reflexivity.
Qed.

Lemma circuit_opens_at_threshold_witness :
  let cb := record_failures_at [1; 2; 3; 4; 5]%Q "gmail" (CircuitBreaker.init 5 600) in
  default 0%Z (CircuitBreaker._failures cb !! "gmail") = 5%Z
  /\ (CircuitBreaker.is_open 604 "gmail" cb).1 = true
  /\ (CircuitBreaker.is_open 605 "gmail" cb).1 = false.
Proof.
  intros cb.
  destruct (circuit_opens_at_threshold [1; 2; 3; 4; 5]%Q "gmail"
              (CircuitBreaker.init 5 600) eq_refl eq_refl)
    as (Hn & _ & Hopen & _).
  split; [exact Hn |].
  destruct (Hopen 5%Q 604%Q ltac:(simpl; lia) eq_refl) as [[_ H1] _].
  destruct (Hopen 5%Q 605%Q ltac:(simpl; lia) eq_refl) as [[H2 _] _].
  split.
  - apply H1. reflexivity.
  - destruct (CircuitBreaker.is_open 605 "gmail" cb).1 eqn:E; [| reflexivity].
    specialize (H2 E). vm_compute in H2. discriminate.
Defined.

(** X22. How a circuit closes.  [is_open] answers yes, and changes
    nothing, before the end of the cooldown; from the end of the cooldown
    on it answers no and resets the source exactly as a success does.
    After a success, or an expired cooldown, the source starts afresh:
    its count is zero, and again fewer failures than [threshold] leave
    the circuit closed.  A success of one source does not touch
    another. *)
Theorem circuit_closes_and_starts_afresh source cb :
  let cb1 := CircuitBreaker.record_success source cb in
  (forall deadline now,
     CircuitBreaker._open_until cb !! source = Some deadline ->
     ((deadline <= now)%Q -> CircuitBreaker.is_open now source cb = (false, cb1))
     /\ ((now < deadline)%Q -> CircuitBreaker.is_open now source cb = (true, cb)))
  /\ (CircuitBreaker._open_until cb !! source = None ->
      forall now, CircuitBreaker.is_open now source cb = (false, cb))
  /\ CircuitBreaker._failures cb1 !! source = Some 0%Z
  /\ (forall times now,
        (Z.of_nat (length times) < CircuitBreaker.threshold cb)%Z ->
        CircuitBreaker.is_open now source (record_failures_at times source cb1)
        = (false, record_failures_at times source cb1))
  /\ (forall other, other <> source ->
        CircuitBreaker._failures cb1 !! other = CircuitBreaker._failures cb !! other
        /\ CircuitBreaker._open_until cb1 !! other
           = CircuitBreaker._open_until cb !! other).
Proof.
  cbv zeta. split; [| split; [| split; [| split]]].
  - intros deadline now Hu. unfold CircuitBreaker.is_open. rewrite Hu. split.
    + intros Hle. apply Qle_bool_iff in Hle. rewrite Hle. reflexivity.
    + intros Hlt. apply Qle_bool_false in Hlt. rewrite Hlt. reflexivity.
  - intros Hu now. unfold CircuitBreaker.is_open. rewrite Hu. reflexivity.
  - simpl. apply lookup_insert_eq.
  - intros times now Hlt.
    assert (Hcount : default 0%Z
                       (CircuitBreaker._failures (CircuitBreaker.record_success source cb)
                          !! source) = 0%Z)
      by (simpl; rewrite lookup_insert_eq; reflexivity).
    assert (Hclosed : CircuitBreaker._open_until (CircuitBreaker.record_success source cb)
                        !! source = None)
      by (simpl; apply lookup_delete_eq).
    destruct (record_failures_at_spec times source _ Hcount Hclosed)
      as (_ & _ & _ & Hnone & _).
    unfold CircuitBreaker.is_open. rewrite (Hnone Hlt). reflexivity.
  - intros other Hne. simpl.
    rewrite lookup_insert_ne, lookup_delete_ne by congruence. auto.
Qed.

(** ** The inbound cycle *)

Lemma is_open_same source now a b :
  same_circuit source a b ->
  (CircuitBreaker.is_open now source a).1 = (CircuitBreaker.is_open now source b).1
  /\ same_circuit source (CircuitBreaker.is_open now source a).2
       (CircuitBreaker.is_open now source b).2.
Proof.
  intros Hab. pose proof Hab as (Ht & Hc & Hf & Ho).
  unfold CircuitBreaker.is_open. rewrite Ho.
  destruct (CircuitBreaker._open_until b !! source) as [deadline|].
  - destruct (Qle_bool deadline now); simpl.
    + split; [reflexivity |]. unfold same_circuit. simpl.
      rewrite !lookup_insert_eq, !lookup_delete_eq. repeat split; assumption.
    + split; [reflexivity | exact Hab].
  - simpl. split; [reflexivity | exact Hab].
Qed.

Lemma record_success_same source a b :
  same_circuit source a b ->
  same_circuit source (CircuitBreaker.record_success source a)
    (CircuitBreaker.record_success source b).
Proof.
  intros (Ht & Hc & Hf & Ho). unfold same_circuit. simpl.
  rewrite !lookup_insert_eq, !lookup_delete_eq. auto.
Qed.

Lemma record_failure_same source now a b :
  same_circuit source a b ->
  same_circuit source (CircuitBreaker.record_failure now source a)
    (CircuitBreaker.record_failure now source b).
Proof.
  intros (Ht & Hc & Hf & Ho). unfold same_circuit, CircuitBreaker.record_failure.
  rewrite Ht, Hc, Hf.
  destruct (_ <=? _)%Z; simpl; rewrite ?lookup_insert_eq; auto.
Qed.

(** A block of the cycle depends on the breaker only through the
    circuit of its source. *)
Lemma poll_source_same pipeline name source checked failed a b w :
  same_circuit name a b ->
  (poll_source pipeline name source checked failed (a, w)).2
  = (poll_source pipeline name source checked failed (b, w)).2
  /\ same_circuit name (poll_source pipeline name source checked failed (a, w)).1
       (poll_source pipeline name source checked failed (b, w)).1.
Proof.
  intros Hab. unfold poll_source. destruct source as [poll|]; [| auto].
  destruct (is_open_same name checked a b Hab) as [Hopen Hsame].
  destruct (CircuitBreaker.is_open checked name a) as [oa a1].
  destruct (CircuitBreaker.is_open checked name b) as [ob b1].
  simpl in Hopen, Hsame. subst ob. destruct oa; [auto |].
  destruct (poll w) as [messages | e]; simpl.
  - split; [reflexivity |]. apply record_success_same, Hsame.
  - split; [reflexivity |]. apply record_failure_same, Hsame.
Qed.

(** A block of the cycle leaves the circuits of the other sources and
    the settings of the breaker alone. *)
Lemma poll_source_other pipeline name other source checked failed cb w :
  other <> name ->
  same_circuit other (poll_source pipeline name source checked failed (cb, w)).1 cb.
Proof.
  intros Hne. unfold poll_source, same_circuit. destruct source as [poll|]; [| auto].
  unfold CircuitBreaker.is_open.
  destruct (CircuitBreaker._open_until cb !! name) as [deadline|].
  - destruct (Qle_bool deadline checked); [| auto].
    destruct (poll w) as [messages | e]; simpl.
    + rewrite !lookup_insert_ne, !lookup_delete_ne by congruence. auto.
    + unfold CircuitBreaker.record_failure.
      destruct (_ <=? _)%Z; simpl;
        rewrite ?lookup_insert_ne, ?lookup_delete_ne by congruence; auto.
  - destruct (poll w) as [messages | e]; simpl.
    + rewrite !lookup_insert_ne, !lookup_delete_ne by congruence. auto.
    + unfold CircuitBreaker.record_failure.
      destruct (_ <=? _)%Z; simpl;
        rewrite ?lookup_insert_ne by congruence; auto.
Qed.

(** A poll that raises, or an open circuit, leaves the world alone. *)
Lemma poll_source_raises pipeline name poll checked failed cb w e :
  poll w = Err e ->
  (poll_source pipeline name (Some poll) checked failed (cb, w)).2 = w.
Proof.
  intros He. unfold poll_source.
  destruct (CircuitBreaker.is_open checked name cb) as [[|] cb1]; [reflexivity |].
  rewrite He. reflexivity.
Qed.

Lemma same_circuit_sym source a b : same_circuit source a b -> same_circuit source b a.
Proof. unfold same_circuit. intuition congruence. Qed.

(** X23. A source that fails does not disturb the other.  When the Gmail
    poll raises, the cycle still polls LinkedIn, and the world after the
    cycle and the LinkedIn circuit are those of the same cycle without a
    Gmail source; the failure is counted for Gmail alone. *)
Theorem gmail_failure_does_not_stop_linkedin components clock cb w poll e :
  Components.gmail_source components = Some poll ->
  poll w = Err e ->
  let out := run_inbound_cycle components clock (cb, w) in
  let alone := run_inbound_cycle (without_gmail components) clock (cb, w) in
  out.2 = alone.2
  /\ same_circuit "linkedin" out.1 alone.1
  /\ (CircuitBreaker._open_until cb !! "gmail" = None ->
      CircuitBreaker._failures out.1 !! "gmail"
      = Some (default 0 (CircuitBreaker._failures cb !! "gmail") + 1)%Z).
Proof.
  intros Hsrc He. cbv zeta. unfold run_inbound_cycle, without_gmail.
  cbn [Components.pipeline Components.gmail_source Components.linkedin_source].
  rewrite Hsrc.
  change (poll_source (Components.pipeline components) "gmail" None
            (CycleClock.gmail_checked clock) (CycleClock.gmail_failed clock) (cb, w))
    with (cb, w).
  set (st1 := poll_source (Components.pipeline components) "gmail" (Some poll)
                (CycleClock.gmail_checked clock) (CycleClock.gmail_failed clock) (cb, w)).
  assert (Hw : st1.2 = w) by (eapply poll_source_raises, He).
  assert (Hcb : same_circuit "linkedin" st1.1 cb)
    by (apply poll_source_other; discriminate).
  destruct st1 as [cb1 w1] eqn:Est. simpl in Hw, Hcb. subst w1.
  destruct (poll_source_same (Components.pipeline components) "linkedin"
              (Components.linkedin_source components)
              (CycleClock.linkedin_checked clock) (CycleClock.linkedin_failed clock)
              cb1 cb w Hcb) as [H1 H2].
  split; [exact H1 |]. split; [exact H2 |].
  intros Hclosed.
  pose proof (poll_source_other (Components.pipeline components) "linkedin" "gmail"
                (Components.linkedin_source components)
                (CycleClock.linkedin_checked clock) (CycleClock.linkedin_failed clock)
                cb1 w ltac:(discriminate)) as (_ & _ & Hf & _).
  rewrite Hf. subst st1. unfold poll_source, CircuitBreaker.is_open in Est.
  rewrite Hclosed, He in Est. injection Est as <-.
  apply record_failure_source.
Qed.

Lemma gmail_failure_does_not_stop_linkedin_witness :
  let components :=
    Components.mk failing_pipeline (Some poll_raises) (Some poll_one) in
  let out :=
    run_inbound_cycle components (clock_at 10) (CircuitBreaker.init 5 600, empty_world) in
  out.2 = (process_batch failing_pipeline [sample_gmail_message] empty_world).2
  /\ CircuitBreaker._failures out.1 !! "gmail" = Some 1%Z.
Proof.
  intros components out.
  destruct (gmail_failure_does_not_stop_linkedin components (clock_at 10)
              (CircuitBreaker.init 5 600) empty_world poll_raises "connection refused"
              eq_refl eq_refl) as (Hw & _ & Hf).
  split; [exact Hw | exact (Hf eq_refl)].
Defined.

(** ** A source that keeps failing *)

Lemma run_inbound_cycles_snoc cycles cycle st :
  run_inbound_cycles (cycles ++ [cycle]) st
  = run_inbound_cycle cycle.1 cycle.2 (run_inbound_cycles cycles st).
Proof. unfold run_inbound_cycles. rewrite foldl_app. reflexivity. Qed.

(** A cycle in which Gmail is down, seen from the LinkedIn side. *)
Lemma cycle_gmail_down_linkedin components clock a b w :
  gmail_down components ->
  same_circuit "linkedin" a b ->
  (run_inbound_cycle components clock (a, w)).2
  = (run_inbound_cycle (without_gmail components) clock (b, w)).2
  /\ same_circuit "linkedin" (run_inbound_cycle components clock (a, w)).1
       (run_inbound_cycle (without_gmail components) clock (b, w)).1.
Proof.
  intros (poll & Hsrc & Hdown) Hab. destruct (Hdown w) as [e He].
  unfold run_inbound_cycle, without_gmail.
  cbn [Components.pipeline Components.gmail_source Components.linkedin_source].
  rewrite Hsrc.
  change (poll_source (Components.pipeline components) "gmail" None
            (CycleClock.gmail_checked clock) (CycleClock.gmail_failed clock) (b, w))
    with (b, w).
  set (st1 := poll_source (Components.pipeline components) "gmail" (Some poll)
                (CycleClock.gmail_checked clock) (CycleClock.gmail_failed clock) (a, w)).
  assert (Hw : st1.2 = w) by (eapply poll_source_raises, He).
  assert (Hcb : same_circuit "linkedin" st1.1 a)
    by (apply poll_source_other; discriminate).
  destruct st1 as [a1 w1]. simpl in Hw, Hcb. subst w1.
  apply poll_source_same.
  destruct Hcb as (H1 & H2 & H3 & H4), Hab as (H5 & H6 & H7 & H8).
  unfold same_circuit. repeat split; congruence.
Qed.

(** A cycle in which Gmail is down and its circuit closed, seen from
    the Gmail side. *)
Lemma cycle_gmail_down_gmail components clock cb w :
  gmail_down components ->
  CircuitBreaker._open_until cb !! "gmail" = None ->
  same_circuit "gmail" (run_inbound_cycle components clock (cb, w)).1
    (CircuitBreaker.record_failure (CycleClock.gmail_failed clock) "gmail" cb).
Proof.
  intros (poll & Hsrc & Hdown) Hclosed. destruct (Hdown w) as [e He].
  unfold run_inbound_cycle. rewrite Hsrc.
  assert (Hst : poll_source (Components.pipeline components) "gmail" (Some poll)
                  (CycleClock.gmail_checked clock) (CycleClock.gmail_failed clock) (cb, w)
                = (CircuitBreaker.record_failure (CycleClock.gmail_failed clock) "gmail" cb,
                   w)).
  { unfold poll_source, CircuitBreaker.is_open. rewrite Hclosed, He. reflexivity. }
  cbv zeta. rewrite Hst. apply poll_source_other. discriminate.
Qed.

Lemma same_circuit_trans source a b c :
  same_circuit source a b -> same_circuit source b c -> same_circuit source a c.
Proof. unfold same_circuit. intuition congruence. Qed.

(** Cycles in which Gmail is down count as consecutive failures, as long
    as the circuit has not opened. *)
Lemma cycles_gmail_down_count cycles cb w :
  default 0%Z (CircuitBreaker._failures cb !! "gmail") = 0%Z ->
  CircuitBreaker._open_until cb !! "gmail" = None ->
  Forall (fun cycle => gmail_down cycle.1) cycles ->
  (Z.of_nat (length cycles) <= CircuitBreaker.threshold cb)%Z ->
  same_circuit "gmail" (run_inbound_cycles cycles (cb, w)).1
    (record_failures_at (map (fun cycle => CycleClock.gmail_failed cycle.2) cycles)
       "gmail" cb).
Proof.
  intros Hcount Hclosed. induction cycles as [|cycle cycles IH] using rev_ind.
  - intros _ _. unfold same_circuit. auto.
  - intros Hdown Hlen. apply Forall_app in Hdown as [Hdown Hlast].
    apply Forall_cons in Hlast as [Hlast _].
    rewrite length_app in Hlen. simpl in Hlen.
    specialize (IH Hdown ltac:(lia)).
    rewrite run_inbound_cycles_snoc, map_app. cbn [map].
    rewrite record_failures_at_snoc.
    destruct (run_inbound_cycles cycles (cb, w)) as [cb1 w1] eqn:Est. simpl in IH.
    set (times := map (fun cycle => CycleClock.gmail_failed cycle.2) cycles) in *.
    destruct (record_failures_at_spec times "gmail" cb Hcount Hclosed)
      as (_ & _ & _ & Hnone & _).
    assert (Hc1 : CircuitBreaker._open_until cb1 !! "gmail" = None).
    { destruct IH as (_ & _ & _ & ->). apply Hnone.
      unfold times. rewrite length_map. lia. }
    eapply same_circuit_trans.
    + apply cycle_gmail_down_gmail; [exact Hlast | exact Hc1].
    + apply record_failure_same, IH.
Qed.

Lemma cycles_gmail_down_linkedin cycles a b w :
  Forall (fun cycle => gmail_down cycle.1) cycles ->
  same_circuit "linkedin" a b ->
  (run_inbound_cycles cycles (a, w)).2
  = (run_inbound_cycles (cycles_without_gmail cycles) (b, w)).2
  /\ same_circuit "linkedin" (run_inbound_cycles cycles (a, w)).1
       (run_inbound_cycles (cycles_without_gmail cycles) (b, w)).1.
Proof.
  intros Hdown. revert a b w.
  induction Hdown as [|cycle cycles Hcycle _ IH]; intros a b w Hab; [auto |].
  unfold run_inbound_cycles, cycles_without_gmail. simpl.
  destruct (cycle_gmail_down_linkedin cycle.1 cycle.2 a b w Hcycle Hab) as [Hw Hs].
  destruct (run_inbound_cycle cycle.1 cycle.2 (a, w)) as [a1 w1].
  destruct (run_inbound_cycle (without_gmail cycle.1) cycle.2 (b, w)) as [b1 w2].
  simpl in Hw, Hs. subst w2. apply IH, Hs.
Qed.

Lemma last_map_Some {A B : Type} (f : A -> B) (l : list A) x :
  last l = Some x -> last (map f l) = Some (f x).
Proof.
  induction l as [|y l IH] using rev_ind; [discriminate |].
  rewrite map_app. cbn [map]. rewrite !last_snoc. intros [= ->]. reflexivity.
Qed.

(** X24. A source that keeps failing is suspended.  When the Gmail poll
    raises in [threshold] consecutive cycles, starting with no failure
    counted, the Gmail circuit is open until [cooldown_seconds] after the
    last failure: a cycle that starts before then does not poll Gmail, it
    runs as if there were no Gmail source.  Meanwhile the failing polls
    have written nothing: the world is that of the same cycles without a
    Gmail source. *)
Theorem failing_source_is_suspended cycles last_components last_clock cb w :
  default 0%Z (CircuitBreaker._failures cb !! "gmail") = 0%Z ->
  CircuitBreaker._open_until cb !! "gmail" = None ->
  Forall (fun cycle => gmail_down cycle.1) cycles ->
  Z.of_nat (length cycles) = CircuitBreaker.threshold cb ->
  last cycles = Some (last_components, last_clock) ->
  let st := run_inbound_cycles cycles (cb, w) in
  let deadline :=
    (CycleClock.gmail_failed last_clock
     + inject_Z (CircuitBreaker.cooldown_seconds cb))%Q in
  CircuitBreaker._open_until st.1 !! "gmail" = Some deadline
  /\ st.2 = (run_inbound_cycles (cycles_without_gmail cycles) (cb, w)).2
  /\ (forall components clock,
        (CycleClock.gmail_checked clock < deadline)%Q ->
        run_inbound_cycle components clock st
        = run_inbound_cycle (without_gmail components) clock st).
Proof.
  intros Hcount Hclosed Hdown Hlen Hlast. cbv zeta.
  pose proof (cycles_gmail_down_count cycles cb w Hcount Hclosed Hdown ltac:(lia))
    as (_ & _ & _ & Hopen).
  destruct (record_failures_at_spec
              (map (fun cycle => CycleClock.gmail_failed cycle.2) cycles) "gmail" cb
              Hcount Hclosed) as (_ & _ & _ & _ & Hspec & _).
  rewrite (Hspec (CycleClock.gmail_failed last_clock)) in Hopen.
  2:{ rewrite length_map. lia. }
  2:{ apply (last_map_Some (fun cycle => CycleClock.gmail_failed cycle.2)) in Hlast.
      exact Hlast. }
  split; [exact Hopen |]. split.
  { apply cycles_gmail_down_linkedin; [exact Hdown |]. unfold same_circuit. auto. }
  intros components clock Hbefore.
  destruct (run_inbound_cycles cycles (cb, w)) as [cb1 w1]. simpl in Hopen.
  unfold run_inbound_cycle, without_gmail.
  cbn [Components.pipeline Components.gmail_source Components.linkedin_source].
  f_equal. unfold poll_source.
  destruct (Components.gmail_source components) as [poll|]; [| reflexivity].
  unfold CircuitBreaker.is_open. rewrite Hopen.
  apply Qle_bool_false in Hbefore. rewrite Hbefore. reflexivity.
Qed.

Lemma failing_source_is_suspended_witness :
  let st := run_inbound_cycles gmail_down_cycles (CircuitBreaker.init 2 600, empty_world) in
  CircuitBreaker._open_until st.1 !! "gmail" = Some (20 + inject_Z 600)%Q
  /\ run_inbound_cycle (Components.mk mock_pipeline (Some poll_one) None) (clock_at 30) st
     = st.
Proof.
  cbv zeta.
  assert (Hdown : Forall (fun cycle : Components.t * CycleClock.t => gmail_down cycle.1)
                    gmail_down_cycles).
  { repeat constructor; exists poll_raises; (split; [reflexivity |]);
      intros w; exists "connection refused"; reflexivity. }
  destruct (failing_source_is_suspended gmail_down_cycles
              (Components.mk mock_pipeline (Some poll_raises) None) (clock_at 20)
              (CircuitBreaker.init 2 600) empty_world
              eq_refl eq_refl Hdown eq_refl eq_refl) as (Hopen & _ & Hskip).
  split; [exact Hopen |].
  rewrite (Hskip (Components.mk mock_pipeline (Some poll_one) None) (clock_at 30)
             ltac:(reflexivity)).
  destruct (run_inbound_cycles _ _) as [cb1 w1]. reflexivity.
Defined.

(** ** The token bucket *)

Lemma min_float_spec (a b : Q) :
  (min_float a b <= a)%Q /\ (min_float a b <= b)%Q
  /\ (forall c, (c <= a)%Q -> (c <= b)%Q -> (c <= min_float a b)%Q).
Proof.
  unfold min_float. destruct (Qle_bool a b) eqn:E.
  - apply Qle_bool_iff in E. repeat split; auto; lra.
  - apply Qle_bool_false in E. repeat split; auto; lra.
Qed.

Lemma refill_spec now b :
  bucket_ok b ->
  (TokenBucket._last_refill b <= now)%Q ->
  let b' := TokenBucket._refill now b in
  bucket_ok b'
  /\ TokenBucket.capacity b' = TokenBucket.capacity b
  /\ TokenBucket.refill_rate b' = TokenBucket.refill_rate b
  /\ TokenBucket._last_refill b' = now
  /\ (TokenBucket._tokens b'
      <= TokenBucket._tokens b
         + TokenBucket.refill_rate b * (now - TokenBucket._last_refill b))%Q.
Proof.
  intros (Hc & Hr & H0 & H1) Hnow. cbv zeta. unfold bucket_ok. simpl.
  destruct (min_float_spec (TokenBucket.capacity b)
              (TokenBucket._tokens b
               + (now - TokenBucket._last_refill b) * TokenBucket.refill_rate b)%Q)
    as (Hm1 & Hm2 & Hm3).
  assert (Hgain : (0 <= (now - TokenBucket._last_refill b) * TokenBucket.refill_rate b)%Q).
  { apply Qmult_le_0_compat; lra. }
  repeat split; auto.
  - apply Hm3; lra.
  - lra.
Qed.

Lemma take_spec b :
  bucket_ok b -> (1 <= TokenBucket._tokens b)%Q ->
  bucket_ok (TokenBucket.take b)
  /\ (TokenBucket._tokens (TokenBucket.take b) + 1 == TokenBucket._tokens b)%Q.
Proof.
  intros (Hc & Hr & H0 & H1) Hone. unfold bucket_ok. simpl.
  repeat split; auto; lra.
Qed.

Lemma nondecreasing_lower from from' times :
  (from' <= from)%Q -> nondecreasing from times -> nondecreasing from' times.
Proof.
  destruct times as [|t rest]; simpl; [auto |]. intros Hle [Ht Hrest].
  split; [lra | exact Hrest].
Qed.

Lemma nondecreasing_app from l1 l2 :
  nondecreasing from (l1 ++ l2) ->
  nondecreasing from l1
  /\ forall x, x = from \/ In x l1 -> nondecreasing x l2.
Proof.
  revert from. induction l1 as [|t l1 IH]; intros from; simpl.
  - intros H. split; [exact I |]. intros x [-> | []]. exact H.
  - intros [Ht H]. destruct (IH t H) as [H1 H2]. split; [auto |].
    intros x [-> | [<- | Hx]].
    + apply (nondecreasing_lower t); [exact Ht |]. apply H2. left. reflexivity.
    + apply H2. left. reflexivity.
    + apply H2. right. exact Hx.
Qed.

(** One call of [acquire]: the bucket stays in its range, and what the
    call grants is paid from the tokens and the refill of the time that
    went by. *)
Lemma acquire_loop_spec readings deadline b result b' :
  bucket_ok b ->
  nondecreasing (TokenBucket._last_refill b) (map fst readings) ->
  TokenBucket.acquire_loop readings deadline b = Some (result, b') ->
  bucket_ok b'
  /\ TokenBucket.capacity b' = TokenBucket.capacity b
  /\ TokenBucket.refill_rate b' = TokenBucket.refill_rate b
  /\ (TokenBucket._last_refill b <= TokenBucket._last_refill b')%Q
  /\ In (TokenBucket._last_refill b') (map fst readings)
  /\ (TokenBucket._tokens b' + granted result
      <= TokenBucket._tokens b
         + TokenBucket.refill_rate b
           * (TokenBucket._last_refill b' - TokenBucket._last_refill b))%Q.
Proof.
  revert b. induction readings as [|[now checked] rest IH]; intros b Hok Hmono Hrun;
    [discriminate |].
  simpl in Hmono. destruct Hmono as [Hnow Hrest].
  destruct (refill_spec now b Hok Hnow) as (Hok1 & Hc1 & Hr1 & Hl1 & Ht1).
  cbn [TokenBucket.acquire_loop] in Hrun.
  set (b1 := TokenBucket._refill now b) in *.
  destruct (Qle_bool 1 (TokenBucket._tokens b1)) eqn:Eone.
  { injection Hrun as <- <-. apply Qle_bool_iff in Eone.
    destruct (take_spec b1 Hok1 Eone) as [Hok2 Htake].
    cbn [granted]. cbn [TokenBucket.take TokenBucket.capacity TokenBucket.refill_rate
                          TokenBucket._last_refill TokenBucket._tokens] in *.
    split; [exact Hok2 |]. split; [exact Hc1 |]. split; [exact Hr1 |].
    rewrite Hl1. split; [exact Hnow |]. split; [left; reflexivity |]. lra. }
  destruct (Qle_bool (deadline - checked) 0) eqn:Eout.
  { injection Hrun as <- <-. cbn [granted].
    split; [exact Hok1 |]. split; [exact Hc1 |]. split; [exact Hr1 |].
    rewrite Hl1. split; [exact Hnow |]. split; [left; reflexivity |]. lra. }
  destruct (Qeq_bool (TokenBucket.refill_rate b1) 0) eqn:Ezero.
  { injection Hrun as <- <-. cbn [granted].
    split; [exact Hok1 |]. split; [exact Hc1 |]. split; [exact Hr1 |].
    rewrite Hl1. split; [exact Hnow |]. split; [left; reflexivity |]. lra. }
  destruct (Qle_bool 0 (TokenBucket.refill_rate b1)) eqn:Esign.
  2:{ injection Hrun as <- <-. cbn [granted].
      split; [exact Hok1 |]. split; [exact Hc1 |]. split; [exact Hr1 |].
      rewrite Hl1. split; [exact Hnow |]. split; [left; reflexivity |]. lra. }
  rewrite <- Hl1 in Hrest.
  destruct (IH b1 Hok1 Hrest Hrun) as (Hok2 & Hc2 & Hr2 & Hl2 & Hin & Ht2).
  rewrite Hl1 in Hl2, Ht2. rewrite Hc1 in Hc2. rewrite Hr1 in Hr2, Ht2.
  split; [exact Hok2 |]. split; [exact Hc2 |]. split; [exact Hr2 |].
  split; [lra |]. split; [right; exact Hin |].
  assert (Heq : (TokenBucket.refill_rate b
                 * (TokenBucket._last_refill b' - TokenBucket._last_refill b)
                 == TokenBucket.refill_rate b * (TokenBucket._last_refill b' - now)
                    + TokenBucket.refill_rate b * (now - TokenBucket._last_refill b))%Q)
    by ring.
  rewrite Heq.
  set (x := (TokenBucket.refill_rate b * (TokenBucket._last_refill b' - now))%Q) in *.
  set (y := (TokenBucket.refill_rate b * (now - TokenBucket._last_refill b))%Q) in *.
  clearbody x y b1. lra.
Qed.

Lemma acquires_spec calls b n b' :
  bucket_ok b ->
  nondecreasing (TokenBucket._last_refill b) (refill_times calls) ->
  acquires calls b = Some (n, b') ->
  bucket_ok b'
  /\ TokenBucket.capacity b' = TokenBucket.capacity b
  /\ TokenBucket.refill_rate b' = TokenBucket.refill_rate b
  /\ (TokenBucket._last_refill b <= TokenBucket._last_refill b')%Q
  /\ (TokenBucket._tokens b' + inject_Z (Z.of_nat n)
      <= TokenBucket._tokens b
         + TokenBucket.refill_rate b
           * (TokenBucket._last_refill b' - TokenBucket._last_refill b))%Q.
Proof.
  revert b n b'. induction calls as [|call rest IH]; intros b n b' Hok Hmono Hrun.
  - injection Hrun as <- <-. split; [exact Hok |]. split; [reflexivity |].
    split; [reflexivity |]. split; [apply Qle_refl |].
    change (inject_Z (Z.of_nat 0)) with 0%Q.
    assert (Heq : (TokenBucket.refill_rate b
                   * (TokenBucket._last_refill b - TokenBucket._last_refill b) == 0)%Q)
      by ring.
    rewrite Heq. lra.
  - cbn [acquires] in Hrun. unfold TokenBucket.acquire in Hrun.
    destruct (TokenBucket.acquire_loop _ _ b) as [[result b1]|] eqn:E1; [| discriminate].
    destruct (acquires rest b1) as [[m b2]|] eqn:E2; [| discriminate].
    injection Hrun as <- <-.
    unfold refill_times in Hmono. cbn [map concat] in Hmono.
    apply nondecreasing_app in Hmono as [Hm1 Hm2].
    destruct (acquire_loop_spec _ _ _ _ _ Hok Hm1 E1)
      as (Hok1 & Hc1 & Hr1 & Hl1 & Hin & Ht1).
    specialize (Hm2 _ (or_intror Hin)).
    destruct (IH b1 m b2 Hok1 Hm2 E2) as (Hok2 & Hc2 & Hr2 & Hl2 & Ht2).
    rewrite Hc1 in Hc2. rewrite Hr1 in Hr2, Ht2.
    split; [exact Hok2 |]. split; [exact Hc2 |]. split; [exact Hr2 |].
    split; [lra |].
    assert (Hn : (inject_Z (Z.of_nat match result with Ok true => S m | _ => m end)
                  == inject_Z (Z.of_nat m) + granted result)%Q).
    { destruct result as [[|]|e]; cbn [granted]; try ring.
      rewrite Nat2Z.inj_succ. unfold Z.succ. rewrite inject_Z_plus. ring. }
    rewrite Hn.
    assert (Heq : (TokenBucket.refill_rate b
                   * (TokenBucket._last_refill b2 - TokenBucket._last_refill b)
                   == TokenBucket.refill_rate b
                      * (TokenBucket._last_refill b2 - TokenBucket._last_refill b1)
                      + TokenBucket.refill_rate b
                        * (TokenBucket._last_refill b1 - TokenBucket._last_refill b))%Q)
      by ring.
    rewrite Heq.
    set (x := (TokenBucket.refill_rate b
               * (TokenBucket._last_refill b2 - TokenBucket._last_refill b1))%Q) in *.
    set (y := (TokenBucket.refill_rate b
               * (TokenBucket._last_refill b1 - TokenBucket._last_refill b))%Q) in *.
    clearbody x y. lra.
Qed.

(** X25. The bucket bounds the rate of sending.  Over any calls of
    [acquire] on a new bucket, with a clock that does not go back, the
    number of tokens granted is at most the capacity plus the refill
    rate times the time from the creation of the bucket to its last
    refill; the bucket never holds less than no token nor more than its
    capacity.  Calls that time out or raise grant nothing. *)
Theorem token_bucket_bounds_rate capacity refill_rate created calls n b :
  (0 <= capacity)%Q ->
  (0 <= refill_rate)%Q ->
  nondecreasing created (refill_times calls) ->
  acquires calls (TokenBucket.init capacity refill_rate created) = Some (n, b) ->
  (inject_Z (Z.of_nat n)
   <= capacity + refill_rate * (TokenBucket._last_refill b - created))%Q
  /\ (0 <= TokenBucket._tokens b)%Q
  /\ (TokenBucket._tokens b <= capacity)%Q
  /\ (created <= TokenBucket._last_refill b)%Q.
Proof.
  intros Hc Hr Hmono Hrun.
  assert (Hok : bucket_ok (TokenBucket.init capacity refill_rate created)).
  { unfold bucket_ok. simpl. repeat split; auto; lra. }
  destruct (acquires_spec _ _ _ _ Hok Hmono Hrun)
    as ((_ & _ & H0 & H1) & Hcap & _ & Hl & Ht).
  simpl in Hcap, Hl, Ht. rewrite Hcap in H1.
  repeat split; auto. lra.
Qed.

Lemma token_bucket_bounds_rate_witness :
  exists b,
    acquires burst_calls (TokenBucket.init 2 (1 # 60) 0) = Some (2%nat, b)
    /\ (inject_Z 2 <= 2 + (1 # 60) * (TokenBucket._last_refill b - 0))%Q.
Proof.
  destruct (acquires burst_calls (TokenBucket.init 2 (1 # 60) 0)) as [[n b]|] eqn:E;
    [| vm_compute in E; discriminate].
  assert (Hn : n = 2%nat) by (vm_compute in E; congruence).
  subst n. exists b. split; [reflexivity |].
  apply (token_bucket_bounds_rate 2 (1 # 60) 0 burst_calls 2 b);
    [vm_compute; discriminate | vm_compute; discriminate | | exact E].
  vm_compute. intuition discriminate.
Defined.

(** ** Waiting for a token *)

Lemma acquire_loop_returns readings deadline b :
  Exists (fun reading => (deadline <= reading.2)%Q) readings ->
  is_Some (TokenBucket.acquire_loop readings deadline b).
Proof.
  intros H. revert b. induction H as [[now checked] rest Hd | [now checked] rest _ IH];
    intros b; cbn [TokenBucket.acquire_loop].
  - destruct (Qle_bool 1 _); [eexists; reflexivity |].
    assert (Hout : Qle_bool (deadline - checked) 0 = true)
      by (apply Qle_bool_iff; simpl in Hd; lra).
    rewrite Hout. eexists; reflexivity.
  - destruct (Qle_bool 1 _); [eexists; reflexivity |].
    destruct (Qle_bool (deadline - checked) 0); [eexists; reflexivity |].
    destruct (Qeq_bool _ 0); [eexists; reflexivity |].
    destruct (Qle_bool 0 _); [apply IH | eexists; reflexivity].
Qed.

Lemma acquire_loop_result readings deadline b result b' :
  TokenBucket.acquire_loop readings deadline b = Some (result, b') ->
  TokenBucket.refill_rate b' = TokenBucket.refill_rate b
  /\ match result with
     | Ok true =>
         exists b0, b' = TokenBucket.take b0 /\ (1 <= TokenBucket._tokens b0)%Q
     | Ok false =>
         (TokenBucket._tokens b' < 1)%Q
         /\ exists reading, In reading readings /\ (deadline <= reading.2)%Q
     | Err e =>
         (TokenBucket._tokens b' < 1)%Q
         /\ (exists reading, In reading readings /\ (reading.2 < deadline)%Q)
         /\ ((e = "ZeroDivisionError" /\ (TokenBucket.refill_rate b == 0)%Q)
             \/ (e = "RuntimeError" /\ (TokenBucket.refill_rate b < 0)%Q))
     end.
Proof.
  revert b. induction readings as [|[now checked] rest IH]; intros b Hrun;
    [discriminate |].
  cbn [TokenBucket.acquire_loop] in Hrun.
  destruct (Qle_bool 1 (TokenBucket._tokens (TokenBucket._refill now b))) eqn:Eone.
  { injection Hrun as <- <-. split; [reflexivity |].
    exists (TokenBucket._refill now b). split; [reflexivity |].
    apply Qle_bool_iff, Eone. }
  apply Qle_bool_false in Eone.
  destruct (Qle_bool (deadline - checked) 0) eqn:Eout.
  { injection Hrun as <- <-. split; [reflexivity |]. split; [exact Eone |].
    exists (now, checked). split; [left; reflexivity |].
    apply Qle_bool_iff in Eout. simpl. lra. }
  apply Qle_bool_false in Eout.
  destruct (Qeq_bool (TokenBucket.refill_rate (TokenBucket._refill now b)) 0) eqn:Ezero.
  { injection Hrun as <- <-. split; [reflexivity |]. split; [exact Eone |].
    split; [exists (now, checked); split; [left; reflexivity | simpl; lra] |].
    left. split; [reflexivity |]. apply Qeq_bool_iff, Ezero. }
  destruct (Qle_bool 0 (TokenBucket.refill_rate (TokenBucket._refill now b))) eqn:Esign.
  2:{ injection Hrun as <- <-. split; [reflexivity |]. split; [exact Eone |].
      split; [exists (now, checked); split; [left; reflexivity | simpl; lra] |].
      right. split; [reflexivity |]. apply Qle_bool_false in Esign. exact Esign. }
  destruct (IH _ Hrun) as [Hr Hres]. split; [exact Hr |].
  destruct result as [[|]|e].
  - exact Hres.
  - destruct Hres as (Ht & reading & Hin & Hd). split; [exact Ht |].
    exists reading. split; [right; exact Hin | exact Hd].
  - destruct Hres as (Ht & (reading & Hin & Hd) & Hwhy).
    split; [exact Ht |]. split; [exists reading; split; [right; exact Hin | exact Hd] |].
    exact Hwhy.
Qed.

(** A bucket without a token whose rate is negative: the first turn with
    time remaining raises. *)
Lemma acquire_loop_negative_rate now checked rest deadline b :
  (TokenBucket._tokens (TokenBucket._refill now b) < 1)%Q ->
  (checked < deadline)%Q ->
  (TokenBucket.refill_rate b < 0)%Q ->
  TokenBucket.acquire_loop ((now, checked) :: rest) deadline b
  = Some (Err "RuntimeError", TokenBucket._refill now b).
Proof.
  intros Htok Htime Hneg. cbn [TokenBucket.acquire_loop].
  apply Qle_bool_false in Htok. rewrite Htok.
  assert (Hout : Qle_bool (deadline - checked) 0 = false)
    by (apply Qle_bool_false; lra).
  rewrite Hout.
  assert (Hz : Qeq_bool (TokenBucket.refill_rate (TokenBucket._refill now b)) 0 = false).
  { destruct (Qeq_bool _ 0) eqn:E; [| reflexivity].
    apply Qeq_bool_iff in E. simpl in E. lra. }
  rewrite Hz.
  assert (Hs : Qle_bool 0 (TokenBucket.refill_rate (TokenBucket._refill now b)) = false)
    by (apply Qle_bool_false; simpl; exact Hneg).
  rewrite Hs. reflexivity.
Qed.

(** X26. [acquire] waits for a token until its deadline, no longer.  With
    a token in the bucket at the first refill it grants at once.  It
    returns at the latest in the turn whose check of the clock is at or
    after the deadline.  It answers yes only by taking a token that was
    there, and no only when less than one token is left and the deadline
    has passed.  It raises only with less than one token and time
    remaining, and then [ZeroDivisionError] on a refill rate of zero and
    [RuntimeError] on a negative one (the sleep of a negative time fails
    with the lock released); on a negative rate it does raise, in the
    first turn without a token and with time remaining.  With a positive
    rate it never raises. *)
Theorem acquire_waits_until_deadline timeout started readings b :
  let deadline := (started + timeout)%Q in
  (forall now checked rest,
     readings = (now, checked) :: rest ->
     (1 <= TokenBucket._tokens (TokenBucket._refill now b))%Q ->
     TokenBucket.acquire timeout started readings b
     = Some (Ok true, TokenBucket.take (TokenBucket._refill now b)))
  /\ (Exists (fun reading => (deadline <= reading.2)%Q) readings ->
      is_Some (TokenBucket.acquire timeout started readings b))
  /\ (forall b',
        TokenBucket.acquire timeout started readings b = Some (Ok true, b') ->
        exists b0, b' = TokenBucket.take b0 /\ (1 <= TokenBucket._tokens b0)%Q)
  /\ (forall b',
        TokenBucket.acquire timeout started readings b = Some (Ok false, b') ->
        (TokenBucket._tokens b' < 1)%Q
        /\ exists reading, In reading readings /\ (deadline <= reading.2)%Q)
  /\ (forall e b',
        TokenBucket.acquire timeout started readings b = Some (Err e, b') ->
        (TokenBucket._tokens b' < 1)%Q
        /\ (exists reading, In reading readings /\ (reading.2 < deadline)%Q)
        /\ ((e = "ZeroDivisionError" /\ (TokenBucket.refill_rate b == 0)%Q)
            \/ (e = "RuntimeError" /\ (TokenBucket.refill_rate b < 0)%Q)))
  /\ (forall now checked rest,
        readings = (now, checked) :: rest ->
        (TokenBucket._tokens (TokenBucket._refill now b) < 1)%Q ->
        (checked < deadline)%Q ->
        (TokenBucket.refill_rate b < 0)%Q ->
        TokenBucket.acquire timeout started readings b
        = Some (Err "RuntimeError", TokenBucket._refill now b))
  /\ ((0 < TokenBucket.refill_rate b)%Q ->
      forall e b',
        TokenBucket.acquire timeout started readings b <> Some (Err e, b')).
Proof.
  cbv zeta. unfold TokenBucket.acquire.
  split; [| split; [| split; [| split; [| split; [| split]]]]].
  - intros now checked rest -> Hone. cbn [TokenBucket.acquire_loop].
    apply Qle_bool_iff in Hone. rewrite Hone. reflexivity.
  - apply acquire_loop_returns.
  - intros b' Hrun. apply (acquire_loop_result _ _ _ _ _ Hrun).
  - intros b' Hrun. apply (acquire_loop_result _ _ _ _ _ Hrun).
  - intros e b' Hrun. apply (acquire_loop_result _ _ _ _ _ Hrun).
  - intros now checked rest -> Htok Htime Hneg.
    apply acquire_loop_negative_rate; assumption.
  - intros Hpos e b' Hrun.
    destruct (acquire_loop_result _ _ _ _ _ Hrun) as (_ & _ & _ & [[_ Hz] | [_ Hn]]); lra.
Qed.

(** ** The limiter of the two channels *)

Lemma empty_bucket_stays_empty now created :
  let b := TokenBucket._refill now (TokenBucket.init (inject_Z 0) (inject_Z 0 / 3600) created) in
  Qle_bool 1 (TokenBucket._tokens b) = false
  /\ Qeq_bool (TokenBucket.refill_rate b) 0 = true.
Proof.
  cbv zeta. split; [| reflexivity].
  apply Qle_bool_false. cbn [TokenBucket._refill TokenBucket.init TokenBucket._tokens
                              TokenBucket.capacity TokenBucket.refill_rate
                              TokenBucket._last_refill].
  destruct (min_float_spec (inject_Z 0)
              (inject_Z 0 + (now - created) * (inject_Z 0 / 3600))%Q) as (H & _).
  change (inject_Z 0) with 0%Q in *. lra.
Qed.

(** X27. The limiter of the sender.  A channel without a bucket is never
    held back: the call answers yes at once and changes nothing.  The
    name of the channel is taken without regard to case.  A call for one
    channel leaves the bucket of the other alone.  With a limit of zero
    messages an hour for Gmail, a call that still has time left raises
    [ZeroDivisionError]; it answers no only with a timeout that has
    already passed at its first check. *)
Theorem rate_limiter_channels channel timeout started readings rl :
  (RateLimiter._buckets rl !! lower channel = None ->
   RateLimiter.acquire channel timeout started readings rl = Some (Ok true, rl))
  /\ (forall other,
        lower other = lower channel ->
        RateLimiter.acquire other timeout started readings rl
        = RateLimiter.acquire channel timeout started readings rl)
  /\ (forall result rl' other,
        RateLimiter.acquire channel timeout started readings rl = Some (result, rl') ->
        other <> lower channel ->
        RateLimiter._buckets rl' !! other = RateLimiter._buckets rl !! other)
  /\ (forall linkedin_per_hour created created' now checked rest,
        RateLimiter.acquire "Gmail" timeout started ((now, checked) :: rest)
          (RateLimiter.init 0 linkedin_per_hour created created')
        = Some (if Qle_bool (started + timeout - checked) 0
                then Ok false else Err "ZeroDivisionError",
                RateLimiter.mk
                  (<["gmail" := TokenBucket._refill now
                                  (TokenBucket.init (inject_Z 0) (inject_Z 0 / 3600)
                                     created)]>
                     (RateLimiter._buckets
                        (RateLimiter.init 0 linkedin_per_hour created created'))))).
Proof.
  split; [| split; [| split]].
  - intros Hnone. unfold RateLimiter.acquire. rewrite Hnone. reflexivity.
  - intros other Hsame. unfold RateLimiter.acquire. rewrite Hsame. reflexivity.
  - intros result rl' other Hrun Hne. unfold RateLimiter.acquire in Hrun.
    destruct (RateLimiter._buckets rl !! lower channel) as [bucket|].
    + destruct (TokenBucket.acquire _ _ _ bucket) as [[r b']|]; [| discriminate].
      injection Hrun as <- <-. simpl. apply lookup_insert_ne. congruence.
    + injection Hrun as <- <-. reflexivity.
  - intros linkedin_per_hour created created' now checked rest.
    unfold RateLimiter.acquire.
    change (lower "Gmail") with "gmail".
    unfold RateLimiter.init at 1. cbn [RateLimiter._buckets].
    rewrite lookup_insert_eq.
    unfold TokenBucket.acquire. cbn [TokenBucket.acquire_loop].
    destruct (empty_bucket_stays_empty now created) as [-> ->].
    destruct (Qle_bool (started + timeout - checked) 0); reflexivity.
Qed.

(** ** Connection requests *)

(** One turn of the loop. *)
Lemma process_requests_step_spec self stats st req :
  let out := process_requests_step self (stats, st) req in
  ConnectionStats.total out.1 = ConnectionStats.total stats
  /\ (ConnectionStats.accepted out.1 + ConnectionStats.rejected out.1
      + ConnectionStats.errors out.1
      = ConnectionStats.accepted stats + ConnectionStats.rejected stats
        + ConnectionStats.errors stats + 1)%Z
  /\ (ConnectionStats.accepted stats <= ConnectionStats.accepted out.1)%Z
  /\ (ConnectionStats.rejected stats <= ConnectionStats.rejected out.1)%Z
  /\ (ConnectionStats.errors stats <= ConnectionStats.errors out.1)%Z
  /\ cs_unipile out.2 = cs_unipile st ++ decided self req
  /\ messages_table (cs_crm out.2) = messages_table (cs_crm st)
  /\ (ConnectionRequestHandler.auto_accept self = false ->
      ConnectionStats.accepted out.1 = ConnectionStats.accepted stats
      /\ contacts_table (cs_crm out.2) = contacts_table (cs_crm st)).
Proof.
  cbv zeta. unfold process_requests_step, _process_single_request, decided.
  destruct (ConnectionRequestHandler.evaluator self req) as [evaluation | e].
  2:{ simpl. rewrite app_nil_r. repeat split; auto; lia. }
  destruct (ConnectionEvaluation.accept evaluation) eqn:Eaccept; simpl.
  - destruct (ConnectionRequestHandler.auto_accept self) eqn:Eauto; simpl.
    + destruct (Qle_bool _ _); simpl.
      * destruct (ConnectionRequestHandler.accept_request self _).
        -- destruct (upsert_contact _ (cs_crm st)) as [contact c1] eqn:Eup. simpl.
           pose proof (messages_table_upsert_contact
                         (connection_contact req evaluation) (cs_crm st)) as Hm.
           rewrite Eup in Hm. simpl in Hm.
           repeat split; auto; try lia; discriminate.
        -- simpl. repeat split; auto; try lia; discriminate.
      * destruct (ConnectionRequestHandler.accept_request self _); simpl;
          repeat split; auto; try lia; discriminate.
    + destruct (ConnectionRequestHandler.accept_request self _); simpl;
        repeat split; auto; lia.
  - destruct (ConnectionRequestHandler.reject_request self _); simpl;
      repeat split; auto; lia.
Qed.

Lemma process_requests_fold self requests stats st :
  let out := foldl (process_requests_step self) (stats, st) requests in
  ConnectionStats.total out.1 = ConnectionStats.total stats
  /\ (ConnectionStats.accepted out.1 + ConnectionStats.rejected out.1
      + ConnectionStats.errors out.1
      = ConnectionStats.accepted stats + ConnectionStats.rejected stats
        + ConnectionStats.errors stats + Z.of_nat (length requests))%Z
  /\ (ConnectionStats.accepted stats <= ConnectionStats.accepted out.1)%Z
  /\ (ConnectionStats.rejected stats <= ConnectionStats.rejected out.1)%Z
  /\ (ConnectionStats.errors stats <= ConnectionStats.errors out.1)%Z
  /\ cs_unipile out.2 = cs_unipile st ++ flat_map (decided self) requests
  /\ messages_table (cs_crm out.2) = messages_table (cs_crm st)
  /\ (ConnectionRequestHandler.auto_accept self = false ->
      ConnectionStats.accepted out.1 = ConnectionStats.accepted stats
      /\ contacts_table (cs_crm out.2) = contacts_table (cs_crm st)).
Proof.
  revert stats st. induction requests as [|req requests IH]; intros stats st.
  - simpl. rewrite app_nil_r. repeat split; auto; lia.
  - cbn [foldl flat_map length].
    pose proof (process_requests_step_spec self stats st req) as Hstep.
    destruct (process_requests_step self (stats, st) req) as [stats1 st1].
    cbv zeta in Hstep. simpl in Hstep.
    destruct Hstep as (Ht & Hsum & Ha & Hr & He & Hu & Hm & Hoff).
    specialize (IH stats1 st1). cbv zeta in IH.
    destruct IH as (Ht' & Hsum' & Ha' & Hr' & He' & Hu' & Hm' & Hoff').
    split; [congruence |]. split; [lia |]. split; [lia |]. split; [lia |].
    split; [lia |]. split; [rewrite Hu', Hu, <- app_assoc; reflexivity |].
    split; [congruence |].
    intros Hauto. destruct (Hoff Hauto) as [H1 H2], (Hoff' Hauto) as [H3 H4].
    split; congruence.
Qed.

(** X28. Which requests are accepted follows the evaluation alone.  When
    the list of pending requests cannot be fetched, nothing is done and
    all counters are zero.  Otherwise every request is counted once, as
    accepted, rejected or error; and the calls made to Unipile are, in
    the order of the list, an acceptance for every request that the
    evaluator says to accept and a rejection for every other one (none
    when the evaluator raises): they depend neither on [auto_accept] nor
    on [min_icp_confidence].  With [auto_accept] off no request is
    counted as accepted and no contact is written, yet the same requests
    are accepted.  The Messages table is never touched. *)
Theorem connection_requests_follow_evaluation self st :
  let out := process_requests self st in
  (forall e,
     ConnectionRequestHandler.fetch_pending_requests self = Err e ->
     out = (ConnectionStats.mk 0 0 0 0, st))
  /\ (forall requests,
        ConnectionRequestHandler.fetch_pending_requests self = Ok requests ->
        ConnectionStats.total out.1 = Z.of_nat (length requests)
        /\ (ConnectionStats.accepted out.1 + ConnectionStats.rejected out.1
            + ConnectionStats.errors out.1 = ConnectionStats.total out.1)%Z
        /\ (0 <= ConnectionStats.accepted out.1)%Z
        /\ (0 <= ConnectionStats.rejected out.1)%Z
        /\ (0 <= ConnectionStats.errors out.1)%Z
        /\ cs_unipile out.2 = cs_unipile st ++ flat_map (decided self) requests
        /\ (forall auto_accept min_icp_confidence,
              cs_unipile
                (process_requests (with_settings auto_accept min_icp_confidence self) st).2
              = cs_unipile out.2)
        /\ messages_table (cs_crm out.2) = messages_table (cs_crm st)
        /\ (ConnectionRequestHandler.auto_accept self = false ->
            ConnectionStats.accepted out.1 = 0%Z
            /\ contacts_table (cs_crm out.2) = contacts_table (cs_crm st))).
Proof.
  cbv zeta. split.
  { intros e He. unfold process_requests. rewrite He. reflexivity. }
  intros requests Hfetch.
  assert (Hrun : forall self',
            ConnectionRequestHandler.fetch_pending_requests self' = Ok requests ->
            process_requests self' st
            = foldl (process_requests_step self')
                (ConnectionStats.mk (Z.of_nat (length requests)) 0 0 0, st) requests).
  { intros self' H. unfold process_requests. rewrite H.
    destruct requests; reflexivity. }
  rewrite (Hrun self Hfetch).
  pose proof (process_requests_fold self requests
                (ConnectionStats.mk (Z.of_nat (length requests)) 0 0 0) st) as Hfold.
  cbv zeta in Hfold. simpl in Hfold.
  destruct Hfold as (Ht & Hsum & Ha & Hr & He & Hu & Hm & Hoff).
  split; [exact Ht |]. split; [lia |]. split; [lia |]. split; [lia |].
  split; [lia |]. split; [exact Hu |]. split; [| split; [exact Hm |]].
  - intros auto_accept min_icp_confidence.
    rewrite (Hrun (with_settings auto_accept min_icp_confidence self) Hfetch).
    pose proof (process_requests_fold (with_settings auto_accept min_icp_confidence self)
                  requests (ConnectionStats.mk (Z.of_nat (length requests)) 0 0 0) st)
      as Hfold'.
    cbv zeta in Hfold'. destruct Hfold' as (_ & _ & _ & _ & _ & Hu' & _).
    rewrite Hu', Hu. reflexivity.
  - intros Hauto. destruct (Hoff Hauto) as [H1 H2]. split; [lia | exact H2].
Qed.

(** ** Merging enrichment data *)

(** The loop of [_merge], key by key. *)
Lemma merge_loop_lookup (start new_data : gmap string JValue) key :
  map_fold _merge_step start new_data !! key
  = if String.eqb key "_sources" then start !! key
    else first_truthy (start !! key) (new_data !! key).
Proof.
  revert key.
  apply (map_fold_weak_ind
           (fun r (m : gmap string JValue) =>
              forall key,
                r !! key = if String.eqb key "_sources" then start !! key
                           else first_truthy (start !! key) (m !! key))).
  - intros key. rewrite lookup_empty.
    destruct (String.eqb key "_sources"); [reflexivity |].
    unfold first_truthy. destruct (start !! key) as [v|]; [| reflexivity].
    destruct (jtruthy v); reflexivity.
  - intros i x m r Hnone IH key. unfold _merge_step.
    destruct (String.eqb_spec i "_sources") as [-> | Hi].
    + rewrite IH. destruct (String.eqb_spec key "_sources") as [-> | Hk];
        [reflexivity |].
      rewrite lookup_insert_ne by congruence. reflexivity.
    + destruct (decide (key = i)) as [-> | Hne].
      * destruct (String.eqb_spec i "_sources") as [? | _]; [contradiction |].
        rewrite lookup_insert_eq.
        pose proof (IH i) as Hr.
        destruct (String.eqb_spec i "_sources") as [? | _]; [contradiction |].
        rewrite Hnone in Hr. unfold jtruthy_get. rewrite Hr.
        destruct (start !! i) as [v|]; simpl in *.
        -- destruct (jtruthy v) eqn:Ev; simpl; rewrite ?Ev; simpl.
           ++ rewrite Hr. reflexivity.
           ++ destruct (jtruthy x) eqn:Ex; simpl.
              ** apply lookup_insert_eq.
              ** exact Hr.
        -- destruct (jtruthy x) eqn:Ex; simpl.
           ++ apply lookup_insert_eq.
           ++ exact Hr.
      * rewrite (lookup_insert_ne m) by congruence.
        destruct (negb _ && jtruthy x).
        -- rewrite lookup_insert_ne by congruence. apply IH.
        -- apply IH.
Qed.

Lemma merge_ok existing new_data source sources :
  sources_of existing = Some sources ->
  let sources' := if nonempty source then sources ++ [source] else sources in
  exists merged,
    _merge existing new_data source = Ok merged
    /\ merged !! "_sources" = Some (JList sources')
    /\ (forall key, key <> "_sources" ->
          merged !! key = first_truthy (existing !! key) (new_data !! key)).
Proof.
  intros Hs. cbv zeta. unfold _merge, sources_of in *.
  assert (Hrest : forall v key, key <> "_sources" ->
            map_fold _merge_step (<["_sources" := v]> existing) new_data !! key
            = first_truthy (existing !! key) (new_data !! key)).
  { intros v key Hk. rewrite merge_loop_lookup.
    destruct (String.eqb_spec key "_sources"); [contradiction |].
    rewrite lookup_insert_ne by congruence. reflexivity. }
  assert (Hsrc : forall v,
            map_fold _merge_step (<["_sources" := v]> existing) new_data !! "_sources"
            = Some v).
  { intros v. rewrite merge_loop_lookup. simpl. apply lookup_insert_eq. }
  destruct (existing !! "_sources") as [[| | | |l|]|]; try discriminate;
    injection Hs as <-; simpl; destruct (nonempty source);
    eexists; (split; [reflexivity |]); rewrite Hsrc; (split; [reflexivity |]);
    apply Hrest.
Qed.

Lemma first_truthy_keeps old new v :
  old = Some v -> jtruthy v = true -> first_truthy old new = Some v.
Proof. intros -> Hv. simpl. rewrite Hv. reflexivity. Qed.

(** X29. Enrichment data are merged without overwriting.  On a dict
    whose [_sources] is a list or missing, [_merge] returns a dict in
    which every key of the old dict is still there, a value that counts
    as true keeps its place whatever the new data say, and a key that was
    missing or held a value that counts as false gets the value of the
    new data when that one counts as true; the name of the source is put
    at the end of [_sources], and a [_sources] entry of the new data is
    ignored.  So over two merges the source merged first wins.  On a
    [_sources] that is not a list, a merge with a source name raises. *)
Theorem enrichment_merge_keeps_first existing new_data source sources :
  sources_of existing = Some sources ->
  exists merged,
    _merge existing new_data source = Ok merged
    /\ sources_of merged = Some (if nonempty source then sources ++ [source] else sources)
    /\ (forall key, is_Some (existing !! key) -> is_Some (merged !! key))
    /\ (forall key v, key <> "_sources" ->
          existing !! key = Some v -> jtruthy v = true -> merged !! key = Some v)
    /\ (forall key v, key <> "_sources" ->
          jtruthy_get existing key = false ->
          new_data !! key = Some v -> jtruthy v = true -> merged !! key = Some v)
    /\ (forall key, key <> "_sources" ->
          jtruthy_get existing key = false -> jtruthy_get new_data key = false ->
          merged !! key = existing !! key)
    /\ (forall later source',
          exists merged',
            _merge merged later source' = Ok merged'
            /\ forall key v, key <> "_sources" ->
                 merged !! key = Some v -> jtruthy v = true -> merged' !! key = Some v)
    /\ (forall broken,
          sources_of broken = None -> source <> "" ->
          _merge broken new_data source = Err "AttributeError").
Proof.
  intros Hs. destruct (merge_ok existing new_data source sources Hs)
    as (merged & Hrun & Hlist & Hkeys).
  assert (Hsrc : sources_of merged
                 = Some (if nonempty source then sources ++ [source] else sources))
    by (unfold sources_of; rewrite Hlist; reflexivity).
  exists merged. split; [exact Hrun |]. split; [exact Hsrc |].
  split; [| split; [| split; [| split; [| split]]]].
  - intros key [v Hv]. destruct (decide (key = "_sources")) as [-> | Hk].
    + rewrite Hlist. eexists; reflexivity.
    + rewrite (Hkeys key Hk), Hv. simpl. destruct (jtruthy v); [eauto |].
      destruct (new_data !! key) as [n|]; [destruct (jtruthy n) |]; eauto.
  - intros key v Hk Hv Ht. rewrite (Hkeys key Hk). apply first_truthy_keeps; assumption.
  - intros key v Hk Hold Hnew Ht. rewrite (Hkeys key Hk), Hnew.
    unfold jtruthy_get in Hold. unfold first_truthy.
    destruct (existing !! key) as [o|]; [rewrite Hold |]; rewrite Ht; reflexivity.
  - intros key Hk Hold Hnew. rewrite (Hkeys key Hk).
    unfold jtruthy_get in Hold, Hnew. unfold first_truthy.
    destruct (existing !! key) as [o|]; [rewrite Hold |];
      (destruct (new_data !! key) as [n|]; [rewrite Hnew |]); reflexivity.
  - intros later source'.
    destruct (merge_ok merged later source' _ Hsrc) as (merged' & Hrun' & _ & Hkeys').
    exists merged'. split; [exact Hrun' |].
    intros key v Hk Hv Ht. rewrite (Hkeys' key Hk).
    apply first_truthy_keeps; assumption.
  - intros broken Hb Hne. unfold _merge, sources_of in *.
    assert (Hn : nonempty source = true).
    { unfold nonempty. destruct (String.eqb_spec source ""); [contradiction | reflexivity]. }
    rewrite Hn.
    destruct (broken !! "_sources") as [[| | | |l|]|]; try discriminate; reflexivity.
Qed.

Lemma enrichment_merge_keeps_first_witness :
  let existing : gmap string JValue :=
    <["title" := JStr "CEO"]> (<["company" := JStr ""]> ∅) in
  let new_data : gmap string JValue :=
    <["title" := JStr "Founder"]> (<["company" := JStr "Acme"]> ∅) in
  exists merged,
    _merge existing new_data "apollo" = Ok merged
    /\ merged !! "title" = Some (JStr "CEO")
    /\ merged !! "company" = Some (JStr "Acme")
    /\ sources_of merged = Some ["apollo"].
Proof.
  intros existing new_data.
  destruct (enrichment_merge_keeps_first existing new_data "apollo" [] eq_refl)
    as (merged & Hrun & Hsrc & _ & Hkeep & Hfill & _).
  exists merged. split; [exact Hrun |]. split; [| split; [| exact Hsrc]].
  - apply (Hkeep "title" (JStr "CEO")); [discriminate | reflexivity | reflexivity].
  - apply (Hfill "company" (JStr "Acme"));
      [discriminate | reflexivity | reflexivity | reflexivity].
Defined.

(** ** The body of a Gmail message *)

Lemma pop_nil {A : Type} : pop (@nil A) = None.
Proof. reflexivity. Qed.

Lemma pop_snoc {A : Type} (l : list A) x : pop (l ++ [x]) = Some (x, l).
Proof. unfold pop. rewrite last_snoc, removelast_last. reflexivity. Qed.

Lemma visit_part_eq p : visit_part p = p :: visit (parts p).
Proof. destruct p. reflexivity. Qed.

Lemma part_size_eq p : part_size p = S (stack_size (parts p)).
Proof. destruct p. reflexivity. Qed.

Lemma visit_cons x l : visit (x :: l) = visit l ++ visit_part x.
Proof. reflexivity. Qed.

Lemma stack_size_cons x l : stack_size (x :: l) = (part_size x + stack_size l)%nat.
Proof. reflexivity. Qed.

Lemma visit_app a b : visit (a ++ b) = visit b ++ visit a.
Proof.
  induction a as [|x a IH]; [simpl; rewrite app_nil_r; reflexivity |].
  rewrite <- app_comm_cons, !visit_cons, IH, app_assoc. reflexivity.
Qed.

Lemma stack_size_app a b : stack_size (a ++ b) = (stack_size a + stack_size b)%nat.
Proof.
  induction a as [|x a IH]; [reflexivity |].
  rewrite <- app_comm_cons, !stack_size_cons, IH. lia.
Qed.

(** The loop on a stack is the scan of the parts in the order of the
    visit, when the fuel covers the parts of the stack. *)
Lemma walk_scan _decode fuel stack found :
  stack_size stack <= fuel ->
  walk _decode fuel stack found = Some (scan _decode (visit stack) found).
Proof.
  revert stack found. induction fuel as [|fuel IH]; intros stack found Hfuel.
  - destruct stack as [|x l]; [reflexivity |].
    rewrite stack_size_cons, part_size_eq in Hfuel. lia.
  - destruct stack as [|part rest _] using rev_ind; [reflexivity |].
    cbn [walk]. rewrite pop_snoc.
    rewrite visit_app. change (visit [part]) with (visit_part part).
    rewrite visit_part_eq. cbn [scan app].
    destruct (scan_part _decode part found) as [found' | e]; [| reflexivity].
    rewrite IH.
    + rewrite visit_app. reflexivity.
    + rewrite stack_size_app in *. cbn [stack_size] in Hfuel.
      rewrite part_size_eq in Hfuel. fold (stack_size (parts part)) in *. lia.
Qed.

(** The scan when every text decodes: the first part of each kind in
    the order of the visit is taken, unless one was found before. *)
Lemma scan_total _decode d order plain html :
  (forall s, _decode s = Ok (d s)) ->
  let first mime (found : option string) :=
    match found with
    | Some _ => found
    | None => (fun p => d (or_empty (body_data p))) <$> List.find (has_data mime) order
    end in
  scan _decode order (plain, html)
  = Ok (first "text/plain" plain, first "text/html" html).
Proof.
  intros Hd. cbv zeta. revert plain html.
  induction order as [|p order IH]; intros plain html.
  - simpl. destruct plain, html; reflexivity.
  - cbn [scan List.find]. unfold scan_part, has_data in *.
    destruct (truthy (body_data p)) eqn:Et; cbn [andb].
    2:{ rewrite IH. reflexivity. }
    destruct (String.eqb_spec (mimeType p) "text/plain") as [Hp | Hp]; cbn [andb].
    + assert (Hh : String.eqb (mimeType p) "text/html" = false)
        by (rewrite Hp; reflexivity).
      rewrite Hh. destruct plain as [s|]; cbn [negb andb].
      * rewrite bool_decide_true by eauto. cbn [negb]. rewrite IH. reflexivity.
      * rewrite bool_decide_false by (intros [? ?]; discriminate). cbn [negb].
        rewrite Hd, IH. reflexivity.
    + destruct (String.eqb_spec (mimeType p) "text/html") as [Hh | Hh]; cbn [andb].
      * destruct html as [s|].
        -- rewrite bool_decide_true by eauto. cbn [negb]. rewrite IH. reflexivity.
        -- rewrite bool_decide_false by (intros [? ?]; discriminate). cbn [negb].
           rewrite Hd, IH. reflexivity.
      * rewrite IH. reflexivity.
Qed.

Lemma visit_flat l : Forall (fun p => parts p = []) l -> visit l = rev l.
Proof.
  induction 1 as [|p l Hp _ IH]; [reflexivity |].
  rewrite visit_cons, IH, visit_part_eq, Hp. reflexivity.
Qed.

(** X30. Which text [_extract_body] returns.  The walk over the parts
    ends, whatever the payload.  A payload that is itself text/plain
    with data gives its own text.  Otherwise the parts are met from the
    last to the first, a part before its own parts, and, when every text
    decodes, the result is the text of the first text/plain part with
    data that is met; without one, of the first text/html part with data
    that is met; without one, the data of the payload, or the empty
    text.  For parts that have no parts of their own the order is the
    list of the parts reversed: of two text/plain parts the later one
    is returned. *)
Theorem extract_body_order _decode payload :
  exists result,
    (forall fuel,
       stack_size (parts payload) <= fuel ->
       _extract_body _decode fuel payload = Some result)
    /\ (has_data "text/plain" payload = true ->
        result = _decode (or_empty (body_data payload)))
    /\ (forall d,
          (forall s, _decode s = Ok (d s)) ->
          has_data "text/plain" payload = false ->
          let order := visit (parts payload) in
          let text p := d (or_empty (body_data p)) in
          result
          = Ok match List.find (has_data "text/plain") order with
               | Some p => text p
               | None =>
                   match List.find (has_data "text/html") order with
                   | Some p => text p
                   | None => if truthy (body_data payload) then text payload else ""
                   end
               end)
    /\ (Forall (fun p => parts p = []) (parts payload) ->
        visit (parts payload) = rev (parts payload)).
Proof.
  set (walked := scan _decode (visit (parts payload)) (None, None)).
  set (result :=
         if has_data "text/plain" payload
         then _decode (or_empty (body_data payload))
         else match walked with
              | Err e => Err e
              | Ok (Some plain, _) => Ok plain
              | Ok (None, Some html) => Ok html
              | Ok (None, None) =>
                  if truthy (body_data payload)
                  then _decode (or_empty (body_data payload)) else Ok ""
              end).
  exists result. split; [| split; [| split]].
  - intros fuel Hfuel. unfold _extract_body, result, has_data. cbv zeta.
    destruct (truthy (body_data payload) && String.eqb (mimeType payload) "text/plain");
      [reflexivity |].
    rewrite (walk_scan _decode fuel (parts payload) (None, None) Hfuel).
    fold walked. destruct walked as [[[plain|] [html|]] | e]; try reflexivity.
    destruct (truthy (body_data payload)); reflexivity.
  - intros Hp. unfold result. rewrite Hp. reflexivity.
  - intros d Hd Hp. cbv zeta. unfold result. rewrite Hp. unfold walked.
    rewrite (scan_total _decode d _ None None Hd).
    destruct (List.find (has_data "text/plain") (visit (parts payload))) as [p|];
      [reflexivity |].
    destruct (List.find (has_data "text/html") (visit (parts payload))) as [p|];
      [reflexivity |].
    cbn [fmap option_fmap option_map]. rewrite Hd.
    destruct (truthy (body_data payload)); reflexivity.
  - apply visit_flat.
Qed.

Lemma extract_body_order_witness :
  _extract_body (fun s => Ok s) 4 alternative_with_attachment = Some (Ok "attachment").
Proof.
  destruct (extract_body_order (fun s => Ok s) alternative_with_attachment)
    as (result & Hrun & _ & Htext & _).
  rewrite (Hrun 4%nat) by (vm_compute; lia).
  rewrite (Htext (fun s => s)) by reflexivity. reflexivity.
Defined.
